(** * Deep-dive research jobs: a shallow embedding of the state machine

    The development follows the TypeScript sources of the deep-dive
    subsystem: [lib/utils], [types], [services/deepDive/validators],
    [services/deepDive/synthesize], [services/deepDive/discover],
    [services/deepDive/fetchExtract], [services/deepDive/publish],
    [services/deepDive/orchestrator] and [jobs/scheduleDeepDives].

    Asynchronous functions become computations in a small state and
    exception monad over a [World] that holds the database tables; what
    the outside world answers (clock, HTTP, the generation service, a
    failing database call) is read from an [Env] record of oracles, so
    that every theorem quantifies over all behaviours of the environment. *)

From Stdlib Require Import List NArith ZArith Lia Bool Arith PeanoNat.
From Stdlib Require Import Ascii String.
Import ListNotations.

Set Implicit Arguments.

(* ===================================================================== *)
(** * JavaScript strings                                                  *)
(* ===================================================================== *)

(** A JavaScript string is a sequence of UTF-16 code units; [length],
    [slice], [lastIndexOf] and the regular expressions of the sources all
    count code units. *)
Definition jsstring := list N.

(** ASCII literals of the sources. *)
Definition lit (s : string) : jsstring :=
  map N_of_ascii (list_ascii_of_string s).

(** U+2014, the dash of the report templates. *)
Definition emDash : N := 8212%N.

Fixpoint str_eqb (a b : jsstring) : bool :=
  match a, b with
  | [], [] => true
  | x :: a', y :: b' => N.eqb x y && str_eqb a' b'
  | _, _ => false
  end.

(** [s.length] as a JavaScript number. *)
Definition jslen (s : jsstring) : Z := Z.of_nat (List.length s).

(** [s.startsWith(p)]. *)
Fixpoint startsWith (s p : jsstring) : bool :=
  match p, s with
  | [], _ => true
  | y :: p', x :: s' => N.eqb x y && startsWith s' p'
  | _ :: _, [] => false
  end.

(** [s.includes(p)]. *)
Fixpoint includes (s p : jsstring) : bool :=
  startsWith s p ||
  match s with
  | [] => false
  | _ :: s' => includes s' p
  end.

(** [s.slice(0, n)] on a string or an array, for a number [n]: a negative
    end counts from the end. *)
Definition slice0 {A} (s : list A) (n : Z) : list A :=
  if (n <? 0)%Z then firstn (List.length s - Z.to_nat (- n)) s
  else firstn (Z.to_nat n) s.

(** [s.lastIndexOf(c)] for a one-character needle: the index of the last
    occurrence, or -1. *)
Fixpoint lastIndexOf_from (i : Z) (s : jsstring) (c : N) (found : Z) : Z :=
  match s with
  | [] => found
  | x :: s' => lastIndexOf_from (i + 1) s' c (if N.eqb x c then i else found)
  end.

Definition lastIndexOf (s : jsstring) (c : N) : Z :=
  lastIndexOf_from 0 s c (-1).

(** Character classes of the regular expressions ([\s], [\w], [\d],
    [[A-Z]], [[a-z]]). [\s] and [trim] share the same set: ECMAScript
    white space and line terminators. *)
Definition isSpace (c : N) : bool :=
  ((9 <=? c) && (c <=? 13) || (c =? 32) || (c =? 160) || (c =? 5760)
   || (8192 <=? c) && (c <=? 8202) || (c =? 8232) || (c =? 8233)
   || (c =? 8239) || (c =? 8287) || (c =? 12288) || (c =? 65279))%N.

Definition isUpper (c : N) : bool := ((65 <=? c) && (c <=? 90))%N.
Definition isLower (c : N) : bool := ((97 <=? c) && (c <=? 122))%N.
Definition isDigit (c : N) : bool := ((48 <=? c) && (c <=? 57))%N.
Definition isWord (c : N) : bool :=
  isUpper c || isLower c || isDigit c || (c =? 95)%N.

(** [s.toLowerCase()] on texts of Basic Latin and Latin-1: the case
    mapping is applied to the letters of these two blocks. JavaScript also
    maps letters beyond U+00FF (the Kelvin sign to [k], for one); here such
    code units are left as they are, so a text that holds one is outside
    what the development says of lower-casing. *)
Definition lowerChar (c : N) : N :=
  if isUpper c then (c + 32)%N
  else if ((192 <=? c) && (c <=? 222) && negb (c =? 215))%N then (c + 32)%N
  else c.

Definition toLowerCase (s : jsstring) : jsstring := map lowerChar s.

(** Longest prefix whose characters satisfy [p], and the rest. *)
Fixpoint span (p : N -> bool) (s : jsstring) : jsstring * jsstring :=
  match s with
  | [] => ([], [])
  | x :: s' =>
      if p x then let (a, b) := span p s' in (x :: a, b) else ([], s)
  end.

Fixpoint dropWhile (p : N -> bool) (s : jsstring) : jsstring :=
  match s with
  | [] => []
  | x :: s' => if p x then dropWhile p s' else s
  end.

(** [s.trim()]. *)
Definition trim (s : jsstring) : jsstring :=
  rev (dropWhile isSpace (rev (dropWhile isSpace s))).

(** [s.replace(/\s+/g, ' ')]: every run of white space becomes one space. *)
Fixpoint collapseSpaces (s : jsstring) (inRun : bool) : jsstring :=
  match s with
  | [] => []
  | x :: s' =>
      if isSpace x then
        if inRun then collapseSpaces s' true else 32%N :: collapseSpaces s' true
      else x :: collapseSpaces s' false
  end.

(** [s.split(c)] for a one-character separator. *)
Fixpoint splitChar (c : N) (s : jsstring) (cur : jsstring) : list jsstring :=
  match s with
  | [] => [rev cur]
  | x :: s' =>
      if N.eqb x c then rev cur :: splitChar c s' []
      else splitChar c s' (x :: cur)
  end.

(** [s.split(/[...]+/)] for a character class [p]: the pieces between the
    maximal runs of separator characters ([inSep] holds inside a run). *)
Fixpoint splitRuns (p : N -> bool) (s : jsstring) (cur : jsstring)
  (inSep : bool) : list jsstring :=
  match s with
  | [] => [rev cur]
  | x :: s' =>
      if p x then
        if inSep then splitRuns p s' [] true
        else rev cur :: splitRuns p s' [] true
      else splitRuns p s' (x :: cur) false
  end.

(** [xs.join(sep)]. *)
Fixpoint join (sep : jsstring) (xs : list jsstring) : jsstring :=
  match xs with
  | [] => []
  | [x] => x
  | x :: rest => x ++ sep ++ join sep rest
  end.

(** [`${n}`] for a non-negative integer. *)
Fixpoint digitsOf (fuel : nat) (n : N) (acc : jsstring) : jsstring :=
  match fuel with
  | O => acc
  | S fuel' =>
      let d := (48 + n mod 10)%N in
      if (n <? 10)%N then d :: acc else digitsOf fuel' (n / 10)%N (d :: acc)
  end.

Definition showNat (n : nat) : jsstring := digitsOf (S n) (N.of_nat n) [].

(* ===================================================================== *)
(** * lib/utils                                                           *)
(* ===================================================================== *)

(** [truncateText(text, maxLength)]. The guard [lastSpace > maxLength * 0.8]
    is written over the integers as [5 * lastSpace > 4 * maxLength]; the two
    agree whenever the product is computed exactly or lies away from an
    integer, in particular at the cap of 20000 used by the caller. *)
Definition truncateText (text : jsstring) (maxLength : Z) : jsstring :=
  if (jslen text <=? maxLength)%Z then text
  else
    let truncated := slice0 text maxLength in
    let lastSpace := lastIndexOf truncated 32%N in
    if (4 * maxLength <? 5 * lastSpace)%Z then slice0 truncated lastSpace
    else truncated.

(** The comparison of [hasTimeRemaining(startTime, maxDuration, buffer)],
    given the reading [now] of the clock. *)
Definition timeRemains (now startTime maxDuration buffer : Z) : bool :=
  (now - startTime <? maxDuration - buffer)%Z.

(** [getDayOfWeek] and [getMondayOfWeek] work on the local calendar date of
    an instant in a time zone; that date is given here as a number of days
    since 1 January 1970 (a Thursday). *)
Definition utcDay (days : Z) : Z := ((days + 4) mod 7)%Z.

Definition dayCode (dayIndex : Z) : jsstring :=
  nth (Z.to_nat dayIndex)
      [lit "SU"; lit "MO"; lit "TU"; lit "WE"; lit "TH"; lit "FR"; lit "SA"]
      [].

Definition getDayOfWeek (localDays : Z) : jsstring := dayCode (utcDay localDays).

Definition getMondayOfWeek (localDays : Z) : Z :=
  let day := utcDay localDays in
  let diff := if (day =? 0)%Z then (-6)%Z else (1 - day)%Z in
  (localDays + diff)%Z.

(* ===================================================================== *)
(** * types                                                               *)
(* ===================================================================== *)

(** Row identifiers are opaque keys. *)
Definition Id := N.
Bind Scope N_scope with Id.

Inductive Status := queued | running | partial | complete | failed | aborted.

Inductive Stage := DISCOVER | FETCH | SYNTHESIZE | PUBLISH.

Inductive Strategy := deep_research | map_reduce.

Record Discovery := {
  candidateUrls : list jsstring;
  selectedCount : Z
}.

Record FetchProgress := {
  totalSources : Z;
  fetchedCount : Z;
  okCount : Z;
  nextIndex : Z
}.

Record Synthesis := {
  strategy : Strategy;
  retryCount : Z;
  partialMarkdown : option jsstring
}.

Record PublishResult := {
  reportId : option Id;
  emailSent : bool
}.

(** The state document. [stage] is [None] when the stored document has no
    [stage] property or one that is none of the four literals (the
    [default] branch of the orchestrator's switch); [error] is the extra
    property discovery writes when the topic is missing. *)
Record DeepDiveState := {
  stage : option Stage;
  discovery : option Discovery;
  fetch : option FetchProgress;
  synthesis : option Synthesis;
  publish : option PublishResult;
  error : option jsstring
}.

(** The value of the [state] column: [None] is JSON [null] (or an absent
    value), the only values the [??] of [fromJson] replaces. *)
Definition Json := option DeepDiveState.

Definition stateOf (s : Stage) : DeepDiveState :=
  {| stage := Some s; discovery := None; fetch := None; synthesis := None;
     publish := None; error := None |}.

Definition toJson (value : DeepDiveState) : Json := Some value.

Definition fromJson (value : Json) : DeepDiveState :=
  match value with
  | Some s => s
  | None => stateOf DISCOVER
  end.

Definition stage_rank (s : Stage) : nat :=
  match s with DISCOVER => 0 | FETCH => 1 | SYNTHESIZE => 2 | PUBLISH => 3 end.

(** The order DISCOVER < FETCH < SYNTHESIZE < PUBLISH. *)
Definition stage_le (a b : Stage) : Prop := stage_rank a <= stage_rank b.

Definition Stage_eqb (a b : Stage) : bool :=
  Nat.eqb (stage_rank a) (stage_rank b).

Definition Status_eqb (a b : Status) : bool :=
  match a, b with
  | queued, queued | running, running | partial, partial
  | complete, complete | failed, failed | aborted, aborted => true
  | _, _ => false
  end.

Record SourceCitation := {
  cit_title : jsstring;
  cit_url : jsstring;
  cit_source : jsstring;
  cit_date : option jsstring
}.

Record DeepDiveReportData := {
  headline : jsstring;
  whatHappened : list jsstring;
  whatChanged : list jsstring;
  whyItMatters : list jsstring;
  risks : list jsstring;
  actionPrompts : list jsstring;
  sources : list SourceCitation
}.

(* ===================================================================== *)
(** * services/deepDive/validators                                        *)
(* ===================================================================== *)

Definition BANNED_PHRASES : list jsstring :=
  map lit
    [ "fast-changing landscape"; "rapidly evolving"; "paradigm shift";
      "paradigm-shifting"; "leveraging"; "it is important to note";
      "it's important to note"; "this article"; "the piece"; "the post";
      "in conclusion"; "in today's"; "game-changer"; "game changer";
      "cutting-edge"; "cutting edge"; "at the end of the day";
      "moving forward"; "going forward"; "synergy"; "synergies";
      "holistic approach"; "best-in-class"; "thought leader"; "disruptive";
      "unprecedented times" ]%string.

(** The messages pushed on [errors], with the numbers they interpolate. *)
Inductive ValidationError :=
| HeadlineMissingOrShort
| WhatHappenedEmpty
| WhatHappenedBounds
| WhatChangedEmpty
| WhyItMattersEmpty
| WhyItMattersNotThree
| RisksEmpty
| ActionPromptsEmpty
| ActionPromptsNotThree
| SourcesEmpty
| BannedPhrase (phrase : jsstring)
| TooManyExclamations (count : nat)
| UngroundedEntities (ungrounded total : nat)
| VagueFiller (vague total : nat).

Record ValidationResult := {
  valid : bool;
  errors : list ValidationError
}.

Definition serializeReport (report : DeepDiveReportData) : jsstring :=
  join (lit " ")
    ([headline report] ++ whatHappened report ++ whatChanged report
     ++ whyItMatters report ++ risks report ++ actionPrompts report
     ++ map cit_title (sources report)).

Definition strIn (s : jsstring) (l : list jsstring) : bool :=
  existsb (str_eqb s) l.

(** [entities.add(e)] on an insertion-ordered [Set]. *)
Definition setAdd (e : jsstring) (entities : list jsstring) : list jsstring :=
  if strIn e entities then entities else entities ++ [e].

Definition commonWords : list jsstring :=
  map lit
    [ "The"; "This"; "That"; "These"; "Those"; "What"; "Why"; "How"; "When";
      "Where"; "Which"; "Who"; "No"; "Yes"; "Not"; "And"; "But"; "For";
      "With"; "From"; "Into"; "Over"; "Under"; "After"; "Before"; "Between";
      "Through"; "During"; "Without"; "Within"; "Along"; "Following";
      "Across"; "Behind"; "Beyond"; "Also"; "However"; "Moreover";
      "Furthermore"; "Additionally"; "Meanwhile"; "Nevertheless";
      "Action"; "Risk"; "Source"; "Key"; "New"; "Major" ]%string.

Definition isOneOf (cs : string) (c : N) : bool :=
  existsb (N.eqb c) (lit cs).

(** The lookbehind [(?<=[.!?]\s+\w+\s+|,\s+|;\s+|:\s+|-\s+)] at a position,
    read on the text before it, nearest character first. White space and
    the characters around it exclude each other, so each run is maximal. *)
Definition entityLookbehind (before : jsstring) : bool :=
  let (ws, r) := span isSpace before in
  match ws, r with
  | _ :: _, c :: _ =>
      isOneOf ",;:-" c ||
      (let (wd, r1) := span isWord r in
       let (ws1, r2) := span isSpace r1 in
       match wd, ws1, r2 with
       | _ :: _, _ :: _, p :: _ => isOneOf ".!?" p
       | _, _, _ => false
       end)
  | _, _ => false
  end.

(** [[A-Z][a-z]+] at the head of [s]: the word and what follows it. *)
Definition capWord (s : jsstring) : option (jsstring * jsstring) :=
  match s with
  | c :: r =>
      if isUpper c then
        let (lo, r') := span isLower r in
        match lo with
        | [] => None
        | _ :: _ => Some (c :: lo, r')
        end
      else None
  | [] => None
  end.

(** The greedy tail [(?:\s+[A-Z][a-z]+)*]. *)
Fixpoint capWords (fuel : nat) (acc s : jsstring) : jsstring :=
  match fuel with
  | O => acc
  | S fuel' =>
      let (ws, r) := span isSpace s in
      match ws with
      | [] => acc
      | _ :: _ =>
          match capWord r with
          | Some (w, r') => capWords fuel' (acc ++ ws ++ w) r'
          | None => acc
          end
      end
  end.

(** The captured group of the first pattern, a capitalised word followed
    by further capitalised words, at the head of [s]. *)
Definition entityAt (s : jsstring) : option jsstring :=
  match capWord s with
  | Some (w, r) => Some (capWords (List.length r) w r)
  | None => None
  end.

(** The [while ((match = pattern.exec(text)) !== null)] loop of the first
    pattern: [skip] counts the characters still inside the last match,
    where the next search may not start. *)
Fixpoint scanEntities (before s : jsstring) (skip : nat)
  (entities : list jsstring) : list jsstring :=
  match s with
  | [] => entities
  | c :: s' =>
      match skip with
      | S k => scanEntities (c :: before) s' k entities
      | O =>
          match (if entityLookbehind before then entityAt s else None) with
          | Some candidate =>
              scanEntities (c :: before) s' (List.length candidate - 1)
                (if negb (strIn candidate commonWords)
                    && (2 <? List.length candidate)
                 then setAdd candidate entities else entities)
          | None => scanEntities (c :: before) s' 0 entities
          end
      end
  end.

Definition acronymStop : list jsstring :=
  map lit ["AND"; "THE"; "FOR"; "NOT"; "BUT"; "NOR"; "YET"]%string.

(** The loop of [/\b([A-Z]{2,6})\b/g]: with a word boundary on both sides
    the match is a whole maximal run of word characters, made of two to six
    capital letters. [prevWord] tells whether the previous character is a
    word character. *)
Fixpoint scanAcronyms (s : jsstring) (prevWord : bool)
  (entities : list jsstring) : list jsstring :=
  match s with
  | [] => entities
  | c :: s' =>
      if isWord c then
        if prevWord then scanAcronyms s' true entities
        else
          let (tok, _) := span isWord s in
          scanAcronyms s' true
            (if forallb isUpper tok
                && (2 <=? List.length tok) && (List.length tok <=? 6)
                && negb (strIn tok acronymStop)
             then setAdd tok entities else entities)
      else scanAcronyms s' false entities
  end.

Definition extractEntities (report : DeepDiveReportData) : list jsstring :=
  let text := serializeReport report in
  scanAcronyms text false (scanEntities [] text 0 []).

Definition isEmptyStr (s : jsstring) : bool :=
  match s with [] => true | _ => false end.

Definition when {A} (b : bool) (x : A) : list A := if b then [x] else [].

(** Check 1: required sections and bullet counts. *)
Definition sectionErrors (report : DeepDiveReportData) : list ValidationError :=
  let n (l : list jsstring) := List.length l in
  when (isEmptyStr (headline report)
        || (jslen (trim (headline report)) <? 5)%Z) HeadlineMissingOrShort
  ++ when (n (whatHappened report) =? 0) WhatHappenedEmpty
  ++ when ((n (whatHappened report) <? 3) || (6 <? n (whatHappened report)))
       WhatHappenedBounds
  ++ when (n (whatChanged report) =? 0) WhatChangedEmpty
  ++ when (n (whyItMatters report) =? 0) WhyItMattersEmpty
  ++ when (negb (n (whyItMatters report) =? 3)) WhyItMattersNotThree
  ++ when (n (risks report) =? 0) RisksEmpty
  ++ when (n (actionPrompts report) =? 0) ActionPromptsEmpty
  ++ when (negb (n (actionPrompts report) =? 3)) ActionPromptsNotThree
  ++ when (List.length (sources report) =? 0) SourcesEmpty.

(** Check 2: banned filler phrases. *)
Definition bannedErrors (fullText : jsstring) : list ValidationError :=
  flat_map
    (fun phrase => when (includes fullText (toLowerCase phrase))
                     (BannedPhrase phrase))
    BANNED_PHRASES.

(** Check 3: at most one exclamation mark. *)
Definition exclamationErrors (fullText : jsstring) : list ValidationError :=
  let exclamationCount := List.length (filter (N.eqb 33) fullText) in
  when (1 <? exclamationCount) (TooManyExclamations exclamationCount).

(** Check 4: entity grounding; [n > m * 0.3] is [10 * n > 3 * m]. *)
Definition groundingErrors (report : DeepDiveReportData)
  (sourceTexts : list jsstring) : list ValidationError :=
  if 0 <? List.length sourceTexts then
    let entities := extractEntities report in
    let combinedSourceText := toLowerCase (join (lit " ") sourceTexts) in
    let ungrounded :=
      filter (fun e => negb (includes combinedSourceText (toLowerCase e)))
             entities in
    when ((0 <? List.length entities)
          && (3 * List.length entities <? 10 * List.length ungrounded))
      (UngroundedEntities (List.length ungrounded) (List.length entities))
  else [].

(** Check 5: vague filler ratio; [v / n > 0.2] is [5 * v > n]. *)
Definition fillerErrors (fullText : jsstring) : list ValidationError :=
  let sentences :=
    filter (fun s => (10 <? jslen (trim s))%Z)
           (splitRuns (isOneOf ".!?") fullText [] false) in
  if 0 <? List.length sentences then
    let vagueCount :=
      List.length
        (filter (fun s => existsb (fun p => includes s (toLowerCase p))
                            BANNED_PHRASES)
                sentences) in
    when (List.length sentences <? 5 * vagueCount)
      (VagueFiller vagueCount (List.length sentences))
  else [].

Definition validateReport (report : DeepDiveReportData)
  (sourceTexts : list jsstring) : ValidationResult :=
  let fullText := toLowerCase (serializeReport report) in
  let errors :=
    sectionErrors report
    ++ bannedErrors fullText
    ++ exclamationErrors fullText
    ++ groundingErrors report sourceTexts
    ++ fillerErrors fullText in
  {| valid := (List.length errors =? 0); errors := errors |}.

(* ===================================================================== *)
(** * services/deepDive/synthesize: parsing and templates                 *)
(* ===================================================================== *)

(** [sections], a JavaScript object used as a map from lower-cased section
    names to their bullets. *)
Definition Sections := list (jsstring * list jsstring).

Fixpoint sectionGet (k : jsstring) (m : Sections) : option (list jsstring) :=
  match m with
  | [] => None
  | (k', v) :: m' => if str_eqb k k' then Some v else sectionGet k m'
  end.

(** [sections[k] = []]. *)
Definition sectionReset (k : jsstring) (m : Sections) : Sections :=
  (k, []) :: filter (fun e => negb (str_eqb k (fst e))) m.

(** [sections[k].push(x)]. *)
Definition sectionPush (k x : jsstring) (m : Sections) : Sections :=
  map (fun e => if str_eqb k (fst e) then (fst e, snd e ++ [x]) else e) m.

(** [s.replace(/^P\s+/, '')] for a literal prefix [P]. *)
Definition stripMarker (p s : jsstring) : jsstring :=
  if startsWith s p then
    let r := skipn (List.length p) s in
    match span isSpace r with
    | (_ :: _, r') => r'
    | ([], _) => s
    end
  else s.

(** [s.replace(/^\d+\.\s+/, '')] when the pattern matches; the test
    [/^\d+\.\s/] succeeds on the same strings. *)
Definition numbered (s : jsstring) : option jsstring :=
  match span isDigit s with
  | (_ :: _, dot :: r) =>
      if (dot =? 46)%N then
        match span isSpace r with
        | (_ :: _, r') => Some r'
        | ([], _) => None
        end
      else None
  | _ => None
  end.

Record ParseState := {
  ps_sections : Sections;
  ps_currentSection : jsstring;
  ps_headline : jsstring
}.

(** One turn of the [for (const line of lines)] loop. *)
Definition parseLine (st : ParseState) (line : jsstring) : ParseState :=
  let trimmed := trim line in
  if startsWith trimmed (lit "# ") && negb (startsWith trimmed (lit "## "))
  then {| ps_sections := ps_sections st;
          ps_currentSection := ps_currentSection st;
          ps_headline := stripMarker (lit "#") trimmed |}
  else if startsWith trimmed (lit "## ") then
    let cur := toLowerCase (stripMarker (lit "##") trimmed) in
    {| ps_sections := sectionReset cur (ps_sections st);
       ps_currentSection := cur;
       ps_headline := ps_headline st |}
  else
    let cur := ps_currentSection st in
    let s1 :=
      if startsWith trimmed (lit "- ") && negb (isEmptyStr cur)
      then sectionPush cur (stripMarker (lit "-") trimmed) (ps_sections st)
      else ps_sections st in
    let s2 :=
      match numbered trimmed with
      | Some rest =>
          if str_eqb cur (lit "sources") then sectionPush cur rest s1 else s1
      | None => s1
      end in
    {| ps_sections := s2; ps_currentSection := cur;
       ps_headline := ps_headline st |}.

(** The link pattern, a bracketed title followed by a parenthesised URL,
    tried at the head of [s] just after the opening bracket. *)
Definition linkBody (s : jsstring)
  : option (jsstring * jsstring * jsstring) :=
  match span (fun c => negb (c =? 93)%N) s with
  | (t :: ts, close :: open :: r) =>
      if ((close =? 93) && (open =? 40))%N then
        match span (fun c => negb (c =? 41)%N) r with
        | (u :: us, endp :: rest) =>
            if (endp =? 41)%N then Some (t :: ts, u :: us, rest) else None
        | _ => None
        end
      else None
  | _ => None
  end.

(** The leftmost match of the link pattern: the text before it, the two
    groups and the text after it. *)
Fixpoint findLink (before s : jsstring)
  : option (jsstring * jsstring * jsstring * jsstring) :=
  match s with
  | [] => None
  | c :: s' =>
      match (if (c =? 91)%N then linkBody s' else None) with
      | Some (t, u, rest) => Some (rev before, t, u, rest)
      | None => findLink (c :: before) s'
      end
  end.

Definition parseCitation (s : jsstring) : SourceCitation :=
  let linkMatch := findLink [] s in
  let afterLink :=
    trim (match linkMatch with
          | Some (pre, _, _, rest) => pre ++ rest
          | None => s
          end) in
  let parts :=
    filter (fun p => negb (isEmptyStr p))
           (map trim (splitChar emDash afterLink [])) in
  {| cit_title := match linkMatch with
                  | Some (_, t, _, _) => t
                  | None => s
                  end;
     cit_url := match linkMatch with
                | Some (_, _, u, _) => u
                | None => []
                end;
     cit_source := nth 0 parts [];
     cit_date := nth_error parts 1 |}.

(** [sections[k] || []]. *)
Definition sectionOr (k : string) (m : Sections) : list jsstring :=
  match sectionGet (lit k) m with Some v => v | None => [] end.

Definition parseReportMarkdown (markdown : jsstring) : DeepDiveReportData :=
  let lines := splitChar 10%N markdown [] in
  let st :=
    fold_left parseLine lines
      {| ps_sections := []; ps_currentSection := []; ps_headline := [] |} in
  let sections := ps_sections st in
  {| headline := ps_headline st;
     whatHappened := sectionOr "what happened" sections;
     whatChanged := sectionOr "what changed" sections;
     whyItMatters := sectionOr "why it matters" sections;
     risks := match sectionGet (lit "risks / watch-outs") sections with
              | Some v => v
              | None => sectionOr "risks" sections
              end;
     actionPrompts := sectionOr "action prompts" sections;
     sources := map parseCitation (sectionOr "sources" sections) |}.

Inductive AccessStatus := unknown | ok | paywalled | blocked.

(** A row of [deep_dive_sources]. *)
Record SourceRow := {
  src_id : Id;
  src_jobId : Id;
  src_url : jsstring;
  src_accessStatus : AccessStatus;
  src_title : option jsstring;
  src_extractedText : option jsstring;
  src_sourceName : option jsstring
}.

Definition orElse (o : option jsstring) (d : string) : jsstring :=
  match o with Some s => s | None => lit d end.

Definition nl : jsstring := [10%N].

(** The numbered source lines of [generateFallbackReport]. *)
Fixpoint fallbackSourceLines (i : nat) (srcs : list SourceRow)
  : list jsstring :=
  match srcs with
  | [] => []
  | s :: rest =>
      (showNat (i + 1) ++ lit ". [" ++ orElse (src_title s) "Source"
       ++ lit "](" ++ src_url s ++ lit ") " ++ [emDash] ++ lit " "
       ++ orElse (src_sourceName s) "Unknown")
      :: fallbackSourceLines (i + 1) rest
  end.

Definition generateFallbackReport (srcs : list SourceRow) (topic : jsstring)
  : jsstring :=
  let sourceList := join nl (fallbackSourceLines 0 srcs) in
  join nl
    [ lit "# " ++ topic ++ lit " " ++ [emDash] ++ lit " Weekly Overview";
      [];
      lit "## What Happened";
      lit "- Multiple sources reported on developments related to " ++ topic;
      lit "- Coverage spans " ++ showNat (List.length srcs)
        ++ lit " sources from the past week";
      lit "- Full synthesis was not possible due to processing constraints";
      [];
      lit "## What Changed";
      lit "- No meaningful change identified.";
      [];
      lit "## Why It Matters";
      lit "- Developments in " ++ topic
        ++ lit " may affect client advisory and compliance strategies";
      lit "- Multiple independent sources indicate sustained activity in this area";
      lit "- Monitoring recommended for emerging regulatory or market signals";
      [];
      lit "## Risks / Watch-outs";
      lit "- Limited source availability may indicate early-stage developments";
      lit "- Follow up with primary source review recommended";
      [];
      lit "## Action Prompts";
      lit "- Review the linked sources below for detailed coverage";
      lit "- Flag any client-relevant developments for team discussion";
      lit "- Schedule a follow-up deep dive for next week if warranted";
      [];
      lit "## Sources";
      sourceList ].

(** The fixed report of [createMinimalReport], for the topic label. *)
Definition minimalMarkdown (label : option jsstring) : jsstring :=
  join nl
    [ lit "# " ++ orElse label "Topic" ++ lit " " ++ [emDash]
        ++ lit " No Coverage Available";
      [];
      lit "## What Happened";
      lit "- No accessible sources were found for this topic in the past week";
      [];
      lit "## What Changed";
      lit "- No meaningful change identified.";
      [];
      lit "## Why It Matters";
      lit "- Absence of coverage may indicate a quiet period for this topic";
      lit "- Consider broadening search terms or adding related interests";
      lit "- Regular monitoring will capture emerging developments";
      [];
      lit "## Risks / Watch-outs";
      lit "- Low coverage does not necessarily mean low activity";
      lit "- Manual research may be warranted for time-sensitive topics";
      [];
      lit "## Action Prompts";
      lit "- Review your deep dive topic settings to ensure they match current priorities";
      lit "- Consider adding related interests to broaden coverage";
      lit "- Check back next week for updated coverage";
      [];
      lit "## Sources";
      lit "- No sources available for this period" ].

(* ===================================================================== *)
(** * The database                                                        *)
(* ===================================================================== *)

(** A row of [deep_dive_jobs]; [job_runWeek] is the Monday of the week as
    a day number, the instants are clock readings. *)
Record JobRow := {
  job_id : Id;
  job_userId : Id;
  job_runWeek : Z;
  job_status : Status;
  job_topicInterestId : Id;
  job_attempt : Z;
  job_state : Json;
  job_createdAt : Z;
  job_updatedAt : Z
}.

(** A row of [deep_dive_reports]. *)
Record ReportRow := {
  rep_id : Id;
  rep_jobId : Id;
  rep_subject : jsstring;
  rep_markdown : jsstring;
  rep_html : jsstring
}.

Record InterestRow := {
  int_id : Id;
  int_label : jsstring
}.

Record Profile := {
  emailEnabled : bool;
  paused : bool
}.

Record ConfigRow := {
  cfg_enabled : bool;
  cfg_dayOfWeek : jsstring;
  cfg_maxSources : Z
}.

(** A user with the relations the queries include: the profile, the
    deep-dive configuration (one per user at most) and the interest
    identifiers of the deep-dive topics. *)
Record UserRow := {
  user_id : Id;
  user_email : jsstring;
  user_timezone : jsstring;
  user_profile : option Profile;
  user_deepDiveConfig : option ConfigRow;
  user_deepDiveTopics : list Id
}.

(** A row of [sources], the feed registry with its quality tiers. *)
Record FeedRow := {
  feed_url : jsstring;
  feed_qualityTier : Z
}.

Record SourceRuleRow := {
  rule_action : jsstring;
  rule_pattern : jsstring
}.

Record EmailEventRow := {
  ev_userId : Id;
  ev_reportId : Id
}.

(** The tables the deep-dive code reads and writes. No uniqueness
    constraint is built into the tables: what the code guarantees by its
    own checks is proved, not assumed. [nextId] numbers the created rows. *)
Record DB := {
  deepDiveJob : list JobRow;
  deepDiveSource : list SourceRow;
  deepDiveReport : list ReportRow;
  interest : list InterestRow;
  user : list UserRow;
  source : list FeedRow;
  sourceRule : list SourceRuleRow;
  emailEvent : list EmailEventRow;
  nextId : N
}.

Definition withJobs (d : DB) (js : list JobRow) : DB :=
  {| deepDiveJob := js; deepDiveSource := deepDiveSource d;
     deepDiveReport := deepDiveReport d; interest := interest d;
     user := user d; source := source d; sourceRule := sourceRule d;
     emailEvent := emailEvent d; nextId := nextId d |}.

Definition withSources (d : DB) (ss : list SourceRow) (n : N) : DB :=
  {| deepDiveJob := deepDiveJob d; deepDiveSource := ss;
     deepDiveReport := deepDiveReport d; interest := interest d;
     user := user d; source := source d; sourceRule := sourceRule d;
     emailEvent := emailEvent d; nextId := n |}.

Definition withReports (d : DB) (rs : list ReportRow) (n : N) : DB :=
  {| deepDiveJob := deepDiveJob d; deepDiveSource := deepDiveSource d;
     deepDiveReport := rs; interest := interest d;
     user := user d; source := source d; sourceRule := sourceRule d;
     emailEvent := emailEvent d; nextId := n |}.

Definition withEvents (d : DB) (es : list EmailEventRow) : DB :=
  {| deepDiveJob := deepDiveJob d; deepDiveSource := deepDiveSource d;
     deepDiveReport := deepDiveReport d; interest := interest d;
     user := user d; source := source d; sourceRule := sourceRule d;
     emailEvent := es; nextId := nextId d |}.

(** [deepDiveJob.findUnique({ where: { id } })]. *)
Definition findJob (d : DB) (id : Id) : option JobRow :=
  find (fun j => N.eqb (job_id j) id) (deepDiveJob d).

(** [deepDiveReport.findUnique({ where: { jobId } })], also the [report]
    relation of a job. *)
Definition findReport (d : DB) (jobId : Id) : option ReportRow :=
  find (fun r => N.eqb (rep_jobId r) jobId) (deepDiveReport d).

Definition findInterest (d : DB) (id : Id) : option InterestRow :=
  find (fun i => N.eqb (int_id i) id) (interest d).

Definition findUser (d : DB) (id : Id) : option UserRow :=
  find (fun u => N.eqb (user_id u) id) (user d).

(** The columns a [deepDiveJob.update] may set; [None] leaves a column as
    it is. *)
Record JobPatch := {
  p_status : option Status;
  p_attempt : option Z;
  p_state : option Json;
  p_updatedAt : option Z
}.

Definition patchStatus (s : Status) : JobPatch :=
  {| p_status := Some s; p_attempt := None; p_state := None;
     p_updatedAt := None |}.

Definition patchState (st : Json) : JobPatch :=
  {| p_status := None; p_attempt := None; p_state := Some st;
     p_updatedAt := None |}.

Definition patchStatusState (s : Status) (st : Json) : JobPatch :=
  {| p_status := Some s; p_attempt := None; p_state := Some st;
     p_updatedAt := None |}.

Definition orKeep {A} (o : option A) (old : A) : A :=
  match o with Some x => x | None => old end.

Definition applyPatch (p : JobPatch) (j : JobRow) : JobRow :=
  {| job_id := job_id j; job_userId := job_userId j;
     job_runWeek := job_runWeek j;
     job_status := orKeep (p_status p) (job_status j);
     job_topicInterestId := job_topicInterestId j;
     job_attempt := orKeep (p_attempt p) (job_attempt j);
     job_state := orKeep (p_state p) (job_state j);
     job_createdAt := job_createdAt j;
     job_updatedAt := orKeep (p_updatedAt p) (job_updatedAt j) |}.

(** [deepDiveJob.update({ where: { id }, data })]: fails when no row has
    the identifier. *)
Definition updateJob (id : Id) (p : JobPatch) (d : DB) : option DB :=
  match findJob d id with
  | None => None
  | Some _ =>
      Some (withJobs d
              (map (fun j => if N.eqb (job_id j) id then applyPatch p j else j)
                   (deepDiveJob d)))
  end.

Definition sourceMatches (jobId : Id) (st : AccessStatus) (s : SourceRow)
  : bool :=
  N.eqb (src_jobId s) jobId &&
  match src_accessStatus s, st with
  | unknown, unknown | ok, ok | paywalled, paywalled | blocked, blocked => true
  | _, _ => false
  end.

(** The rows of a job with a given access status. *)
Definition sourcesWith (d : DB) (jobId : Id) (st : AccessStatus)
  : list SourceRow :=
  filter (sourceMatches jobId st) (deepDiveSource d).

(** The columns a [deepDiveSource.update] may set; an [undefined] value
    leaves the column as it is, [null] empties it. *)
Record SourcePatch := {
  sp_accessStatus : AccessStatus;
  sp_title : option jsstring;
  sp_extractedText : option (option jsstring);
  sp_sourceName : option jsstring
}.

Definition applySourcePatch (p : SourcePatch) (s : SourceRow) : SourceRow :=
  {| src_id := src_id s; src_jobId := src_jobId s; src_url := src_url s;
     src_accessStatus := sp_accessStatus p;
     src_title := match sp_title p with
                  | Some t => Some t
                  | None => src_title s
                  end;
     src_extractedText := orKeep (sp_extractedText p) (src_extractedText s);
     src_sourceName := match sp_sourceName p with
                       | Some n => Some n
                       | None => src_sourceName s
                       end |}.

(** [deepDiveSource.update({ where: { id }, data })]. *)
Definition updateSource (id : Id) (p : SourcePatch) (d : DB) : option DB :=
  match find (fun s => N.eqb (src_id s) id) (deepDiveSource d) with
  | None => None
  | Some _ =>
      Some (withSources d
              (map (fun s => if N.eqb (src_id s) id
                             then applySourcePatch p s else s)
                   (deepDiveSource d))
              (nextId d))
  end.

(** [deepDiveSource.createMany({ data, skipDuplicates: true })] for the
    selected URLs of a job: a URL the job already has is skipped. *)
Fixpoint createSources (jobId : Id) (urls : list jsstring) (d : DB) : DB :=
  match urls with
  | [] => d
  | url :: rest =>
      createSources jobId rest
        (if existsb (fun s => N.eqb (src_jobId s) jobId
                              && str_eqb (src_url s) url)
                    (deepDiveSource d)
         then d
         else withSources d
                (deepDiveSource d ++
                 [{| src_id := nextId d; src_jobId := jobId; src_url := url;
                     src_accessStatus := unknown; src_title := None;
                     src_extractedText := None; src_sourceName := None |}])
                (nextId d + 1)%N)
  end.

(** [deepDiveReport.create({ data })]: the new row and the table with it. *)
Definition createReport (jobId : Id) (subject markdown html : jsstring)
  (d : DB) : ReportRow * DB :=
  let r := {| rep_id := nextId d; rep_jobId := jobId; rep_subject := subject;
              rep_markdown := markdown; rep_html := html |} in
  (r, withReports d (deepDiveReport d ++ [r]) (nextId d + 1)%N).

(** [deepDiveJob.create({ data })] as the scheduler calls it: status
    [queued], stage [DISCOVER], no attempt yet. *)
Definition createJob (userId : Id) (runWeek : Z) (topicId : Id) (at_ : Z)
  (d : DB) : DB :=
  {| deepDiveJob :=
       deepDiveJob d ++
       [{| job_id := nextId d; job_userId := userId; job_runWeek := runWeek;
           job_status := queued; job_topicInterestId := topicId;
           job_attempt := 0; job_state := toJson (stateOf DISCOVER);
           job_createdAt := at_; job_updatedAt := at_ |}];
     deepDiveSource := deepDiveSource d;
     deepDiveReport := deepDiveReport d; interest := interest d;
     user := user d; source := source d; sourceRule := sourceRule d;
     emailEvent := emailEvent d; nextId := (nextId d + 1)%N |}.

(* ===================================================================== *)
(** * The environment and the monad of effects                            *)
(* ===================================================================== *)

(** What [fetch(url)] and [response.text()] give: a network failure (or the
    ten second abort), or a response whose body may fail to read. *)
Inductive HttpOutcome :=
| NetworkError
| HttpResponse (status : Z) (finalUrl : jsstring) (body : option jsstring).

(** What the extraction reads off the parsed document: the two [meta]
    contents, the [title] text, and, after the non-content elements are
    removed, the text of the first content selector that matches (if one
    does) and the text of [body]. *)
Record Dom := {
  dom_ogTitle : option jsstring;
  dom_titleText : jsstring;
  dom_siteName : option jsstring;
  dom_contentText : option jsstring;
  dom_bodyText : jsstring
}.

(** The calls to the generation service, as they are logged in the world. *)
Inductive LlmCall :=
| DirectCall (strict : bool)
| MapCall
| ReduceCall.

(** The answer of the generation service: the content of the first choice
    (possibly absent), or an exception. *)
Inductive LlmOutcome :=
| Completion (content : option jsstring)
| LlmFailure.

(** The oracles. External calls are numbered in the order they are made
    (the [tick] of the world); [faults n] tells whether call [n] throws,
    [clock n] what [Date.now()] reads at that point. [localDate t zone] is
    the calendar day of the instant [t] in a time zone, counted from
    1 January 1970, as [toLocaleDateString] writes it, and nothing where
    the platform does not know the zone: [toLocaleDateString] then throws
    a [RangeError]. [canonicalizeUrl] and
    [extractDomain] rest on the platform's URL parser and are taken whole,
    as are the corpus queries over the article tables and the two
    libraries that render markdown to safe HTML. *)
Record Env := {
  faults : nat -> bool;
  clock : nat -> Z;
  localDate : Z -> jsstring -> option Z;
  monthDayLabel : Z -> jsstring;
  httpGet : nat -> jsstring -> HttpOutcome;
  cheerioLoad : jsstring -> option Dom;
  chat : nat -> LlmCall -> LlmOutcome;
  renderSafeHtml : jsstring -> option jsstring;
  canonicalizeUrl : jsstring -> jsstring;
  extractDomain : jsstring -> jsstring;
  articleMatches : nat -> Id -> Id -> Z -> list jsstring;
  articleSearch : nat -> jsstring -> Z -> list jsstring;
  DEEP_DIVE_MAX_SOURCES : Z;
  DEEP_DIVE_MAX_FETCH_PER_INVOCATION : nat;
  DEEP_DIVE_MAX_SYNTHESIS_SOURCES : nat
}.

Record Mail := {
  mail_to : jsstring;
  mail_subject : jsstring
}.

Record World := {
  db : DB;
  tick : nat;
  llmLog : list LlmCall;
  outbox : list Mail
}.

Definition withDb (w : World) (d : DB) : World :=
  {| db := d; tick := tick w; llmLog := llmLog w; outbox := outbox w |}.

Definition advance (w : World) : World :=
  {| db := db w; tick := S (tick w); llmLog := llmLog w; outbox := outbox w |}.

Inductive outcome (A : Type) :=
| Returned (a : A)
| Thrown.

Arguments Thrown {A}.

(** A computation runs from a world and returns or throws, leaving the
    world it reached. *)
Definition M (A : Type) := World -> outcome A * World.

Definition ret {A} (a : A) : M A := fun w => (Returned a, w).

Definition throw {A} : M A := fun w => (Thrown, w).

Definition bind {A B} (m : M A) (k : A -> M B) : M B :=
  fun w =>
    match m w with
    | (Returned a, w') => k a w'
    | (Thrown, w') => (Thrown, w')
    end.

(** [try { m } catch { h }]. *)
Definition try_catch {A} (m : M A) (h : M A) : M A :=
  fun w =>
    match m w with
    | (Returned a, w') => (Returned a, w')
    | (Thrown, w') => h w'
    end.

Declare Scope monad_scope.
Delimit Scope monad_scope with monad.
Notation "x <- m ;; k" := (bind m (fun x => k))
  (at level 61, m at next level, right associativity) : monad_scope.
Notation "m ;;; k" := (bind m (fun _ => k))
  (at level 61, right associativity) : monad_scope.
Open Scope monad_scope.

(** A loop over an array whose body may [break]: the body returns the new
    accumulator and whether to go on. *)
Fixpoint forBreak {A S} (xs : list A) (body : A -> S -> M (S * bool)) (s : S)
  : M S :=
  match xs with
  | [] => ret s
  | x :: rest =>
      r <- body x s ;;
      if snd r then forBreak rest body (fst r) else ret (fst r)
  end.

Section Machine.

Variable env : Env.

(** An external call whose answer the environment gives: it throws when
    the environment says so. *)
Definition ask {A} (answer : nat -> A) : M A :=
  fun w =>
    if faults env (tick w) then (Thrown, advance w)
    else (Returned (answer (tick w)), advance w).

Definition call : M unit := ask (fun _ => tt).

(** A database read. *)
Definition query {A} (f : DB -> A) : M A :=
  call ;;; (fun w => (Returned (f (db w)), w)).

(** A read that throws when nothing is found ([findUniqueOrThrow]). *)
Definition queryOrThrow {A} (f : DB -> option A) : M A :=
  r <- query f ;;
  match r with
  | Some a => ret a
  | None => throw
  end.

(** A database write, which may be refused. *)
Definition exec (f : DB -> option DB) : M unit :=
  call ;;;
  (fun w =>
     match f (db w) with
     | Some d => (Returned tt, withDb w d)
     | None => (Thrown, w)
     end).

(** An insertion, which gives back the row it made. *)
Definition insert {A} (f : nat -> DB -> A * DB) : M A :=
  fun w =>
    if faults env (tick w) then (Thrown, advance w)
    else let (a, d) := f (tick w) (db w) in (Returned a, advance (withDb w d)).

(** [Date.now()]. *)
Definition now : M Z :=
  fun w => (Returned (clock env (tick w)), advance w).

(** [hasTimeRemaining(startTime, maxDuration, buffer)]. *)
Definition hasTimeRemaining (startTime maxDuration buffer : Z) : M bool :=
  t <- now ;; ret (timeRemains t startTime maxDuration buffer).

(** A call to the generation service, caught by its caller: the content,
    or [null] on an exception or an absent choice. *)
Definition chatCompletion (c : LlmCall) : M (option jsstring) :=
  fun w =>
    let w' := {| db := db w; tick := S (tick w);
                 llmLog := llmLog w ++ [c]; outbox := outbox w |} in
    match chat env (tick w) c with
    | Completion content => (Returned content, w')
    | LlmFailure => (Returned None, w')
    end.

(* --------------------------------------------------------------------- *)
(** ** services/deepDive/discover                                         *)
(* --------------------------------------------------------------------- *)

(** [domainTiers.get(domain) ?? 3] after the map is filled from the feed
    registry: the last feed of a domain wins. *)
Definition tierOf (feeds : list FeedRow) (url : jsstring) : Z :=
  let domain := extractDomain env url in
  match find (fun f => negb (isEmptyStr (extractDomain env (feed_url f)))
                       && str_eqb (extractDomain env (feed_url f)) domain)
             (rev feeds) with
  | Some f => feed_qualityTier f
  | None => 3%Z
  end.

(** The stable [sort] by ascending tier. *)
Fixpoint insertByTier (feeds : list FeedRow) (x : jsstring)
  (l : list jsstring) : list jsstring :=
  match l with
  | [] => [x]
  | y :: l' =>
      if (tierOf feeds x <=? tierOf feeds y)%Z then x :: y :: l'
      else y :: insertByTier feeds x l'
  end.

Definition sortByTier (feeds : list FeedRow) (urls : list jsstring)
  : list jsstring :=
  fold_right (insertByTier feeds) [] urls.

Definition rankBySourceTier (urls : list jsstring) : M (list jsstring) :=
  feeds <- query source ;;
  blockRules <- query (fun d =>
                  filter (fun r => str_eqb (rule_action r) (lit "block"))
                         (sourceRule d)) ;;
  ret (sortByTier feeds
         (filter (fun url =>
                    negb (existsb (fun r => includes (extractDomain env url)
                                                     (rule_pattern r))
                                  blockRules))
                 urls)).

(** The dedupe loop: the first URL of each canonical form is kept. *)
Fixpoint dedupe (seen : list jsstring) (urls : list jsstring)
  : list jsstring :=
  match urls with
  | [] => []
  | url :: rest =>
      let canonical := canonicalizeUrl env url in
      if strIn canonical seen then dedupe seen rest
      else url :: dedupe (canonical :: seen) rest
  end.

Definition discoverCandidates (jobId : Id) : M unit :=
  ju <- queryOrThrow (fun d =>
          match findJob d jobId with
          | Some j =>
              match findUser d (job_userId j) with
              | Some u => Some (j, u)
              | None => None
              end
          | None => None
          end) ;;
  let job := fst ju in
  let maxSources :=
    match user_deepDiveConfig (snd ju) with
    | Some c => cfg_maxSources c
    | None => DEEP_DIVE_MAX_SOURCES env
    end in
  topic <- query (fun d => findInterest d (job_topicInterestId job)) ;;
  match topic with
  | None =>
      exec (updateJob jobId
              (patchStatusState failed
                 (Some {| stage := Some DISCOVER; discovery := None;
                          fetch := None; synthesis := None; publish := None;
                          error := Some (lit "Interest not found") |})))
  | Some topicRow =>
      matches <- ask (fun n => articleMatches env n (job_userId job)
                                 (int_id topicRow) (maxSources * 2)) ;;
      candidateUrls <-
        match matches with
        | _ :: _ => ret matches
        | [] => ask (fun n => articleSearch env n (int_label topicRow)
                                (maxSources * 2))
        end ;;
      let deduped := dedupe [] candidateUrls in
      ranked <- rankBySourceTier deduped ;;
      let selected := slice0 ranked maxSources in
      match selected with
      | [] =>
          exec (updateJob jobId
                  (patchStatusState partial
                     (toJson {| stage := Some SYNTHESIZE;
                                discovery := Some {| candidateUrls := [];
                                                     selectedCount := 0 |};
                                fetch := None; synthesis := None;
                                publish := None; error := None |})))
      | _ :: _ =>
          exec (fun d => Some (createSources jobId selected d)) ;;;
          exec (updateJob jobId
                  (patchState
                     (toJson {| stage := Some FETCH;
                                discovery :=
                                  Some {| candidateUrls := selected;
                                          selectedCount :=
                                            Z.of_nat (List.length selected) |};
                                fetch :=
                                  Some {| totalSources :=
                                            Z.of_nat (List.length selected);
                                          fetchedCount := 0; okCount := 0;
                                          nextIndex := 0 |};
                                synthesis := None; publish := None;
                                error := None |})))
      end
  end.

(* --------------------------------------------------------------------- *)
(** ** services/deepDive/fetchExtract                                     *)
(* --------------------------------------------------------------------- *)

Definition MAX_EXTRACTED_TEXT : Z := 20000.
Definition MIN_READABLE_CHARS : Z := 1200.

Definition PAYWALL_MARKERS : list jsstring :=
  map lit
    [ "subscribe to continue"; "sign in to read"; "sign in to continue";
      "metered paywall"; "create a free account"; "start your free trial";
      "subscribe for full access"; "premium content"; "members only";
      "you have reached your limit" ]%string.

Definition PAYWALL_URL_PATTERNS : list jsstring :=
  map lit ["/subscribe"; "/login"; "/paywall"; "/register"; "/signin";
           "/sign-in"]%string.

Record FetchResult := {
  fr_status : AccessStatus;
  fr_title : option jsstring;
  fr_text : option jsstring;
  fr_sourceName : option jsstring
}.

Definition bare (st : AccessStatus) : FetchResult :=
  {| fr_status := st; fr_title := None; fr_text := None;
     fr_sourceName := None |}.

(** [a || b] on strings that may be [undefined]: the first one that is
    neither absent nor empty. *)
Definition truthy (o : option jsstring) : option jsstring :=
  match o with
  | Some (c :: s) => Some (c :: s)
  | _ => None
  end.

(** [el.text().replace(/\s+/g, ' ').trim()]. *)
Definition readable (s : jsstring) : jsstring := trim (collapseSpaces s false).

(** The text kept from a document: that of the first content selector
    that matches, or that of the whole body when no selector matches or
    the selected text is too short. *)
Definition mainText (dom : Dom) : jsstring :=
  let text0 :=
    match dom_contentText dom with
    | Some t => readable t
    | None => []
    end in
  if (jslen text0 <? MIN_READABLE_CHARS)%Z
  then readable (dom_bodyText dom) else text0.

(** The body of [fetchSingleSource] once the outcome of the request is
    known; every exception inside it is caught and gives [blocked]. *)
Definition classify (r : HttpOutcome) : FetchResult :=
  match r with
  | NetworkError => bare blocked
  | HttpResponse status finalUrl body =>
      if ((status =? 401) || (status =? 403))%Z then bare paywalled
      else if negb ((200 <=? status) && (status <=? 299))%Z then bare blocked
      else if existsb (includes finalUrl) PAYWALL_URL_PATTERNS
      then bare paywalled
      else
        match body with
        | None => bare blocked
        | Some html =>
            if existsb (includes (toLowerCase html)) PAYWALL_MARKERS
            then bare paywalled
            else
              match cheerioLoad env html with
              | None => bare blocked
              | Some dom =>
                  let title :=
                    match truthy (dom_ogTitle dom) with
                    | Some t => Some t
                    | None => truthy (Some (trim (dom_titleText dom)))
                    end in
                  let sourceName := truthy (dom_siteName dom) in
                  let text := mainText dom in
                  if (jslen text <? MIN_READABLE_CHARS)%Z then
                    {| fr_status := blocked; fr_title := title;
                       fr_text := None; fr_sourceName := None |}
                  else
                    {| fr_status := ok; fr_title := title;
                       fr_text := Some text; fr_sourceName := sourceName |}
              end
        end
  end.

Definition fetchSingleSource (url : jsstring) : M FetchResult :=
  fun w => (Returned (classify (httpGet env (tick w) url)), advance w).

(** The [data] of the update that records a fetch. *)
Definition fetchPatch (result : FetchResult) : SourcePatch :=
  {| sp_accessStatus := fr_status result;
     sp_title := fr_title result;
     sp_extractedText :=
       Some (match truthy (fr_text result) with
             | Some t => Some (truncateText t MAX_EXTRACTED_TEXT)
             | None => None
             end);
     sp_sourceName := fr_sourceName result |}.

Definition blockedPatch : SourcePatch :=
  {| sp_accessStatus := blocked; sp_title := None; sp_extractedText := None;
     sp_sourceName := None |}.

Definition isOk (st : AccessStatus) : bool :=
  match st with ok => true | _ => false end.

(** One turn of the loop over the unfetched sources; the accumulator is
    [(fetchedCount, okCount)]. *)
Definition fetchOne (startTime maxDuration : Z) (src : SourceRow)
  (acc : Z * Z) : M ((Z * Z) * bool) :=
  more <- hasTimeRemaining startTime maxDuration 8000 ;;
  if negb more then ret (acc, false)
  else
    okCount' <-
      try_catch
        (result <- fetchSingleSource (src_url src) ;;
         exec (updateSource (src_id src) (fetchPatch result)) ;;;
         ret (if isOk (fr_status result) then (snd acc + 1)%Z else snd acc))
        (exec (updateSource (src_id src) blockedPatch) ;;; ret (snd acc)) ;;
    ret (((fst acc + 1)%Z, okCount'), true).

Definition fetchCounters (state : DeepDiveState) (fetched okc next : Z)
  : option FetchProgress :=
  Some {| totalSources := match fetch state with
                          | Some f => totalSources f
                          | None => 0%Z
                          end;
          fetchedCount := fetched; okCount := okc; nextIndex := next |}.

(** The decision after the batch: the new state, and whether the job is
    marked [partial] before the state is written. *)
Definition nextFetchState (state : DeepDiveState)
  (fetched okc : Z) (remainingUnfetched : nat) : DeepDiveState * bool :=
  let synth (strat : Strategy) :=
    {| stage := Some SYNTHESIZE; discovery := discovery state;
       fetch := fetchCounters state fetched okc 0;
       synthesis := Some {| strategy := strat; retryCount := 0;
                            partialMarkdown := None |};
       publish := None; error := None |} in
  if (4 <=? okc)%Z then (synth deep_research, false)
  else if 0 <? remainingUnfetched then
    ({| stage := Some FETCH; discovery := discovery state;
        fetch := fetchCounters state fetched okc fetched;
        synthesis := None; publish := None; error := None |}, false)
  else if (2 <=? okc)%Z then (synth deep_research, true)
  else (synth map_reduce, true).

Definition fetchAndExtractBatch (jobId : Id) (maxDuration : Z) : M unit :=
  startTime <- now ;;
  let maxFetch := DEEP_DIVE_MAX_FETCH_PER_INVOCATION env in
  job <- queryOrThrow (fun d => findJob d jobId) ;;
  let state := fromJson (job_state job) in
  unfetched <- query (fun d => firstn maxFetch (sourcesWith d jobId unknown)) ;;
  let fetched0 := match fetch state with
                  | Some f => fetchedCount f | None => 0%Z end in
  let ok0 := match fetch state with
             | Some f => okCount f | None => 0%Z end in
  counts <- forBreak unfetched (fetchOne startTime maxDuration)
              (fetched0, ok0) ;;
  remainingUnfetched <-
    query (fun d => List.length (sourcesWith d jobId unknown)) ;;
  let next := nextFetchState state (fst counts) (snd counts)
                remainingUnfetched in
  (if snd next then exec (updateJob jobId (patchStatus partial))
   else ret tt) ;;;
  exec (updateJob jobId (patchState (toJson (fst next)))).

(* --------------------------------------------------------------------- *)
(** ** services/deepDive/synthesize                                       *)
(* --------------------------------------------------------------------- *)

(** [!markdown]: [null] and the empty string are both falsy. *)
Definition noText (o : option jsstring) : bool :=
  match truthy o with Some _ => false | None => true end.

(** Strategy 1: one call, [null] on any failure. The prompt only matters
    to the service; the log keeps whether it was the strict one. *)
Definition synthesizeDirect (strict : bool) : M (option jsstring) :=
  chatCompletion (DirectCall strict).

(** Strategy 2: one summary call per source, each caught on its own, then
    one reduce call. *)
Fixpoint summarize (srcs : list SourceRow) : M unit :=
  match srcs with
  | [] => ret tt
  | _ :: rest => chatCompletion MapCall ;;; summarize rest
  end.

Definition synthesizeMapReduce (srcs : list SourceRow)
  : M (option jsstring) :=
  summarize srcs ;;; chatCompletion ReduceCall.

Definition withSynthesis (state : DeepDiveState) (s : Stage)
  (syn : Synthesis) : DeepDiveState :=
  {| stage := Some s; discovery := discovery state; fetch := fetch state;
     synthesis := Some syn; publish := publish state; error := error state |}.

Definition createMinimalReport (jobId : Id) : M unit :=
  job <- queryOrThrow (fun d => findJob d jobId) ;;
  topic <- query (fun d => findInterest d (job_topicInterestId job)) ;;
  let markdown := minimalMarkdown (option_map int_label topic) in
  let state := fromJson (job_state job) in
  exec (updateJob jobId
          (patchStatusState partial
             (toJson (withSynthesis state PUBLISH
                        {| strategy := map_reduce; retryCount := 0;
                           partialMarkdown := Some markdown |})))).

Definition hasText (s : SourceRow) : bool :=
  match src_extractedText s with Some _ => true | None => false end.

Definition sourceText (s : SourceRow) : jsstring :=
  match src_extractedText s with Some t => t | None => [] end.

Definition synthesizeReport (jobId : Id) (maxDuration : Z) : M unit :=
  startTime <- now ;;
  let maxSynthesisSources := DEEP_DIVE_MAX_SYNTHESIS_SOURCES env in
  job <- queryOrThrow (fun d => findJob d jobId) ;;
  let state := fromJson (job_state job) in
  srcs <- query (fun d => firstn maxSynthesisSources
                            (filter hasText (sourcesWith d jobId ok))) ;;
  match srcs with
  | [] => createMinimalReport jobId
  | _ :: _ =>
      topic <- query (fun d => findInterest d (job_topicInterestId job)) ;;
      let topicLabel := orElse (option_map int_label topic) "Unknown Topic" in
      let strat := match synthesis state with
                   | Some s => strategy s | None => deep_research end in
      let retries := match synthesis state with
                     | Some s => retryCount s | None => 0%Z end in
      generated <-
        try_catch
          (direct <-
             (match strat with
              | deep_research =>
                  more <- hasTimeRemaining startTime maxDuration 15000 ;;
                  if more then synthesizeDirect (0 <? retries)%Z
                  else ret None
              | map_reduce => ret None
              end) ;;
           if noText direct then
             more <- hasTimeRemaining startTime maxDuration 15000 ;;
             if more then synthesizeMapReduce srcs else ret direct
           else ret direct)
          (ret None) ;;
      let markdown0 :=
        match truthy generated with
        | Some m => m
        | None => generateFallbackReport srcs topicLabel
        end in
      let sourceTexts := map sourceText srcs in
      let validation :=
        validateReport (parseReportMarkdown markdown0) sourceTexts in
      markdown <-
        (if negb (valid validation) && (retries =? 0)%Z then
           more <- hasTimeRemaining startTime maxDuration 15000 ;;
           if more then
             exec (updateJob jobId
                     (patchState
                        (toJson (withSynthesis state SYNTHESIZE
                                   {| strategy := strat; retryCount := 1;
                                      partialMarkdown := None |})))) ;;;
             retryMarkdown <- synthesizeDirect true ;;
             match truthy retryMarkdown with
             | Some m =>
                 if valid (validateReport (parseReportMarkdown m) sourceTexts)
                 then ret m else ret markdown0
             | None => ret markdown0
             end
           else ret markdown0
         else ret markdown0) ;;
      exec (updateJob jobId
              {| p_status := Some (if valid validation then job_status job
                                   else partial);
                 p_attempt := None;
                 p_state :=
                   Some (toJson (withSynthesis state PUBLISH
                                   {| strategy := strat; retryCount := retries;
                                      partialMarkdown := Some markdown |}));
                 p_updatedAt := None |})
  end.

(* --------------------------------------------------------------------- *)
(** ** services/deepDive/publish                                          *)
(* --------------------------------------------------------------------- *)

Definition subjectLine (topicLabel monthDay : jsstring) : jsstring :=
  lit "Deep Dive " ++ [emDash] ++ lit " " ++ topicLabel ++ lit " "
  ++ [emDash] ++ lit " " ++ monthDay.

(** [createTokenSet]: three token rows are written; the tokens only go
    into the mail. *)
Definition createTokenSet : M unit := call ;;; call ;;; call.

(** [sendEmail] and the [emailEvent] row, inside their own [try]. *)
Definition deliver (u : UserRow) (subject : jsstring) (r : ReportRow)
  : M unit :=
  try_catch
    (call ;;;
     (fun w => (Returned tt,
                {| db := db w; tick := tick w; llmLog := llmLog w;
                   outbox := outbox w ++ [{| mail_to := user_email u;
                                             mail_subject := subject |}] |})) ;;;
     exec (fun d => Some (withEvents d
                            (emailEvent d ++
                             [{| ev_userId := user_id u;
                                 ev_reportId := rep_id r |}]))))
    (ret tt).

Definition mayMail (u : UserRow) : bool :=
  match user_profile u with
  | Some p => emailEnabled p && negb (paused p)
  | None => false
  end.

Definition publishReport (jobId : Id) : M unit :=
  jur <- queryOrThrow (fun d =>
           match findJob d jobId with
           | Some j =>
               match findUser d (job_userId j) with
               | Some u => Some (j, u, findReport d jobId)
               | None => None
               end
           | None => None
           end) ;;
  let job := fst (fst jur) in
  let u := snd (fst jur) in
  match snd jur with
  | Some _ => exec (updateJob jobId (patchStatus complete))
  | None =>
      let state := fromJson (job_state job) in
      match truthy (match synthesis state with
                    | Some s => partialMarkdown s
                    | None => None
                    end) with
      | None => exec (updateJob jobId (patchStatus failed))
      | Some markdown =>
          topic <- query (fun d => findInterest d (job_topicInterestId job)) ;;
          let topicLabel := orElse (option_map int_label topic) "Deep Dive" in
          t <- now ;;
          let subject := subjectLine topicLabel (monthDayLabel env t) in
          match renderSafeHtml env markdown with
          | None => throw
          | Some safeHtml =>
              report <- insert (fun _ => createReport jobId subject markdown
                                                      safeHtml) ;;
              createTokenSet ;;;
              (if mayMail u then deliver u subject report else ret tt) ;;;
              let finalStatus :=
                if Status_eqb (job_status job) partial then partial
                else complete in
              exec (updateJob jobId
                      (patchStatusState finalStatus
                         (toJson {| stage := stage state;
                                    discovery := discovery state;
                                    fetch := fetch state;
                                    synthesis := synthesis state;
                                    publish :=
                                      Some {| reportId := Some (rep_id report);
                                              emailSent := true |};
                                    error := error state |})))
          end
      end
  end.

(* --------------------------------------------------------------------- *)
(** ** services/deepDive/orchestrator                                     *)
(* --------------------------------------------------------------------- *)

Definition MAX_ATTEMPTS : Z := 3.

Definition hardTerminal (s : Status) : bool :=
  match s with
  | complete | aborted | failed => true
  | _ => false
  end.

(** The [try] block: the dispatch on the stage read at the start. *)
Definition dispatch (jobId : Id) (maxDuration startTime : Z)
  (state : DeepDiveState) : M unit :=
  t <- now ;;
  let remainingTime := (maxDuration - (t - startTime))%Z in
  match stage state with
  | Some DISCOVER => discoverCandidates jobId
  | Some FETCH => fetchAndExtractBatch jobId remainingTime
  | Some SYNTHESIZE => synthesizeReport jobId remainingTime
  | Some PUBLISH => publishReport jobId
  | None => exec (updateJob jobId (patchState (toJson (stateOf DISCOVER))))
  end.

(** The state the abort path writes. *)
Definition forcedPublish (currentState : DeepDiveState) : DeepDiveState :=
  withSynthesis currentState PUBLISH
    (match synthesis currentState with
     | Some s => s
     | None => {| strategy := map_reduce; retryCount := 0;
                  partialMarkdown := None |}
     end).

Definition isPublish (s : option Stage) : bool :=
  match s with Some PUBLISH => true | _ => false end.

(** The [catch] block. *)
Definition onStageError (jobId : Id) (newAttempt : Z)
  (state : DeepDiveState) : M unit :=
  if (MAX_ATTEMPTS <=? newAttempt)%Z then
    currentJob <- query (fun d => findJob d jobId) ;;
    let currentState :=
      match currentJob with
      | Some cj => fromJson (job_state cj)
      | None => state
      end in
    if negb (isPublish (stage currentState)) then
      exec (updateJob jobId
              (patchStatusState partial
                 (toJson (forcedPublish currentState)))) ;;;
      try_catch (publishReport jobId)
                (exec (updateJob jobId (patchStatus failed)))
    else ret tt
  else exec (updateJob jobId (patchStatus queued)).

(** The head of [deepDiveStep], up to the [try]: nothing to do for a job
    that is missing or hard-terminal; otherwise the attempt is counted and
    the status set to [running]. It gives the row that was read, the start
    time and the new attempt number. *)
Definition enterStep (jobId : Id) : M (option (JobRow * Z * Z)) :=
  startTime <- now ;;
  found <- query (fun d => findJob d jobId) ;;
  match found with
  | None => ret None
  | Some job =>
      if hardTerminal (job_status job) then ret None
      else
        let newAttempt := (job_attempt job + 1)%Z in
        stamp <- now ;;
        exec (updateJob jobId
                {| p_status := Some running; p_attempt := Some newAttempt;
                   p_state := None; p_updatedAt := Some stamp |}) ;;;
        ret (Some (job, startTime, newAttempt))
  end.

Definition deepDiveStep (jobId : Id) (maxDuration : Z) : M unit :=
  entered <- enterStep jobId ;;
  match entered with
  | None => ret tt
  | Some (job, startTime, newAttempt) =>
      let state := fromJson (job_state job) in
      try_catch (dispatch jobId maxDuration startTime state)
                (onStageError jobId newAttempt state)
  end.

(* --------------------------------------------------------------------- *)
(** ** jobs/scheduleDeepDives                                             *)
(* --------------------------------------------------------------------- *)

(** The stable sort of [orderBy: { createdAt: 'desc' }]. *)
Fixpoint insertNewest (x : JobRow) (l : list JobRow) : list JobRow :=
  match l with
  | [] => [x]
  | y :: l' =>
      if (job_createdAt y <=? job_createdAt x)%Z then x :: y :: l'
      else y :: insertNewest x l'
  end.

Definition newestFirst (l : list JobRow) : list JobRow :=
  fold_right insertNewest [] l.

Definition idIn (x : Id) (l : list Id) : bool := existsb (N.eqb x) l.

Definition selectTopicForUser (userId : Id) (topics : list Id)
  : M (option Id) :=
  match topics with
  | [] => ret None
  | [only] => ret (Some only)
  | first :: _ =>
      recentJobs <-
        query (fun d =>
                 map job_topicInterestId
                   (firstn (List.length topics)
                      (newestFirst
                         (filter (fun j => N.eqb (job_userId j) userId
                                           && idIn (job_topicInterestId j)
                                                   topics)
                                 (deepDiveJob d))))) ;;
      match find (fun t => negb (idIn t recentJobs)) topics with
      | Some t => ret (Some t)
      | None => ret (Some (last recentJobs first))
      end
  end.

(** [deepDiveJob.findUnique({ where: { userId_runWeek } })]. *)
Definition findJobOfWeek (d : DB) (userId : Id) (runWeek : Z)
  : option JobRow :=
  find (fun j => N.eqb (job_userId j) userId && (job_runWeek j =? runWeek)%Z)
       (deepDiveJob d).

(** One turn of the loop over the configurations; the accumulator is
    [created]. The day of the week is read before the [try]: a time zone
    the platform does not know ends the whole run with an exception. *)
Definition scheduleOne (u : UserRow) (c : ConfigRow) (created : nat)
  : M nat :=
  match user_deepDiveTopics u with
  | [] => ret created
  | _ :: _ =>
      t <- now ;;
      match localDate env t (user_timezone u) with
      | None => throw
      | Some today =>
          if negb (str_eqb (getDayOfWeek today) (cfg_dayOfWeek c))
          then ret created
          else
            let monday := getMondayOfWeek today in
            try_catch
              (existing <-
                 query (fun d => findJobOfWeek d (user_id u) monday) ;;
               match existing with
               | Some _ => ret created
               | None =>
                   topicId <- selectTopicForUser (user_id u)
                                (user_deepDiveTopics u) ;;
                   match topicId with
                   | None => ret created
                   | Some topic =>
                       insert (fun n d =>
                                 (tt, createJob (user_id u) monday topic
                                        (clock env n) d)) ;;;
                       ret (S created)
                   end
               end)
              (ret created)
      end
  end.

(** The enabled configurations with their users, as the first query
    returns them. *)
Definition enabledConfigs (d : DB) : list (UserRow * ConfigRow) :=
  flat_map (fun u =>
              match user_deepDiveConfig u with
              | Some c => if cfg_enabled c then [(u, c)] else []
              | None => []
              end)
           (user d).

Fixpoint scheduleAll (configs : list (UserRow * ConfigRow)) (created : nat)
  : M nat :=
  match configs with
  | [] => ret created
  | (u, c) :: rest =>
      created' <- scheduleOne u c created ;;
      scheduleAll rest created'
  end.

Definition scheduleDeepDives : M nat :=
  configs <- query enabledConfigs ;;
  scheduleAll configs 0.

End Machine.

(* ===================================================================== *)
(** * Vocabulary of the properties                                        *)
(* ===================================================================== *)

Unset Implicit Arguments.

(** The stage recorded in the persisted state of a job, as the code reads
    it back. *)
Definition stageOfJob (d : DB) (j : Id) : option Stage :=
  match findJob d j with
  | Some row => stage (fromJson (job_state row))
  | None => None
  end.

Definition statusOfJob (d : DB) (j : Id) : option Status :=
  option_map job_status (findJob d j).

(** The report rows of a job. *)
Definition reportsOf (d : DB) (j : Id) : list ReportRow :=
  filter (fun r => N.eqb (rep_jobId r) j) (deepDiveReport d).

(** The job rows of a user for a week. *)
Definition jobsOfWeek (d : DB) (u : Id) (wk : Z) : list JobRow :=
  filter (fun j => N.eqb (job_userId j) u && (job_runWeek j =? wk)%Z)
         (deepDiveJob d).

(** The job of [j] is at a recognised stage of rank [k] at least. *)
Definition atLeast (k : nat) (j : Id) (d : DB) : Prop :=
  exists s, stageOfJob d j = Some s /\ k <= stage_rank s.

(** A patch that writes a state writes one of rank [k] at least. *)
Definition patchKeeps (k : nat) (p : JobPatch) : Prop :=
  match p_state p with
  | None => True
  | Some js => exists s, stage (fromJson js) = Some s /\ k <= stage_rank s
  end.

(** A property that looks at the job and report tables only. *)
Definition JR_only (I : DB -> Prop) : Prop :=
  forall d d', deepDiveJob d = deepDiveJob d' ->
               deepDiveReport d = deepDiveReport d' -> I d -> I d'.

(** A property kept by the updates of job [j0] whose patch is in [OK]. *)
Definition keptBy (I : DB -> Prop) (j0 : Id) (OK : JobPatch -> Prop) : Prop :=
  forall p d d', OK p -> I d -> updateJob j0 p d = Some d' -> I d'.

(** A sequence of invocations of the step function, each with its job and
    its budget, run one after the other whatever each one's outcome. *)
Fixpoint runSteps (env : Env) (steps : list (Id * Z)) (w : World) : World :=
  match steps with
  | [] => w
  | (j, maxDuration) :: rest =>
      runSteps env rest (snd (deepDiveStep env j maxDuration w))
  end.

(** Invocations of the step function and of the publisher, mixed. *)
Inductive Invocation :=
| Step (jobId : Id) (maxDuration : Z)
| Publish (jobId : Id).

Definition invoke (env : Env) (i : Invocation) : M unit :=
  match i with
  | Step j maxDuration => deepDiveStep env j maxDuration
  | Publish j => publishReport env j
  end.

Fixpoint runAll (env : Env) (calls : list Invocation) (w : World)
  : World :=
  match calls with
  | [] => w
  | i :: rest => runAll env rest (snd (invoke env i w))
  end.

(** The scheduler run [n] times in a row. *)
Fixpoint runScheduler (env : Env) (n : nat) (w : World) : World :=
  match n with
  | O => w
  | S n' => runScheduler env n' (snd (scheduleDeepDives env w))
  end.

(** A job has at most one report. *)
Definition atMostOne (j : Id) (d : DB) : Prop :=
  List.length (reportsOf d j) <= 1.

(** A user has at most one job for a week. *)
Definition oneJobOfWeek (u : Id) (wk : Z) (d : DB) : Prop :=
  List.length (jobsOfWeek d u wk) <= 1.

(** The job has a row. *)
Definition hasJob (j : Id) (d : DB) : Prop := findJob d j <> None.

(** The statuses the publisher sets on the paths that return. *)
Definition closing (s : Status) : Prop :=
  s = complete \/ s = failed \/ s = partial.

(** What the abort path reaches when it returns. *)
Definition finalised (j : Id) (d : DB) : Prop :=
  stageOfJob d j = Some PUBLISH /\
  (statusOfJob d j = Some partial \/ statusOfJob d j = Some complete
   \/ statusOfJob d j = Some failed).

(** The state read at the start of a step of [j0] agrees with [atLeast]
    when [j0] is the job under watch. *)
Definition readAt (k : nat) (j j0 : Id) (state : DeepDiveState) : Prop :=
  j0 = j -> exists s, stage state = Some s /\ k <= stage_rank s.

(** The row a job is left with by a fetch batch that decided [next]. *)
Definition afterBatch (job : JobRow) (next : DeepDiveState * bool) : JobRow :=
  applyPatch (patchState (toJson (fst next)))
    (if snd next then applyPatch (patchStatus partial) job else job).

(** The counters of a fetch batch that started from [(fetched0, ok0)]:
    both only grow, the ok count by no more than the fetched count. *)
Definition countsFrom (fetched0 ok0 : Z) (acc : Z * Z) : Prop :=
  (fetched0 <= fst acc /\ ok0 <= snd acc
   /\ snd acc - ok0 <= fst acc - fetched0)%Z.

(** The counters a state carries, zero when it has none. *)
Definition priorCounts (state : DeepDiveState) : Z * Z :=
  (match fetch state with Some f => fetchedCount f | None => 0%Z end,
   match fetch state with Some f => okCount f | None => 0%Z end).

(** [response.ok]. *)
Definition successStatus (status : Z) : bool :=
  ((200 <=? status) && (status <=? 299))%Z.

(* ===================================================================== *)
(** * A program logic for the monad: definitions                          *)
(* ===================================================================== *)

(** [wp m Q E w]: run from [w], [m] returns a value and a world in [Q], or
    throws in a world in [E]. *)
Definition wp {A} (m : M A) (Q : A -> World -> Prop) (E : World -> Prop)
  (w : World) : Prop :=
  match m w with
  | (Returned a, w') => Q a w'
  | (Thrown, w') => E w'
  end.

(** Triples over the database alone: most properties of the jobs do not
    look at the call counter, the log or the outbox. *)
Definition triple {A} (P : DB -> Prop) (m : M A) (Q : A -> DB -> Prop)
  (E : DB -> Prop) : Prop :=
  forall w, P (db w) ->
    wp m (fun a w' => Q a (db w')) (fun w' => E (db w')) w.

(** [inv I m]: [m] keeps [I], whether it returns or throws. *)
Definition inv {A} (I : DB -> Prop) (m : M A) : Prop :=
  triple I m (fun _ => I) I.

(* ===================================================================== *)
(** * Sample data for the examples                                        *)
(* ===================================================================== *)

(** An environment in which nothing fails, the clock stands still, the
    network is down and the generation service gives nothing; the
    examples change one oracle at a time. *)
Definition quietEnv : Env :=
  {| faults := fun _ => false;
     clock := fun _ => 0%Z;
     localDate := fun _ _ => Some 0%Z;
     monthDayLabel := fun _ => lit "March 3";
     httpGet := fun _ _ => NetworkError;
     cheerioLoad := fun _ => None;
     chat := fun _ _ => LlmFailure;
     renderSafeHtml := fun markdown => Some markdown;
     canonicalizeUrl := fun url => url;
     extractDomain := fun url => url;
     articleMatches := fun _ _ _ _ => [];
     articleSearch := fun _ _ _ => [];
     DEEP_DIVE_MAX_SOURCES := 12%Z;
     DEEP_DIVE_MAX_FETCH_PER_INVOCATION := 4;
     DEEP_DIVE_MAX_SYNTHESIS_SOURCES := 8 |}.

Definition withFaults (f : nat -> bool) (e : Env) : Env :=
  {| faults := f; clock := clock e; localDate := localDate e;
     monthDayLabel := monthDayLabel e; httpGet := httpGet e;
     cheerioLoad := cheerioLoad e; chat := chat e;
     renderSafeHtml := renderSafeHtml e;
     canonicalizeUrl := canonicalizeUrl e; extractDomain := extractDomain e;
     articleMatches := articleMatches e; articleSearch := articleSearch e;
     DEEP_DIVE_MAX_SOURCES := DEEP_DIVE_MAX_SOURCES e;
     DEEP_DIVE_MAX_FETCH_PER_INVOCATION :=
       DEEP_DIVE_MAX_FETCH_PER_INVOCATION e;
     DEEP_DIVE_MAX_SYNTHESIS_SOURCES := DEEP_DIVE_MAX_SYNTHESIS_SOURCES e |}.

Definition withChat (c : nat -> LlmCall -> LlmOutcome) (e : Env) : Env :=
  {| faults := faults e; clock := clock e; localDate := localDate e;
     monthDayLabel := monthDayLabel e; httpGet := httpGet e;
     cheerioLoad := cheerioLoad e; chat := c;
     renderSafeHtml := renderSafeHtml e;
     canonicalizeUrl := canonicalizeUrl e; extractDomain := extractDomain e;
     articleMatches := articleMatches e; articleSearch := articleSearch e;
     DEEP_DIVE_MAX_SOURCES := DEEP_DIVE_MAX_SOURCES e;
     DEEP_DIVE_MAX_FETCH_PER_INVOCATION :=
       DEEP_DIVE_MAX_FETCH_PER_INVOCATION e;
     DEEP_DIVE_MAX_SYNTHESIS_SOURCES := DEEP_DIVE_MAX_SYNTHESIS_SOURCES e |}.

(** One user (7) with one topic (5, "Banking") and one job (1). *)
Definition sampleUser : UserRow :=
  {| user_id := 7%N; user_email := lit "reader@example.com";
     user_timezone := lit "UTC";
     user_profile := Some {| emailEnabled := true; paused := false |};
     user_deepDiveConfig :=
       Some {| cfg_enabled := true; cfg_dayOfWeek := lit "TH";
               cfg_maxSources := 12%Z |};
     user_deepDiveTopics := [5%N] |}.

Definition sampleJob (st : Status) (attempts : Z) (state : Json) : JobRow :=
  {| job_id := 1%N; job_userId := 7%N; job_runWeek := (-3)%Z;
     job_status := st; job_topicInterestId := 5%N; job_attempt := attempts;
     job_state := state; job_createdAt := 0%Z; job_updatedAt := 0%Z |}.

Definition sampleDb (jobs : list JobRow) (srcs : list SourceRow)
  (reports : list ReportRow) : DB :=
  {| deepDiveJob := jobs; deepDiveSource := srcs; deepDiveReport := reports;
     interest := [{| int_id := 5%N; int_label := lit "Banking" |}];
     user := [sampleUser]; source := []; sourceRule := []; emailEvent := [];
     nextId := 100%N |}.

Definition freshWorld (d : DB) : World :=
  {| db := d; tick := 0; llmLog := []; outbox := [] |}.

(** A state at PUBLISH that carries a draft. *)
Definition draftedState : DeepDiveState :=
  withSynthesis (stateOf PUBLISH) PUBLISH
    {| strategy := map_reduce; retryCount := 0%Z;
       partialMarkdown := Some (lit "# Banking weekly") |}.

(** A report within every bound the validator enforces, with five bullets
    under "What Changed" and one under "Risks / Watch-outs". *)
Definition looseReport : DeepDiveReportData :=
  {| headline := lit "Banks raise capital buffers";
     whatHappened :=
       map lit ["regulators raised the countercyclical buffer";
                "lenders issued new shares to comply";
                "markets absorbed the supply without stress"]%string;
     whatChanged :=
       map lit ["the buffer rate went up"; "issuance calendars filled";
                "funding costs rose"; "dividend plans were cut";
                "stress tests were rescheduled"]%string;
     whyItMatters :=
       map lit ["capital planning needs a refresh";
                "advisory demand rises with issuance";
                "compliance reviews move earlier"]%string;
     risks := map lit ["issuance windows may close early"]%string;
     actionPrompts :=
       map lit ["review client capital plans";
                "brief deal teams on timing";
                "update the compliance calendar"]%string;
     sources := [{| cit_title := lit "buffer decision";
                    cit_url := lit "https://a.example/1";
                    cit_source := lit "a"; cit_date := None |}] |}.

(** The same report with two bullets under "What Happened". *)
Definition thinReport : DeepDiveReportData :=
  {| headline := headline looseReport;
     whatHappened := firstn 2 (whatHappened looseReport);
     whatChanged := whatChanged looseReport;
     whyItMatters := whyItMatters looseReport;
     risks := risks looseReport;
     actionPrompts := actionPrompts looseReport;
     sources := sources looseReport |}.

Definition sampleTexts : list jsstring :=
  [lit "the buffer decision was taken by regulators"].

(** A generated report that passes validation against [sampleTexts], and a
    reply that is no report at all. *)
Definition goodMarkdown : jsstring :=
  join nl
    (map lit
       [ "# Banks raise capital buffers"; "";
         "## What Happened";
         "- regulators raised the countercyclical buffer";
         "- lenders issued new shares to comply";
         "- markets absorbed the supply without stress"; "";
         "## What Changed";
         "- No meaningful change identified."; "";
         "## Why It Matters";
         "- capital planning needs a refresh";
         "- advisory demand rises with issuance";
         "- compliance reviews move earlier"; "";
         "## Risks / Watch-outs";
         "- issuance windows may close early";
         "- funding costs may stay high"; "";
         "## Action Prompts";
         "- review client capital plans";
         "- brief deal teams on timing";
         "- update the compliance calendar"; "";
         "## Sources";
         "1. [buffer decision](https://a.example/1)" ]%string).

Definition badMarkdown : jsstring := lit "I could not write the report.".

(** A page of 1500 readable characters, whatever the markup. *)
Definition longPage : Dom :=
  {| dom_ogTitle := Some (lit "Story"); dom_titleText := lit "Story";
     dom_siteName := Some (lit "Example News");
     dom_contentText := Some (repeat 97%N (Z.to_nat 1500));
     dom_bodyText := repeat 97%N (Z.to_nat 1500) |}.

Definition pageEnv : Env :=
  {| faults := fun _ => false; clock := fun _ => 0%Z;
     localDate := fun _ _ => Some 0%Z; monthDayLabel := fun _ => lit "March 3";
     httpGet := fun _ url =>
                  HttpResponse 200 url (Some (lit "<html>story</html>"));
     cheerioLoad := fun _ => Some longPage;
     chat := fun _ _ => LlmFailure;
     renderSafeHtml := fun markdown => Some markdown;
     canonicalizeUrl := fun url => url; extractDomain := fun url => url;
     articleMatches := fun _ _ _ _ => []; articleSearch := fun _ _ _ => [];
     DEEP_DIVE_MAX_SOURCES := 12%Z;
     DEEP_DIVE_MAX_FETCH_PER_INVOCATION := 4;
     DEEP_DIVE_MAX_SYNTHESIS_SOURCES := 8 |}.

(** A generation service whose first answer is no report and whose strict
    retry is a good one. *)
Definition retryEnv : Env :=
  withChat (fun _ c =>
              match c with
              | DirectCall false => Completion (Some badMarkdown)
              | DirectCall true => Completion (Some goodMarkdown)
              | _ => LlmFailure
              end)
           quietEnv.

Definition readSource : SourceRow :=
  {| src_id := 11; src_jobId := 1; src_url := lit "https://a.example/1";
     src_accessStatus := ok; src_title := Some (lit "buffer decision");
     src_extractedText :=
       Some (lit "the buffer decision was taken by regulators");
     src_sourceName := Some (lit "a") |}.

Definition synthesisJob : JobRow :=
  sampleJob running 1%Z
    (toJson (withSynthesis (stateOf SYNTHESIZE) SYNTHESIZE
               {| strategy := deep_research; retryCount := 0%Z;
                  partialMarkdown := None |})).

Definition retryWorld : World :=
  freshWorld (sampleDb [synthesisJob] [readSource] []).

(** An empty job table, with the sample user enabled for Thursdays; day 0
    of the sample clock is a Thursday and its week starts on day -3. *)
Definition unscheduledWorld : World := freshWorld (sampleDb [] [] []).

(** A job at SYNTHESIZE on its third attempt, in an environment where the
    seventh call fails: the first database read of the stage. *)
Definition abortEnv : Env := withFaults (fun n => Nat.eqb n 6) quietEnv.

Definition abortWorld : World :=
  freshWorld
    (sampleDb [sampleJob queued 2%Z (Some (stateOf SYNTHESIZE))] [] []).

(** A job at PUBLISH with a draft, on its third attempt, in an environment
    where the seventh call fails: the topic lookup of the publisher. *)
Definition stuckEnv : Env := withFaults (fun n => Nat.eqb n 6) quietEnv.

Definition stuckWorld : World :=
  freshWorld (sampleDb [sampleJob partial 2%Z (Some draftedState)] [] []).

(** A job with a draft is stepped, published, stepped and published. *)
Definition publishedTwice : list Invocation :=
  [Step 1 50000; Publish 1; Step 1 50000; Publish 1]%N.

Definition draftedWorld : World :=
  freshWorld (sampleDb [sampleJob running 1%Z (Some draftedState)] [] []).

(** A job just created. *)
Definition newWorld : World :=
  freshWorld
    (sampleDb [sampleJob queued 0%Z (toJson (stateOf DISCOVER))] [] []).

(** A job at FETCH with two sources still to fetch. *)
Definition unfetchedSource (id : Id) (url : string) : SourceRow :=
  {| src_id := id; src_jobId := 1; src_url := lit url;
     src_accessStatus := unknown; src_title := None;
     src_extractedText := None; src_sourceName := None |}.

Definition fetchingJob : JobRow :=
  sampleJob running 1%Z
    (toJson {| stage := Some FETCH;
               discovery :=
                 Some {| candidateUrls := [lit "https://a.example/1";
                                           lit "https://b.example/2"];
                         selectedCount := 2 |};
               fetch := Some {| totalSources := 2; fetchedCount := 0;
                                okCount := 0; nextIndex := 0 |};
               synthesis := None; publish := None; error := None |}).

Definition fetchingWorld : World :=
  freshWorld (sampleDb [fetchingJob]
                [unfetchedSource 11 "https://a.example/1";
                 unfetchedSource 12 "https://b.example/2"] []).

(** A job left at SYNTHESIZE by discovery over an empty corpus. *)
Definition emptyHandedJob : JobRow :=
  sampleJob running 2%Z
    (toJson {| stage := Some SYNTHESIZE;
               discovery := Some {| candidateUrls := []; selectedCount := 0 |};
               fetch := None; synthesis := None; publish := None;
               error := None |}).

Definition emptyHandedWorld : World :=
  freshWorld (sampleDb [emptyHandedJob] [] []).

From Stdlib Require Import Permutation Sorted.

(* ===================================================================== *)
(** * lib/rrule                                                           *)
(* ===================================================================== *)

(** [`${n}`] for an integer; JavaScript writes a number this way up to
    10^21 in absolute value, well beyond the integers it holds exactly. *)
Definition showInt (n : Z) : jsstring :=
  if (n <? 0)%Z then 45%N :: showNat (Z.to_nat (- n))
  else showNat (Z.to_nat n).

(** [parseInt(s)] on a run of decimal digits, as [\d+] captures it; exact
    as long as the value is an integer JavaScript holds exactly. *)
Definition parseDigits (s : jsstring) : Z :=
  fold_left (fun acc c => (acc * 10 + (Z.of_N c - 48))%Z) s 0%Z.

(** [s.match(/P(C+)/)] for a literal [P] and a character class [C]: the
    group of the leftmost match, the longest run of [C] after [P]. *)
Fixpoint matchAfter (p : jsstring) (cls : N -> bool) (s : jsstring)
  : option jsstring :=
  match (if startsWith s p then
           match span cls (skipn (List.length p) s) with
           | (c :: g, _) => Some (c :: g)
           | ([], _) => None
           end
         else None) with
  | Some g => Some g
  | None =>
      match s with
      | [] => None
      | _ :: s' => matchAfter p cls s'
      end
  end.

Definition notSemicolon (c : N) : bool := negb (c =? 59)%N.

(** [parseRrule(rrule)]: the days, the hour (6 when absent) and the minute
    (0 when absent). *)
Definition parseRrule (rrule : jsstring) : list jsstring * Z * Z :=
  let days :=
    match matchAfter (lit "BYDAY=") notSemicolon rrule with
    | Some g => splitChar 44%N g []
    | None => []
    end in
  let hour :=
    match matchAfter (lit "BYHOUR=") isDigit rrule with
    | Some g => parseDigits g
    | None => 6%Z
    end in
  let minute :=
    match matchAfter (lit "BYMINUTE=") isDigit rrule with
    | Some g => parseDigits g
    | None => 0%Z
    end in
  (days, hour, minute).

Definition buildRrule (days : list jsstring) (hour minute : Z) : jsstring :=
  lit "FREQ=WEEKLY;BYDAY=" ++ join (lit ",") days
  ++ lit ";BYHOUR=" ++ showInt hour
  ++ lit ";BYMINUTE=" ++ showInt minute ++ lit ";BYSECOND=0".

(** The own properties of the [DAY_MAP] literal. *)
Definition DAY_MAP (d : jsstring) : option Z :=
  if str_eqb d (lit "SU") then Some 0%Z
  else if str_eqb d (lit "MO") then Some 1%Z
  else if str_eqb d (lit "TU") then Some 2%Z
  else if str_eqb d (lit "WE") then Some 3%Z
  else if str_eqb d (lit "TH") then Some 4%Z
  else if str_eqb d (lit "FR") then Some 5%Z
  else if str_eqb d (lit "SA") then Some 6%Z
  else None.

(** The properties an object literal inherits from [Object.prototype]. *)
Definition objectPrototypeKeys : list jsstring :=
  map lit
    [ "constructor"; "__defineGetter__"; "__defineSetter__";
      "hasOwnProperty"; "__lookupGetter__"; "__lookupSetter__";
      "isPrototypeOf"; "propertyIsEnumerable"; "toString"; "valueOf";
      "__proto__"; "toLocaleString" ]%string.

(** What [DAY_MAP[d]] evaluates to when it is not [undefined]: the number
    of an own property, or what the prototype chain holds under an
    inherited key (a function, or the prototype itself). *)
Inductive DayValue :=
| DayNumber (n : Z)
| Inherited (key : jsstring).

(** [DAY_MAP[d]]. *)
Definition dayMapAt (d : jsstring) : option DayValue :=
  match DAY_MAP d with
  | Some n => Some (DayNumber n)
  | None => if strIn d objectPrototypeKeys then Some (Inherited d) else None
  end.

(** [String(v)], which the default order of [sort] compares. *)
Definition showDayValue (v : DayValue) : jsstring :=
  match v with
  | DayNumber n => showInt n
  | Inherited key =>
      if str_eqb key (lit "__proto__") then lit "[object Object]"
      else
        lit "function "
        ++ (if str_eqb key (lit "constructor") then lit "Object" else key)
        ++ lit "() { [native code] }"
  end.

(** [a <= b] in the order of the code units. *)
Fixpoint str_leb (a b : jsstring) : bool :=
  match a, b with
  | [], _ => true
  | _ :: _, [] => false
  | x :: a', y :: b' =>
      if (x <? y)%N then true
      else if (y <? x)%N then false
      else str_leb a' b'
  end.

(** [xs.sort()]: a stable sort by the order of the writings. *)
Fixpoint insertDay (x : DayValue) (l : list DayValue) : list DayValue :=
  match l with
  | [] => [x]
  | y :: l' =>
      if str_leb (showDayValue x) (showDayValue y) then x :: y :: l'
      else y :: insertDay x l'
  end.

Definition sortDays (l : list DayValue) : list DayValue :=
  fold_right insertDay [] l.

(** A date as the local calendar reads it: the day, counted from 1 January
    1970, and the minutes since local midnight. [setDate] and [setHours]
    work on these fields; where the zone skips or repeats an hour, the
    platform chooses the instant. *)
Record LocalTime := {
  lt_day : Z;
  lt_minutes : Z
}.

(** [days.map((d) => DAY_MAP[d]).filter((d) => d !== undefined).sort()]. *)
Definition targetDaysOf (days : list jsstring) : list DayValue :=
  sortDays (flat_map (fun d => match dayMapAt d with
                               | Some v => [v]
                               | None => []
                               end) days).

(** [targetDays.includes(candidateDay)]: only a number equals a number. *)
Definition includesDay (targetDays : list DayValue) (day : Z) : bool :=
  existsb (fun v => match v with
                    | DayNumber n => (n =? day)%Z
                    | Inherited _ => false
                    end) targetDays.

(** The test of one turn of the loop over the offsets 0 to 6: the day is
    a target day, and it is not today with the time already past. *)
Definition sendsAt (targetDays : list DayValue) (currentDay currentMinutes
  targetMinutes offset : Z) : bool :=
  includesDay targetDays ((currentDay + offset) mod 7)
  && negb ((offset =? 0)%Z && (targetMinutes <=? currentMinutes)%Z).

(** [computeNextSend(days, hour, minute)], given what [new Date()] reads.
    In the wrap-around, [targetDays[0] - currentDay] is [NaN] when the
    first entry is not a number, and [NaN || 7] is 7. *)
Definition computeNextSend (current : LocalTime) (days : list jsstring)
  (hour minute : Z) : LocalTime :=
  let targetDays := targetDaysOf days in
  let next (offset : Z) :=
    {| lt_day := lt_day current + offset;
       lt_minutes := hour * 60 + minute |} in
  match targetDays with
  | [] => next 1%Z
  | first :: _ =>
      let currentDay := utcDay (lt_day current) in
      let currentMinutes := lt_minutes current in
      let targetMinutes := (hour * 60 + minute)%Z in
      match find (sendsAt targetDays currentDay currentMinutes targetMinutes)
                 [0; 1; 2; 3; 4; 5; 6]%Z with
      | Some offset => next offset
      | None =>
          match first with
          | DayNumber n =>
              let daysUntil := ((n - currentDay + 7) mod 7)%Z in
              next (if (daysUntil =? 0)%Z then 7%Z else daysUntil)
          | Inherited _ => next 7%Z
          end
      end
  end.

Definition computeNextSendFromRrule (current : LocalTime) (rrule : jsstring)
  : LocalTime :=
  let '(days, hour, minute) := parseRrule rrule in
  computeNextSend current days hour minute.

(* ===================================================================== *)
(** * services/email/templates/deepDive                                   *)
(* ===================================================================== *)

(** [s.replace(/c/g, r)] for a character [c] and a replacement without
    dollar patterns. *)
Definition replaceAllChar (c : N) (r : jsstring) (s : jsstring) : jsstring :=
  flat_map (fun x => if (x =? c)%N then r else [x]) s.

Definition escapeHtml (text : jsstring) : jsstring :=
  replaceAllChar 39 (lit "&#39;")
    (replaceAllChar 34 (lit "&quot;")
       (replaceAllChar 62 (lit "&gt;")
          (replaceAllChar 60 (lit "&lt;")
             (replaceAllChar 38 (lit "&amp;") text)))).

(** The five characters [escapeHtml] rewrites. *)
Definition isMarkup (c : N) : bool :=
  ((c =? 38) || (c =? 60) || (c =? 62) || (c =? 34) || (c =? 39))%N.

(** The entity each of them becomes. *)
Definition entityOf (c : N) : jsstring :=
  if (c =? 38)%N then lit "&amp;"
  else if (c =? 60)%N then lit "&lt;"
  else if (c =? 62)%N then lit "&gt;"
  else if (c =? 34)%N then lit "&quot;"
  else if (c =? 39)%N then lit "&#39;"
  else [c].

(** The largest integer below which every integer is a JavaScript number. *)
Definition MAX_SAFE_INTEGER : Z := 9007199254740991.

(** What the round trip through an RRULE asks of a day string: it is not
    empty and holds no comma, semicolon or equals sign. *)
Definition plainDay (d : jsstring) : Prop :=
  d <> [] /\ Forall (fun c => c <> 44%N /\ c <> 59%N /\ c <> 61%N) d.

(** [s] and [p] differ at a position both have. *)
Fixpoint clash (s p : jsstring) : bool :=
  match s, p with
  | x :: s', y :: p' => negb (x =? y)%N || clash s' p'
  | _, _ => false
  end.

(** No match of [P(C+)] starts inside [a], whatever follows [a]: at each
    position the text differs from [P], or [P] is there, all inside [a],
    followed by a character outside [C]. *)
Fixpoint noGroupIn (cls : N -> bool) (p a : jsstring) : bool :=
  match a with
  | [] => true
  | _ :: a' =>
      (clash a p
       || (startsWith a p
           && match skipn (List.length p) a with
              | c :: _ => negb (cls c)
              | [] => false
              end))
      && noGroupIn cls p a'
  end.

(** [a] comes after [b] on the local calendar. *)
Definition laterThan (a b : LocalTime) : Prop :=
  (lt_day b < lt_day a
   \/ (lt_day a = lt_day b /\ lt_minutes b < lt_minutes a))%Z.

(** The weekday of [day] is one of the requested days. *)
Definition isTargetDay (days : list jsstring) (day : Z) : Prop :=
  exists d, In d days /\ DAY_MAP d = Some (utcDay day).

(** A time of day as the schedule form gives it. *)
Definition clockTime (hour minute : Z) : Prop :=
  (0 <= hour < 24 /\ 0 <= minute < 60)%Z.

(** A value [DAY_MAP[d]] can have. *)
Definition dayValue (v : DayValue) : Prop :=
  match v with
  | DayNumber n => (0 <= n <= 6)%Z
  | Inherited key => In key objectPrototypeKeys
  end.

(* ===================================================================== *)
(** * Vocabulary of the further properties                                *)
(* ===================================================================== *)

(** The number of exclamation marks of a text. *)
Definition exclamations (text : jsstring) : nat :=
  List.length (filter (N.eqb 33) text).

(** The report with nothing in it. *)
Definition emptyReport : DeepDiveReportData :=
  {| headline := []; whatHappened := []; whatChanged := [];
     whyItMatters := []; risks := []; actionPrompts := []; sources := [] |}.

(** What every extracted entity satisfies with respect to the text it was
    taken from. *)
Definition entitiesOf (text : jsstring) (entities : list jsstring) : Prop :=
  NoDup entities
  /\ forall e, In e entities ->
       includes text e = true /\ 2 <= List.length e.

(** [looseReport] under a headline that holds a banned phrase, in capitals. *)
Definition fillerReport : DeepDiveReportData :=
  {| headline := lit "A Paradigm Shift for banks";
     whatHappened := whatHappened looseReport;
     whatChanged := whatChanged looseReport;
     whyItMatters := whyItMatters looseReport;
     risks := risks looseReport;
     actionPrompts := actionPrompts looseReport;
     sources := sources looseReport |}.

(** A string that holds no line feed. *)
Definition oneLine (s : jsstring) : Prop := Forall (fun c => c <> 10%N) s.

(** The fields of a source that go into its line of the fallback report
    hold no line feed. *)
Definition oneLineSource (s : SourceRow) : Prop :=
  oneLine (orElse (src_title s) "Source")
  /\ oneLine (src_url s)
  /\ oneLine (orElse (src_sourceName s) "Unknown").

(** A line that opens with a hyphen, a space and a character that is not
    white space. *)
Definition startsBullet (line : jsstring) : bool :=
  match line with
  | a :: b :: c :: _ => ((a =? 45) && (b =? 32))%N && negb (isSpace c)
  | _ => false
  end.

(** A line that opens with a number, a full stop, a space and a character
    that is not white space. *)
Definition numberedLine (line : jsstring) : Prop :=
  exists digits c rest,
    line = digits ++ 46%N :: 32%N :: c :: rest
    /\ digits <> []
    /\ Forall (fun d => isDigit d = true) digits
    /\ isSpace c = false.

(** [s.trimEnd()], the second half of [trim]. *)
Definition trimEnd (s : jsstring) : jsstring :=
  rev (dropWhile isSpace (rev s)).

(** The state of the parser after a bullet under the current section. *)
Definition pushBullet (st : ParseState) (item : jsstring) : ParseState :=
  {| ps_sections :=
       if isEmptyStr (ps_currentSection st) then ps_sections st
       else sectionPush (ps_currentSection st) item (ps_sections st);
     ps_currentSection := ps_currentSection st;
     ps_headline := ps_headline st |}.

(** The 25 lines of the fallback report that come before the sources. *)
Definition fallbackHead (count : nat) (topic : jsstring) : list jsstring :=
  [ lit "# " ++ topic ++ lit " " ++ [emDash] ++ lit " Weekly Overview";
    [];
    lit "## What Happened";
    lit "- Multiple sources reported on developments related to " ++ topic;
    lit "- Coverage spans " ++ showNat count
      ++ lit " sources from the past week";
    lit "- Full synthesis was not possible due to processing constraints";
    [];
    lit "## What Changed";
    lit "- No meaningful change identified.";
    [];
    lit "## Why It Matters";
    lit "- Developments in " ++ topic
      ++ lit " may affect client advisory and compliance strategies";
    lit "- Multiple independent sources indicate sustained activity in this area";
    lit "- Monitoring recommended for emerging regulatory or market signals";
    [];
    lit "## Risks / Watch-outs";
    lit "- Limited source availability may indicate early-stage developments";
    lit "- Follow up with primary source review recommended";
    [];
    lit "## Action Prompts";
    lit "- Review the linked sources below for detailed coverage";
    lit "- Flag any client-relevant developments for team discussion";
    lit "- Schedule a follow-up deep dive for next week if warranted";
    [];
    lit "## Sources" ].

(** The parser before the first line. *)
Definition parseStart : ParseState :=
  {| ps_sections := []; ps_currentSection := []; ps_headline := [] |}.

(** The number of items under each of the six section names the report is
    read from, [None] for a name without a section. *)
Definition sectionSizes (m : Sections) : list (option nat) :=
  map (fun k => option_map (@List.length jsstring) (sectionGet (lit k) m))
      ["what happened"; "what changed"; "why it matters";
       "risks / watch-outs"; "action prompts"; "sources"]%string.

(* ===================================================================== *)
(** * Vocabulary of the properties of discovery                           *)
(* ===================================================================== *)

(** The block rules as [rankBySourceTier] reads them. *)
Definition blockRulesOf (d : DB) : list SourceRuleRow :=
  filter (fun r => str_eqb (rule_action r) (lit "block")) (sourceRule d).

(** The domain of a URL holds the pattern of a block rule. *)
Definition blockedBy (env : Env) (d : DB) (url : jsstring) : bool :=
  existsb (fun r => includes (extractDomain env url) (rule_pattern r))
          (blockRulesOf d).

(** The order of the ranking: by quality tier of the domain. *)
Definition tierLe (env : Env) (d : DB) (a b : jsstring) : Prop :=
  (tierOf env (source d) a <= tierOf env (source d) b)%Z.

(** The URLs of a given tier, in the order of the list. *)
Definition ofTier (env : Env) (d : DB) (t : Z) (urls : list jsstring)
  : list jsstring :=
  filter (fun u => (tierOf env (source d) u =? t)%Z) urls.

(** [maxSources] as discovery reads it for a user. *)
Definition maxSourcesOf (env : Env) (u : UserRow) : Z :=
  match user_deepDiveConfig u with
  | Some c => cfg_maxSources c
  | None => DEEP_DIVE_MAX_SOURCES env
  end.

(** The three states discovery writes. *)
Definition topicMissingState : DeepDiveState :=
  {| stage := Some DISCOVER; discovery := None; fetch := None;
     synthesis := None; publish := None;
     error := Some (lit "Interest not found") |}.

Definition noCandidatesState : DeepDiveState :=
  {| stage := Some SYNTHESIZE;
     discovery := Some {| candidateUrls := []; selectedCount := 0 |};
     fetch := None; synthesis := None; publish := None; error := None |}.

Definition fetchStateFor (selected : list jsstring) : DeepDiveState :=
  {| stage := Some FETCH;
     discovery := Some {| candidateUrls := selected;
                          selectedCount := Z.of_nat (List.length selected) |};
     fetch := Some {| totalSources := Z.of_nat (List.length selected);
                      fetchedCount := 0; okCount := 0; nextIndex := 0 |};
     synthesis := None; publish := None; error := None |}.

(** The source table holds a row of job [j] for the URL. *)
Definition hasSource (d : DB) (j : Id) (url : jsstring) : Prop :=
  exists s, In s (deepDiveSource d) /\ src_jobId s = j /\ src_url s = url.

(** What discovery leaves when it returns, for a job whose row was [row0],
    whose user is [u] and whose database held the sources [before]. *)
Definition discovered (env : Env) (j : Id) (row0 : JobRow) (u : UserRow)
  (before : list SourceRow) (d : DB) : Prop :=
  (findJob d j
   = Some (applyPatch (patchStatusState failed (Some topicMissingState)) row0)
   /\ deepDiveSource d = before)
  \/ (findJob d j
      = Some (applyPatch (patchStatusState partial (toJson noCandidatesState))
                row0)
      /\ deepDiveSource d = before)
  \/ (exists selected,
        selected <> []
        /\ findJob d j
           = Some (applyPatch (patchState (toJson (fetchStateFor selected)))
                     row0)
        /\ NoDup (map (canonicalizeUrl env) selected)
        /\ ((0 <= maxSourcesOf env u)%Z ->
            (Z.of_nat (List.length selected) <= maxSourcesOf env u)%Z)
        /\ (forall s, In s before -> In s (deepDiveSource d))
        /\ forall url, In url selected -> hasSource d j url).

(** A corpus with two candidates for the sample topic, one of them under
    two addresses that the canonical form identifies. *)
Definition corpusEnv : Env :=
  {| faults := fun _ => false; clock := fun _ => 0%Z;
     localDate := fun _ _ => Some 0%Z; monthDayLabel := fun _ => lit "March 3";
     httpGet := fun _ _ => NetworkError;
     cheerioLoad := fun _ => None;
     chat := fun _ _ => LlmFailure;
     renderSafeHtml := fun markdown => Some markdown;
     canonicalizeUrl := fun url => slice0 url 19;
     extractDomain := fun url => slice0 url 17;
     articleMatches := fun _ _ _ _ =>
       [lit "https://b.example/2"; lit "https://b.example/2?utm=x";
        lit "https://c.example/3"; lit "https://a.example/1"];
     articleSearch := fun _ _ _ => [];
     DEEP_DIVE_MAX_SOURCES := 12%Z;
     DEEP_DIVE_MAX_FETCH_PER_INVOCATION := 4;
     DEEP_DIVE_MAX_SYNTHESIS_SOURCES := 8 |}.

(** The sample database with a registry that gives a.example tier 1 and
    b.example tier 2, and a rule that blocks c.example. *)
Definition corpusDb : DB :=
  {| deepDiveJob := [sampleJob running 1%Z (toJson (stateOf DISCOVER))];
     deepDiveSource := []; deepDiveReport := [];
     interest := [{| int_id := 5%N; int_label := lit "Banking" |}];
     user := [sampleUser];
     source := [{| feed_url := lit "https://a.example/feed";
                   feed_qualityTier := 1 |};
                {| feed_url := lit "https://b.example/feed";
                   feed_qualityTier := 2 |}];
     sourceRule := [{| rule_action := lit "block";
                       rule_pattern := lit "c.example" |}];
     emailEvent := []; nextId := 100%N |}.

(* --------------------------------------------------------------------- *)
(** ** What a run keeps, over whole worlds                                *)
(* --------------------------------------------------------------------- *)

(** [winv I m]: [m] keeps the property [I] of the world (database, log of
    generation calls and outbox), whether it returns or throws. *)
Definition winv {A} (I : World -> Prop) (m : M A) : Prop :=
  forall w, I w -> wp m (fun _ => I) I w.

(** The world after one more generation call, and after one more mail. *)
Definition logged (w : World) (c : LlmCall) : World :=
  {| db := db w; tick := S (tick w); llmLog := llmLog w ++ [c];
     outbox := outbox w |}.

Definition mailed (w : World) (m : Mail) : World :=
  {| db := db w; tick := tick w; llmLog := llmLog w;
     outbox := outbox w ++ [m] |}.

(** The job updates of the four stages and of the [catch] block of the
    step function set the status and the state only. *)
Definition stagePatch (p : JobPatch) : Prop :=
  p_attempt p = None /\ p_updatedAt p = None.

(** What a step of job [j] may change in a row of the job table: nothing
    in the row of another job, and in a row of its own the status, the
    attempt counter, the state and the update stamp only. *)
Definition sameJob (j : Id) (r r' : JobRow) : Prop :=
  job_id r' = job_id r /\ job_userId r' = job_userId r
  /\ job_runWeek r' = job_runWeek r
  /\ job_topicInterestId r' = job_topicInterestId r
  /\ job_createdAt r' = job_createdAt r
  /\ (job_id r <> j -> r' = r).

(** A source row keeps its identifier, its job and its URL. *)
Definition sameSource (s s' : SourceRow) : Prop :=
  src_id s' = src_id s /\ src_jobId s' = src_jobId s
  /\ src_url s' = src_url s.

(** What a step of job [j] may change in the database: the job rows stay
    in place, each as [sameJob] says; the source rows stay in place with
    their identifier, job and URL, and rows of [j] may be added after
    them; report rows of [j] may be added; the users, the interests, the
    feed registry and the source rules are as they were. *)
Definition touches (j : Id) (d d' : DB) : Prop :=
  Forall2 (sameJob j) (deepDiveJob d) (deepDiveJob d')
  /\ (exists kept new,
        deepDiveSource d' = kept ++ new
        /\ Forall2 sameSource (deepDiveSource d) kept
        /\ Forall (fun s => src_jobId s = j) new)
  /\ (exists new,
        deepDiveReport d' = deepDiveReport d ++ new
        /\ Forall (fun r => rep_jobId r = j) new)
  /\ user d' = user d /\ interest d' = interest d
  /\ source d' = source d /\ sourceRule d' = sourceRule d.

(** Two jobs of two users, the first one finished, and a log and an outbox
    that are not empty. *)
Definition secondJob : JobRow :=
  {| job_id := 2%N; job_userId := 8%N; job_runWeek := (-3)%Z;
     job_status := queued; job_topicInterestId := 5%N; job_attempt := 0%Z;
     job_state := toJson (stateOf DISCOVER); job_createdAt := 1%Z;
     job_updatedAt := 1%Z |}.

Definition finishedWorld : World :=
  {| db := sampleDb [sampleJob complete 4%Z (Some draftedState); secondJob]
             [] [{| rep_id := 50%N; rep_jobId := 1%N;
                    rep_subject := lit "Deep Dive"; rep_markdown := lit "# x";
                    rep_html := lit "<h1>x</h1>" |}];
     tick := 0; llmLog := [ReduceCall];
     outbox := [{| mail_to := lit "reader@example.com";
                   mail_subject := lit "Deep Dive" |}] |}.

(* --------------------------------------------------------------------- *)
(** ** What the publisher leaves                                          *)
(* --------------------------------------------------------------------- *)

(** [state.synthesis?.partialMarkdown] of a job row, when it is a string
    that is not empty. *)
Definition draftOf (job : JobRow) : option jsstring :=
  truthy (match synthesis (fromJson (job_state job)) with
          | Some s => partialMarkdown s
          | None => None
          end).

(** The row the publisher creates when it starts from [w]: the subject is
    built from the label of the topic, or "Deep Dive" when the topic is
    gone, and from the date read after the two lookups. *)
Definition newReport (env : Env) (j : Id) (job : JobRow)
  (markdown html : jsstring) (w : World) : ReportRow :=
  {| rep_id := nextId (db w); rep_jobId := j;
     rep_subject :=
       subjectLine
         (orElse (option_map int_label
                    (findInterest (db w) (job_topicInterestId job)))
                 "Deep Dive")
         (monthDayLabel env (clock env (S (S (tick w)))));
     rep_markdown := markdown; rep_html := html |}.

(** The mail that carries a report to a user. *)
Definition mailFor (u : UserRow) (r : ReportRow) : Mail :=
  {| mail_to := user_email u; mail_subject := rep_subject r |}.

(** The update with which the publisher ends, by what it found: a report
    already there, no draft, or a draft that it turned into the report
    numbered [reportId]. *)
Definition closingPatch (j : Id) (d : DB) (job : JobRow) : JobPatch :=
  match findReport d j with
  | Some _ => patchStatus complete
  | None =>
      match draftOf job with
      | None => patchStatus failed
      | Some _ =>
          let state := fromJson (job_state job) in
          patchStatusState
            (if Status_eqb (job_status job) partial then partial
             else complete)
            (toJson {| stage := stage state; discovery := discovery state;
                       fetch := fetch state; synthesis := synthesis state;
                       publish := Some {| reportId := Some (nextId d);
                                          emailSent := true |};
                       error := error state |})
      end
  end.

(** What a run of the publisher for job [j] that started from [w] has
    added when it is at [w']: no generation call; and either no report and
    no mail, or the one report made from the draft of the job, with at
    most the one mail that carries it to the user of the job, who then has
    mail enabled and is not paused. *)
Definition publishAdds (env : Env) (j : Id) (w w' : World) : Prop :=
  llmLog w' = llmLog w
  /\ ((deepDiveReport (db w') = deepDiveReport (db w)
       /\ outbox w' = outbox w)
      \/ exists job u markdown html,
           findJob (db w) j = Some job
           /\ findUser (db w) (job_userId job) = Some u
           /\ findReport (db w) j = None
           /\ draftOf job = Some markdown
           /\ renderSafeHtml env markdown = Some html
           /\ deepDiveReport (db w')
              = deepDiveReport (db w)
                ++ [newReport env j job markdown html w]
           /\ (outbox w' = outbox w
               \/ (mayMail u = true
                   /\ outbox w'
                      = outbox w
                        ++ [mailFor u
                              (newReport env j job markdown html w)]))).

(** Since [w0], mails and reports have only been added, and no more mails
    than reports. *)
Definition accounted (w0 w : World) : Prop :=
  exists mails reports,
    outbox w = outbox w0 ++ mails
    /\ deepDiveReport (db w) = deepDiveReport (db w0) ++ reports
    /\ List.length mails <= List.length reports.

(* --------------------------------------------------------------------- *)
(** ** Counting the generation calls                                      *)
(* --------------------------------------------------------------------- *)

(** [m] makes at most [n] calls to the generation service, whatever its
    outcome; calls are only ever added to the log. *)
Definition callsAtMost {A} (n : nat) (m : M A) : Prop :=
  forall w, exists calls,
    llmLog (snd (m w)) = llmLog w ++ calls /\ List.length calls <= n.

(** A job at SYNTHESIZE with two read sources, under a service that never
    gives a usable answer. *)
Definition secondSource : SourceRow :=
  {| src_id := 12; src_jobId := 1; src_url := lit "https://b.example/2";
     src_accessStatus := ok; src_title := Some (lit "capital rules");
     src_extractedText := Some (lit "the capital rules were tightened");
     src_sourceName := Some (lit "b") |}.

Definition twoSourceWorld : World :=
  freshWorld (sampleDb [synthesisJob] [readSource; secondSource] []).

(* --------------------------------------------------------------------- *)
(** ** jobs/advanceDeepDiveJobs                                           *)
(* --------------------------------------------------------------------- *)

(** [status: { in: ['queued', 'running', 'partial'] }]. *)
Definition advancing (s : Status) : bool :=
  match s with
  | queued | running | partial => true
  | _ => false
  end.

(** The place of a status in the ascending order of its column, which
    holds the names as text: partial comes before queued and running. *)
Definition statusOrder (s : Status) : nat :=
  match s with
  | aborted => 0 | complete => 1 | failed => 2
  | partial => 3 | queued => 4 | running => 5
  end.

(** [orderBy: [{ status: 'asc' }, { createdAt: 'asc' }]], as a stable
    insertion sort. *)
Definition jobLe (a b : JobRow) : bool :=
  (statusOrder (job_status a) <? statusOrder (job_status b))
  || ((statusOrder (job_status a) =? statusOrder (job_status b))
      && (job_createdAt a <=? job_createdAt b)%Z).

Fixpoint insertJob (x : JobRow) (l : list JobRow) : list JobRow :=
  match l with
  | [] => [x]
  | y :: l' => if jobLe x y then x :: y :: l' else y :: insertJob x l'
  end.

(** The [findMany] of the tick: the jobs to advance, [maxJobs] at most. *)
Definition jobsToAdvance (maxJobs : nat) (d : DB) : list JobRow :=
  firstn maxJobs
    (fold_right insertJob []
       (filter (fun j => advancing (job_status j)) (deepDiveJob d))).

(** [Math.max(10000, Math.min(remainingMs - 5000, 45000))]. *)
Definition perJobBudget (remainingMs : Z) : Z :=
  Z.max 10000 (Z.min (remainingMs - 5000) 45000).

(** One turn of the loop over the jobs; the accumulator is [advanced].
    The loop stops when the time is up; a partial job that has its report
    is passed over; a step that throws is not counted. *)
Definition advanceOne (env : Env) (maxDuration startTime : Z)
  (job : JobRow) (advanced : nat) : M (nat * bool) :=
  more <- hasTimeRemaining env startTime maxDuration 12000 ;;
  if negb more then ret (advanced, false)
  else
    done <-
      (if Status_eqb (job_status job) partial then
         report <- query env (fun d => findReport d (job_id job)) ;;
         ret (match report with Some _ => true | None => false end)
       else ret false) ;;
    if (done : bool) then ret (advanced, true)
    else
      t <- now env ;;
      let remainingMs := (maxDuration - (t - startTime))%Z in
      try_catch
        (deepDiveStep env (job_id job) (perJobBudget remainingMs) ;;;
         ret (S advanced, true))
        (ret (advanced, true)).

(** [maxJobs] is the configured number of jobs per tick, a natural
    number. *)
Definition advanceDeepDiveJobs (env : Env) (maxJobs : nat)
  (maxDuration startTime : Z) : M nat :=
  jobs <- query env (jobsToAdvance maxJobs) ;;
  match jobs with
  | [] => ret 0
  | _ :: _ => forBreak jobs (advanceOne env maxDuration startTime) 0
  end.

(* --------------------------------------------------------------------- *)
(** ** jobs/dailyTick                                                     *)
(* --------------------------------------------------------------------- *)

Definition MAX_DURATION : Z := 55000.

Record DailyTickResult := {
  res_ok : bool;
  res_elapsed : Z;
  res_emailsSent : Z;
  res_digestsBuilt : Z;
  res_deepDiveJobsAdvanced : nat
}.

(** The tick in which the first three priorities are placeholders that
    only read the clock. [deepResearchEnabled] is the feature flag and
    [maxJobs] the configured number of jobs per tick, both read from the
    process environment. What the [try] block yields is whether it went
    through and how many jobs were advanced. *)
Definition runDailyTick (env : Env) (deepResearchEnabled : bool)
  (maxJobs : nat) : M DailyTickResult :=
  startTime <- now env ;;
  done <-
    try_catch
      (hasTimeRemaining env startTime MAX_DURATION 20000 ;;;
       hasTimeRemaining env startTime MAX_DURATION 10000 ;;;
       hasTimeRemaining env startTime MAX_DURATION 10000 ;;;
       if deepResearchEnabled then
         more <- hasTimeRemaining env startTime MAX_DURATION 15000 ;;
         if (more : bool) then
           scheduleDeepDives env ;;;
           again <- hasTimeRemaining env startTime MAX_DURATION 12000 ;;
           if (again : bool) then
             advanced <- advanceDeepDiveJobs env maxJobs MAX_DURATION
                           startTime ;;
             ret (true, advanced)
           else ret (true, 0)
         else ret (true, 0)
       else ret (true, 0))
      (ret (false, 0)) ;;
  finish <- now env ;;
  ret {| res_ok := fst done; res_elapsed := (finish - startTime)%Z;
         res_emailsSent := 0; res_digestsBuilt := 0;
         res_deepDiveJobsAdvanced := snd done |}.

(** A Thursday with the sample user unscheduled and one older job of
    another user waiting at PUBLISH with a draft. *)
Definition waitingJob : JobRow :=
  {| job_id := 2%N; job_userId := 7%N; job_runWeek := (-10)%Z;
     job_status := partial; job_topicInterestId := 5%N; job_attempt := 1%Z;
     job_state := Some draftedState; job_createdAt := (-7)%Z;
     job_updatedAt := (-7)%Z |}.

Definition tickWorld : World :=
  freshWorld (sampleDb [waitingJob] [] []).

(** [m] returns from every world, whatever fails inside it. *)
Definition returns {A} (m : M A) : Prop :=
  forall w, exists a w', m w = (Returned a, w').

(** When [m] returns, what it returns satisfies [R]. *)
Definition yields {A} (R : A -> Prop) (m : M A) : Prop :=
  forall w a w', m w = (Returned a, w') -> R a.

(** A world in which one job waits with a status other than partial, and
    an environment in which every call fails from the second one on. *)
Definition brokenEnv : Env := withFaults (fun n => Nat.leb 1 n) quietEnv.

(* --------------------------------------------------------------------- *)
(** ** What the scheduler creates                                         *)
(* --------------------------------------------------------------------- *)

(** The key of the unique index of the job table. *)
Definition weekKey (j : JobRow) : Id * Z := (job_userId j, job_runWeek j).

(** A job as a run of the scheduler creates it from the database [d],
    the run making the calls [from] to [upto - 1]: queued, at DISCOVER,
    with no attempt yet; for a user with an enabled configuration whose
    day of the week is today in the time zone of the user, today being
    read off the clock at a call [n] of the run; for the Monday of that
    day's week, a week for which the user had no job; on one of the
    deep-dive topics of the user. *)
Definition scheduledFrom (env : Env) (d : DB) (from upto : nat)
  (job : JobRow) : Prop :=
  job_status job = queued
  /\ job_attempt job = 0%Z
  /\ job_state job = toJson (stateOf DISCOVER)
  /\ utcDay (job_runWeek job) = 1%Z
  /\ findJobOfWeek d (job_userId job) (job_runWeek job) = None
  /\ exists u c n today,
       In (u, c) (enabledConfigs d)
       /\ from <= n < upto
       /\ localDate env (clock env n) (user_timezone u) = Some today
       /\ job_userId job = user_id u
       /\ In (job_topicInterestId job) (user_deepDiveTopics u)
       /\ getDayOfWeek today = cfg_dayOfWeek c
       /\ job_runWeek job = getMondayOfWeek today.

(* --------------------------------------------------------------------- *)
(** ** What a fetch batch writes                                          *)
(* --------------------------------------------------------------------- *)

(** What a fetch batch may have done to a source row, given the
    identifiers [ids] of the sources it listed: nothing, or classified a
    row that has one of these identifiers. *)
Definition fetchedFrom (ids : list Id) (s s' : SourceRow) : Prop :=
  sameSource s s'
  /\ (s' = s \/ (In (src_id s) ids /\ src_accessStatus s' <> unknown)).

(** The sample job at FETCH with its two unfetched sources, beside a
    source of another job and one that is already classified. *)
Definition crowdedWorld : World :=
  freshWorld (sampleDb [fetchingJob]
                [unfetchedSource 11 "https://a.example/1";
                 {| src_id := 20; src_jobId := 2;
                    src_url := lit "https://c.example/3";
                    src_accessStatus := unknown; src_title := None;
                    src_extractedText := None; src_sourceName := None |};
                 {| src_id := 21; src_jobId := 1;
                    src_url := lit "https://d.example/4";
                    src_accessStatus := paywalled; src_title := None;
                    src_extractedText := None; src_sourceName := None |};
                 unfetchedSource 12 "https://b.example/2"] []).

(* --------------------------------------------------------------------- *)
(** ** Further vocabulary                                                 *)
(* --------------------------------------------------------------------- *)

(** A job that waits at PUBLISH with the draft [markdown], on an attempt at
    or beyond the ceiling, unfinished and without a report. *)
Definition awaitsPublication (markdown : jsstring) (j : Id) (d : DB) : Prop :=
  exists row st sy,
    findJob d j = Some row
    /\ hardTerminal (job_status row) = false
    /\ (MAX_ATTEMPTS <= job_attempt row + 1)%Z
    /\ job_state row = Some st
    /\ stage st = Some PUBLISH
    /\ synthesis st = Some sy
    /\ truthy (partialMarkdown sy) = Some markdown
    /\ findReport d j = None.

(** An environment in which nothing fails except the rendering of
    markdown, which fails on every draft. *)
Definition unrenderedEnv : Env :=
  {| faults := faults quietEnv; clock := clock quietEnv;
     localDate := localDate quietEnv;
     monthDayLabel := monthDayLabel quietEnv; httpGet := httpGet quietEnv;
     cheerioLoad := cheerioLoad quietEnv; chat := chat quietEnv;
     renderSafeHtml := fun _ => None;
     canonicalizeUrl := canonicalizeUrl quietEnv;
     extractDomain := extractDomain quietEnv;
     articleMatches := articleMatches quietEnv;
     articleSearch := articleSearch quietEnv;
     DEEP_DIVE_MAX_SOURCES := DEEP_DIVE_MAX_SOURCES quietEnv;
     DEEP_DIVE_MAX_FETCH_PER_INVOCATION :=
       DEEP_DIVE_MAX_FETCH_PER_INVOCATION quietEnv;
     DEEP_DIVE_MAX_SYNTHESIS_SOURCES :=
       DEEP_DIVE_MAX_SYNTHESIS_SOURCES quietEnv |}.

(** The sample job at FETCH with four sources still to fetch. *)
Definition fourSourceWorld : World :=
  freshWorld (sampleDb [fetchingJob]
                [unfetchedSource 11 "https://a.example/1";
                 unfetchedSource 12 "https://b.example/2";
                 unfetchedSource 13 "https://c.example/3";
                 unfetchedSource 14 "https://d.example/4"] []).

(** The bullets of a section written as one bullet. *)
Definition mergeBullets (bullets : list jsstring) : list jsstring :=
  match bullets with
  | [] => []
  | _ :: _ => [join (lit " ") bullets]
  end.

(** The report with "What Changed" and "Risks / Watch-outs" each written
    as one bullet. *)
Definition mergeOpenSections (report : DeepDiveReportData)
  : DeepDiveReportData :=
  {| headline := headline report;
     whatHappened := whatHappened report;
     whatChanged := mergeBullets (whatChanged report);
     whyItMatters := whyItMatters report;
     risks := mergeBullets (risks report);
     actionPrompts := actionPrompts report;
     sources := sources report |}.

(** [l] is [l'] with some elements left out, the others in their order. *)
Inductive subsequence {A} : list A -> list A -> Prop :=
| sub_nil : subsequence [] []
| sub_skip x l l' : subsequence l l' -> subsequence l (x :: l')
| sub_keep x l l' : subsequence l l' -> subsequence (x :: l) (x :: l').

(** The first of [urls] that has the canonical form of [url]. *)
Definition firstOfForm (env : Env) (urls : list jsstring) (url : jsstring)
  : option jsstring :=
  find (fun c => str_eqb (canonicalizeUrl env c) (canonicalizeUrl env url))
       urls.

(* ===================================================================== *)
(** * A program logic for the monad: rules                                *)
(* ===================================================================== *)

Lemma wp_run {A} (m : M A) Q E w :
  wp m Q E w ->
  forall o w', m w = (o, w') ->
    match o with Returned a => Q a w' | Thrown => E w' end.
Proof. unfold wp. intros H o w' Hm. rewrite Hm in H. destruct o; exact H. Qed.

Lemma triple_conseq {A} (P P' : DB -> Prop) (m : M A)
  (Q Q' : A -> DB -> Prop) (E E' : DB -> Prop) :
  triple P' m Q' E' ->
  (forall d, P d -> P' d) ->
  (forall a d, Q' a d -> Q a d) ->
  (forall d, E' d -> E d) ->
  triple P m Q E.
Proof.
  intros H HP HQ HE w Hw. specialize (H w (HP _ Hw)). unfold wp in *.
  destruct (m w) as [[a|] w']; auto.
Qed.

Lemma triple_weaken_E {A} (P : DB -> Prop) (m : M A)
  (Q : A -> DB -> Prop) (E E' : DB -> Prop) :
  triple P m Q E' -> (forall d, E' d -> E d) -> triple P m Q E.
Proof. intros H HE. eapply triple_conseq; [exact H| | |]; auto. Qed.

Lemma triple_ret {A} (P : DB -> Prop) (a : A) (Q : A -> DB -> Prop) E :
  (forall d, P d -> Q a d) -> triple P (ret a) Q E.
Proof. intros H w Hw. unfold wp, ret. auto. Qed.

Lemma triple_throw {A} (P : DB -> Prop) (Q : A -> DB -> Prop)
  (E : DB -> Prop) :
  (forall d, P d -> E d) -> triple P (@throw A) Q E.
Proof. intros H w Hw. unfold wp, throw. auto. Qed.

Lemma triple_bind {A B} (P : DB -> Prop) (m : M A) (k : A -> M B)
  (Q1 : A -> DB -> Prop) (Q : B -> DB -> Prop) (E : DB -> Prop) :
  triple P m Q1 E ->
  (forall a, triple (Q1 a) (k a) Q E) ->
  triple P (bind m k) Q E.
Proof.
  intros Hm Hk w Hw. specialize (Hm w Hw). unfold wp, bind in *.
  destruct (m w) as [[a|] w1]; [|exact Hm].
  exact (Hk a w1 Hm).
Qed.

Lemma triple_try {A} (P : DB -> Prop) (m h : M A)
  (Q : A -> DB -> Prop) (E1 E : DB -> Prop) :
  triple P m Q E1 ->
  triple E1 h Q E ->
  triple P (try_catch m h) Q E.
Proof.
  intros Hm Hh w Hw. specialize (Hm w Hw). unfold wp, try_catch in *.
  destruct (m w) as [[a|] w1]; [exact Hm|].
  exact (Hh w1 Hm).
Qed.

Lemma triple_absurd {A} (P : DB -> Prop) (m : M A) Q E :
  (forall d, P d -> False) -> triple P m Q E.
Proof. intros H w Hw. destruct (H _ Hw). Qed.

(** A fact that does not depend on the database can be taken out of the
    precondition. *)
Lemma triple_pure {A} (P : DB -> Prop) (F : Prop) (m : M A) Q E :
  (F -> triple P m Q E) -> triple (fun d => P d /\ F) m Q E.
Proof. intros H w [Hw HF]. exact (H HF w Hw). Qed.

(** A loop whose accumulator keeps [R] while the database keeps [P]. *)
Lemma triple_forBreak {A S} (P : DB -> Prop) (R : S -> Prop) (E : DB -> Prop)
  (xs : list A) (body : A -> S -> M (S * bool)) :
  (forall x s, R s ->
     triple P (body x s) (fun r d => P d /\ R (fst r)) E) ->
  forall s, R s -> triple P (forBreak xs body s) (fun s' d => P d /\ R s') E.
Proof.
  intros Hb. induction xs as [|x xs IH]; intros s Hs; simpl.
  - apply triple_ret. auto.
  - eapply triple_bind; [apply (Hb x s Hs)|].
    intros [s' more]; simpl. apply triple_pure. intros Hs'.
    destruct more; [apply IH; exact Hs'|apply triple_ret; auto].
Qed.

Section Rules.

Variable env : Env.

Lemma triple_ask {A} (P : DB -> Prop) (f : nat -> A) :
  triple P (ask env f) (fun _ d => P d) P.
Proof.
  intros w Hw. unfold wp, ask. destruct (faults env (tick w)); exact Hw.
Qed.

Lemma triple_call (P : DB -> Prop) :
  triple P (call env) (fun _ d => P d) P.
Proof. apply triple_ask. Qed.

Lemma triple_now (P : DB -> Prop) E :
  triple P (now env) (fun _ d => P d) E.
Proof. intros w Hw. exact Hw. Qed.

Lemma triple_hasTime (P : DB -> Prop) E a b c :
  triple P (hasTimeRemaining env a b c) (fun _ d => P d) E.
Proof. intros w Hw. exact Hw. Qed.

Lemma triple_chat (P : DB -> Prop) E c :
  triple P (chatCompletion env c) (fun _ d => P d) E.
Proof.
  intros w Hw. unfold wp, chatCompletion.
  destruct (chat env (tick w) c); exact Hw.
Qed.

(** A read returns what the current database holds. *)
Lemma triple_query {A} (P : DB -> Prop) (f : DB -> A) :
  triple P (query env f) (fun a d => P d /\ a = f d) P.
Proof.
  intros w Hw. unfold wp, query, bind, call, ask.
  destruct (faults env (tick w)); simpl; auto.
Qed.

Lemma triple_queryOrThrow {A} (P : DB -> Prop) (f : DB -> option A) :
  triple P (queryOrThrow env f) (fun a d => P d /\ f d = Some a) P.
Proof.
  intros w Hw. unfold wp, queryOrThrow, query, bind, call, ask.
  destruct (faults env (tick w)); simpl; auto.
  destruct (f (db w)) eqn:Hf; simpl; auto.
Qed.

(** A write moves from [P] to [Q] when it goes through, and stays in [P]
    when it is refused or fails. *)
Lemma triple_exec (P Q : DB -> Prop) (f : DB -> option DB) :
  (forall d d', P d -> f d = Some d' -> Q d') ->
  triple P (exec env f) (fun _ => Q) P.
Proof.
  intros H w Hw. unfold wp, exec, bind, call, ask.
  destruct (faults env (tick w)); simpl; auto.
  destruct (f (db w)) eqn:Hf; simpl; eauto.
Qed.

Lemma triple_insert {A} (P : DB -> Prop) (Q : A -> DB -> Prop)
  (f : nat -> DB -> A * DB) :
  (forall n d, P d -> Q (fst (f n d)) (snd (f n d))) ->
  triple P (insert env f) Q P.
Proof.
  intros H w Hw. unfold wp, insert.
  destruct (faults env (tick w)); simpl; auto.
  specialize (H (tick w) (db w) Hw).
  destruct (f (tick w) (db w)); simpl in *; auto.
Qed.

(** Invariants through the control structures. *)
Lemma inv_ret {A} (I : DB -> Prop) (a : A) : inv I (ret a).
Proof. apply triple_ret; auto. Qed.

Lemma inv_throw {A} (I : DB -> Prop) : inv I (@throw A).
Proof. apply triple_throw; auto. Qed.

Lemma inv_bind {A B} (I : DB -> Prop) (m : M A) (k : A -> M B) :
  inv I m -> (forall a, inv I (k a)) -> inv I (bind m k).
Proof. intros Hm Hk. eapply triple_bind; [exact Hm|exact Hk]. Qed.

Lemma inv_try {A} (I : DB -> Prop) (m h : M A) :
  inv I m -> inv I h -> inv I (try_catch m h).
Proof. intros Hm Hh. eapply triple_try; [exact Hm|exact Hh]. Qed.

Lemma inv_ask {A} (I : DB -> Prop) (f : nat -> A) : inv I (ask env f).
Proof. apply triple_ask. Qed.

Lemma inv_call (I : DB -> Prop) : inv I (call env).
Proof. apply triple_call. Qed.

Lemma inv_now (I : DB -> Prop) : inv I (now env).
Proof. apply triple_now. Qed.

Lemma inv_hasTime (I : DB -> Prop) a b c :
  inv I (hasTimeRemaining env a b c).
Proof. apply triple_hasTime. Qed.

Lemma inv_chat (I : DB -> Prop) c : inv I (chatCompletion env c).
Proof. apply triple_chat. Qed.

Lemma inv_query {A} (I : DB -> Prop) (f : DB -> A) : inv I (query env f).
Proof.
  eapply triple_conseq; [apply (triple_query I f)| | |]; simpl; tauto.
Qed.

(** What is read was read from a database that satisfies the invariant. *)
Lemma inv_bind_query {A B} (I : DB -> Prop) (f : DB -> A) (k : A -> M B) :
  (forall d, I d -> inv I (k (f d))) ->
  inv I (bind (query env f) k).
Proof.
  intros Hk. eapply triple_bind; [apply (triple_query I f)|].
  intros a w [Hw Ha]. subst a. exact (Hk _ Hw w Hw).
Qed.

Lemma inv_bind_queryOrThrow {A B} (I : DB -> Prop) (f : DB -> option A)
  (k : A -> M B) :
  (forall d a, I d -> f d = Some a -> inv I (k a)) ->
  inv I (bind (queryOrThrow env f) k).
Proof.
  intros Hk. eapply triple_bind; [apply (triple_queryOrThrow I f)|].
  intros a w [Hw Ha]. exact (Hk _ _ Hw Ha w Hw).
Qed.

Lemma inv_exec (I : DB -> Prop) (f : DB -> option DB) :
  (forall d d', I d -> f d = Some d' -> I d') -> inv I (exec env f).
Proof. intros H. apply triple_exec. exact H. Qed.

Lemma inv_insert {A} (I : DB -> Prop) (f : nat -> DB -> A * DB) :
  (forall n d, I d -> I (snd (f n d))) -> inv I (insert env f).
Proof. intros H. apply triple_insert. exact H. Qed.

Lemma inv_forBreak {A S} (I : DB -> Prop) (xs : list A)
  (body : A -> S -> M (S * bool)) :
  (forall x s, inv I (body x s)) ->
  forall s, inv I (forBreak xs body s).
Proof.
  intros Hb. induction xs as [|x xs IH]; intros s; simpl.
  - apply inv_ret.
  - apply inv_bind; [apply Hb|].
    intros [s' more]; simpl. destruct more; [apply IH|apply inv_ret].
Qed.

End Rules.

(* ===================================================================== *)
(** * The tables each operation touches                                   *)
(* ===================================================================== *)

Lemma find_map_id {A} (key : A -> Id) (g : A -> A) (id : Id) (l : list A) :
  (forall x, key (g x) = key x) ->
  find (fun x => N.eqb (key x) id) (map g l)
  = option_map g (find (fun x => N.eqb (key x) id) l).
Proof.
  intros Hk. induction l as [|x l IH]; simpl; [reflexivity|].
  rewrite Hk. destruct (N.eqb (key x) id); simpl; auto.
Qed.

Lemma find_map_other (id j : Id) (p : JobPatch) (l : list JobRow) :
  id <> j ->
  find (fun x => N.eqb (job_id x) j)
       (map (fun x => if N.eqb (job_id x) id then applyPatch p x else x) l)
  = find (fun x => N.eqb (job_id x) j) l.
Proof.
  intros Hne. induction l as [|x l IH]; simpl; [reflexivity|].
  destruct (N.eqb (job_id x) id) eqn:Hid; simpl.
  - apply N.eqb_eq in Hid.
    destruct (N.eqb (job_id x) j) eqn:Hj.
    + apply N.eqb_eq in Hj. congruence.
    + exact IH.
  - destruct (N.eqb (job_id x) j); auto.
Qed.

Lemma find_map_same (id : Id) (p : JobPatch) (l : list JobRow) :
  find (fun x => N.eqb (job_id x) id)
       (map (fun x => if N.eqb (job_id x) id then applyPatch p x else x) l)
  = option_map (applyPatch p) (find (fun x => N.eqb (job_id x) id) l).
Proof.
  induction l as [|x l IH]; simpl; [reflexivity|].
  destruct (N.eqb (job_id x) id) eqn:Hid; simpl.
  - rewrite Hid. reflexivity.
  - rewrite Hid. exact IH.
Qed.

(** The row of a job after an update. *)
Lemma findJob_updateJob j0 p d d' j :
  updateJob j0 p d = Some d' ->
  findJob d' j
  = if N.eqb j0 j then option_map (applyPatch p) (findJob d j)
    else findJob d j.
Proof.
  unfold updateJob. destruct (findJob d j0) eqn:Hf; [|discriminate].
  intros H. inversion H; subst d'. unfold findJob; simpl.
  destruct (N.eqb j0 j) eqn:Hj.
  - apply N.eqb_eq in Hj. subst j. apply find_map_same.
  - apply N.eqb_neq in Hj. apply find_map_other. exact Hj.
Qed.

Lemma updateJob_reports j0 p d d' :
  updateJob j0 p d = Some d' -> deepDiveReport d' = deepDiveReport d.
Proof.
  unfold updateJob. destruct (findJob d j0); [|discriminate].
  intros H. inversion H. reflexivity.
Qed.

Lemma updateJob_sources j0 p d d' :
  updateJob j0 p d = Some d' -> deepDiveSource d' = deepDiveSource d.
Proof.
  unfold updateJob. destruct (findJob d j0); [|discriminate].
  intros H. inversion H. reflexivity.
Qed.

Lemma updateSource_jobs id p d d' :
  updateSource id p d = Some d' ->
  deepDiveJob d' = deepDiveJob d /\ deepDiveReport d' = deepDiveReport d.
Proof.
  unfold updateSource.
  destruct (find _ (deepDiveSource d)); [|discriminate].
  intros H. inversion H. split; reflexivity.
Qed.

Lemma createSources_jobs jobId urls d :
  deepDiveJob (createSources jobId urls d) = deepDiveJob d
  /\ deepDiveReport (createSources jobId urls d) = deepDiveReport d.
Proof.
  revert d. induction urls as [|u urls IH]; intros d; simpl; [auto|].
  destruct (existsb _ (deepDiveSource d)).
  - apply IH.
  - destruct (IH (withSources d
                   (deepDiveSource d ++
                    [{| src_id := nextId d; src_jobId := jobId; src_url := u;
                        src_accessStatus := unknown; src_title := None;
                        src_extractedText := None; src_sourceName := None |}])
                   (nextId d + 1)%N)) as [H1 H2].
    rewrite H1, H2. split; reflexivity.
Qed.

Section Frames.

Variable env : Env.
Variable I : DB -> Prop.
Hypothesis I_JR : JR_only I.

(** Writes to the source and event tables keep a property of the job and
    report tables. *)
Lemma inv_updateSource id p : inv I (exec env (updateSource id p)).
Proof.
  apply inv_exec. intros d d' Hd Hu.
  destruct (updateSource_jobs _ _ _ _ Hu) as [H1 H2].
  apply (I_JR d); auto.
Qed.

Lemma inv_createSources jobId urls :
  inv I (exec env (fun d => Some (createSources jobId urls d))).
Proof.
  apply inv_exec. intros d d' Hd Hu. inversion Hu; subst d'.
  destruct (createSources_jobs jobId urls d) as [H1 H2].
  apply (I_JR d); auto.
Qed.

Lemma inv_createTokenSet : inv I (createTokenSet env).
Proof.
  unfold createTokenSet.
  repeat (apply inv_bind; [apply inv_call|intros _]). apply inv_call.
Qed.

Lemma inv_deliver u subject r : inv I (deliver env u subject r).
Proof.
  unfold deliver. apply inv_try; [|apply inv_ret].
  apply inv_bind; [apply inv_call|intros _].
  apply inv_bind.
  - intros w Hw. exact Hw.
  - intros _. apply inv_exec. intros d d' Hd H. inversion H; subst d'.
    apply (I_JR d); auto.
Qed.

Lemma inv_fetchSingleSource url : inv I (fetchSingleSource env url).
Proof. intros w Hw. exact Hw. Qed.

Lemma inv_rankBySourceTier urls : inv I (rankBySourceTier env urls).
Proof.
  unfold rankBySourceTier.
  apply inv_bind; [apply inv_query|intros feeds].
  apply inv_bind; [apply inv_query|intros rules]. apply inv_ret.
Qed.

Lemma inv_summarize srcs : inv I (summarize env srcs).
Proof.
  induction srcs as [|s srcs IH]; simpl; [apply inv_ret|].
  apply inv_bind; [apply inv_chat|intros _; exact IH].
Qed.

Lemma inv_synthesizeMapReduce srcs : inv I (synthesizeMapReduce env srcs).
Proof.
  unfold synthesizeMapReduce.
  apply inv_bind; [apply inv_summarize|intros _; apply inv_chat].
Qed.

Lemma inv_queryOrThrow {A} (f : DB -> option A) : inv I (queryOrThrow env f).
Proof.
  unfold queryOrThrow. apply inv_bind; [apply inv_query|].
  intros [a|]; [apply inv_ret|apply inv_throw].
Qed.

End Frames.

(* ===================================================================== *)
(** * What every stage keeps                                              *)
(* ===================================================================== *)

Ltac inv_auto :=
  repeat
    match goal with
    | |- inv _ (ret _) => apply inv_ret
    | |- inv _ throw => apply inv_throw
    | |- inv _ (now _) => apply inv_now
    | |- inv _ (hasTimeRemaining _ _ _ _) => apply inv_hasTime
    | |- inv _ (chatCompletion _ _) => apply inv_chat
    | |- inv _ (synthesizeDirect _ _) => apply inv_chat
    | |- inv _ (call _) => apply inv_call
    | |- inv _ (ask _ _) => apply inv_ask
    | |- inv _ (query _ _) => apply inv_query
    | |- inv _ (queryOrThrow _ _) => apply inv_queryOrThrow; assumption
    | |- inv _ (exec _ (updateSource _ _)) =>
        apply inv_updateSource; assumption
    | |- inv _ (exec _ (fun d => Some (createSources _ _ d))) =>
        apply inv_createSources; assumption
    | |- inv _ (createTokenSet _) => apply inv_createTokenSet; assumption
    | |- inv _ (deliver _ _ _ _) => apply inv_deliver; assumption
    | |- inv _ (fetchSingleSource _ _) => apply inv_fetchSingleSource
    | |- inv _ (rankBySourceTier _ _) => apply inv_rankBySourceTier
    | |- inv _ (synthesizeMapReduce _ _) => apply inv_synthesizeMapReduce
    | |- inv _ (bind _ _) => apply inv_bind; [|intro]
    | |- inv _ (try_catch _ _) => apply inv_try
    | |- inv _ (match ?x with _ => _ end) => destruct x
    | |- inv _ (if ?x then _ else _) => destruct x
    end.

Section Stages.

Variable env : Env.
Variable I : DB -> Prop.
Hypothesis I_JR : JR_only I.
Variable j0 : Id.

Lemma inv_updateJob (OK : JobPatch -> Prop) p :
  keptBy I j0 OK -> OK p -> inv I (exec env (updateJob j0 p)).
Proof.
  intros Hk Hp. apply inv_exec. intros d d' Hd Hu. exact (Hk p d d' Hp Hd Hu).
Qed.

Lemma keeps_status k s : patchKeeps k (patchStatus s).
Proof. exact Logic.I. Qed.

(** Discovery writes DISCOVER, FETCH or SYNTHESIZE. *)
Lemma discover_inv :
  keptBy I j0 (patchKeeps 0) -> inv I (discoverCandidates env j0).
Proof.
  intros Hk. unfold discoverCandidates. inv_auto.
  all: eapply inv_updateJob; [exact Hk|].
  all: unfold patchKeeps; simpl; eexists; split; [reflexivity|simpl; lia].
Qed.

Lemma fetchOne_inv startTime maxDuration src acc :
  inv I (fetchOne env startTime maxDuration src acc).
Proof. unfold fetchOne. inv_auto. Qed.

(** The fetch stage writes FETCH or SYNTHESIZE. *)
Lemma fetch_inv maxDuration :
  keptBy I j0 (patchKeeps 1) -> inv I (fetchAndExtractBatch env j0 maxDuration).
Proof.
  intros Hk. unfold fetchAndExtractBatch.
  apply inv_bind; [apply inv_now|intros startTime].
  apply inv_bind; [apply inv_queryOrThrow; assumption|intros job].
  apply inv_bind; [apply inv_query|intros unfetched].
  apply inv_bind; [apply inv_forBreak; intros; apply fetchOne_inv|].
  intros counts.
  apply inv_bind; [apply inv_query|intros remaining].
  apply inv_bind.
  - destruct (snd (nextFetchState _ _ _ _)); [|apply inv_ret].
    eapply inv_updateJob; [exact Hk|apply keeps_status].
  - intros _. eapply inv_updateJob; [exact Hk|].
    unfold patchKeeps, nextFetchState; simpl.
    destruct (4 <=? snd counts)%Z; simpl; [eexists; split; [reflexivity|simpl; lia]|].
    destruct (0 <? remaining); simpl; [eexists; split; [reflexivity|simpl; lia]|].
    destruct (2 <=? snd counts)%Z; simpl; eexists; split;
      try reflexivity; simpl; lia.
Qed.

Lemma createMinimal_inv :
  keptBy I j0 (patchKeeps 2) -> inv I (createMinimalReport env j0).
Proof.
  intros Hk. unfold createMinimalReport. inv_auto.
  eapply inv_updateJob; [exact Hk|].
  unfold patchKeeps; simpl. eexists; split; [reflexivity|simpl; lia].
Qed.

(** Synthesis writes SYNTHESIZE or PUBLISH. *)
Lemma synth_inv maxDuration :
  keptBy I j0 (patchKeeps 2) -> inv I (synthesizeReport env j0 maxDuration).
Proof.
  intros Hk. unfold synthesizeReport.
  apply inv_bind; [apply inv_now|intros startTime].
  apply inv_bind; [apply inv_queryOrThrow; assumption|intros job].
  apply inv_bind; [apply inv_query|intros srcs].
  destruct srcs as [|s0 srcs]; [apply createMinimal_inv; exact Hk|].
  apply inv_bind; [apply inv_query|intros topic].
  apply inv_bind.
  { inv_auto. }
  intros generated.
  apply inv_bind.
  { inv_auto.
    eapply inv_updateJob; [exact Hk|].
    unfold patchKeeps; simpl. eexists; split; [reflexivity|simpl; lia]. }
  intros markdown.
  eapply inv_updateJob; [exact Hk|].
  unfold patchKeeps; simpl. eexists; split; [reflexivity|simpl; lia].
Qed.

(** The publisher: a job that has a report gets none; otherwise the one
    insertion is made while the job still has no report, and the state
    written keeps the stage that was read. Every path that returns ends
    with an update that sets a closing status; [Q] is what such an update
    establishes. *)
Lemma publish_triple (Q : DB -> Prop) :
  keptBy I j0 (fun p => p_state p = None) ->
  (forall d r n, I d -> findReport d j0 = None -> rep_jobId r = j0 ->
     I (withReports d (deepDiveReport d ++ [r]) n)) ->
  (forall d d' p s, I d -> p_status p = Some s -> closing s ->
     (p_state p = None \/
      exists st row, findJob d j0 = Some row /\ p_state p = Some (Some st)
                     /\ stage st = stage (fromJson (job_state row))) ->
     updateJob j0 p d = Some d' -> Q d') ->
  triple I (publishReport env j0) (fun _ => Q) I.
Proof.
  intros Hstatus Hins Hclose. unfold publishReport.
  eapply triple_bind; [apply triple_queryOrThrow|].
  intros [[job u] rep]; simpl.
  destruct rep as [r|].
  { eapply triple_conseq; [apply (triple_exec env I Q)| | |]; simpl; auto.
    - intros d d' Hd Hu.
      refine (Hclose d d' (patchStatus complete) complete Hd eq_refl _ _ Hu);
        [left; reflexivity|left; reflexivity].
    - tauto. }
  destruct (truthy _) as [markdown|].
  2:{ eapply triple_conseq; [apply (triple_exec env I Q)| | |]; simpl; auto.
      - intros d d' Hd Hu.
        refine (Hclose d d' (patchStatus failed) failed Hd eq_refl _ _ Hu);
          [right; left; reflexivity|left; reflexivity].
      - tauto. }
  (* from here on the job row and the absence of a report are remembered *)
  set (J := fun d => I d /\ findJob d j0 = Some job /\ findReport d j0 = None).
  eapply triple_conseq with (P' := J) (Q' := fun _ => Q) (E' := I);
    [| | auto | auto].
  2:{ intros d [Hd Hq]. unfold J.
      destruct (findJob d j0) as [row|]; [|discriminate].
      destruct (findUser d (job_userId row)); [|discriminate].
      inversion Hq; subst. auto. }
  assert (JI : forall d, J d -> I d) by (intros d [H _]; exact H).
  eapply triple_bind.
  { eapply triple_conseq; [apply (triple_query env J)| | |]; simpl; auto.
    intros a d [H _]. exact H. }
  intros topic. simpl.
  eapply triple_bind.
  { apply (triple_now env J). }
  intros t. simpl.
  destruct (renderSafeHtml env markdown) as [safeHtml|];
    [|apply triple_throw; auto].
  eapply triple_bind with
    (Q1 := fun r d => I d /\ findJob d j0 = Some job).
  { eapply triple_conseq;
      [apply (triple_insert env J
                (fun r d => I d /\ findJob d j0 = Some job))| | |];
      simpl; auto.
    intros n d [H1 [H2 H3]]. split.
    - apply Hins; auto.
    - exact H2. }
  intros report.
  set (K := fun d => I d /\ findJob d j0 = Some job).
  assert (K_JR : JR_only K).
  { intros d d' Hj Hr [H1 H2]. unfold K. split.
    - apply (I_JR d); auto.
    - unfold findJob in *. rewrite <- Hj. exact H2. }
  assert (KI : forall d, K d -> I d) by (intros d [H _]; exact H).
  eapply triple_bind with (Q1 := fun _ => K).
  { eapply triple_conseq; [apply (@inv_createTokenSet env K)| | |]; auto. }
  intros _.
  eapply triple_bind with (Q1 := fun _ => K).
  { destruct (mayMail u).
    - eapply triple_conseq; [apply (@inv_deliver env K K_JR)| | |]; auto.
    - apply triple_ret; auto. }
  intros _.
  eapply triple_conseq; [apply (triple_exec env K Q)| | |]; auto.
  intros d d' [H1 H2] Hu.
  match type of Hu with
  | updateJob _ ?p _ = _ => refine (Hclose d d' p _ H1 eq_refl _ _ Hu)
  end.
  - unfold closing. destruct (Status_eqb (job_status job) partial); auto.
  - right. eexists. exists job. split; [exact H2|split; reflexivity].
Qed.

Lemma publish_inv :
  keptBy I j0 (fun p => p_state p = None) ->
  (forall d r n, I d -> findReport d j0 = None -> rep_jobId r = j0 ->
     I (withReports d (deepDiveReport d ++ [r]) n)) ->
  (forall d d' row p st, I d -> findJob d j0 = Some row ->
     p_state p = Some (Some st) ->
     stage st = stage (fromJson (job_state row)) ->
     updateJob j0 p d = Some d' -> I d') ->
  inv I (publishReport env j0).
Proof.
  intros Hstatus Hins Hfinal. apply publish_triple; auto.
  intros d d' p s Hd _ _ [Hnone|[st [row [Hrow [Hp Hst]]]]] Hu.
  - exact (Hstatus p d d' Hnone Hd Hu).
  - exact (Hfinal d d' row p st Hd Hrow Hp Hst Hu).
Qed.

End Stages.

(* ===================================================================== *)
(** * Stage order and report count through the orchestrator               *)
(* ===================================================================== *)

Lemma atLeast_JR k j : JR_only (atLeast k j).
Proof.
  intros d d' Hj _ [s [Hs Hk]]. exists s. split; [|exact Hk].
  unfold stageOfJob, findJob in *. rewrite <- Hj. exact Hs.
Qed.

Lemma keptBy_atLeast k j j0 r :
  (j0 = j -> k <= r) -> keptBy (atLeast k j) j0 (patchKeeps r).
Proof.
  intros Hr p d d' Hp [s [Hs Hk]] Hu. unfold atLeast, stageOfJob in *.
  rewrite (findJob_updateJob _ _ _ _ j Hu).
  destruct (N.eqb j0 j) eqn:Hj.
  - apply N.eqb_eq in Hj. specialize (Hr Hj).
    destruct (findJob d j) as [row|]; [|discriminate]. simpl.
    unfold patchKeeps in Hp. destruct (p_state p) as [js|]; simpl.
    + destruct Hp as [s' [Hs' Hle]]. exists s'. split; [exact Hs'|lia].
    + exists s. auto.
  - exists s. auto.
Qed.

Lemma atLeast_bound k j d : atLeast k j d -> k <= 3.
Proof. intros [s [_ Hk]]. destruct s; simpl in Hk; lia. Qed.

Lemma keptBy_atLeast_top k j j0 :
  keptBy (atLeast k j) j0 (patchKeeps 3).
Proof.
  intros p d d' Hp Hd Hu.
  eapply (@keptBy_atLeast k j j0 3);
    [intros _; exact (atLeast_bound _ _ _ Hd)|exact Hp|exact Hd|exact Hu].
Qed.

Lemma keptBy_weaken (I : DB -> Prop) j0 (OK OK' : JobPatch -> Prop) :
  (forall p, OK' p -> OK p) -> keptBy I j0 OK -> keptBy I j0 OK'.
Proof. intros H Hk p d d' Hp. apply Hk. auto. Qed.

Section Orchestrator.

Variable env : Env.

Lemma publish_atLeast k j j0 : inv (atLeast k j) (publishReport env j0).
Proof.
  apply publish_inv.
  - apply atLeast_JR.
  - eapply keptBy_weaken; [|apply (keptBy_atLeast_top k j j0)].
    intros p Hp. unfold patchKeeps. rewrite Hp. exact Logic.I.
  - intros d r n [s [Hs Hk]] _ _. exists s. split; [exact Hs|exact Hk].
  - intros d d' row p st [s [Hs Hk]] Hrow Hp Hst Hu.
    unfold atLeast, stageOfJob in *.
    rewrite (findJob_updateJob _ _ _ _ j Hu).
    destruct (N.eqb j0 j) eqn:Hj.
    + apply N.eqb_eq in Hj. subst j0. rewrite Hrow in *. simpl.
      rewrite Hp. simpl. exists s. split; [congruence|exact Hk].
    + exists s. auto.
Qed.

Lemma onStageError_atLeast k j j0 newAttempt state :
  inv (atLeast k j) (onStageError env j0 newAttempt state).
Proof.
  unfold onStageError. destruct (MAX_ATTEMPTS <=? newAttempt)%Z.
  - apply inv_bind; [apply inv_query|intros cj].
    destruct (negb _); [|apply inv_ret].
    apply inv_bind.
    + eapply inv_updateJob; [apply keptBy_atLeast_top|].
      unfold patchKeeps; simpl. eexists; split; [reflexivity|simpl; lia].
    + intros _. apply inv_try; [apply publish_atLeast|].
      eapply inv_updateJob; [apply keptBy_atLeast_top|exact Logic.I].
  - eapply inv_updateJob; [apply keptBy_atLeast_top|exact Logic.I].
Qed.

(** One step never moves a job to an earlier stage, whichever job is
    stepped. *)
Lemma enterStep_atLeast k j j0 :
  triple (atLeast k j) (enterStep env j0)
    (fun r d => atLeast k j d /\
                match r with
                | Some (job, _, _) => readAt k j j0 (fromJson (job_state job))
                | None => True
                end)
    (atLeast k j).
Proof.
  unfold enterStep.
  eapply triple_bind; [apply triple_now|intros startTime; simpl].
  eapply triple_bind; [apply triple_query|intros found; simpl].
  destruct found as [job|]; [|apply triple_ret; tauto].
  destruct (hardTerminal (job_status job)); [apply triple_ret; tauto|].
  set (P := fun d => atLeast k j d /\ Some job = findJob d j0).
  assert (Hread : forall d, P d -> readAt k j j0 (fromJson (job_state job))).
  { intros d [[s' [Hs' Hk]] Hf] Hj. subst j0.
    unfold stageOfJob in Hs'. rewrite <- Hf in Hs'. exists s'. auto. }
  apply triple_conseq with
    (P' := P)
    (Q' := fun r d => atLeast k j d /\
                match r with
                | Some (job, _, _) => readAt k j j0 (fromJson (job_state job))
                | None => True
                end)
    (E' := atLeast k j); auto.
  eapply triple_bind.
  { apply (triple_now env P). }
  intros stamp; simpl.
  eapply triple_bind with
    (Q1 := fun _ d => atLeast k j d /\
                      readAt k j j0 (fromJson (job_state job))).
  { eapply triple_conseq;
      [apply (triple_exec env P
                (fun d => atLeast k j d /\
                          readAt k j j0 (fromJson (job_state job))))| | |];
      simpl; auto; [|intros d [H _]; exact H].
    intros d d' Hd Hu. split; [|exact (Hread d Hd)].
    destruct Hd as [Hd _].
    refine (keptBy_atLeast_top k j j0 _ d d' _ Hd Hu). exact Logic.I. }
  intros _. apply triple_ret. tauto.
Qed.

Lemma dispatch_atLeast k j j0 maxDuration startTime state :
  readAt k j j0 state ->
  inv (atLeast k j) (dispatch env j0 maxDuration startTime state).
Proof.
  intros Hread. unfold dispatch.
  apply inv_bind; [apply inv_now|intros t].
  assert (Hrank : forall s, stage state = Some s -> j0 = j -> k <= stage_rank s).
  { intros s Hs Hj. destruct (Hread Hj) as [s' [Hs' Hk]]. congruence. }
  destruct (stage state) as [[]|] eqn:Hs.
  - apply discover_inv; [apply atLeast_JR|].
    apply keptBy_atLeast. apply (Hrank DISCOVER eq_refl).
  - apply fetch_inv; [apply atLeast_JR|].
    apply keptBy_atLeast. apply (Hrank FETCH eq_refl).
  - apply synth_inv.
    apply keptBy_atLeast. apply (Hrank SYNTHESIZE eq_refl).
  - apply publish_atLeast.
  - eapply inv_updateJob.
    + apply (keptBy_atLeast k j j0 0). intros Hj.
      destruct (Hread Hj) as [s' [Hs' _]]. congruence.
    + unfold patchKeeps; simpl. eexists; split; [reflexivity|simpl; lia].
Qed.

(** One step never moves a job to an earlier stage, whichever job is
    stepped. *)
Lemma step_atLeast k j j0 maxDuration :
  inv (atLeast k j) (deepDiveStep env j0 maxDuration).
Proof.
  unfold deepDiveStep.
  eapply triple_bind; [apply enterStep_atLeast|].
  intros [[[job startTime] newAttempt]|]; [|apply triple_ret; tauto].
  intros w [Hw Hread]. revert w Hw.
  change (inv (atLeast k j)
            (try_catch
               (dispatch env j0 maxDuration startTime
                  (fromJson (job_state job)))
               (onStageError env j0 newAttempt (fromJson (job_state job))))).
  apply inv_try; [|apply onStageError_atLeast].
  apply dispatch_atLeast. exact Hread.
Qed.

Lemma runSteps_app steps1 steps2 w :
  runSteps env (steps1 ++ steps2) w = runSteps env steps2 (runSteps env steps1 w).
Proof.
  revert w. induction steps1 as [|[j m] steps1 IH]; intros w; simpl; auto.
Qed.

Lemma runSteps_atLeast k j steps w :
  atLeast k j (db w) -> atLeast k j (db (runSteps env steps w)).
Proof.
  revert w. induction steps as [|[j0 m] steps IH]; intros w Hw; simpl; auto.
  apply IH. pose proof (step_atLeast k j j0 m w Hw) as H.
  unfold wp in H. destruct (deepDiveStep env j0 m w) as [[a|] w']; exact H.
Qed.

(** ** The report count *)

Lemma atMostOne_JR j : JR_only (atMostOne j).
Proof.
  intros d d' _ Hr H. unfold atMostOne, reportsOf in *. rewrite <- Hr. exact H.
Qed.

Lemma keptBy_atMostOne j j0 (OK : JobPatch -> Prop) :
  keptBy (atMostOne j) j0 OK.
Proof.
  intros p d d' _ H Hu. unfold atMostOne, reportsOf in *.
  rewrite (updateJob_reports _ _ _ _ Hu). exact H.
Qed.

Lemma findReport_none_count d j :
  findReport d j = None -> reportsOf d j = [].
Proof.
  unfold findReport, reportsOf. induction (deepDiveReport d) as [|r l IH];
    simpl; [reflexivity|].
  destruct (N.eqb (rep_jobId r) j); [discriminate|exact IH].
Qed.

Lemma publish_atMostOne j j0 : inv (atMostOne j) (publishReport env j0).
Proof.
  apply publish_inv.
  - apply atMostOne_JR.
  - apply keptBy_atMostOne.
  - intros d r n H Hnone Hr. unfold atMostOne, reportsOf in *. simpl.
    rewrite filter_app, length_app. simpl.
    destruct (N.eqb (rep_jobId r) j) eqn:Hj; simpl; [|lia].
    apply N.eqb_eq in Hj. assert (Heq : j = j0) by congruence.
    pose proof (findReport_none_count _ _ Hnone) as Hzero.
    unfold reportsOf in Hzero. rewrite Heq, Hzero. simpl. lia.
  - intros d d' row p st H _ _ _ Hu. unfold atMostOne, reportsOf in *.
    rewrite (updateJob_reports _ _ _ _ Hu). exact H.
Qed.

Lemma step_atMostOne j j0 maxDuration :
  inv (atMostOne j) (deepDiveStep env j0 maxDuration).
Proof.
  pose proof (atMostOne_JR j) as JR.
  pose proof (fun OK => keptBy_atMostOne j j0 OK) as KB.
  unfold deepDiveStep. apply inv_bind.
  { unfold enterStep.
    apply inv_bind; [apply inv_now|intros startTime].
    apply inv_bind; [apply inv_query|intros found].
    destruct found as [job|]; [|apply inv_ret].
    destruct (hardTerminal (job_status job)); [apply inv_ret|].
    apply inv_bind; [apply inv_now|intros stamp].
    apply inv_bind; [|intros _; apply inv_ret].
    eapply inv_updateJob; [apply (KB (fun _ => True))|exact Logic.I]. }
  intros [[[job startTime] newAttempt]|]; [|apply inv_ret].
  apply inv_try.
  - unfold dispatch. apply inv_bind; [apply inv_now|intros t].
    destruct (stage (fromJson (job_state job))) as [[]|].
    + apply discover_inv; auto.
    + apply fetch_inv; auto.
    + apply synth_inv; auto.
    + apply publish_atMostOne.
    + eapply inv_updateJob; [apply (KB (fun _ => True))|exact Logic.I].
  - unfold onStageError. destruct (MAX_ATTEMPTS <=? _)%Z.
    + apply inv_bind; [apply inv_query|intros cj].
      destruct (negb _); [|apply inv_ret].
      apply inv_bind.
      * eapply inv_updateJob; [apply (KB (fun _ => True))|exact Logic.I].
      * intros _. apply inv_try; [apply publish_atMostOne|].
        eapply inv_updateJob; [apply (KB (fun _ => True))|exact Logic.I].
    + eapply inv_updateJob; [apply (KB (fun _ => True))|exact Logic.I].
Qed.

Lemma runAll_atMostOne j calls w :
  atMostOne j (db w) -> atMostOne j (db (runAll env calls w)).
Proof.
  revert w. induction calls as [|i calls IH]; intros w Hw; simpl; auto.
  apply IH.
  assert (H : inv (atMostOne j) (invoke env i)).
  { destruct i; simpl; [apply step_atMostOne|apply publish_atMostOne]. }
  specialize (H w Hw). unfold wp in H.
  destruct (invoke env i w) as [[a|] w']; exact H.
Qed.

End Orchestrator.

(* ===================================================================== *)
(** * The orchestrator: theorems                                          *)
(* ===================================================================== *)

Lemma statusOf_update j p d d' s :
  updateJob j p d = Some d' -> p_status p = Some s ->
  statusOfJob d' j = Some s.
Proof.
  intros Hu Hp. unfold statusOfJob. rewrite (findJob_updateJob _ _ _ _ j Hu).
  rewrite N.eqb_refl. unfold updateJob in Hu.
  destruct (findJob d j) as [row|]; [|discriminate]. simpl.
  rewrite Hp. reflexivity.
Qed.

Lemma atLeast_top j d : atLeast 3 j d <-> stageOfJob d j = Some PUBLISH.
Proof.
  split.
  - intros [s [Hs Hk]]. destruct s; simpl in Hk; try lia. exact Hs.
  - intros H. exists PUBLISH. split; [exact H|simpl; lia].
Qed.

Lemma publish_finalises env j :
  triple (atLeast 3 j) (publishReport env j) (fun _ => finalised j)
    (atLeast 3 j).
Proof.
  apply publish_triple.
  - apply atLeast_JR.
  - eapply keptBy_weaken; [|apply (keptBy_atLeast_top 3 j j)].
    intros p Hp. unfold patchKeeps. rewrite Hp. exact Logic.I.
  - intros d r n [s [Hs Hk]] _ _. exists s. split; [exact Hs|exact Hk].
  - intros d d' p s Hd Hp Hs Hstate Hu. split.
    + apply atLeast_top.
      refine (keptBy_atLeast_top 3 j j p d d' _ Hd Hu).
      unfold patchKeeps.
      destruct Hstate as [Hn|[st [row [Hrow [Hst Hsame]]]]].
      * rewrite Hn. exact Logic.I.
      * rewrite Hst. simpl. destruct Hd as [s0 [Hs0 Hk]].
        unfold stageOfJob in Hs0. rewrite Hrow in Hs0.
        exists s0. split; [congruence|exact Hk].
    + rewrite (statusOf_update _ _ _ _ _ Hu Hp).
      destruct Hs as [ -> | [ -> | -> ] ]; auto.
Qed.

(** The [catch] block at the attempt ceiling, entered with the job at a
    stage other than PUBLISH. *)
Lemma onStageError_finalises env j newAttempt state :
  (MAX_ATTEMPTS <= newAttempt)%Z ->
  triple (fun d => exists row, findJob d j = Some row
                   /\ stage (fromJson (job_state row)) <> Some PUBLISH)
         (onStageError env j newAttempt state)
         (fun _ => finalised j) (fun _ => True).
Proof.
  intros Hmax. unfold onStageError.
  apply Z.leb_le in Hmax. rewrite Hmax.
  eapply triple_bind;
    [eapply triple_weaken_E; [apply triple_query|auto]|intros cj; simpl].
  apply triple_conseq with
    (P' := fun d => exists row, cj = Some row
             /\ stage (fromJson (job_state row)) <> Some PUBLISH)
    (Q' := fun _ => finalised j) (E' := fun _ => True);
    [|intros d [[row [Hrow Hst]] Hcj]; exists row; split; congruence
     |auto|auto].
  destruct cj as [row|].
  2:{ apply triple_absurd. intros d [row [H _]]. discriminate. }
  destruct (isPublish (stage (fromJson (job_state row)))) eqn:Hpub; simpl.
  { apply triple_absurd.
    intros d [row' [H Hne]]. inversion H; subst row'.
    destruct (stage (fromJson (job_state row))) as [[]|]; try discriminate.
    apply Hne. reflexivity. }
  eapply triple_bind with (Q1 := fun _ => atLeast 3 j).
  { eapply triple_conseq;
      [apply (triple_exec env (fun _ => True) (atLeast 3 j))| | |];
      simpl; auto.
    intros d d' _ Hu. apply atLeast_top. unfold stageOfJob.
    rewrite (findJob_updateJob _ _ _ _ j Hu). rewrite N.eqb_refl.
    unfold updateJob in Hu. destruct (findJob d j); [|discriminate].
    reflexivity. }
  intros _. eapply triple_weaken_E with (E' := atLeast 3 j); [|auto].
  eapply triple_try; [apply publish_finalises|].
  eapply triple_conseq;
    [apply (triple_exec env (atLeast 3 j) (finalised j))| | |];
    simpl; auto.
  intros d d' Hd Hu. split.
  - apply atLeast_top.
    refine (keptBy_atLeast_top 3 j j _ d d' _ Hd Hu). exact Logic.I.
  - right. right. apply (statusOf_update _ _ _ _ _ Hu). reflexivity.
Qed.

Lemma hasJob_JR j : JR_only (hasJob j).
Proof.
  intros d d' Hj _ H. unfold hasJob, findJob in *. rewrite <- Hj. exact H.
Qed.

Lemma keptBy_hasJob j j0 (OK : JobPatch -> Prop) : keptBy (hasJob j) j0 OK.
Proof.
  intros p d d' _ H Hu. unfold hasJob in *.
  rewrite (findJob_updateJob _ _ _ _ j Hu).
  destruct (N.eqb j0 j); [|exact H].
  destruct (findJob d j); [discriminate|exact H].
Qed.

Lemma dispatch_hasJob env j j0 maxDuration startTime state :
  inv (hasJob j) (dispatch env j0 maxDuration startTime state).
Proof.
  pose proof (hasJob_JR j) as JR.
  pose proof (fun OK => keptBy_hasJob j j0 OK) as KB.
  unfold dispatch. apply inv_bind; [apply inv_now|intros t].
  destruct (stage state) as [[]|].
  - apply discover_inv; auto.
  - apply fetch_inv; auto.
  - apply synth_inv; auto.
  - apply publish_inv;
      [exact JR|apply KB|intros d r n H _ _; exact H|].
    intros d d' row p st H _ _ _ Hu.
    exact (KB (fun _ => True) p d d' Logic.I H Hu).
  - eapply inv_updateJob; [apply (KB (fun _ => True))|exact Logic.I].
Qed.

Lemma updateJob_hasJob j p d d' : updateJob j p d = Some d' -> hasJob j d'.
Proof.
  intros Hu. unfold hasJob. rewrite (findJob_updateJob _ _ _ _ j Hu).
  rewrite N.eqb_refl. unfold updateJob in Hu.
  destruct (findJob d j); [discriminate|discriminate].
Qed.

Lemma enterStep_hasJob env j w job startTime newAttempt w1 :
  enterStep env j w = (Returned (Some (job, startTime, newAttempt)), w1) ->
  hasJob j (db w1).
Proof.
  intros Hrun.
  assert (H : triple (fun _ => True) (enterStep env j)
                (fun r d => match r with
                            | Some _ => hasJob j d
                            | None => True
                            end)
                (fun _ => True)).
  { unfold enterStep.
    eapply triple_bind; [apply triple_now|intros t; simpl].
    eapply triple_bind; [apply triple_query|intros found; simpl].
    destruct found as [row|]; [|apply triple_ret; auto].
    destruct (hardTerminal (job_status row)); [apply triple_ret; auto|].
    eapply triple_bind; [apply triple_now|intros stamp; simpl].
    eapply triple_bind with (Q1 := fun _ => hasJob j).
    - eapply triple_weaken_E; [apply triple_exec|auto].
      intros d d' _ Hu. exact (updateJob_hasJob _ _ _ _ Hu).
    - intros _. apply triple_ret. auto. }
  specialize (H w Logic.I). unfold wp in H. rewrite Hrun in H. exact H.
Qed.

(** A step on a missing or hard-terminal job changes nothing. *)
Lemma step_noop env jobId maxDuration w :
  (findJob (db w) jobId = None \/
   exists job, findJob (db w) jobId = Some job
               /\ hardTerminal (job_status job) = true) ->
  db (snd (deepDiveStep env jobId maxDuration w)) = db w
  /\ llmLog (snd (deepDiveStep env jobId maxDuration w)) = llmLog w
  /\ outbox (snd (deepDiveStep env jobId maxDuration w)) = outbox w
  /\ (faults env (S (tick w)) = false ->
      fst (deepDiveStep env jobId maxDuration w) = Returned tt).
Proof.
  intros H.
  cbv beta iota zeta delta
    [deepDiveStep enterStep bind now query call ask ret advance tick db].
  destruct w as [d t lg ob]; simpl in *.
  destruct (faults env (S t)); simpl.
  - split; [|split; [|split]]; auto. intros Hf; discriminate Hf.
  - destruct H as [H|[job [H Ht]]]; rewrite H; simpl.
    + split; [|split; [|split]]; auto.
    + rewrite Ht. simpl. split; [|split; [|split]]; auto.
Qed.

(** The publisher on a job that has a report already. *)
Lemma publish_again env jobId w job u r :
  findJob (db w) jobId = Some job ->
  findUser (db w) (job_userId job) = Some u ->
  findReport (db w) jobId = Some r ->
  deepDiveReport (db (snd (publishReport env jobId w))) = deepDiveReport (db w)
  /\ outbox (snd (publishReport env jobId w)) = outbox w
  /\ (faults env (tick w) = false -> faults env (S (tick w)) = false ->
      fst (publishReport env jobId w) = Returned tt
      /\ updateJob jobId (patchStatus complete) (db w)
         = Some (db (snd (publishReport env jobId w)))).
Proof.
  intros Hj Hu Hr.
  cbv beta iota zeta delta
    [publishReport queryOrThrow bind query exec call ask ret advance tick db].
  destruct w as [d t lg ob]; simpl in *.
  destruct (faults env t); simpl.
  - split; [|split]; auto. intros Hf; discriminate Hf.
  - rewrite Hj, Hu, Hr. simpl.
    destruct (faults env (S t)); simpl.
    + split; [|split]; auto. intros _ Hf; discriminate Hf.
    + unfold updateJob. rewrite Hj. simpl. split; [|split]; auto.
Qed.

(** [C2]. Whatever mix of steps and direct calls of the publisher is run,
    on whatever jobs and under whatever environment, a job that has at most
    one report keeps at most one. In particular a step on a missing or
    hard-terminal job changes nothing in the database (and returns once its
    lookup has answered), and the publisher on a job that already has a
    report leaves the report table as it is and, when its two database
    calls go through, only sets the status to complete. *)
Theorem at_most_one_report :
  forall env,
    (forall calls w j,
        List.length (reportsOf (db w) j) <= 1 ->
        List.length (reportsOf (db (runAll env calls w)) j) <= 1)
    /\ (forall jobId maxDuration w,
          (findJob (db w) jobId = None \/
           exists job, findJob (db w) jobId = Some job
                       /\ hardTerminal (job_status job) = true) ->
          db (snd (deepDiveStep env jobId maxDuration w)) = db w
          /\ (faults env (S (tick w)) = false ->
              fst (deepDiveStep env jobId maxDuration w) = Returned tt))
    /\ (forall jobId w job u r,
          findJob (db w) jobId = Some job ->
          findUser (db w) (job_userId job) = Some u ->
          findReport (db w) jobId = Some r ->
          deepDiveReport (db (snd (publishReport env jobId w)))
            = deepDiveReport (db w)
          /\ (faults env (tick w) = false ->
              faults env (S (tick w)) = false ->
              fst (publishReport env jobId w) = Returned tt
              /\ updateJob jobId (patchStatus complete) (db w)
                 = Some (db (snd (publishReport env jobId w))))).
Proof.
  intros env. split; [|split].
  - intros calls w j H. exact (runAll_atMostOne env j calls w H).
  - intros jobId maxDuration w H.
    destruct (step_noop env jobId maxDuration w H) as [H1 [_ [_ H2]]]. auto.
  - intros jobId w job u r Hj Hu Hr.
    destruct (publish_again env jobId w job u r Hj Hu Hr) as [H1 [_ H2]]. auto.
Qed.

(** A job with a draft is published once, however often it is stepped
    and published again. *)
Lemma at_most_one_report_witness :
  List.length (reportsOf (db draftedWorld) 1) <= 1 /\
  List.length (reportsOf (db (runAll quietEnv publishedTwice draftedWorld)) 1)
    <= 1.
Proof.
  split.
  - apply Nat.le_0_l.
  - apply (proj1 (at_most_one_report quietEnv)). apply Nat.le_0_l.
Defined.

(** [C3]. Along any sequence of steps, on whatever jobs and under whatever
    environment, the stage recorded for a job never regresses: a stage
    observed after some of the steps is below or equal to the stage
    observed after any further steps. The environment may make any call
    fail, so every state written inside a step is also the state left by
    some run. *)
Theorem stage_never_regresses :
  forall env before after w j s,
    stageOfJob (db (runSteps env before w)) j = Some s ->
    exists s',
      stageOfJob (db (runSteps env (before ++ after) w)) j = Some s'
      /\ stage_le s s'.
Proof.
  intros env before after w j s Hs.
  rewrite runSteps_app.
  apply (runSteps_atLeast env (stage_rank s) j after (runSteps env before w)).
  exists s. split; [exact Hs|apply le_n].
Qed.

(** A new job stepped twice with no candidate in the corpus goes from
    DISCOVER to SYNTHESIZE and then to PUBLISH. *)
Lemma stage_never_regresses_witness :
  stageOfJob (db (runSteps quietEnv [(1%N, 50000%Z)] newWorld)) 1
    = Some SYNTHESIZE /\
  exists s',
    stageOfJob
      (db (runSteps quietEnv ([(1%N, 50000%Z)] ++ [(1%N, 50000%Z)]) newWorld))
      1 = Some s'
    /\ stage_le SYNTHESIZE s'.
Proof.
  split.
  - vm_compute. reflexivity.
  - apply (stage_never_regresses quietEnv [(1%N, 50000%Z)] [(1%N, 50000%Z)]
             newWorld 1%N SYNTHESIZE).
    vm_compute. reflexivity.
Defined.

(* ===================================================================== *)
(** * The fetch stage: theorems                                           *)
(* ===================================================================== *)

Lemma sourcesWith_updateJob j p d d' jobId st :
  updateJob j p d = Some d' -> sourcesWith d' jobId st = sourcesWith d jobId st.
Proof.
  intros Hu. unfold sourcesWith. rewrite (updateJob_sources _ _ _ _ Hu).
  reflexivity.
Qed.

Lemma findJob_same_update j p d d' row :
  findJob d j = Some row -> updateJob j p d = Some d' ->
  findJob d' j = Some (applyPatch p row).
Proof.
  intros Hf Hu. rewrite (findJob_updateJob _ _ _ _ j Hu).
  rewrite N.eqb_refl, Hf. reflexivity.
Qed.

Lemma rowIs_JR j row : JR_only (fun d => findJob d j = Some row).
Proof.
  intros d d' Hj _ H. unfold findJob in *. rewrite <- Hj. exact H.
Qed.

(** One turn of the loop counts one more source fetched and at most one
    more ok. *)
Lemma fetchOne_counts env (P : DB -> Prop) startTime maxDuration src
  fetched0 ok0 acc :
  JR_only P ->
  countsFrom fetched0 ok0 acc ->
  triple P (fetchOne env startTime maxDuration src acc)
    (fun r d => P d /\ countsFrom fetched0 ok0 (fst r)) (fun _ => True).
Proof.
  intros PJR Hacc. unfold fetchOne.
  eapply triple_bind; [apply triple_hasTime|intros more; cbv beta].
  destruct (negb more); [apply triple_ret; auto|].
  eapply triple_bind with
    (Q1 := fun ok' d => P d /\ (snd acc <= ok' <= snd acc + 1)%Z).
  - eapply triple_weaken_E with (E' := P); [|auto].
    eapply triple_try with (E1 := P).
    + eapply triple_bind with (Q1 := fun _ => P).
      { eapply triple_conseq; [apply (inv_fetchSingleSource env P)| | |];
          auto. }
      intros result.
      eapply triple_bind with (Q1 := fun _ => P).
      { apply (inv_updateSource env P PJR). }
      intros _. apply triple_ret. intros d Hd. split; [exact Hd|].
      destruct (isOk (fr_status result)); lia.
    + eapply triple_bind with (Q1 := fun _ => P).
      { apply (inv_updateSource env P PJR). }
      intros _. apply triple_ret. intros d Hd. split; [exact Hd|lia].
  - intros ok'. apply triple_pure. intros Hok.
    apply triple_ret. intros d Hd. split; [exact Hd|].
    unfold countsFrom in *. simpl. lia.
Qed.

(** A run of the batch that returns leaves the job as [nextFetchState]
    decides from the counters of the loop and from the number of sources
    still unfetched at the end. *)
Lemma fetch_batch_result env jobId maxDuration job :
  triple (fun d => findJob d jobId = Some job)
         (fetchAndExtractBatch env jobId maxDuration)
         (fun _ d' =>
            exists fetched okc,
              countsFrom (fst (priorCounts (fromJson (job_state job))))
                (snd (priorCounts (fromJson (job_state job)))) (fetched, okc)
              /\ findJob d' jobId
                 = Some (afterBatch job
                           (nextFetchState (fromJson (job_state job))
                              fetched okc
                              (List.length (sourcesWith d' jobId unknown)))))
         (fun _ => True).
Proof.
  set (P := fun d => findJob d jobId = Some job).
  set (Post := fun d' =>
            exists fetched okc,
              countsFrom (fst (priorCounts (fromJson (job_state job))))
                (snd (priorCounts (fromJson (job_state job)))) (fetched, okc)
              /\ findJob d' jobId
                 = Some (afterBatch job
                           (nextFetchState (fromJson (job_state job))
                              fetched okc
                              (List.length (sourcesWith d' jobId unknown))))).
  assert (PJR : JR_only P) by apply rowIs_JR.
  change (triple P (fetchAndExtractBatch env jobId maxDuration)
            (fun _ => Post) (fun _ => True)).
  unfold fetchAndExtractBatch.
  eapply triple_bind; [apply (triple_now env P)|intros startTime; cbv beta].
  eapply triple_bind;
    [eapply triple_weaken_E; [apply (triple_queryOrThrow env P)|auto]|].
  intros job'; cbv beta.
  apply triple_conseq with
    (P' := fun d => P d /\ job' = job)
    (Q' := fun _ => Post) (E' := fun _ => True); [| |auto|auto].
  2:{ intros d [Hd Hq]. split; [exact Hd|]. unfold P in Hd. congruence. }
  apply triple_pure. intros Hjob. subst job'.
  eapply triple_bind;
    [eapply triple_weaken_E; [apply (inv_query env P)|auto]|].
  intros unfetched; cbv beta.
  eapply triple_bind.
  { apply (triple_forBreak P
             (countsFrom (fst (priorCounts (fromJson (job_state job))))
                (snd (priorCounts (fromJson (job_state job)))))
             (fun _ => True)).
    - intros x s Hs. apply fetchOne_counts; [exact PJR|exact Hs].
    - unfold countsFrom, priorCounts. simpl. lia. }
  intros counts; cbv beta. apply triple_pure. intros Hcounts.
  eapply triple_bind;
    [eapply triple_weaken_E; [apply (triple_query env P)|auto]|].
  intros remaining; cbv beta.
  set (next := nextFetchState (fromJson (job_state job)) (fst counts)
                 (snd counts) remaining).
  eapply triple_bind with
    (Q1 := fun _ d =>
             findJob d jobId
             = Some (if snd next then applyPatch (patchStatus partial) job
                     else job)
             /\ remaining = List.length (sourcesWith d jobId unknown)).
  { destruct (snd next).
    - eapply triple_weaken_E; [apply triple_exec|auto].
      intros d d' [Hd Hr] Hu. split.
      + exact (findJob_same_update _ _ _ _ _ Hd Hu).
      + rewrite (sourcesWith_updateJob _ _ _ _ _ _ Hu). exact Hr.
    - apply triple_ret. auto. }
  intros _.
  eapply triple_weaken_E; [apply triple_exec|auto].
  intros d d' [Hd Hr] Hu. exists (fst counts), (snd counts).
  split; [destruct counts; exact Hcounts|].
  rewrite (sourcesWith_updateJob _ _ _ _ _ _ Hu). rewrite <- Hr.
  exact (findJob_same_update _ _ _ _ _ Hd Hu).
Qed.

(* ===================================================================== *)
(** * Classification and truncation of fetched text: theorems             *)
(* ===================================================================== *)

Lemma str_eqb_eq a b : str_eqb a b = true -> a = b.
Proof.
  revert b. induction a as [|x a IH]; intros [|y b] H; simpl in H;
    try discriminate; [reflexivity|].
  apply andb_prop in H. destruct H as [Hx Hab].
  apply N.eqb_eq in Hx. subst y. f_equal. apply IH. exact Hab.
Qed.

Lemma lastIndexOf_from_spec s c : forall i found,
  lastIndexOf_from i s c found = found
  \/ (i <= lastIndexOf_from i s c found < i + Z.of_nat (List.length s)
      /\ nth (Z.to_nat (lastIndexOf_from i s c found - i)) s 0%N = c)%Z.
Proof.
  induction s as [|x s IH]; intros i found; simpl; [left; reflexivity|].
  destruct (IH (i + 1)%Z (if N.eqb x c then i else found)) as [H|[H1 H2]].
  - rewrite H. destruct (N.eqb x c) eqn:Hx; [|left; reflexivity].
    right. apply N.eqb_eq in Hx. split; [lia|].
    replace (i - i)%Z with 0%Z by lia. simpl. exact Hx.
  - right. split; [lia|].
    replace (Z.to_nat (lastIndexOf_from (i + 1) s c
                         (if N.eqb x c then i else found) - i))
      with (S (Z.to_nat (lastIndexOf_from (i + 1) s c
                           (if N.eqb x c then i else found) - (i + 1))))
      by lia.
    simpl. exact H2.
Qed.

(** Where [lastIndexOf] finds the character, the character is there. *)
Lemma lastIndexOf_found s c :
  (0 <= lastIndexOf s c)%Z ->
  (lastIndexOf s c < Z.of_nat (List.length s))%Z
  /\ nth (Z.to_nat (lastIndexOf s c)) s 0%N = c.
Proof.
  unfold lastIndexOf. intros H.
  destruct (lastIndexOf_from_spec s c 0 (-1)) as [Heq|[H1 H2]].
  - rewrite Heq in H. lia.
  - split; [lia|].
    replace (lastIndexOf_from 0 s c (-1) - 0)%Z
      with (lastIndexOf_from 0 s c (-1)) in H2 by lia.
    exact H2.
Qed.

Lemma nth_firstn_lt {A} (l : list A) n i d :
  i < n -> nth i (firstn n l) d = nth i l d.
Proof.
  revert n i. induction l as [|x l IH]; intros n i Hi.
  - rewrite firstn_nil. reflexivity.
  - destruct n; [lia|]. destruct i; simpl; [reflexivity|].
    apply IH. lia.
Qed.

(** What [truncateText] keeps at the cap of 20000: the whole text when it
    fits; otherwise the first 20000 characters, cut back to just before
    their last space when that space lies beyond position 16000. *)
Lemma truncateText_cases text :
  let cut := firstn (Z.to_nat 20000) text in
  let sp := lastIndexOf cut 32%N in
  ((jslen text <= 20000)%Z -> truncateText text MAX_EXTRACTED_TEXT = text)
  /\ ((20000 < jslen text)%Z -> (16000 < sp)%Z ->
      truncateText text MAX_EXTRACTED_TEXT = firstn (Z.to_nat sp) text
      /\ (sp < 20000)%Z
      /\ nth (Z.to_nat sp) text 0%N = 32%N)
  /\ ((20000 < jslen text)%Z -> (sp <= 16000)%Z ->
      truncateText text MAX_EXTRACTED_TEXT = cut).
Proof.
  intros cut sp. unfold truncateText, MAX_EXTRACTED_TEXT.
  assert (Hcut : slice0 text 20000 = cut) by reflexivity.
  split; [|split].
  - intros H. apply Z.leb_le in H. rewrite H. reflexivity.
  - intros Hlen Hsp.
    assert (Hgt : (jslen text <=? 20000)%Z = false) by (apply Z.leb_gt; lia).
    rewrite Hgt, Hcut. fold sp.
    assert (Hcmp : (4 * 20000 <? 5 * sp)%Z = true) by (apply Z.ltb_lt; lia).
    rewrite Hcmp.
    destruct (lastIndexOf_found cut 32%N) as [Hlt Hnth]; [fold sp; lia|].
    fold sp in Hlt, Hnth.
    assert (Hcl : List.length cut <= Z.to_nat 20000)
      by apply firstn_le_length.
    unfold slice0. assert (Hneg : (sp <? 0)%Z = false) by (apply Z.ltb_ge; lia).
    rewrite Hneg. split; [|split].
    + unfold cut. rewrite firstn_firstn. f_equal. lia.
    + lia.
    + rewrite <- Hnth. unfold cut. symmetry. apply nth_firstn_lt. lia.
  - intros Hlen Hsp.
    assert (Hgt : (jslen text <=? 20000)%Z = false) by (apply Z.leb_gt; lia).
    rewrite Hgt, Hcut. fold sp.
    assert (Hcmp : (4 * 20000 <? 5 * sp)%Z = false) by (apply Z.ltb_ge; lia).
    rewrite Hcmp. reflexivity.
Qed.

Lemma truncateText_length text :
  (jslen (truncateText text MAX_EXTRACTED_TEXT) <= 20000)%Z.
Proof.
  destruct (truncateText_cases text) as [H1 [H2 H3]].
  destruct (Z_le_gt_dec (jslen text) 20000) as [Hle|Hgt].
  - rewrite (H1 Hle). exact Hle.
  - destruct (Z_le_gt_dec (lastIndexOf (firstn (Z.to_nat 20000) text) 32%N) 16000)
      as [Hs|Hs].
    + rewrite (H3 ltac:(lia) Hs). unfold jslen.
      pose proof (firstn_le_length (Z.to_nat 20000) text). lia.
    + destruct (H2 ltac:(lia) ltac:(lia)) as [Heq [Hlt _]]. rewrite Heq.
      unfold jslen. pose proof (firstn_le_length
        (Z.to_nat (lastIndexOf (firstn (Z.to_nat 20000) text) 32%N)) text). lia.
Qed.

Lemma truncateText_prefix text :
  exists rest, text = truncateText text MAX_EXTRACTED_TEXT ++ rest.
Proof.
  destruct (truncateText_cases text) as [H1 [H2 H3]].
  destruct (Z_le_gt_dec (jslen text) 20000) as [Hle|Hgt].
  - rewrite (H1 Hle). exists []. rewrite app_nil_r. reflexivity.
  - destruct (Z_le_gt_dec (lastIndexOf (firstn (Z.to_nat 20000) text) 32%N) 16000)
      as [Hs|Hs].
    + rewrite (H3 ltac:(lia) Hs). exists (skipn (Z.to_nat 20000) text).
      symmetry. apply firstn_skipn.
    + destruct (H2 ltac:(lia) ltac:(lia)) as [Heq _]. rewrite Heq.
      eexists. symmetry. apply firstn_skipn.
Qed.

(** [C7], amended. The outcome of a fetch is classified as: HTTP 401 or 403,
    paywalled; any other non-success status, blocked; a successful response
    whose final URL or whose body carries a paywall signal, paywalled; for a
    successful response without such a signal whose document parses, blocked
    when the extracted text has fewer than 1200 characters and ok otherwise.
    The text stored for an ok source is a prefix of the extracted text of at
    most 20000 characters: the whole text when it fits; otherwise the first
    20000 characters, cut back to just before their last space when that
    space lies beyond position 16000 (the character after the cut is then a
    space), and cut at exactly 20000 characters when it does not. *)
Theorem fetch_classification :
  forall env status finalUrl body,
    ((status = 401 \/ status = 403)%Z ->
       fr_status (classify env (HttpResponse status finalUrl body))
       = paywalled)
    /\ (status <> 401%Z -> status <> 403%Z -> successStatus status = false ->
       fr_status (classify env (HttpResponse status finalUrl body)) = blocked)
    /\ (successStatus status = true ->
        existsb (includes finalUrl) PAYWALL_URL_PATTERNS = true ->
        fr_status (classify env (HttpResponse status finalUrl body))
        = paywalled)
    /\ (forall html,
          successStatus status = true ->
          existsb (includes finalUrl) PAYWALL_URL_PATTERNS = false ->
          body = Some html ->
          existsb (includes (toLowerCase html)) PAYWALL_MARKERS = true ->
          fr_status (classify env (HttpResponse status finalUrl body))
          = paywalled)
    /\ (forall html dom,
          successStatus status = true ->
          existsb (includes finalUrl) PAYWALL_URL_PATTERNS = false ->
          body = Some html ->
          existsb (includes (toLowerCase html)) PAYWALL_MARKERS = false ->
          cheerioLoad env html = Some dom ->
          let result := classify env (HttpResponse status finalUrl body) in
          let text := mainText dom in
          ((jslen text < 1200)%Z -> fr_status result = blocked)
          /\ ((1200 <= jslen text)%Z ->
              fr_status result = ok
              /\ sp_extractedText (fetchPatch result)
                 = Some (Some (truncateText text MAX_EXTRACTED_TEXT))
              /\ (jslen (truncateText text MAX_EXTRACTED_TEXT) <= 20000)%Z
              /\ (exists rest,
                    text = truncateText text MAX_EXTRACTED_TEXT ++ rest)
              /\ let cut := firstn (Z.to_nat 20000) text in
                 let sp := lastIndexOf cut 32%N in
                 ((jslen text <= 20000)%Z ->
                    truncateText text MAX_EXTRACTED_TEXT = text)
                 /\ ((20000 < jslen text)%Z -> (16000 < sp)%Z ->
                     truncateText text MAX_EXTRACTED_TEXT
                     = firstn (Z.to_nat sp) text
                     /\ (sp < 20000)%Z
                     /\ nth (Z.to_nat sp) text 0%N = 32%N)
                 /\ ((20000 < jslen text)%Z -> (sp <= 16000)%Z ->
                     truncateText text MAX_EXTRACTED_TEXT = cut))).
Proof.
  intros env status finalUrl body. unfold successStatus.
  split; [|split; [|split; [|split]]].
  - intros [H|H]; subst status; reflexivity.
  - intros H1 H3 Hs. unfold classify.
    apply Z.eqb_neq in H1. apply Z.eqb_neq in H3. rewrite H1, H3, Hs.
    reflexivity.
  - intros Hs Hurl. unfold classify. rewrite Hs, Hurl.
    destruct ((status =? 401) || (status =? 403))%Z; reflexivity.
  - intros html Hs Hurl Hbody Hmark. unfold classify.
    rewrite Hs, Hurl, Hbody, Hmark.
    destruct ((status =? 401) || (status =? 403))%Z; reflexivity.
  - cbv zeta. intros html dom Hs Hurl Hbody Hmark Hdom.
    set (text := mainText dom).
    assert (H401 : ((status =? 401) || (status =? 403))%Z = false).
    { apply andb_prop in Hs. destruct Hs as [Ha Hb].
      apply Z.leb_le in Ha. apply Z.leb_le in Hb.
      apply orb_false_intro; apply Z.eqb_neq; lia. }
    unfold classify.
    rewrite H401, Hs, Hurl, Hbody, Hmark, Hdom.
    cbv beta iota zeta delta [negb]. fold text. clearbody text.
    unfold MIN_READABLE_CHARS. split.
    + intros Hlt. apply Z.ltb_lt in Hlt. rewrite Hlt. reflexivity.
    + intros Hge. assert (Hnlt : (jslen text <? 1200)%Z = false)
        by (apply Z.ltb_ge; lia).
      rewrite Hnlt. split; [reflexivity|]. split.
      * unfold fetchPatch.
        cbv beta iota delta [sp_extractedText fr_text truthy].
        destruct text as [|c text'];
          [unfold jslen in Hge; cbn [List.length Z.of_nat] in Hge; lia|].
        reflexivity.
      * split; [apply truncateText_length|].
        split; [apply truncateText_prefix|].
        apply truncateText_cases.
Qed.

(** A page of 1500 readable characters behind a plain URL is ok and its
    text is stored whole. *)
Lemma fetch_classification_witness :
  fr_status
    (classify pageEnv
       (HttpResponse 200 (lit "https://a.example/1")
          (Some (lit "<html>story</html>")))) = ok
  /\ sp_extractedText
       (fetchPatch
          (classify pageEnv
             (HttpResponse 200 (lit "https://a.example/1")
                (Some (lit "<html>story</html>")))))
     = Some (Some (truncateText (mainText longPage) MAX_EXTRACTED_TEXT))
  /\ truncateText (mainText longPage) MAX_EXTRACTED_TEXT = mainText longPage.
Proof.
  destruct (fetch_classification pageEnv 200 (lit "https://a.example/1")
              (Some (lit "<html>story</html>")))
    as [_ [_ [_ [_ H]]]].
  assert (Hlong : (1200 <= jslen (mainText longPage))%Z)
    by (vm_compute; intros Hc; discriminate Hc).
  assert (Hfits : (jslen (mainText longPage) <= 20000)%Z)
    by (vm_compute; intros Hc; discriminate Hc).
  destruct (H (lit "<html>story</html>") longPage) as [_ Hok];
    try (vm_compute; reflexivity).
  destruct (Hok Hlong) as [Hst [Htext [_ [_ [Hwhole _]]]]].
  split; [exact Hst|]. split; [exact Htext|]. exact (Hwhole Hfits).
Defined.

(** [C7], as stated, fails twice. A page of 1500 readable characters
    served with status 200 from a URL that contains "/login" is paywalled,
    not ok; and a text of 20001 characters without any space is cut at
    20000 characters, which is not at a space. *)
Lemma fetch_classification_counterexample :
  (successStatus 200 = true
   /\ (1200 <= jslen (mainText longPage))%Z
   /\ fr_status
        (classify pageEnv
           (HttpResponse 200 (lit "https://a.example/login?next=/story")
              (Some (lit "<html>story</html>")))) = paywalled)
  /\ ((20000 < jslen (repeat 97%N (Z.to_nat 20001)))%Z
      /\ truncateText (repeat 97%N (Z.to_nat 20001)) MAX_EXTRACTED_TEXT
         = repeat 97%N (Z.to_nat 20000)
      /\ ~ In 32%N (repeat 97%N (Z.to_nat 20001))).
Proof.
  split; [split; [|split]|split; [|split]].
  - vm_compute. reflexivity.
  - vm_compute. intros Hc. discriminate Hc.
  - vm_compute. reflexivity.
  - vm_compute. reflexivity.
  - apply str_eqb_eq. vm_compute. reflexivity.
  - intros Hin. apply repeat_spec in Hin. discriminate Hin.
Qed.

(* ===================================================================== *)
(** * The validator and the state document: theorems                      *)
(* ===================================================================== *)

Lemma section_error_invalid report sourceTexts e :
  In e (sectionErrors report) ->
  valid (validateReport report sourceTexts) = false.
Proof.
  intros Hin. unfold validateReport; simpl.
  apply Nat.eqb_neq. intros Hlen.
  apply length_zero_iff_nil in Hlen.
  apply app_eq_nil in Hlen. destruct Hlen as [Hnil _].
  rewrite Hnil in Hin. exact Hin.
Qed.

Lemma when_true {A} (x : A) : In x (when true x).
Proof. left. reflexivity. Qed.

Lemma join_app sep (xs ys : list jsstring) :
  xs <> [] -> ys <> [] ->
  join sep (xs ++ ys) = join sep xs ++ sep ++ join sep ys.
Proof.
  intros Hx Hy. induction xs as [|x xs IH]; [congruence|].
  destruct xs as [|x' xs].
  - cbn [app]. destruct ys; [congruence|]. reflexivity.
  - change (join sep ((x :: x' :: xs) ++ ys))
      with (x ++ sep ++ join sep ((x' :: xs) ++ ys)).
    rewrite IH by discriminate.
    change (join sep (x :: x' :: xs)) with (x ++ sep ++ join sep (x' :: xs)).
    rewrite <- !app_assoc. reflexivity.
Qed.

Lemma join_merged sep (xs ys zs : list jsstring) :
  ys <> [] ->
  join sep (xs ++ [join sep ys] ++ zs) = join sep (xs ++ ys ++ zs).
Proof.
  intros Hy.
  assert (Htail : join sep ([join sep ys] ++ zs) = join sep (ys ++ zs)).
  { destruct zs as [|z zs].
    - rewrite !app_nil_r. reflexivity.
    - rewrite (join_app sep ys (z :: zs)) by (auto; discriminate).
      reflexivity. }
  destruct xs as [|x xs]; [exact Htail|].
  rewrite (join_app sep (x :: xs)); [|discriminate|discriminate].
  rewrite (join_app sep (x :: xs) (ys ++ zs)); [|discriminate|].
  - rewrite Htail. reflexivity.
  - destruct ys; [congruence|discriminate].
Qed.

Lemma join_mergeBullets sep (xs ys zs : list jsstring) :
  sep = lit " " ->
  join sep (xs ++ mergeBullets ys ++ zs) = join sep (xs ++ ys ++ zs).
Proof.
  intros E. destruct ys as [|y ys]; [reflexivity|].
  unfold mergeBullets. rewrite <- E. apply join_merged. discriminate.
Qed.

Lemma join_merged_twice sep (a x b y c : list jsstring) :
  sep = lit " " ->
  join sep (a ++ mergeBullets x ++ b ++ mergeBullets y ++ c)
  = join sep (a ++ x ++ b ++ y ++ c).
Proof.
  intros E. rewrite (join_mergeBullets sep a x) by exact E.
  replace (a ++ x ++ b ++ mergeBullets y ++ c)
    with ((a ++ x ++ b) ++ mergeBullets y ++ c)
    by (rewrite <- !app_assoc; reflexivity).
  rewrite (join_mergeBullets sep (a ++ x ++ b) y) by exact E.
  rewrite <- !app_assoc. reflexivity.
Qed.

Lemma serialize_merged report :
  serializeReport (mergeOpenSections report) = serializeReport report.
Proof.
  unfold serializeReport, mergeOpenSections.
  cbn [headline whatHappened whatChanged whyItMatters risks actionPrompts
       sources].
  rewrite (app_assoc [headline report] (whatHappened report)
             (mergeBullets (whatChanged report) ++ _)).
  rewrite join_merged_twice by reflexivity.
  rewrite <- !app_assoc. reflexivity.
Qed.

Lemma length_zero_same {A B} (l : list A) (l' : list B) :
  (l = [] <-> l' = []) -> (List.length l =? 0) = (List.length l' =? 0).
Proof.
  intros [H1 H2]. destruct l, l'; try reflexivity.
  - discriminate (H1 eq_refl).
  - discriminate (H2 eq_refl).
Qed.

(** The validator reads the bullets of "What Changed" and of "Risks /
    Watch-outs" in two ways only: whether the section is empty, and the
    text of the report. *)
Lemma validateReport_reads report report' sourceTexts :
  headline report = headline report' ->
  List.length (whatHappened report) = List.length (whatHappened report') ->
  List.length (whyItMatters report) = List.length (whyItMatters report') ->
  List.length (actionPrompts report) = List.length (actionPrompts report') ->
  (sources report = [] <-> sources report' = []) ->
  (whatChanged report = [] <-> whatChanged report' = []) ->
  (risks report = [] <-> risks report' = []) ->
  serializeReport report = serializeReport report' ->
  validateReport report sourceTexts = validateReport report' sourceTexts.
Proof.
  intros Hh Hwh Hwm Hap Hs Hwc Hr Htext.
  unfold validateReport, groundingErrors, extractEntities, sectionErrors.
  rewrite Htext, Hh, Hwh, Hwm, Hap.
  rewrite (length_zero_same _ _ Hs), (length_zero_same _ _ Hwc),
    (length_zero_same _ _ Hr).
  reflexivity.
Qed.

(** [C6], amended. For every report and every list of source texts,
    [validateReport] reports the report invalid whenever "What Happened"
    has fewer than 3 or more than 6 bullets, "Why It Matters" does not have
    exactly 3, "Action Prompts" does not have exactly 3, or "What Changed"
    or "Risks / Watch-outs" has no bullet at all. It puts no other bound on
    the number of bullets of "What Changed" and "Risks / Watch-outs": of
    these two sections it reads only whether they are empty and the text
    they add to the report, so that a report gets the result, errors
    included, of the report in which each of the two sections is written
    as one bullet. *)
Theorem validator_bullet_bounds :
  forall report sourceTexts,
    (List.length (whatHappened report) < 3
     \/ 6 < List.length (whatHappened report) ->
     valid (validateReport report sourceTexts) = false)
    /\ (List.length (whyItMatters report) <> 3 ->
        valid (validateReport report sourceTexts) = false)
    /\ (List.length (actionPrompts report) <> 3 ->
        valid (validateReport report sourceTexts) = false)
    /\ (List.length (whatChanged report) = 0 ->
        valid (validateReport report sourceTexts) = false)
    /\ (List.length (risks report) = 0 ->
        valid (validateReport report sourceTexts) = false)
    /\ (forall report',
          headline report = headline report' ->
          List.length (whatHappened report)
            = List.length (whatHappened report') ->
          List.length (whyItMatters report)
            = List.length (whyItMatters report') ->
          List.length (actionPrompts report)
            = List.length (actionPrompts report') ->
          (sources report = [] <-> sources report' = []) ->
          (whatChanged report = [] <-> whatChanged report' = []) ->
          (risks report = [] <-> risks report' = []) ->
          serializeReport report = serializeReport report' ->
          validateReport report sourceTexts
            = validateReport report' sourceTexts)
    /\ validateReport report sourceTexts
       = validateReport (mergeOpenSections report) sourceTexts.
Proof.
  intros report sourceTexts.
  split; [|split; [|split; [|split; [|split; [|split]]]]].
  - intros H. apply section_error_invalid with (e := WhatHappenedBounds).
    unfold sectionErrors.
    assert (Hb : ((List.length (whatHappened report) <? 3)
                  || (6 <? List.length (whatHappened report))) = true).
    { apply orb_true_iff. destruct H as [H|H];
        [left|right]; apply Nat.ltb_lt; exact H. }
    rewrite Hb. apply in_or_app. right. apply in_or_app. right.
    apply in_or_app. left. apply when_true.
  - intros H. apply section_error_invalid with (e := WhyItMattersNotThree).
    unfold sectionErrors. apply Nat.eqb_neq in H. rewrite H.
    do 5 (apply in_or_app; right). apply in_or_app. left. apply when_true.
  - intros H. apply section_error_invalid with (e := ActionPromptsNotThree).
    unfold sectionErrors. apply Nat.eqb_neq in H. rewrite H.
    do 8 (apply in_or_app; right). apply in_or_app. left. apply when_true.
  - intros H. apply section_error_invalid with (e := WhatChangedEmpty).
    unfold sectionErrors. rewrite H.
    do 3 (apply in_or_app; right). apply in_or_app. left. apply when_true.
  - intros H. apply section_error_invalid with (e := RisksEmpty).
    unfold sectionErrors. rewrite H.
    do 6 (apply in_or_app; right). apply in_or_app. left. apply when_true.
  - intros report'. apply validateReport_reads.
  - apply validateReport_reads; try reflexivity.
    + cbn. destruct (whatChanged report); cbn; split; congruence.
    + cbn. destruct (risks report); cbn; split; congruence.
    + symmetry. apply serialize_merged.
Qed.

Lemma validator_bullet_bounds_witness :
  List.length (whatHappened thinReport) < 3
  /\ valid (validateReport thinReport sampleTexts) = false.
Proof.
  assert (H : List.length (whatHappened thinReport) < 3)
    by (vm_compute; apply le_n).
  split; [exact H|].
  apply (proj1 (validator_bullet_bounds thinReport sampleTexts)).
  left. exact H.
Defined.

(** [C6], as stated, fails: a report with five bullets under "What
    Changed" (none of them the fallback sentence) and a single bullet under
    "Risks / Watch-outs" is reported valid. *)
Lemma validator_bullet_bounds_counterexample :
  List.length (whatChanged looseReport) = 5
  /\ List.length (risks looseReport) = 1
  /\ validateReport looseReport sampleTexts
     = {| valid := true; errors := [] |}.
Proof. vm_compute. repeat split; reflexivity. Qed.

(** [C10]. Decoding the stored state never fails: a document is returned
    as it is and [null] (or an absent value) gives the state at DISCOVER
    with nothing else in it, so that the stage read is DISCOVER; a step on
    a job whose state was never written therefore runs discovery. (A
    document without a recognised stage does not fail either: the step
    writes the state at DISCOVER back.) *)
Theorem fromJson_total :
  (forall value, exists state,
      fromJson value = state
      /\ (value = None -> state = stateOf DISCOVER)
      /\ (forall doc, value = Some doc -> state = doc))
  /\ stage (fromJson None) = Some DISCOVER
  /\ (forall env jobId maxDuration startTime w,
        dispatch env jobId maxDuration startTime (fromJson None) w
        = discoverCandidates env jobId (advance w))
  /\ (forall env jobId maxDuration startTime w doc,
        stage doc = None ->
        dispatch env jobId maxDuration startTime (fromJson (Some doc)) w
        = exec env (updateJob jobId (patchState (toJson (stateOf DISCOVER))))
            (advance w)).
Proof.
  split; [|split; [|split]].
  - intros value. exists (fromJson value). split; [reflexivity|].
    split; intros; subst; reflexivity.
  - reflexivity.
  - intros. reflexivity.
  - intros env jobId maxDuration startTime w doc Hdoc.
    unfold dispatch, bind, now. simpl. rewrite Hdoc. reflexivity.
Qed.

(** A job whose state column is null is stepped: discovery runs and, with
    an empty corpus, leaves it at SYNTHESIZE. *)
Lemma fromJson_total_witness :
  fromJson None = stateOf DISCOVER
  /\ stageOfJob
       (db (snd (deepDiveStep quietEnv 1 50000
                   (freshWorld (sampleDb [sampleJob queued 0%Z None] [] [])))))
       1 = Some SYNTHESIZE.
Proof.
  split.
  - destruct (proj1 fromJson_total None) as [state [Hs [Hnull _]]].
    rewrite Hs. exact (Hnull eq_refl).
  - vm_compute. reflexivity.
Defined.

(* ===================================================================== *)
(** * Synthesis: theorems                                                 *)
(* ===================================================================== *)

(** ** Runs in which no call fails *)

Lemma wp_ret {A} (a : A) Q E w : Q a w -> wp (ret a) Q E w.
Proof. intros H. exact H. Qed.

Lemma wp_bind {A B} (m : M A) (k : A -> M B) Q E w :
  wp m (fun a w' => wp (k a) Q E w') E w -> wp (bind m k) Q E w.
Proof.
  unfold wp, bind. destruct (m w) as [[a|] w1]; auto.
Qed.

Lemma wp_returns {A} (m : M A) Q w :
  wp m Q (fun _ => False) w ->
  exists a w', m w = (Returned a, w') /\ Q a w'.
Proof.
  unfold wp. destruct (m w) as [[a|] w1]; intros H; [|destruct H].
  exists a, w1. auto.
Qed.

Section Runs.

Variable env : Env.
Hypothesis calm : forall n, faults env n = false.

Lemma wp_now Q E w :
  Q (clock env (tick w)) (advance w) -> wp (now env) Q E w.
Proof. intros H. exact H. Qed.

Lemma wp_ask {A} (f : nat -> A) Q E w :
  Q (f (tick w)) (advance w) -> wp (ask env f) Q E w.
Proof. intros H. unfold wp, ask. rewrite calm. exact H. Qed.

Lemma wp_query {A} (f : DB -> A) Q E w :
  Q (f (db w)) (advance w) -> wp (query env f) Q E w.
Proof.
  intros H. unfold wp, query, bind, call, ask. rewrite calm. exact H.
Qed.

Lemma wp_queryOrThrow {A} (f : DB -> option A) a Q E w :
  f (db w) = Some a -> Q a (advance w) -> wp (queryOrThrow env f) Q E w.
Proof.
  intros Hf H. unfold queryOrThrow. apply wp_bind. apply wp_query.
  cbn [db advance]. rewrite Hf. exact H.
Qed.

Lemma wp_exec (f : DB -> option DB) d Q E w :
  f (db w) = Some d -> Q tt (withDb (advance w) d) -> wp (exec env f) Q E w.
Proof.
  intros Hf H. unfold wp, exec, bind, call, ask. rewrite calm.
  cbn [db advance]. rewrite Hf. exact H.
Qed.

End Runs.

(** ** Substrings *)

Lemma startsWith_app p r : startsWith (p ++ r) p = true.
Proof.
  induction p as [|x p IH]; simpl; [destruct r; reflexivity|].
  rewrite N.eqb_refl. exact IH.
Qed.

Lemma startsWith_app_r s b p :
  startsWith s p = true -> startsWith (s ++ b) p = true.
Proof.
  revert s. induction p as [|y p IH]; intros s H;
    [destruct (s ++ b); reflexivity|].
  destruct s as [|x s]; simpl in *; [discriminate|].
  apply andb_prop in H. destruct H as [H1 H2]. rewrite H1. simpl.
  apply IH. exact H2.
Qed.

Lemma includes_unfold s p :
  includes s p
  = startsWith s p || match s with [] => false | _ :: s' => includes s' p end.
Proof. destruct s; reflexivity. Qed.

Lemma includes_app_l a s p :
  includes s p = true -> includes (a ++ s) p = true.
Proof.
  intros H. induction a as [|x a IH]; [exact H|].
  rewrite includes_unfold. simpl. rewrite IH. apply orb_true_r.
Qed.

Lemma includes_app_r s b p :
  includes s p = true -> includes (s ++ b) p = true.
Proof.
  revert b. induction s as [|x s IH]; intros b H.
  - rewrite includes_unfold in H. rewrite orb_false_r in H.
    destruct p; [|discriminate]. destruct b; reflexivity.
  - rewrite includes_unfold in H. apply orb_true_iff in H.
    rewrite includes_unfold. apply orb_true_iff. destruct H as [H|H].
    + left. apply (startsWith_app_r (x :: s) b p H).
    + right. simpl. apply IH. exact H.
Qed.

(** The fixed report names its lack of coverage, whatever the topic. *)
Lemma minimalMarkdown_says label :
  includes (minimalMarkdown label) (lit "No Coverage Available") = true.
Proof.
  unfold minimalMarkdown.
  match goal with
  | |- includes (join nl (?first :: ?rest)) _ = true =>
      change (join nl (first :: rest)) with (first ++ nl ++ join nl rest)
  end.
  apply includes_app_r.
  apply includes_app_l. apply includes_app_l.
  vm_compute. reflexivity.
Qed.

(** [C9]. When synthesis runs for a job that has no ok source with text,
    and no call fails, it returns without any call to the generation
    service, with the job marked partial and its state at PUBLISH, the
    draft in [synthesis.partialMarkdown] being the fixed report, which
    contains the words No Coverage Available. Discovery over an empty
    corpus leads there: it creates no source and leaves the job marked
    partial at SYNTHESIZE. *)
Theorem no_coverage_report :
  forall env,
    (forall n, faults env n = false) ->
    (forall jobId maxDuration w job,
        findJob (db w) jobId = Some job ->
        filter hasText (sourcesWith (db w) jobId ok) = [] ->
        exists w',
          synthesizeReport env jobId maxDuration w = (Returned tt, w')
          /\ llmLog w' = llmLog w
          /\ exists row st syn markdown,
               findJob (db w') jobId = Some row
               /\ job_status row = partial
               /\ job_state row = Some st
               /\ stage st = Some PUBLISH
               /\ synthesis st = Some syn
               /\ partialMarkdown syn = Some markdown
               /\ includes markdown (lit "No Coverage Available") = true)
    /\ (forall jobId w job u topic,
          findJob (db w) jobId = Some job ->
          findUser (db w) (job_userId job) = Some u ->
          findInterest (db w) (job_topicInterestId job) = Some topic ->
          (forall n a b c, articleMatches env n a b c = []) ->
          (forall n a b, articleSearch env n a b = []) ->
          exists w',
            discoverCandidates env jobId w = (Returned tt, w')
            /\ statusOfJob (db w') jobId = Some partial
            /\ stageOfJob (db w') jobId = Some SYNTHESIZE
            /\ deepDiveSource (db w') = deepDiveSource (db w)
            /\ llmLog w' = llmLog w).
Proof.
  intros env calm. split.
  - intros jobId maxDuration w job Hjob Hnone.
    set (patch := patchStatusState partial
           (toJson (withSynthesis (fromJson (job_state job)) PUBLISH
                      {| strategy := map_reduce; retryCount := 0;
                         partialMarkdown :=
                           Some (minimalMarkdown
                                   (option_map int_label
                                      (findInterest (db w)
                                         (job_topicInterestId job)))) |}))).
    assert (Hup : exists d, updateJob jobId patch (db w) = Some d).
    { unfold updateJob. rewrite Hjob. eexists. reflexivity. }
    destruct Hup as [d Hup].
    assert (Hwp : wp (synthesizeReport env jobId maxDuration)
              (fun _ w' => llmLog w' = llmLog w /\ db w' = d)
              (fun _ => False) w).
    { unfold synthesizeReport.
      apply wp_bind. apply wp_now.
      apply wp_bind. apply (wp_queryOrThrow env calm _ job);
        [exact Hjob|].
      apply wp_bind. apply (wp_query env calm). cbn [db advance].
      rewrite Hnone, firstn_nil.
      unfold createMinimalReport.
      apply wp_bind. apply (wp_queryOrThrow env calm _ job);
        [exact Hjob|].
      apply wp_bind. apply (wp_query env calm). cbn [db advance].
      apply (wp_exec env calm _ d); [exact Hup|].
      split; reflexivity. }
    destruct (wp_returns _ _ _ Hwp) as [[] [w' [Hrun [Hlog Hdb]]]].
    exists w'. split; [exact Hrun|]. split; [exact Hlog|].
    rewrite Hdb.
    eexists. eexists. eexists. eexists.
    split; [exact (findJob_same_update _ _ _ _ _ Hjob Hup)|].
    split; [reflexivity|]. split; [reflexivity|]. split; [reflexivity|].
    split; [reflexivity|]. split; [reflexivity|].
    apply minimalMarkdown_says.
  - intros jobId w job u topic Hjob Huser Htopic Hmatches Hsearch.
    set (patch := patchStatusState partial
           (toJson {| stage := Some SYNTHESIZE;
                      discovery := Some {| candidateUrls := [];
                                           selectedCount := 0 |};
                      fetch := None; synthesis := None;
                      publish := None; error := None |})).
    assert (Hup : exists d, updateJob jobId patch (db w) = Some d).
    { unfold updateJob. rewrite Hjob. eexists. reflexivity. }
    destruct Hup as [d Hup].
    assert (Hwp : wp (discoverCandidates env jobId)
              (fun _ w' => llmLog w' = llmLog w /\ db w' = d)
              (fun _ => False) w).
    { unfold discoverCandidates.
      apply wp_bind. apply (wp_queryOrThrow env calm _ (job, u)).
      { rewrite Hjob, Huser. reflexivity. }
      cbn [fst snd].
      apply wp_bind. apply (wp_query env calm). cbn [db advance].
      rewrite Htopic.
      apply wp_bind. apply (wp_ask env calm). rewrite Hmatches.
      apply wp_bind. apply (wp_ask env calm). rewrite Hsearch.
      cbn [dedupe].
      unfold rankBySourceTier.
      apply wp_bind. apply wp_bind. apply (wp_query env calm).
      apply wp_bind. apply (wp_query env calm).
      apply wp_ret. cbn [filter sortByTier fold_right].
      assert (Hsel : slice0 (@nil jsstring)
                       match user_deepDiveConfig u with
                       | Some c => cfg_maxSources c
                       | None => DEEP_DIVE_MAX_SOURCES env
                       end = []).
      { unfold slice0. destruct (_ <? 0)%Z; apply firstn_nil. }
      rewrite Hsel.
      apply (wp_exec env calm _ d); [exact Hup|].
      split; reflexivity. }
    destruct (wp_returns _ _ _ Hwp) as [[] [w' [Hrun [Hlog Hdb]]]].
    exists w'. split; [exact Hrun|]. rewrite Hdb.
    pose proof (findJob_same_update _ _ _ _ _ Hjob Hup) as Hrow.
    split; [unfold statusOfJob; rewrite Hrow; reflexivity|].
    split; [unfold stageOfJob; rewrite Hrow; reflexivity|].
    split; [exact (updateJob_sources _ _ _ _ Hup)|exact Hlog].
Qed.

(** A job left at SYNTHESIZE by discovery over an empty corpus gets the
    fixed report. *)
Lemma no_coverage_report_witness :
  exists w',
    synthesizeReport quietEnv 1 50000 emptyHandedWorld = (Returned tt, w')
    /\ llmLog w' = llmLog emptyHandedWorld
    /\ exists row st syn markdown,
         findJob (db w') 1 = Some row
         /\ job_status row = partial
         /\ job_state row = Some st
         /\ stage st = Some PUBLISH
         /\ synthesis st = Some syn
         /\ partialMarkdown syn = Some markdown
         /\ includes markdown (lit "No Coverage Available") = true.
Proof.
  apply (proj1 (no_coverage_report quietEnv (fun n => eq_refl))
           1%N 50000%Z emptyHandedWorld emptyHandedJob).
  - vm_compute. reflexivity.
  - vm_compute. reflexivity.
Defined.

(** [C5], where the code departs from it. The first answer of the service
    fails validation, on the first attempt and with budget left; exactly
    one retry is made, with the strict prompt; its answer passes validation
    and is the draft that is kept. The job is marked partial all the same:
    the status is decided from the validation of the first answer. *)
Lemma accepted_retry_still_partial :
  valid (validateReport (parseReportMarkdown badMarkdown) sampleTexts) = false
  /\ valid (validateReport (parseReportMarkdown goodMarkdown) sampleTexts)
     = true
  /\ fst (synthesizeReport retryEnv 1 50000 retryWorld) = Returned tt
  /\ llmLog (snd (synthesizeReport retryEnv 1 50000 retryWorld))
     = [DirectCall false; DirectCall true]
  /\ option_map job_status
       (findJob (db (snd (synthesizeReport retryEnv 1 50000 retryWorld))) 1)
     = Some partial
  /\ option_map job_state
       (findJob (db (snd (synthesizeReport retryEnv 1 50000 retryWorld))) 1)
     = Some (toJson (withSynthesis (fromJson (job_state synthesisJob)) PUBLISH
                       {| strategy := deep_research; retryCount := 0;
                          partialMarkdown := Some goodMarkdown |})).
Proof. vm_compute. repeat split; reflexivity. Qed.

(* ===================================================================== *)
(** * The scheduler: theorems                                             *)
(* ===================================================================== *)

Lemma oneJobOfWeek_JR u wk : JR_only (oneJobOfWeek u wk).
Proof.
  intros d d' Hj _ H. unfold oneJobOfWeek, jobsOfWeek in *.
  rewrite <- Hj. exact H.
Qed.

Lemma find_none_filter {A} (p : A -> bool) (l : list A) :
  find p l = None -> filter p l = [].
Proof.
  induction l as [|x l IH]; simpl; [reflexivity|].
  destruct (p x); [discriminate|exact IH].
Qed.

(** Creating the job of a user and week that has none keeps every count
    at one at most. *)
Lemma createJob_oneJobOfWeek u wk u0 wk0 topic at_ d :
  findJobOfWeek d u0 wk0 = None ->
  oneJobOfWeek u wk d ->
  oneJobOfWeek u wk (createJob u0 wk0 topic at_ d).
Proof.
  intros Hnone H. unfold oneJobOfWeek, jobsOfWeek in *. simpl.
  rewrite filter_app, length_app. simpl.
  destruct (N.eqb u0 u && (wk0 =? wk)%Z) eqn:Hkey; simpl; [|lia].
  apply andb_prop in Hkey. destruct Hkey as [Hu Hw].
  apply N.eqb_eq in Hu. apply Z.eqb_eq in Hw. subst u0 wk0.
  unfold findJobOfWeek in Hnone.
  rewrite (find_none_filter _ _ Hnone). simpl. lia.
Qed.

(** Creating the job of another user or week, or of a user and week that
    has none, leaves the jobs of a user and week that has some. *)
Lemma createJob_sameJobs (known : list JobRow) u wk u0 wk0 topic at_ d :
  known <> [] ->
  findJobOfWeek d u0 wk0 = None ->
  jobsOfWeek d u wk = known ->
  jobsOfWeek (createJob u0 wk0 topic at_ d) u wk = known.
Proof.
  intros Hne Hnone H. unfold jobsOfWeek in *. simpl.
  rewrite filter_app. simpl.
  destruct (N.eqb u0 u && (wk0 =? wk)%Z) eqn:Hkey; simpl;
    [|rewrite app_nil_r; exact H].
  apply andb_prop in Hkey. destruct Hkey as [Hu Hw].
  apply N.eqb_eq in Hu. apply Z.eqb_eq in Hw. subst u0 wk0.
  unfold findJobOfWeek in Hnone.
  rewrite (find_none_filter _ _ Hnone) in H. congruence.
Qed.

Section Scheduler.

Variable env : Env.

(** The scheduler keeps every property of the job table that the guarded
    creation keeps. *)
Variable I : DB -> Prop.
Hypothesis I_create :
  forall d u0 wk0 topic at_,
    findJobOfWeek d u0 wk0 = None -> I d -> I (createJob u0 wk0 topic at_ d).

Lemma selectTopic_inv (P : DB -> Prop) userId topics :
  inv P (selectTopicForUser env userId topics).
Proof.
  unfold selectTopicForUser.
  destruct topics as [|t1 [|t2 rest]]; try apply inv_ret.
  apply inv_bind; [apply inv_query|intros recent].
  destruct (find _ _); apply inv_ret.
Qed.

Lemma scheduleOne_inv usr c created : inv I (scheduleOne env usr c created).
Proof.
  unfold scheduleOne.
  destruct (user_deepDiveTopics usr) as [|t0 ts]; [apply inv_ret|].
  apply inv_bind; [apply inv_now|intros t].
  destruct (localDate env t (user_timezone usr)) as [today|];
    [|apply inv_throw].
  destruct (negb _); [apply inv_ret|].
  apply inv_try; [|apply inv_ret].
  set (monday := getMondayOfWeek today).
  eapply triple_bind; [apply triple_query|intros existing; cbv beta].
  destruct existing as [row|]; [apply triple_ret; tauto|].
  set (P := fun d => I d /\ None = findJobOfWeek d (user_id usr) monday).
  eapply triple_bind with (Q1 := fun _ => P).
  { eapply triple_weaken_E; [apply (selectTopic_inv P)|].
    intros d [H _]. exact H. }
  intros topicId. destruct topicId as [topic|];
    [|apply triple_ret; intros d [H _]; exact H].
  eapply triple_bind with (Q1 := fun _ => I).
  - eapply triple_weaken_E; [apply triple_insert|intros d [H _]; exact H].
    intros n d [H Hnone]. simpl.
    apply I_create; [symmetry; exact Hnone|exact H].
  - intros _. apply triple_ret. auto.
Qed.

Lemma scheduleAll_inv configs : forall created,
  inv I (scheduleAll env configs created).
Proof.
  induction configs as [|[usr c] configs IH]; intros created; simpl.
  - apply inv_ret.
  - apply inv_bind; [apply scheduleOne_inv|intros created'; apply IH].
Qed.

Lemma schedule_inv : inv I (scheduleDeepDives env).
Proof.
  unfold scheduleDeepDives.
  apply inv_bind; [apply inv_query|intros configs; apply scheduleAll_inv].
Qed.

Lemma runScheduler_inv n : forall w, I (db w) -> I (db (runScheduler env n w)).
Proof.
  induction n as [|n IH]; intros w H; simpl; [exact H|].
  apply IH. pose proof (schedule_inv w H) as Hs.
  unfold wp in Hs. destruct (scheduleDeepDives env w) as [[a|] w']; exact Hs.
Qed.

End Scheduler.

(** [C8]. However many times the scheduler runs, and whatever the clock,
    the time zones and the failures of the database, a user who has at
    most one job for a week still has at most one afterwards: a job is
    created only after the lookup on (userId, runWeek) has found none. In
    particular, from a table without a job for that user and week, at most
    one is ever created; and where the user has a job for the week, the
    runs leave the jobs of that user and week as they are. *)
Theorem one_job_per_user_week :
  forall env n w u wk,
    (List.length (jobsOfWeek (db w) u wk) <= 1 ->
     List.length (jobsOfWeek (db (runScheduler env n w)) u wk) <= 1)
    /\ (jobsOfWeek (db w) u wk <> [] ->
        jobsOfWeek (db (runScheduler env n w)) u wk = jobsOfWeek (db w) u wk).
Proof.
  intros env n w u wk. split.
  - intros H.
    apply (runScheduler_inv env (oneJobOfWeek u wk)); [|exact H].
    intros d u0 wk0 topic at_ Hnone Hd.
    apply createJob_oneJobOfWeek; assumption.
  - intros Hne.
    apply (runScheduler_inv env
             (fun d => jobsOfWeek d u wk = jobsOfWeek (db w) u wk));
      [|reflexivity].
    intros d u0 wk0 topic at_ Hnone Hd.
    apply createJob_sameJobs; assumption.
Qed.

(** Three runs on the same Thursday create the job of the week once. *)
Lemma one_job_per_user_week_witness :
  List.length (jobsOfWeek (db unscheduledWorld) 7 (-3)) <= 1
  /\ List.length
       (jobsOfWeek (db (runScheduler quietEnv 3 unscheduledWorld)) 7 (-3)) <= 1
  /\ List.length
       (jobsOfWeek (db (runScheduler quietEnv 3 unscheduledWorld)) 7 (-3)) = 1.
Proof.
  assert (H0 : List.length (jobsOfWeek (db unscheduledWorld) 7 (-3)) <= 1)
    by (vm_compute; apply Nat.le_0_l).
  split; [exact H0|]. split.
  - apply (proj1 (one_job_per_user_week quietEnv 3 unscheduledWorld
                    7%N (-3)%Z) H0).
  - vm_compute. reflexivity.
Defined.

(* ===================================================================== *)
(** * Dates, truncation and schedules: theorems                           *)
(* ===================================================================== *)

Lemma utcDay_range d : (0 <= utcDay d < 7)%Z.
Proof. unfold utcDay. apply Z.mod_pos_bound. lia. Qed.

Lemma utcDay_cases d :
  utcDay d = 0%Z \/ utcDay d = 1%Z \/ utcDay d = 2%Z \/ utcDay d = 3%Z
  \/ utcDay d = 4%Z \/ utcDay d = 5%Z \/ utcDay d = 6%Z.
Proof. pose proof (utcDay_range d). lia. Qed.

Lemma utcDay_shift d k : utcDay (d + k) = ((utcDay d + k) mod 7)%Z.
Proof.
  unfold utcDay. rewrite Z.add_mod_idemp_l by lia. f_equal. lia.
Qed.

(** [X1]. For every local date, [getMondayOfWeek] gives a Monday, the date
    itself or one of the six days before it, and the seven days that start
    on that Monday all give it back. *)
Theorem monday_of_week :
  forall d,
    utcDay (getMondayOfWeek d) = 1%Z
    /\ (d - 6 <= getMondayOfWeek d <= d)%Z
    /\ (forall k, (0 <= k < 7)%Z ->
          getMondayOfWeek (getMondayOfWeek d + k) = getMondayOfWeek d).
Proof.
  intros d.
  assert (Hmon : forall e, utcDay (getMondayOfWeek e) = 1%Z
                           /\ (e - 6 <= getMondayOfWeek e <= e)%Z).
  { intros e. unfold getMondayOfWeek.
    pose proof (utcDay_range e) as Hr.
    destruct (utcDay e =? 0)%Z eqn:H0.
    - apply Z.eqb_eq in H0. split; [|lia].
      rewrite utcDay_shift, H0. reflexivity.
    - apply Z.eqb_neq in H0. split; [|lia].
      rewrite utcDay_shift.
      replace (utcDay e + (1 - utcDay e))%Z with 1%Z by lia. reflexivity. }
  destruct (Hmon d) as [H1 H2]. split; [exact H1|]. split; [exact H2|].
  intros k Hk. set (m := getMondayOfWeek d) in *.
  unfold getMondayOfWeek at 1. rewrite utcDay_shift, H1.
  assert (Hk' : (1 + k = 7 \/ 1 + k < 7)%Z) by lia.
  destruct Hk' as [Hk'|Hk'].
  - rewrite Hk'. change (7 mod 7)%Z with 0%Z. simpl. lia.
  - rewrite Z.mod_small by lia.
    destruct (1 + k =? 0)%Z eqn:H0; [apply Z.eqb_eq in H0; lia|]. lia.
Qed.

(** [X2]. For every local date, [getDayOfWeek] gives one of the seven day
    codes, the one [DAY_MAP] sends to the weekday number of the date; the
    code repeats every seven days, and it tells how far back the Monday of
    [getMondayOfWeek] lies: none for MO, one day for TU, up to six days
    for SU. *)
Theorem day_of_week_code :
  forall d,
    DAY_MAP (getDayOfWeek d) = Some (utcDay d)
    /\ getDayOfWeek (d + 7) = getDayOfWeek d
    /\ getMondayOfWeek d = (d - (utcDay d + 6) mod 7)%Z.
Proof.
  intros d. split; [|split].
  - unfold getDayOfWeek.
    destruct (utcDay_cases d) as [H|[H|[H|[H|[H|[H|H]]]]]]; rewrite H;
      vm_compute; reflexivity.
  - unfold getDayOfWeek. rewrite utcDay_shift.
    pose proof (utcDay_range d) as Hr.
    replace ((utcDay d + 7) mod 7)%Z with (utcDay d); [reflexivity|].
    rewrite <- Z.add_mod_idemp_r by lia. change (7 mod 7)%Z with 0%Z.
    rewrite Z.add_0_r, Z.mod_small by lia. reflexivity.
  - unfold getMondayOfWeek.
    destruct (utcDay_cases d) as [H|[H|[H|[H|[H|[H|H]]]]]]; rewrite H;
      vm_compute (_ =? _)%Z; vm_compute (_ mod _)%Z; cbv iota; lia.
Qed.

(** What [truncateText] keeps, for any cap that is not negative. *)
Lemma truncateText_general text maxLength :
  (0 <= maxLength)%Z ->
  let cut := firstn (Z.to_nat maxLength) text in
  let sp := lastIndexOf cut 32%N in
  ((jslen text <= maxLength)%Z -> truncateText text maxLength = text)
  /\ ((maxLength < jslen text)%Z -> (4 * maxLength < 5 * sp)%Z ->
      truncateText text maxLength = firstn (Z.to_nat sp) text
      /\ (sp < maxLength)%Z)
  /\ ((maxLength < jslen text)%Z -> (5 * sp <= 4 * maxLength)%Z ->
      truncateText text maxLength = cut
      /\ jslen cut = maxLength).
Proof.
  intros Hpos cut sp. unfold truncateText.
  assert (Hcut : slice0 text maxLength = cut).
  { unfold slice0. assert (H : (maxLength <? 0)%Z = false)
      by (apply Z.ltb_ge; lia). rewrite H. reflexivity. }
  split; [|split].
  - intros H. apply Z.leb_le in H. rewrite H. reflexivity.
  - intros Hlen Hsp.
    assert (Hgt : (jslen text <=? maxLength)%Z = false)
      by (apply Z.leb_gt; lia).
    rewrite Hgt, Hcut. fold sp.
    assert (Hcmp : (4 * maxLength <? 5 * sp)%Z = true)
      by (apply Z.ltb_lt; lia).
    rewrite Hcmp.
    destruct (lastIndexOf_found cut 32%N) as [Hlt _]; [fold sp; lia|].
    fold sp in Hlt.
    assert (Hcl : List.length cut <= Z.to_nat maxLength)
      by apply firstn_le_length.
    unfold slice0.
    assert (Hneg : (sp <? 0)%Z = false) by (apply Z.ltb_ge; lia).
    rewrite Hneg. split; [|lia].
    unfold cut. rewrite firstn_firstn. f_equal. lia.
  - intros Hlen Hsp.
    assert (Hgt : (jslen text <=? maxLength)%Z = false)
      by (apply Z.leb_gt; lia).
    rewrite Hgt, Hcut. fold sp.
    assert (Hcmp : (4 * maxLength <? 5 * sp)%Z = false)
      by (apply Z.ltb_ge; lia).
    rewrite Hcmp. split; [reflexivity|].
    unfold cut, jslen in *. rewrite firstn_length_le by lia. lia.
Qed.

(** [X3]. For every text and every cap that is not negative,
    [truncateText] returns a prefix of the text no longer than the cap,
    the text itself exactly when it fits; a text that does not fit keeps
    at least four fifths of the cap; and truncating twice changes nothing
    more. *)
Theorem truncateText_keeps_prefix :
  forall text maxLength,
    (0 <= maxLength)%Z ->
    let kept := truncateText text maxLength in
    (exists rest, text = kept ++ rest)
    /\ (jslen kept <= maxLength)%Z
    /\ (kept = text <-> (jslen text <= maxLength)%Z)
    /\ ((maxLength < jslen text)%Z -> (4 * maxLength <= 5 * jslen kept)%Z)
    /\ truncateText kept maxLength = kept.
Proof.
  intros text maxLength Hpos kept.
  destruct (truncateText_general text maxLength Hpos) as [H1 [H2 H3]].
  set (sp := lastIndexOf (firstn (Z.to_nat maxLength) text) 32%N) in *.
  assert (Hcases :
    (jslen text <= maxLength /\ kept = text)%Z
    \/ (maxLength < jslen text /\ 4 * maxLength < 5 * sp
        /\ kept = firstn (Z.to_nat sp) text /\ sp < maxLength)%Z
    \/ (maxLength < jslen text
        /\ kept = firstn (Z.to_nat maxLength) text
        /\ jslen kept = maxLength)%Z).
  { destruct (Z_le_gt_dec (jslen text) maxLength) as [Hle|Hgt].
    - left. split; [exact Hle|exact (H1 Hle)].
    - right. destruct (Z_lt_le_dec (4 * maxLength) (5 * sp)) as [Hs|Hs].
      + left. destruct (H2 ltac:(lia) Hs) as [Ha Hb]. repeat split; auto; lia.
      + right. destruct (H3 ltac:(lia) Hs) as [Ha Hb]. unfold kept.
        rewrite Ha. repeat split; auto; lia. }
  assert (Hlen : (jslen kept <= maxLength)%Z).
  { destruct Hcases as [[Ha Hb]|[[Ha [Hb [Hc Hd]]]|[Ha [Hb Hc]]]].
    - rewrite Hb. exact Ha.
    - rewrite Hc. unfold jslen.
      pose proof (firstn_le_length (Z.to_nat sp) text). lia.
    - lia. }
  split; [|split; [exact Hlen|split; [|split]]].
  - destruct Hcases as [[Ha Hb]|[[Ha [Hb [Hc Hd]]]|[Ha [Hb Hc]]]].
    + exists []. rewrite Hb, app_nil_r. reflexivity.
    + rewrite Hc. eexists. symmetry. apply firstn_skipn.
    + rewrite Hb. eexists. symmetry. apply firstn_skipn.
  - split.
    + intros Heq. rewrite <- Heq. exact Hlen.
    + intros Hle. exact (H1 Hle).
  - intros Hgt.
    destruct Hcases as [[Ha Hb]|[[Ha [Hb [Hc Hd]]]|[Ha [Hb Hc]]]].
    + lia.
    + rewrite Hc. unfold jslen in *. rewrite firstn_length_le by lia. lia.
    + lia.
  - destruct (truncateText_general kept maxLength Hpos) as [K1 _].
    exact (K1 Hlen).
Qed.

Lemma truncateText_keeps_prefix_witness :
  (0 <= 12)%Z
  /\ truncateText (lit "alpha beta gamma") 12 = lit "alpha beta"
  /\ truncateText (truncateText (lit "alpha beta gamma") 12) 12
     = truncateText (lit "alpha beta gamma") 12.
Proof.
  assert (H : (0 <= 12)%Z) by lia.
  split; [exact H|]. split; [vm_compute; reflexivity|].
  exact (proj2 (proj2 (proj2 (proj2
           (truncateText_keeps_prefix (lit "alpha beta gamma") 12 H))))).
Defined.

(** ** The decimal writing of a number and its reading *)

Lemma digitsOf_S fuel n acc :
  digitsOf (S fuel) n acc
  = if (n <? 10)%N then (48 + n mod 10)%N :: acc
    else digitsOf fuel (n / 10)%N ((48 + n mod 10)%N :: acc).
Proof. reflexivity. Qed.

Lemma digitsOf_spec fuel : forall n acc,
  N.to_nat n < fuel ->
  exists ds, digitsOf fuel n acc = ds ++ acc
             /\ ds <> []
             /\ Forall (fun c => isDigit c = true) ds
             /\ parseDigits ds = Z.of_N n.
Proof.
  induction fuel as [|fuel IH]; intros n acc Hn; [lia|].
  rewrite digitsOf_S.
  assert (Hd : isDigit (48 + n mod 10) = true).
  { unfold isDigit. pose proof (N.mod_upper_bound n 10 ltac:(lia)) as Hr.
    set (r := (n mod 10)%N) in *.
    apply andb_true_intro. split; apply N.leb_le; lia. }
  destruct (n <? 10)%N eqn:Hlt.
  - apply N.ltb_lt in Hlt. exists [(48 + n mod 10)%N].
    split; [reflexivity|]. split; [discriminate|].
    split; [constructor; [exact Hd|constructor]|].
    unfold parseDigits. cbn [fold_left]. rewrite N.mod_small by lia. lia.
  - apply N.ltb_ge in Hlt.
    assert (Hdiv : (n / 10 < n)%N) by (apply N.div_lt; lia).
    destruct (IH (n / 10)%N ((48 + n mod 10)%N :: acc) ltac:(lia))
      as [ds [Heq [Hne [Hall Hparse]]]].
    exists (ds ++ [(48 + n mod 10)%N]). split; [|split; [|split]].
    + rewrite Heq, <- app_assoc. reflexivity.
    + destruct ds; discriminate.
    + apply Forall_app. split; [exact Hall|].
      constructor; [exact Hd|constructor].
    + unfold parseDigits in *. rewrite fold_left_app, Hparse.
      cbn [fold_left].
      pose proof (N.div_mod n 10 ltac:(lia)) as Hdm.
      set (r := (n mod 10)%N) in *. set (q := (n / 10)%N) in *. lia.
Qed.

Lemma showNat_spec n :
  showNat n <> []
  /\ Forall (fun c => isDigit c = true) (showNat n)
  /\ parseDigits (showNat n) = Z.of_nat n.
Proof.
  unfold showNat.
  destruct (digitsOf_spec (S n) (N.of_nat n) [] ltac:(lia))
    as [ds [Heq [Hne [Hall Hparse]]]].
  rewrite Heq, app_nil_r. split; [exact Hne|]. split; [exact Hall|].
  rewrite Hparse. lia.
Qed.

Lemma showInt_spec n :
  (0 <= n)%Z ->
  showInt n <> []
  /\ Forall (fun c => isDigit c = true) (showInt n)
  /\ parseDigits (showInt n) = n.
Proof.
  intros Hn. unfold showInt.
  assert (H : (n <? 0)%Z = false) by (apply Z.ltb_ge; lia). rewrite H.
  destruct (showNat_spec (Z.to_nat n)) as [H1 [H2 H3]].
  split; [exact H1|]. split; [exact H2|]. rewrite H3. lia.
Qed.

(** ** Searching for a prefixed group *)

Lemma span_app_stop (p : N -> bool) a b :
  Forall (fun c => p c = true) a ->
  match b with [] => True | c :: _ => p c = false end ->
  span p (a ++ b) = (a, b).
Proof.
  intros Ha Hb. induction Ha as [|x a Hx Ha IH]; simpl.
  - destruct b as [|c b]; [reflexivity|]. simpl. rewrite Hb. reflexivity.
  - rewrite Hx, IH. reflexivity.
Qed.

Lemma skipn_length_app {A} (p r : list A) : skipn (List.length p) (p ++ r) = r.
Proof. induction p as [|x p IH]; simpl; auto. Qed.

Lemma matchAfter_eq p cls s :
  matchAfter p cls s
  = match (if startsWith s p then
             match span cls (skipn (List.length p) s) with
             | (c :: g, _) => Some (c :: g)
             | ([], _) => None
             end
           else None) with
    | Some g => Some g
    | None =>
        match s with
        | [] => None
        | _ :: s' => matchAfter p cls s'
        end
    end.
Proof. destruct s; reflexivity. Qed.

(** The group found where [P] stands before a run of [C]. *)
Lemma matchAfter_here p cls g rest :
  g <> [] ->
  Forall (fun c => cls c = true) g ->
  match rest with [] => True | c :: _ => cls c = false end ->
  matchAfter p cls (p ++ g ++ rest) = Some g.
Proof.
  intros Hne Hg Hrest. rewrite matchAfter_eq.
  rewrite startsWith_app, skipn_length_app, (span_app_stop cls g rest Hg Hrest).
  destruct g; [congruence|reflexivity].
Qed.

Lemma clash_startsWith s p rest :
  clash s p = true -> startsWith (s ++ rest) p = false.
Proof.
  revert p. induction s as [|x s IH]; intros [|y p] H; simpl in *;
    try discriminate.
  destruct (x =? y)%N; simpl in *; [apply IH; exact H|reflexivity].
Qed.

Lemma startsWith_inside s p rest :
  p <> [] -> startsWith s p = true ->
  exists t, s = p ++ t /\ s ++ rest = p ++ t ++ rest.
Proof.
  revert s. induction p as [|y p IH]; intros s Hne H; [congruence|].
  destruct s as [|x s]; simpl in H; [discriminate|].
  apply andb_prop in H. destruct H as [Hx Hs]. apply N.eqb_eq in Hx. subst y.
  destruct p as [|z p].
  - exists s. split; reflexivity.
  - destruct (IH s ltac:(discriminate) Hs) as [t [Ht Ht']].
    exists t. split; simpl; [rewrite Ht at 1; reflexivity|].
    simpl in Ht'. rewrite Ht'. reflexivity.
Qed.

(** A literal stretch in which no group starts is skipped. *)
Lemma matchAfter_skip p cls a rest :
  p <> [] -> noGroupIn cls p a = true ->
  matchAfter p cls (a ++ rest) = matchAfter p cls rest.
Proof.
  intros Hp. induction a as [|x a IH]; intros H; [reflexivity|].
  cbn [noGroupIn] in H. apply andb_prop in H. destruct H as [Hx Ha].
  rewrite (matchAfter_eq p cls ((x :: a) ++ rest)).
  assert (Htail : match (x :: a) ++ rest with
                  | [] => None
                  | _ :: s' => matchAfter p cls s'
                  end = matchAfter p cls rest) by exact (IH Ha).
  rewrite Htail.
  apply orb_true_iff in Hx. destruct Hx as [Hx|Hx].
  - rewrite (clash_startsWith (x :: a) p rest Hx). reflexivity.
  - apply andb_prop in Hx. destruct Hx as [Hs Hc].
    destruct (startsWith_inside (x :: a) p rest Hp Hs) as [t [Ht Ht']].
    rewrite Ht'. rewrite startsWith_app, skipn_length_app.
    rewrite Ht, skipn_length_app in Hc.
    destruct t as [|c t]; [discriminate|]. simpl.
    apply negb_true_iff in Hc. rewrite Hc. reflexivity.
Qed.

Lemma startsWith_block b : forall p c rest,
  (forall x, In x p -> x <> c) ->
  (exists e, In e p /\ ~ In e b) ->
  startsWith (b ++ c :: rest) p = false.
Proof.
  induction b as [|x b IH]; intros p c rest Hc [e [He Hb]].
  - destruct p as [|y p]; [destruct He|]. simpl.
    assert (Hy : y <> c) by (apply Hc; left; reflexivity).
    destruct (c =? y)%N eqn:E; [apply N.eqb_eq in E; congruence|reflexivity].
  - destruct p as [|y p]; [destruct He|]. simpl.
    destruct (x =? y)%N eqn:E; [|reflexivity]. simpl.
    apply N.eqb_eq in E. subst y. apply IH.
    + intros z Hz. apply Hc. right. exact Hz.
    + exists e. split.
      * destruct He as [He|He]; [|exact He].
        exfalso. apply Hb. left. exact He.
      * intros Hin. apply Hb. right. exact Hin.
Qed.

(** A stretch that lacks a character of [P], before a character [P] does
    not hold, is skipped. *)
Lemma matchAfter_block p cls b c rest :
  (forall x, In x p -> x <> c) ->
  (exists e, In e p /\ ~ In e b) ->
  matchAfter p cls (b ++ c :: rest) = matchAfter p cls (c :: rest).
Proof.
  intros Hc. induction b as [|x b IH]; intros He; [reflexivity|].
  rewrite (matchAfter_eq p cls ((x :: b) ++ c :: rest)).
  rewrite (startsWith_block (x :: b) p c rest Hc He).
  simpl. apply IH. destruct He as [e [H1 H2]]. exists e. split; [exact H1|].
  intros Hin. apply H2. right. exact Hin.
Qed.

(** ** Splitting what was joined *)

Lemma splitChar_run c d : forall cur rest,
  Forall (fun x => x <> c) d ->
  splitChar c (d ++ rest) cur = splitChar c rest (rev d ++ cur).
Proof.
  induction d as [|x d IH]; intros cur rest H; [reflexivity|].
  inversion H as [|? ? Hx Hd]; subst. simpl.
  destruct (N.eqb x c) eqn:E; [apply N.eqb_eq in E; congruence|].
  rewrite (IH (x :: cur) rest Hd), <- app_assoc. reflexivity.
Qed.

Lemma splitChar_join c days :
  days <> [] ->
  Forall (Forall (fun x => x <> c)) days ->
  splitChar c (join [c] days) [] = days.
Proof.
  intros Hne H. induction H as [|d days Hd Hdays IH]; [congruence|].
  destruct days as [|d2 days].
  - simpl. rewrite <- (app_nil_r d) at 1.
    rewrite (splitChar_run c d [] [] Hd). simpl.
    rewrite app_nil_r, rev_involutive. reflexivity.
  - change (join [c] (d :: d2 :: days))
      with (d ++ c :: join [c] (d2 :: days)).
    rewrite (splitChar_run c d [] _ Hd). simpl. rewrite N.eqb_refl.
    rewrite app_nil_r, rev_involutive. f_equal. apply IH. discriminate.
Qed.

Lemma join_Forall (P : N -> Prop) sep days :
  Forall P sep -> Forall (Forall P) days -> Forall P (join sep days).
Proof.
  intros Hs H. induction H as [|d days Hd Hdays IH]; [constructor|].
  destruct days as [|d2 days]; [exact Hd|].
  change (join sep (d :: d2 :: days)) with (d ++ sep ++ join sep (d2 :: days)).
  apply Forall_app. split; [exact Hd|]. apply Forall_app. split; assumption.
Qed.

Lemma plainDay_join days :
  Forall plainDay days ->
  Forall (fun c => c <> 59%N /\ c <> 61%N) (join (lit ",") days)
  /\ Forall (Forall (fun c => c <> 44%N)) days
  /\ (days <> [] -> join (lit ",") days <> []).
Proof.
  intros H. split; [|split].
  - apply join_Forall.
    + constructor; [split; discriminate|constructor].
    + eapply Forall_impl; [|exact H]. intros d [_ Hd].
      eapply Forall_impl; [|exact Hd]. intros c [_ [H1 H2]]. auto.
  - eapply Forall_impl; [|exact H]. intros d [_ Hd].
    eapply Forall_impl; [|exact Hd]. intros c [H1 _]. exact H1.
  - intros Hne. destruct H as [|d days [Hd _] _]; [congruence|].
    destruct d as [|c d]; [congruence|].
    destruct days; discriminate.
Qed.

Lemma digits_lack (c : N) (ds : jsstring) :
  isDigit c = false -> Forall (fun x => isDigit x = true) ds -> ~ In c ds.
Proof.
  intros Hc H Hin. rewrite Forall_forall in H. specialize (H c Hin).
  congruence.
Qed.

(** [X4]. An RRULE built by [buildRrule] is read back by [parseRrule] as
    it was written: for every list of day strings that are not empty and
    hold no comma, semicolon or equals sign (the empty list included), and
    every hour and minute that are non-negative integers JavaScript holds
    exactly, parsing the built string gives back the same days, hour and
    minute. *)
Theorem rrule_round_trip :
  forall days hour minute,
    Forall plainDay days ->
    (0 <= hour <= MAX_SAFE_INTEGER)%Z ->
    (0 <= minute <= MAX_SAFE_INTEGER)%Z ->
    parseRrule (buildRrule days hour minute) = (days, hour, minute).
Proof.
  intros days hour minute Hdays Hhour Hminute.
  destruct (plainDay_join days Hdays) as [HJ [Hcomma HJne]].
  destruct (showInt_spec hour ltac:(lia)) as [Hhne [Hhd Hhp]].
  destruct (showInt_spec minute ltac:(lia)) as [Hmne [Hmd Hmp]].
  unfold parseRrule, buildRrule.
  set (J := join (lit ",") days) in *.
  set (H := showInt hour) in *. set (M := showInt minute) in *.
  assert (HJ59 : Forall (fun c => notSemicolon c = true) J).
  { eapply Forall_impl; [|exact HJ]. intros c [Hc _]. unfold notSemicolon.
    apply negb_true_iff. apply N.eqb_neq. exact Hc. }
  assert (HJ61 : ~ In 61%N J).
  { intros Hin. rewrite Forall_forall in HJ. destruct (HJ _ Hin) as [_ Hc].
    congruence. }
  assert (Hday :
    match matchAfter (lit "BYDAY=") notSemicolon
            (lit "FREQ=WEEKLY;BYDAY=" ++ J ++ lit ";BYHOUR=" ++ H
             ++ lit ";BYMINUTE=" ++ M ++ lit ";BYSECOND=0") with
    | Some g => splitChar 44%N g []
    | None => []
    end = days).
  { destruct days as [|d0 days'] eqn:Edays.
    - change J with (@nil N).
      change (lit "FREQ=WEEKLY;BYDAY=" ++ [] ++ lit ";BYHOUR=" ++ H
              ++ lit ";BYMINUTE=" ++ M ++ lit ";BYSECOND=0")
        with (lit "FREQ=WEEKLY;BYDAY=;BYHOUR=" ++ H
              ++ 59%N :: lit "BYMINUTE=" ++ M ++ 59%N :: lit "BYSECOND=0").
      rewrite matchAfter_skip;
        [|discriminate|vm_compute; reflexivity].
      rewrite matchAfter_block.
      2:{ intros x Hx. vm_compute in Hx.
          repeat (destruct Hx as [Hx|Hx]; [subst x; discriminate|]).
          destruct Hx. }
      2:{ exists 66%N. split; [vm_compute; auto|].
          apply digits_lack; [reflexivity|exact Hhd]. }
      change (59%N :: lit "BYMINUTE=" ++ M ++ 59%N :: lit "BYSECOND=0")
        with (lit ";BYMINUTE=" ++ M ++ 59%N :: lit "BYSECOND=0").
      rewrite matchAfter_skip;
        [|discriminate|vm_compute; reflexivity].
      rewrite matchAfter_block.
      2:{ intros x Hx. vm_compute in Hx.
          repeat (destruct Hx as [Hx|Hx]; [subst x; discriminate|]).
          destruct Hx. }
      2:{ exists 66%N. split; [vm_compute; auto|].
          apply digits_lack; [reflexivity|exact Hmd]. }
      vm_compute. reflexivity.
    - change (lit "FREQ=WEEKLY;BYDAY=" ++ J ++ lit ";BYHOUR=" ++ H
              ++ lit ";BYMINUTE=" ++ M ++ lit ";BYSECOND=0")
        with (lit "FREQ=WEEKLY;" ++ lit "BYDAY=" ++ J
              ++ (59%N :: lit "BYHOUR=" ++ H
                  ++ lit ";BYMINUTE=" ++ M ++ lit ";BYSECOND=0")).
      rewrite matchAfter_skip;
        [|discriminate|vm_compute; reflexivity].
      rewrite matchAfter_here;
        [|apply HJne; discriminate|exact HJ59|reflexivity].
      apply (splitChar_join 44%N (d0 :: days')); [discriminate|exact Hcomma]. }
  assert (Hh :
    matchAfter (lit "BYHOUR=") isDigit
      (lit "FREQ=WEEKLY;BYDAY=" ++ J ++ lit ";BYHOUR=" ++ H
       ++ lit ";BYMINUTE=" ++ M ++ lit ";BYSECOND=0") = Some H).
  { change (lit "FREQ=WEEKLY;BYDAY=" ++ J ++ lit ";BYHOUR=" ++ H
            ++ lit ";BYMINUTE=" ++ M ++ lit ";BYSECOND=0")
      with (lit "FREQ=WEEKLY;BYDAY=" ++ J
            ++ 59%N :: lit "BYHOUR=" ++ H
               ++ (59%N :: lit "BYMINUTE=" ++ M ++ lit ";BYSECOND=0")).
    rewrite matchAfter_skip; [|discriminate|vm_compute; reflexivity].
    rewrite matchAfter_block.
    2:{ intros x Hx. vm_compute in Hx.
        repeat (destruct Hx as [Hx|Hx]; [subst x; discriminate|]).
        destruct Hx. }
    2:{ exists 61%N. split; [vm_compute; auto 10|exact HJ61]. }
    change (59%N :: lit "BYHOUR=" ++ H
            ++ 59%N :: lit "BYMINUTE=" ++ M ++ lit ";BYSECOND=0")
      with ([59%N] ++ lit "BYHOUR=" ++ H
            ++ (59%N :: lit "BYMINUTE=" ++ M ++ lit ";BYSECOND=0")).
    rewrite matchAfter_skip; [|discriminate|vm_compute; reflexivity].
    apply matchAfter_here; [exact Hhne|exact Hhd|reflexivity]. }
  assert (Hm :
    matchAfter (lit "BYMINUTE=") isDigit
      (lit "FREQ=WEEKLY;BYDAY=" ++ J ++ lit ";BYHOUR=" ++ H
       ++ lit ";BYMINUTE=" ++ M ++ lit ";BYSECOND=0") = Some M).
  { change (lit "FREQ=WEEKLY;BYDAY=" ++ J ++ lit ";BYHOUR=" ++ H
            ++ lit ";BYMINUTE=" ++ M ++ lit ";BYSECOND=0")
      with (lit "FREQ=WEEKLY;BYDAY=" ++ J
            ++ 59%N :: lit "BYHOUR=" ++ H
               ++ 59%N :: lit "BYMINUTE=" ++ M
                  ++ (59%N :: lit "BYSECOND=0")).
    rewrite matchAfter_skip; [|discriminate|vm_compute; reflexivity].
    rewrite matchAfter_block.
    2:{ intros x Hx. vm_compute in Hx.
        repeat (destruct Hx as [Hx|Hx]; [subst x; discriminate|]).
        destruct Hx. }
    2:{ exists 61%N. split; [vm_compute; auto 12|exact HJ61]. }
    change (59%N :: lit "BYHOUR=" ++ H
            ++ 59%N :: lit "BYMINUTE=" ++ M ++ 59%N :: lit "BYSECOND=0")
      with (lit ";BYHOUR=" ++ H
            ++ 59%N :: lit "BYMINUTE=" ++ M ++ 59%N :: lit "BYSECOND=0").
    rewrite matchAfter_skip; [|discriminate|vm_compute; reflexivity].
    rewrite matchAfter_block.
    2:{ intros x Hx. vm_compute in Hx.
        repeat (destruct Hx as [Hx|Hx]; [subst x; discriminate|]).
        destruct Hx. }
    2:{ exists 66%N. split; [vm_compute; auto|].
        apply digits_lack; [reflexivity|exact Hhd]. }
    change (59%N :: lit "BYMINUTE=" ++ M ++ 59%N :: lit "BYSECOND=0")
      with ([59%N] ++ lit "BYMINUTE=" ++ M ++ (59%N :: lit "BYSECOND=0")).
    rewrite matchAfter_skip; [|discriminate|vm_compute; reflexivity].
    apply matchAfter_here; [exact Hmne|exact Hmd|reflexivity]. }
  rewrite Hday, Hh, Hm, Hhp, Hmp. reflexivity.
Qed.

Lemma rrule_round_trip_witness :
  Forall plainDay [lit "MO"; lit "TH"]
  /\ (0 <= 7 <= MAX_SAFE_INTEGER)%Z
  /\ (0 <= 30 <= MAX_SAFE_INTEGER)%Z
  /\ parseRrule (buildRrule [lit "MO"; lit "TH"] 7 30)
     = ([lit "MO"; lit "TH"], 7%Z, 30%Z).
Proof.
  assert (Hd : Forall plainDay [lit "MO"; lit "TH"]).
  { repeat constructor; try discriminate. }
  assert (Hh : (0 <= 7 <= MAX_SAFE_INTEGER)%Z)
    by (unfold MAX_SAFE_INTEGER; lia).
  assert (Hm : (0 <= 30 <= MAX_SAFE_INTEGER)%Z)
    by (unfold MAX_SAFE_INTEGER; lia).
  split; [exact Hd|]. split; [exact Hh|]. split; [exact Hm|].
  exact (rrule_round_trip [lit "MO"; lit "TH"] 7 30 Hd Hh Hm).
Defined.

(** ** The next send time *)

Lemma parseRrule_absent p cls s :
  includes s p = false -> matchAfter p cls s = None.
Proof.
  induction s as [|x s IH]; intros H; rewrite includes_unfold in H;
    apply orb_false_iff in H; destruct H as [H1 H2];
    rewrite matchAfter_eq, H1; [reflexivity|]. exact (IH H2).
Qed.

(** [X5]. A key the rule does not hold gets its default, whatever the rest
    of the rule is: no days without BYDAY=, hour 6 without BYHOUR=, minute
    0 without BYMINUTE=; the empty rule of a user without a schedule gives
    all three. *)
Theorem parseRrule_defaults :
  forall rrule,
    (includes rrule (lit "BYDAY=") = false -> fst (fst (parseRrule rrule)) = [])
    /\ (includes rrule (lit "BYHOUR=") = false ->
        snd (fst (parseRrule rrule)) = 6%Z)
    /\ (includes rrule (lit "BYMINUTE=") = false ->
        snd (parseRrule rrule) = 0%Z).
Proof.
  intros rrule. unfold parseRrule. cbn [fst snd].
  split; [|split]; intros H; rewrite (parseRrule_absent _ _ _ H); reflexivity.
Qed.

Lemma parseRrule_defaults_witness :
  includes [] (lit "BYDAY=") = false
  /\ includes (lit "FREQ=WEEKLY;BYDAY=MO") (lit "BYHOUR=") = false
  /\ parseRrule [] = ([], 6%Z, 0%Z)
  /\ snd (fst (parseRrule (lit "FREQ=WEEKLY;BYDAY=MO"))) = 6%Z.
Proof.
  assert (H1 : includes [] (lit "BYDAY=") = false) by (vm_compute; reflexivity).
  assert (H2 : includes (lit "FREQ=WEEKLY;BYDAY=MO") (lit "BYHOUR=") = false)
    by (vm_compute; reflexivity).
  split; [exact H1|]. split; [exact H2|].
  split; [vm_compute; reflexivity|].
  exact (proj1 (proj2 (parseRrule_defaults (lit "FREQ=WEEKLY;BYDAY=MO"))) H2).
Defined.

Lemma DAY_MAP_range d n : DAY_MAP d = Some n -> (0 <= n <= 6)%Z.
Proof.
  unfold DAY_MAP.
  repeat match goal with
         | |- (if ?b then _ else _) = _ -> _ => destruct b
         end; intros H; inversion H; lia.
Qed.

(** ** Escaping text for the mail *)

Ltac show_lits :=
  repeat match goal with
         | |- context [lit ?s] =>
             let v := eval vm_compute in (lit s) in change (lit s) with v
         | H : context [lit ?s] |- _ =>
             let v := eval vm_compute in (lit s) in change (lit s) with v in H
         end.

Lemma replaceAllChar_app c r a b :
  replaceAllChar c r (a ++ b) = replaceAllChar c r a ++ replaceAllChar c r b.
Proof. apply flat_map_app. Qed.

Lemma escapeHtml_app a b : escapeHtml (a ++ b) = escapeHtml a ++ escapeHtml b.
Proof. unfold escapeHtml. rewrite !replaceAllChar_app. reflexivity. Qed.

Lemma escapeHtml_one c : escapeHtml [c] = entityOf c.
Proof.
  unfold entityOf.
  destruct (N.eqb_spec c 38); [subst; vm_compute; reflexivity|].
  destruct (N.eqb_spec c 60); [subst; vm_compute; reflexivity|].
  destruct (N.eqb_spec c 62); [subst; vm_compute; reflexivity|].
  destruct (N.eqb_spec c 34); [subst; vm_compute; reflexivity|].
  destruct (N.eqb_spec c 39); [subst; vm_compute; reflexivity|].
  unfold escapeHtml, replaceAllChar. cbn [flat_map app].
  repeat match goal with
         | H : c <> ?k |- context [(c =? ?k)%N] =>
             rewrite (proj2 (N.eqb_neq c k) H); cbn [flat_map app]
         end.
  reflexivity.
Qed.

(** One pass is enough: each character is rewritten once, and what an
    earlier replacement wrote is not rewritten by a later one. *)
Lemma escapeHtml_pass text : escapeHtml text = flat_map entityOf text.
Proof.
  induction text as [|c text IH]; [reflexivity|].
  change (c :: text) with ([c] ++ text).
  rewrite escapeHtml_app, escapeHtml_one, IH. reflexivity.
Qed.

Lemma entityOf_chars c x :
  In x (entityOf c) ->
  x <> 60%N /\ x <> 62%N /\ x <> 34%N /\ x <> 39%N.
Proof.
  unfold entityOf.
  repeat match goal with
         | |- context [(c =? ?k)%N] => destruct (N.eqb_spec c k)
         end; show_lits; cbn [In]; intros H;
    repeat (destruct H as [H|H]; [subst x; repeat split; congruence|]);
    destruct H.
Qed.

Lemma entityOf_prefix x y A B :
  entityOf x ++ A = entityOf y ++ B -> x = y /\ A = B.
Proof.
  unfold entityOf.
  repeat match goal with
         | |- context [(?a =? ?k)%N] => destruct (N.eqb_spec a k)
         end; show_lits; cbn [app]; intros H; inversion H; subst;
    try congruence; auto.
Qed.

(** [X7]. For every text, [escapeHtml] writes each ampersand, angle
    bracket, double quote and apostrophe as its entity and leaves every
    other character alone, each character being handled once (an entity
    is not escaped again); so the result holds no angle bracket, double
    quote or apostrophe, a text without the five characters comes out
    unchanged, and two texts never come out the same. *)
Theorem escapeHtml_safe :
  forall text,
    escapeHtml text = flat_map entityOf text
    /\ (forall c, In c (escapeHtml text) ->
          c <> 60%N /\ c <> 62%N /\ c <> 34%N /\ c <> 39%N)
    /\ (forallb (fun c => negb (isMarkup c)) text = true ->
        escapeHtml text = text)
    /\ (forall other, escapeHtml other = escapeHtml text -> other = text).
Proof.
  intros text. split; [apply escapeHtml_pass|]. split; [|split].
  - intros c. rewrite escapeHtml_pass, in_flat_map.
    intros [x [_ Hx]]. exact (entityOf_chars x c Hx).
  - rewrite escapeHtml_pass. induction text as [|c text IH]; [reflexivity|].
    cbn [forallb flat_map]. intros H. apply andb_prop in H.
    destruct H as [Hc Ht]. rewrite (IH Ht). apply negb_true_iff in Hc.
    unfold isMarkup in Hc. repeat (apply orb_false_iff in Hc; destruct Hc as [Hc ?]).
    unfold entityOf.
    repeat match goal with
           | H : (c =? ?k)%N = false |- _ => rewrite H; clear H
           end.
    reflexivity.
  - intros other. rewrite !escapeHtml_pass. revert other.
    induction text as [|c text IH]; intros [|d other] H; cbn [flat_map] in H.
    + reflexivity.
    + exfalso. revert H. unfold entityOf.
      repeat match goal with
             | |- context [(d =? ?k)%N] => destruct (N.eqb_spec d k)
             end; show_lits; discriminate.
    + exfalso. revert H. unfold entityOf.
      repeat match goal with
             | |- context [(c =? ?k)%N] => destruct (N.eqb_spec c k)
             end; show_lits; discriminate.
    + destruct (entityOf_prefix _ _ _ _ H) as [Hc Hrest]. subst d.
      f_equal. apply IH. exact Hrest.
Qed.

Lemma escapeHtml_safe_witness :
  forallb (fun c => negb (isMarkup c)) (lit "Banks raise buffers") = true
  /\ escapeHtml (lit "Banks raise buffers") = lit "Banks raise buffers"
  /\ escapeHtml (lit "a<b & c") = lit "a&lt;b &amp; c".
Proof.
  assert (H : forallb (fun c => negb (isMarkup c))
                (lit "Banks raise buffers") = true)
    by (vm_compute; reflexivity).
  split; [exact H|]. split; [|vm_compute; reflexivity].
  exact (proj1 (proj2 (proj2 (escapeHtml_safe (lit "Banks raise buffers")))) H).
Defined.

(* ===================================================================== *)
(** * The validator and the parser: further theorems                      *)
(* ===================================================================== *)

Lemma error_invalid report sourceTexts e :
  In e (errors (validateReport report sourceTexts)) ->
  valid (validateReport report sourceTexts) = false.
Proof.
  unfold validateReport. cbn [errors valid].
  intros Hin. apply Nat.eqb_neq. intros Hlen.
  apply length_zero_iff_nil in Hlen. rewrite Hlen in Hin. exact Hin.
Qed.

Lemma banned_lowercase phrase :
  In phrase BANNED_PHRASES -> toLowerCase phrase = phrase.
Proof.
  assert (H : forallb (fun p => str_eqb (toLowerCase p) p) BANNED_PHRASES
              = true) by (vm_compute; reflexivity).
  rewrite forallb_forall in H. intros Hin. apply str_eqb_eq. exact (H _ Hin).
Qed.

Lemma lowerChar_exclamation c : N.eqb 33 (lowerChar c) = N.eqb 33 c.
Proof.
  unfold lowerChar, isUpper.
  destruct ((65 <=? c) && (c <=? 90))%N eqn:E1.
  - apply andb_prop in E1. destruct E1 as [H1 H2].
    apply N.leb_le in H1. apply N.leb_le in H2.
    destruct (N.eqb_spec 33 (c + 32)); destruct (N.eqb_spec 33 c);
      try reflexivity; lia.
  - destruct ((192 <=? c) && (c <=? 222) && negb (c =? 215))%N eqn:E2;
      [|reflexivity].
    apply andb_prop in E2. destruct E2 as [E2 _].
    apply andb_prop in E2. destruct E2 as [H1 H2].
    apply N.leb_le in H1. apply N.leb_le in H2.
    destruct (N.eqb_spec 33 (c + 32)); destruct (N.eqb_spec 33 c);
      try reflexivity; lia.
Qed.

Lemma exclamations_lowercase text :
  exclamations (toLowerCase text) = exclamations text.
Proof.
  unfold exclamations, toLowerCase.
  induction text as [|c text IH]; [reflexivity|]. cbn [map filter].
  rewrite lowerChar_exclamation.
  destruct (N.eqb 33 c); cbn [List.length]; rewrite IH; reflexivity.
Qed.

(** [X8]. Whatever the sources, [validateReport] rejects a report whose
    text (headline, bullets and source titles joined by spaces) holds a
    banned phrase in any letter case, and a report whose text holds more
    than one exclamation mark; the two checks are made on the whole text,
    so the phrase or the marks may sit in any section. *)
Theorem validator_rejects_filler :
  forall report sourceTexts,
    ((exists phrase,
        In phrase BANNED_PHRASES
        /\ includes (toLowerCase (serializeReport report)) phrase = true) ->
     valid (validateReport report sourceTexts) = false)
    /\ (1 < exclamations (serializeReport report) ->
        valid (validateReport report sourceTexts) = false).
Proof.
  intros report sourceTexts. split.
  - intros [phrase [Hin Hinc]].
    apply (error_invalid report sourceTexts (BannedPhrase phrase)).
    unfold validateReport. cbn [errors].
    apply in_or_app. right. apply in_or_app. left.
    unfold bannedErrors. apply in_flat_map. exists phrase.
    split; [exact Hin|]. rewrite (banned_lowercase phrase Hin), Hinc.
    left. reflexivity.
  - intros Hmany.
    apply (error_invalid report sourceTexts
             (TooManyExclamations (exclamations (serializeReport report)))).
    unfold validateReport. cbn [errors].
    apply in_or_app. right. apply in_or_app. right. apply in_or_app. left.
    unfold exclamationErrors.
    change (List.length (filter (N.eqb 33)
                           (toLowerCase (serializeReport report))))
      with (exclamations (toLowerCase (serializeReport report))).
    rewrite exclamations_lowercase.
    assert (H : (1 <? exclamations (serializeReport report)) = true)
      by (apply Nat.ltb_lt; exact Hmany).
    rewrite H. left. reflexivity.
Qed.

Lemma validator_rejects_filler_witness :
  (exists phrase,
     In phrase BANNED_PHRASES
     /\ includes (toLowerCase (serializeReport fillerReport)) phrase = true)
  /\ valid (validateReport fillerReport sampleTexts) = false.
Proof.
  assert (H : exists phrase,
            In phrase BANNED_PHRASES
            /\ includes (toLowerCase (serializeReport fillerReport)) phrase
               = true).
  { exists (lit "paradigm shift"). split; [|vm_compute; reflexivity].
    right. right. left. reflexivity. }
  split; [exact H|].
  exact (proj1 (validator_rejects_filler fillerReport sampleTexts) H).
Defined.

(** ** Where the entities come from *)

Lemma str_eqb_refl a : str_eqb a a = true.
Proof.
  induction a as [|x a IH]; [reflexivity|]. simpl.
  rewrite N.eqb_refl. exact IH.
Qed.

Lemma strIn_In e l : strIn e l = true <-> In e l.
Proof.
  unfold strIn. rewrite existsb_exists. split.
  - intros [x [Hx E]]. apply str_eqb_eq in E. subst. exact Hx.
  - intros H. exists e. split; [exact H|apply str_eqb_refl].
Qed.

Lemma span_split p s : s = fst (span p s) ++ snd (span p s).
Proof.
  induction s as [|x s IH]; [reflexivity|]. simpl.
  destruct (p x); [|reflexivity].
  destruct (span p s) as [a b]. simpl in *. rewrite IH at 1. reflexivity.
Qed.

Lemma capWord_split s w r : capWord s = Some (w, r) -> s = w ++ r.
Proof.
  unfold capWord. destruct s as [|c s]; [discriminate|].
  destruct (isUpper c); [|discriminate].
  pose proof (span_split isLower s) as Hs.
  destruct (span isLower s) as [lo r']. simpl in Hs.
  destruct lo as [|l lo]; [discriminate|].
  intros H. injection H as Hw Hr. subst w r. simpl. rewrite Hs at 1.
  reflexivity.
Qed.

Lemma capWords_split fuel : forall acc s,
  exists rest, acc ++ s = capWords fuel acc s ++ rest.
Proof.
  induction fuel as [|fuel IH]; intros acc s; [exists s; reflexivity|].
  simpl. pose proof (span_split isSpace s) as Hs.
  destruct (span isSpace s) as [ws r]. simpl in Hs.
  destruct ws as [|w0 ws]; [exists s; reflexivity|].
  destruct (capWord r) as [[w r']|] eqn:Ew; [|exists s; reflexivity].
  apply capWord_split in Ew.
  destruct (IH (acc ++ (w0 :: ws) ++ w) r') as [rest Hrest].
  exists rest. rewrite <- Hrest, Hs, Ew, <- !app_assoc. reflexivity.
Qed.

Lemma entityAt_split s c : entityAt s = Some c -> exists rest, s = c ++ rest.
Proof.
  unfold entityAt. destruct (capWord s) as [[w r]|] eqn:Ew; [|discriminate].
  intros H. inversion H; subst. apply capWord_split in Ew.
  destruct (capWords_split (List.length r) w r) as [rest Hrest].
  exists rest. rewrite Ew. exact Hrest.
Qed.

Lemma includes_middle pre c rest : includes (pre ++ c ++ rest) c = true.
Proof.
  apply includes_app_l. rewrite includes_unfold, startsWith_app. reflexivity.
Qed.

Lemma entitiesOf_add text e entities :
  entitiesOf text entities ->
  includes text e = true -> 2 <= List.length e ->
  entitiesOf text (setAdd e entities).
Proof.
  intros [Hnd Hall] Hinc Hlen. unfold setAdd.
  destruct (strIn e entities) eqn:E; [split; assumption|].
  assert (Hnot : ~ In e entities).
  { intros Hin. apply strIn_In in Hin. congruence. }
  split.
  - apply NoDup_app; [exact Hnd|constructor; [intros []|constructor]|].
    intros x Hx [Hx'|[]]. subst. contradiction.
  - intros x Hx. apply in_app_or in Hx. destruct Hx as [Hx|[Hx|[]]].
    + exact (Hall x Hx).
    + subst. auto.
Qed.

Lemma scanEntities_sound text : forall s before skip entities,
  text = rev before ++ s ->
  entitiesOf text entities ->
  entitiesOf text (scanEntities before s skip entities).
Proof.
  induction s as [|c s IH]; intros before skip entities Ht He; [exact He|].
  assert (Ht' : text = rev (c :: before) ++ s).
  { simpl. rewrite <- app_assoc. exact Ht. }
  cbn [scanEntities]. destruct skip as [|k]; [|apply IH; assumption].
  destruct (if entityLookbehind before then entityAt (c :: s) else None)
    as [candidate|] eqn:Ec; [|apply IH; assumption].
  apply IH; [exact Ht'|].
  destruct (negb (strIn candidate commonWords)
            && (2 <? List.length candidate)) eqn:Ek; [|exact He].
  apply andb_prop in Ek. destruct Ek as [_ Hlen]. apply Nat.ltb_lt in Hlen.
  destruct (entityLookbehind before); [|discriminate].
  destruct (entityAt_split _ _ Ec) as [rest Hrest].
  apply entitiesOf_add; [exact He| |lia].
  rewrite Ht, Hrest. apply includes_middle.
Qed.

Lemma scanAcronyms_sound text : forall s pre prevWord entities,
  text = pre ++ s ->
  entitiesOf text entities ->
  entitiesOf text (scanAcronyms s prevWord entities).
Proof.
  induction s as [|c s IH]; intros pre prevWord entities Ht He; [exact He|].
  assert (Ht' : text = (pre ++ [c]) ++ s).
  { rewrite <- app_assoc. exact Ht. }
  cbn [scanAcronyms]. destruct (isWord c) eqn:Ew.
  2:{ exact (IH _ _ _ Ht' He). }
  destruct prevWord; [exact (IH _ _ _ Ht' He)|].
  pose proof (span_split isWord (c :: s)) as Hs.
  destruct (span isWord (c :: s)) as [tok rest]. simpl in Hs.
  apply (IH _ _ _ Ht').
  destruct (forallb isUpper tok && (2 <=? List.length tok)
            && (List.length tok <=? 6) && negb (strIn tok acronymStop))
    eqn:Ek; [|exact He].
  apply andb_prop in Ek. destruct Ek as [Ek _].
  apply andb_prop in Ek. destruct Ek as [Ek _].
  apply andb_prop in Ek. destruct Ek as [_ Hlen]. apply Nat.leb_le in Hlen.
  apply entitiesOf_add; [exact He| |exact Hlen].
  rewrite Ht, Hs. apply includes_middle.
Qed.

(** [X9]. For every report, the entities [extractEntities] returns are
    distinct, each has at least two characters, and each occurs verbatim
    in the text of the report: the grounding check never asks the sources
    for a name the report does not hold. *)
Theorem entities_come_from_report :
  forall report,
    NoDup (extractEntities report)
    /\ forall e, In e (extractEntities report) ->
         includes (serializeReport report) e = true
         /\ 2 <= List.length e.
Proof.
  intros report. unfold extractEntities.
  apply (scanAcronyms_sound (serializeReport report) (serializeReport report)
           [] false); [reflexivity|].
  apply (scanEntities_sound (serializeReport report) (serializeReport report)
           [] 0); [reflexivity|].
  split; [constructor|intros e []].
Qed.

(** ** Replies that are no report *)

Lemma startsWith_longer s c p :
  startsWith s [c] = false -> startsWith s (c :: p) = false.
Proof.
  destruct s as [|x s]; [reflexivity|]. simpl.
  destruct (x =? c)%N; [|reflexivity]. simpl.
  destruct s; discriminate.
Qed.

Lemma parseLine_plain line :
  startsWith (trim line) (lit "#") = false ->
  parseLine {| ps_sections := []; ps_currentSection := [];
               ps_headline := [] |} line
  = {| ps_sections := []; ps_currentSection := []; ps_headline := [] |}.
Proof.
  intros H. unfold parseLine.
  change (lit "# ") with (35%N :: lit " ").
  change (lit "## ") with (35%N :: lit "# ").
  change (lit "#") with [35%N] in H.
  rewrite !(startsWith_longer _ _ _ H). cbn [andb negb].
  cbn [ps_sections ps_currentSection ps_headline isEmptyStr].
  rewrite andb_false_r.
  destruct (numbered (trim line)); reflexivity.
Qed.

(** [X10]. A reply in which no line begins with a hash sign, once its
    surrounding white space is removed, parses to the report with nothing
    in it: no headline, no bullets (bullets before any section heading are
    dropped) and no sources; the validator rejects it whatever the
    sources. *)
Theorem reply_without_heading_is_rejected :
  forall markdown sourceTexts,
    (forall line, In line (splitChar 10 markdown []) ->
       startsWith (trim line) (lit "#") = false) ->
    parseReportMarkdown markdown = emptyReport
    /\ valid (validateReport (parseReportMarkdown markdown) sourceTexts)
       = false.
Proof.
  intros markdown sourceTexts Hlines.
  assert (Hparse : parseReportMarkdown markdown = emptyReport).
  { unfold parseReportMarkdown.
    assert (Hfold :
      fold_left parseLine (splitChar 10 markdown [])
        {| ps_sections := []; ps_currentSection := []; ps_headline := [] |}
      = {| ps_sections := []; ps_currentSection := []; ps_headline := [] |}).
    { induction (splitChar 10 markdown []) as [|line lines IH];
        [reflexivity|].
      cbn [fold_left]. rewrite parseLine_plain.
      - apply IH. intros l Hl. apply Hlines. right. exact Hl.
      - apply Hlines. left. reflexivity. }
    rewrite Hfold. reflexivity. }
  split; [exact Hparse|]. rewrite Hparse.
  apply (section_error_invalid emptyReport sourceTexts HeadlineMissingOrShort).
  left. reflexivity.
Qed.

Lemma reply_without_heading_is_rejected_witness :
  (forall line, In line (splitChar 10 badMarkdown []) ->
     startsWith (trim line) (lit "#") = false)
  /\ parseReportMarkdown badMarkdown = emptyReport
  /\ valid (validateReport (parseReportMarkdown badMarkdown) sampleTexts)
     = false.
Proof.
  assert (H : forall line, In line (splitChar 10 badMarkdown []) ->
                startsWith (trim line) (lit "#") = false).
  { intros line Hin. vm_compute in Hin. destruct Hin as [Hin|[]].
    subst line. vm_compute. reflexivity. }
  split; [exact H|].
  exact (reply_without_heading_is_rejected badMarkdown sampleTexts H).
Defined.

(* ===================================================================== *)
(** * The fallback report read back by the parser                         *)
(* ===================================================================== *)

(** ** Trimming *)

Lemma dropWhile_app_keep (p : N -> bool) x y :
  dropWhile p x <> [] -> dropWhile p (x ++ y) = dropWhile p x ++ y.
Proof.
  induction x as [|c x IH]; intros H; simpl in *; [congruence|].
  destruct (p c); [apply IH; exact H|reflexivity].
Qed.

Lemma dropWhile_app_all (p : N -> bool) x y :
  dropWhile p x = [] -> dropWhile p (x ++ y) = dropWhile p y.
Proof.
  induction x as [|c x IH]; intros H; simpl in *; [reflexivity|].
  destruct (p c); [apply IH; exact H|discriminate].
Qed.

Lemma dropWhile_head (p : N -> bool) s c t :
  dropWhile p s = c :: t -> p c = false.
Proof.
  induction s as [|x s IH]; simpl; [discriminate|].
  destruct (p x) eqn:E; [exact IH|]. intros H. inversion H; subst. exact E.
Qed.

Lemma dropWhile_first (p : N -> bool) c t :
  p c = false -> dropWhile p (c :: t) = c :: t.
Proof. intros H. simpl. rewrite H. reflexivity. Qed.

Lemma span_snd (p : N -> bool) s : snd (span p s) = dropWhile p s.
Proof.
  induction s as [|x s IH]; [reflexivity|]. simpl.
  destruct (p x); [|reflexivity].
  destruct (span p s) as [a b]. exact IH.
Qed.

Lemma trim_unfold s : trim s = trimEnd (dropWhile isSpace s).
Proof. reflexivity. Qed.

Lemma trimEnd_app a b : trimEnd b <> [] -> trimEnd (a ++ b) = a ++ trimEnd b.
Proof.
  unfold trimEnd. intros H. rewrite rev_app_distr.
  rewrite dropWhile_app_keep.
  - rewrite rev_app_distr, rev_involutive. reflexivity.
  - intros E. rewrite E in H. apply H. reflexivity.
Qed.

Lemma trimEnd_blank a b : trimEnd b = [] -> trimEnd (a ++ b) = trimEnd a.
Proof.
  unfold trimEnd. intros H. rewrite rev_app_distr.
  rewrite dropWhile_app_all; [reflexivity|].
  apply (f_equal (@rev N)) in H. rewrite rev_involutive in H. exact H.
Qed.

Lemma trimEnd_keep a b : trimEnd a = a -> trimEnd (a ++ b) = a ++ trimEnd b.
Proof.
  intros Ha. destruct (trimEnd b) as [|c t] eqn:E.
  - rewrite (trimEnd_blank a b E), Ha, app_nil_r. reflexivity.
  - rewrite trimEnd_app; [rewrite E; reflexivity|].
    rewrite E. discriminate.
Qed.

Lemma trimEnd_last x c : isSpace c = false -> trimEnd (x ++ [c]) = x ++ [c].
Proof.
  intros H. unfold trimEnd. rewrite rev_app_distr. simpl. rewrite H.
  simpl. rewrite rev_involutive. reflexivity.
Qed.

Lemma digit_not_space d : isDigit d = true -> isSpace d = false.
Proof.
  unfold isDigit. intros H. apply andb_prop in H.
  destruct H as [H1 H2]. apply N.leb_le in H1. apply N.leb_le in H2.
  assert (Hd : (d = 48 \/ d = 49 \/ d = 50 \/ d = 51 \/ d = 52 \/ d = 53
                \/ d = 54 \/ d = 55 \/ d = 56 \/ d = 57)%N) by lia.
  repeat (destruct Hd as [Hd|Hd]; [subst d; reflexivity|]).
  subst d. reflexivity.
Qed.

(** ** One line of the parser *)

Lemma parseLine_bullet st line :
  startsBullet line = true ->
  parseLine st line = pushBullet st (stripMarker (lit "-") (trim line)).
Proof.
  unfold startsBullet. destruct line as [|a [|b [|c rest]]]; try discriminate.
  intros H. apply andb_prop in H. destruct H as [H Hc].
  apply andb_prop in H. destruct H as [Ha Hb].
  apply N.eqb_eq in Ha. apply N.eqb_eq in Hb. subst a b.
  apply negb_true_iff in Hc.
  assert (Htrim : trim (45 :: 32 :: c :: rest)%N
                  = (45 :: 32 :: c :: trimEnd rest)%N).
  { rewrite trim_unfold, dropWhile_first by reflexivity.
    change (45 :: 32 :: c :: rest)%N with ([45; 32; c] ++ rest)%N.
    rewrite trimEnd_keep; [reflexivity|].
    apply (trimEnd_last [45; 32]%N c Hc). }
  unfold parseLine, pushBullet. rewrite Htrim.
  change (startsWith (45 :: 32 :: c :: trimEnd rest)%N (lit "# "))
    with false.
  change (startsWith (45 :: 32 :: c :: trimEnd rest)%N (lit "## "))
    with false.
  change (startsWith (45 :: 32 :: c :: trimEnd rest)%N (lit "- "))
    with true.
  change (numbered (45 :: 32 :: c :: trimEnd rest)%N) with (@None jsstring).
  cbn [andb negb].
  destruct (isEmptyStr (ps_currentSection st)); reflexivity.
Qed.

Lemma parseLine_numbered st line :
  numberedLine line ->
  exists item,
    parseLine st line
    = {| ps_sections :=
           if str_eqb (ps_currentSection st) (lit "sources")
           then sectionPush (ps_currentSection st) item (ps_sections st)
           else ps_sections st;
         ps_currentSection := ps_currentSection st;
         ps_headline := ps_headline st |}.
Proof.
  intros [digits [c [rest [Hline [Hne [Hd Hc]]]]]].
  destruct digits as [|d0 ds]; [congruence|].
  inversion Hd as [|? ? Hd0 Hds]; subst.
  pose proof (digit_not_space d0 Hd0) as Hsp.
  assert (Htrim : trim ((d0 :: ds) ++ 46 :: 32 :: c :: rest)%N
                  = ((d0 :: ds) ++ 46 :: 32 :: c :: trimEnd rest)%N).
  { rewrite trim_unfold. cbn [app]. rewrite dropWhile_first by exact Hsp.
    assert (E : (d0 :: ds ++ 46 :: 32 :: c :: rest)%N
                = ((((d0 :: ds) ++ [46; 32]) ++ [c]) ++ rest)%N)
      by (rewrite <- !app_assoc; reflexivity).
    rewrite E, trimEnd_keep.
    - rewrite <- !app_assoc. reflexivity.
    - apply trimEnd_last. exact Hc. }
  exists (c :: trimEnd rest). unfold parseLine. rewrite Htrim.
  assert (H35 : (d0 =? 35)%N = false).
  { unfold isDigit in Hd0. apply andb_prop in Hd0. destruct Hd0 as [H1 H2].
    apply N.leb_le in H1. apply N.eqb_neq. lia. }
  assert (H45 : (d0 =? 45)%N = false).
  { unfold isDigit in Hd0. apply andb_prop in Hd0. destruct Hd0 as [H1 H2].
    apply N.leb_le in H1. apply N.eqb_neq. lia. }
  assert (Hs1 : forall p, startsWith ((d0 :: ds) ++ 46 :: 32 :: c
                                       :: trimEnd rest)%N (35%N :: p) = false).
  { intros p. cbn [app startsWith]. rewrite H35. reflexivity. }
  change (lit "# ") with (35%N :: lit " ").
  change (lit "## ") with (35%N :: lit "# ").
  rewrite !Hs1. cbn [andb negb].
  assert (Hs2 : startsWith ((d0 :: ds) ++ 46 :: 32 :: c :: trimEnd rest)%N
                  (lit "- ") = false).
  { change (lit "- ") with (45%N :: lit " "). cbn [app startsWith].
    rewrite H45. reflexivity. }
  rewrite Hs2. cbn [andb].
  assert (Hnum : numbered ((d0 :: ds) ++ 46 :: 32 :: c :: trimEnd rest)%N
                 = Some (c :: trimEnd rest)).
  { unfold numbered.
    rewrite (span_app_stop isDigit (d0 :: ds)
               (46 :: 32 :: c :: trimEnd rest)%N Hd eq_refl).
    cbn [N.eqb]. change (46 =? 46)%N with true. cbn iota.
    cbn [span]. change (isSpace 32) with true. cbn iota.
    rewrite Hc. reflexivity. }
  rewrite Hnum. reflexivity.
Qed.

Lemma parseLine_headline st line :
  trim line = line ->
  startsWith line (lit "# ") = true ->
  startsWith line (lit "## ") = false ->
  parseLine st line
  = {| ps_sections := ps_sections st;
       ps_currentSection := ps_currentSection st;
       ps_headline := stripMarker (lit "#") line |}.
Proof.
  intros Ht H1 H2. unfold parseLine. rewrite Ht, H1, H2. reflexivity.
Qed.

(** ** Sections *)

Lemma sectionGet_push k c x m :
  sectionGet k (sectionPush c x m)
  = option_map (fun v => if str_eqb c k then v ++ [x] else v) (sectionGet k m).
Proof.
  unfold sectionPush. induction m as [|[k' v] m IH]; [reflexivity|].
  cbn [map sectionGet fst snd].
  destruct (str_eqb c k') eqn:Ec; cbn [fst snd sectionGet].
  - destruct (str_eqb k k') eqn:Ek; [|exact IH].
    apply str_eqb_eq in Ec. apply str_eqb_eq in Ek. subst.
    cbn [option_map]. rewrite str_eqb_refl. reflexivity.
  - destruct (str_eqb k k') eqn:Ek; [|exact IH].
    apply str_eqb_eq in Ek. subst. cbn [option_map]. rewrite Ec.
    reflexivity.
Qed.

(** The numbered lines under the Sources heading each add one item to
    that section and touch no other. *)
Lemma numbered_lines_parsed lines : forall st,
  Forall numberedLine lines ->
  ps_currentSection st = lit "sources" ->
  let st' := fold_left parseLine lines st in
  ps_currentSection st' = lit "sources"
  /\ ps_headline st' = ps_headline st
  /\ forall k,
       option_map (@List.length jsstring) (sectionGet k (ps_sections st'))
       = option_map (fun n => if str_eqb (lit "sources") k
                              then n + List.length lines else n)
           (option_map (@List.length jsstring)
              (sectionGet k (ps_sections st))).
Proof.
  induction lines as [|line lines IH]; intros st Hall Hcur.
  - cbn [fold_left]. split; [exact Hcur|]. split; [reflexivity|].
    intros k. destruct (sectionGet k (ps_sections st)) as [v|];
      cbn [option_map]; [|reflexivity].
    destruct (str_eqb (lit "sources") k); apply (f_equal (@Some nat));
      cbn [List.length]; lia.
  - inversion Hall as [|? ? Hline Hrest]; subst.
    destruct (parseLine_numbered st line Hline) as [item Hitem].
    cbn [fold_left]. rewrite Hitem, Hcur, str_eqb_refl.
    specialize (IH {| ps_sections :=
                        sectionPush (lit "sources") item (ps_sections st);
                      ps_currentSection := lit "sources";
                      ps_headline := ps_headline st |} Hrest eq_refl).
    cbv zeta in IH. destruct IH as [H1 [H2 H3]].
    split; [exact H1|]. split; [exact H2|].
    intros k. rewrite H3. cbn [ps_sections]. rewrite sectionGet_push.
    destruct (sectionGet k (ps_sections st)) as [v|]; cbn [option_map];
      [|reflexivity].
    destruct (str_eqb (lit "sources") k); apply (f_equal (@Some nat));
      [rewrite length_app|]; cbn [List.length]; lia.
Qed.

(** ** The lines of the fallback report *)

Lemma join_cons sep x rest :
  rest <> [] -> join sep (x :: rest) = x ++ sep ++ join sep rest.
Proof. destruct rest; [congruence|reflexivity]. Qed.

Lemma join_last sep head tail :
  tail <> [] -> join sep (head ++ [join sep tail]) = join sep (head ++ tail).
Proof.
  intros Ht. induction head as [|x head IH]; [reflexivity|].
  cbn [app]. rewrite !join_cons.
  - rewrite IH. reflexivity.
  - destruct head; [exact Ht|discriminate].
  - destruct head; discriminate.
Qed.

Lemma oneLine_check s :
  forallb (fun c => negb (c =? 10)%N) s = true -> oneLine s.
Proof.
  intros H. apply Forall_forall. intros c Hc.
  rewrite forallb_forall in H. specialize (H c Hc).
  apply negb_true_iff in H. apply N.eqb_neq. exact H.
Qed.

Lemma oneLine_app a b : oneLine a -> oneLine b -> oneLine (a ++ b).
Proof. intros Ha Hb. apply Forall_app. split; assumption. Qed.

Lemma oneLine_digits n : oneLine (showNat n).
Proof.
  destruct (showNat_spec n) as [_ [H _]].
  eapply Forall_impl; [|exact H]. intros c Hc E. subst c. discriminate.
Qed.

Ltac one_line :=
  repeat (apply oneLine_app);
  try assumption; try apply oneLine_digits;
  try (apply oneLine_check; vm_compute; reflexivity).

Lemma fallbackHead_oneLine count topic :
  oneLine topic -> Forall oneLine (fallbackHead count topic).
Proof.
  intros Ht. unfold fallbackHead. repeat (constructor; [one_line|]).
  constructor.
Qed.

Lemma fallbackSourceLines_spec srcs : forall i,
  Forall oneLineSource srcs ->
  List.length (fallbackSourceLines i srcs) = List.length srcs
  /\ Forall numberedLine (fallbackSourceLines i srcs)
  /\ Forall oneLine (fallbackSourceLines i srcs).
Proof.
  induction srcs as [|s srcs IH]; intros i Hall; cbn [fallbackSourceLines].
  - split; [reflexivity|]. split; constructor.
  - inversion Hall as [|? ? [Ht [Hu Hn]] Hrest]; subst.
    destruct (IH (i + 1) Hrest) as [H1 [H2 H3]].
    split; [cbn [List.length]; rewrite H1; reflexivity|].
    split; constructor; try assumption.
    + destruct (showNat_spec (i + 1)) as [Hne [Hd _]].
      exists (showNat (i + 1)), 91%N,
        (orElse (src_title s) "Source" ++ lit "](" ++ src_url s ++ lit ") "
         ++ [emDash] ++ lit " " ++ orElse (src_sourceName s) "Unknown").
      split; [reflexivity|]. split; [exact Hne|]. split; [exact Hd|].
      reflexivity.
    + one_line.
Qed.

(** ** The head of the report *)

Lemma stripMarker_hash X :
  stripMarker (lit "#") (lit "# " ++ X) = dropWhile isSpace X.
Proof.
  unfold stripMarker.
  change (startsWith (lit "# " ++ X) (lit "#")) with true. cbv iota.
  change (skipn (List.length (lit "#")) (lit "# " ++ X)) with (32%N :: X).
  cbn [span]. change (isSpace 32) with true. cbv iota.
  rewrite <- (span_snd isSpace X). destruct (span isSpace X) as [a b].
  reflexivity.
Qed.

Lemma fallback_head_parsed count topic :
  let st := fold_left parseLine (fallbackHead count topic) parseStart in
  ps_currentSection st = lit "sources"
  /\ ps_headline st
     = dropWhile isSpace
         (topic ++ lit " " ++ [emDash] ++ lit " Weekly Overview")
  /\ sectionSizes (ps_sections st)
     = [Some 3; Some 1; Some 3; Some 2; Some 3; Some 0].
Proof.
  unfold fallbackHead. cbn [fold_left].
  set (tail_ := lit " " ++ [emDash] ++ lit " Weekly Overview").
  assert (Htrim : trim (lit "# " ++ topic ++ tail_)
                  = lit "# " ++ topic ++ tail_).
  { rewrite trim_unfold.
    change (dropWhile isSpace (lit "# " ++ topic ++ tail_))
      with (lit "# " ++ topic ++ tail_).
    rewrite (app_assoc (lit "# ") topic tail_).
    rewrite trimEnd_app; [|vm_compute; discriminate].
    replace (trimEnd tail_) with tail_ by (vm_compute; reflexivity).
    reflexivity. }
  rewrite (parseLine_headline parseStart _ Htrim (startsWith_app _ _))
    by (vm_compute; reflexivity).
  rewrite stripMarker_hash.
  rewrite (parseLine_bullet _
             (lit "- Multiple sources reported on developments related to "
              ++ topic)) by (vm_compute; reflexivity).
  rewrite (parseLine_bullet _
             (lit "- Coverage spans " ++ showNat count
              ++ lit " sources from the past week"))
    by (vm_compute; reflexivity).
  rewrite (parseLine_bullet _
             (lit "- Developments in " ++ topic
              ++ lit " may affect client advisory and compliance strategies"))
    by (vm_compute; reflexivity).
  generalize (dropWhile isSpace (topic ++ tail_)). intros h.
  generalize (stripMarker (lit "-")
                (trim (lit "- Multiple sources reported on developments related to "
                       ++ topic))). intros i1.
  generalize (stripMarker (lit "-")
                (trim (lit "- Coverage spans " ++ showNat count
                       ++ lit " sources from the past week"))). intros i2.
  generalize (stripMarker (lit "-")
                (trim (lit "- Developments in " ++ topic
                       ++ lit " may affect client advisory and compliance strategies"))).
  intros i3. clear Htrim tail_.
  vm_compute. repeat split; reflexivity.
Qed.

Lemma dropWhile_idem (p : N -> bool) s :
  dropWhile p (dropWhile p s) = dropWhile p s.
Proof.
  induction s as [|x s IH]; [reflexivity|]. simpl.
  destruct (p x) eqn:E; [exact IH|]. simpl. rewrite E. reflexivity.
Qed.

Lemma dropWhile_stop (p : N -> bool) x e y :
  p e = false -> exists x', dropWhile p (x ++ e :: y) = x' ++ e :: y.
Proof.
  intros He. induction x as [|c x IH]; simpl.
  - rewrite He. exists []. reflexivity.
  - destruct (p c); [exact IH|]. exists (c :: x). reflexivity.
Qed.

(** The headline of the fallback report is never too short. *)
Lemma fallback_headline_long topic :
  let h := dropWhile isSpace
             (topic ++ lit " " ++ [emDash] ++ lit " Weekly Overview") in
  isEmptyStr h = false /\ (jslen (trim h) <? 5)%Z = false.
Proof.
  intros h.
  assert (Hh : exists x', h = x' ++ emDash :: lit " Weekly Overview").
  { unfold h.
    change (topic ++ lit " " ++ [emDash] ++ lit " Weekly Overview")
      with (topic ++ 32%N :: emDash :: lit " Weekly Overview").
    replace (topic ++ 32%N :: emDash :: lit " Weekly Overview")
      with ((topic ++ [32%N]) ++ emDash :: lit " Weekly Overview")
      by (rewrite <- app_assoc; reflexivity).
    apply dropWhile_stop. reflexivity. }
  destruct Hh as [x' Hx]. split.
  - rewrite Hx. destruct x'; reflexivity.
  - rewrite trim_unfold. unfold h at 1. rewrite dropWhile_idem. fold h.
    rewrite Hx, trimEnd_app by (vm_compute; discriminate).
    apply Z.ltb_ge. unfold jslen. rewrite length_app.
    replace (List.length (trimEnd (emDash :: lit " Weekly Overview")))
      with 17 by (vm_compute; reflexivity).
    lia.
Qed.

Lemma parseLine_blank st :
  parseLine st []
  = {| ps_sections := ps_sections st;
       ps_currentSection := ps_currentSection st;
       ps_headline := ps_headline st |}.
Proof. reflexivity. Qed.

(** The lines of the whole report: the head, then one line per source, or
    one empty line when there is no source. *)
Lemma fallback_lines srcs topic :
  oneLine topic -> Forall oneLineSource srcs ->
  splitChar 10 (generateFallbackReport srcs topic) []
  = fallbackHead (List.length srcs) topic
    ++ match srcs with
       | [] => [[]]
       | _ :: _ => fallbackSourceLines 0 srcs
       end.
Proof.
  intros Ht Hs.
  change (generateFallbackReport srcs topic)
    with (join nl (fallbackHead (List.length srcs) topic
                   ++ [join nl (fallbackSourceLines 0 srcs)])).
  pose proof (fallbackHead_oneLine (List.length srcs) topic Ht) as Hhead.
  destruct (fallbackSourceLines_spec srcs 0 Hs) as [Hlen [_ Hlines]].
  destruct srcs as [|s srcs].
  - cbn [fallbackSourceLines join].
    apply (splitChar_join 10%N).
    + destruct (fallbackHead (List.length (@nil SourceRow)) topic);
        discriminate.
    + apply Forall_app. split; [exact Hhead|].
      constructor; [constructor|constructor].
  - rewrite join_last.
    + apply (splitChar_join 10%N).
      * destruct (fallbackHead (List.length (s :: srcs)) topic);
          discriminate.
      * apply Forall_app. split; [exact Hhead|exact Hlines].
    + intros E. rewrite E in Hlen. discriminate.
Qed.

Lemma sectionOr_length k m n :
  option_map (@List.length jsstring) (sectionGet (lit k) m) = Some n ->
  List.length (sectionOr k m) = n.
Proof.
  unfold sectionOr. destruct (sectionGet (lit k) m); cbn [option_map];
    intros H; inversion H; reflexivity.
Qed.

(** What the parser reads in the fallback report. *)
Lemma fallback_parsed srcs topic :
  oneLine topic -> Forall oneLineSource srcs ->
  let report := parseReportMarkdown (generateFallbackReport srcs topic) in
  headline report
  = dropWhile isSpace (topic ++ lit " " ++ [emDash] ++ lit " Weekly Overview")
  /\ List.length (whatHappened report) = 3
  /\ List.length (whatChanged report) = 1
  /\ List.length (whyItMatters report) = 3
  /\ List.length (risks report) = 2
  /\ List.length (actionPrompts report) = 3
  /\ List.length (sources report) = List.length srcs.
Proof.
  intros Ht Hs report.
  pose proof (fallback_lines srcs topic Ht Hs) as Hlines.
  pose proof (fallback_head_parsed (List.length srcs) topic) as Hhead.
  cbv zeta in Hhead.
  set (st0 := fold_left parseLine (fallbackHead (List.length srcs) topic)
                parseStart) in *.
  destruct Hhead as [Hcur [Hh Hsizes]].
  set (tail_ := match srcs with
                | [] => [[]]
                | _ :: _ => fallbackSourceLines 0 srcs
                end) in *.
  set (st := fold_left parseLine tail_ st0).
  assert (Hreport :
    report
    = {| headline := ps_headline st;
         whatHappened := sectionOr "what happened" (ps_sections st);
         whatChanged := sectionOr "what changed" (ps_sections st);
         whyItMatters := sectionOr "why it matters" (ps_sections st);
         risks := match sectionGet (lit "risks / watch-outs")
                          (ps_sections st) with
                  | Some v => v
                  | None => sectionOr "risks" (ps_sections st)
                  end;
         actionPrompts := sectionOr "action prompts" (ps_sections st);
         sources := map parseCitation
                      (sectionOr "sources" (ps_sections st)) |}).
  { unfold report, parseReportMarkdown. rewrite Hlines, fold_left_app.
    reflexivity. }
  clearbody report. clear Hlines. clearbody st0.
  unfold sectionSizes in Hsizes. cbn [map] in Hsizes.
  injection Hsizes as E1 E2 E3 E4 E5 E6.
  assert (Hst : ps_headline st = ps_headline st0
                /\ forall k,
                     option_map (@List.length jsstring)
                       (sectionGet k (ps_sections st))
                     = option_map
                         (fun n => if str_eqb (lit "sources") k
                                   then n + List.length srcs else n)
                         (option_map (@List.length jsstring)
                            (sectionGet k (ps_sections st0)))).
  { unfold st, tail_. destruct srcs as [|s srcs].
    - cbn [fold_left]. rewrite parseLine_blank. cbn [ps_headline ps_sections].
      split; [reflexivity|]. intros k.
      destruct (sectionGet k (ps_sections st0)); cbn [option_map];
        [|reflexivity].
      destruct (str_eqb (lit "sources") k); apply (f_equal (@Some nat));
        cbn [List.length]; lia.
    - destruct (fallbackSourceLines_spec (s :: srcs) 0 Hs)
        as [Hlen [Hnum _]].
      destruct (numbered_lines_parsed _ st0 Hnum Hcur) as [_ [H2 H3]].
      split; [exact H2|]. intros k. rewrite (H3 k), Hlen. reflexivity. }
  destruct Hst as [Hhl Hsz]. clearbody st.
  pose proof (Hsz (lit "what happened")) as S1. rewrite E1 in S1.
  pose proof (Hsz (lit "what changed")) as S2. rewrite E2 in S2.
  pose proof (Hsz (lit "why it matters")) as S3. rewrite E3 in S3.
  pose proof (Hsz (lit "risks / watch-outs")) as S4. rewrite E4 in S4.
  pose proof (Hsz (lit "action prompts")) as S5. rewrite E5 in S5.
  pose proof (Hsz (lit "sources")) as S6. rewrite E6 in S6.
  cbn [option_map] in S1, S2, S3, S4, S5, S6.
  change (str_eqb (lit "sources") (lit "what happened")) with false in S1.
  change (str_eqb (lit "sources") (lit "what changed")) with false in S2.
  change (str_eqb (lit "sources") (lit "why it matters")) with false in S3.
  change (str_eqb (lit "sources") (lit "risks / watch-outs")) with false in S4.
  change (str_eqb (lit "sources") (lit "action prompts")) with false in S5.
  change (str_eqb (lit "sources") (lit "sources")) with true in S6.
  cbv iota in S1, S2, S3, S4, S5, S6.
  rewrite Hreport.
  cbn [headline whatHappened whatChanged whyItMatters risks actionPrompts
       sources].
  split; [rewrite Hhl; exact Hh|].
  split; [exact (sectionOr_length _ _ _ S1)|].
  split; [exact (sectionOr_length _ _ _ S2)|].
  split; [exact (sectionOr_length _ _ _ S3)|].
  split.
  { destruct (sectionGet (lit "risks / watch-outs") (ps_sections st));
      cbn [option_map] in S4; inversion S4; reflexivity. }
  split; [exact (sectionOr_length _ _ _ S5)|].
  rewrite length_map. exact (sectionOr_length _ _ _ S6).
Qed.

(** [X11]. Where the topic holds no line feed, and the titles, URLs and
    names of the sources hold none either, the report
    [generateFallbackReport] writes is read back by [parseReportMarkdown]
    with three bullets under What Happened, one under What Changed, three
    under Why It Matters, two under Risks / Watch-outs, three under Action
    Prompts and one citation per source; with at least one source it
    passes every check the validator makes on sections and headline. The
    topic is written into the report as it comes: one that holds a line
    feed can add lines of its own, and is outside this statement. *)
Theorem fallback_report_is_well_formed :
  forall srcs topic,
    oneLine topic -> Forall oneLineSource srcs ->
    let report := parseReportMarkdown (generateFallbackReport srcs topic) in
    List.length (whatHappened report) = 3
    /\ List.length (whatChanged report) = 1
    /\ List.length (whyItMatters report) = 3
    /\ List.length (risks report) = 2
    /\ List.length (actionPrompts report) = 3
    /\ List.length (sources report) = List.length srcs
    /\ (srcs <> [] -> sectionErrors report = []).
Proof.
  intros srcs topic Ht Hs report.
  destruct (fallback_parsed srcs topic Ht Hs)
    as [Hh [H1 [H2 [H3 [H4 [H5 H6]]]]]].
  fold report in Hh, H1, H2, H3, H4, H5, H6.
  repeat (split; [assumption|]).
  intros Hne. unfold sectionErrors.
  destruct (fallback_headline_long topic) as [Hempty Hlong].
  rewrite Hh, Hempty, Hlong, H1, H2, H3, H4, H5, H6.
  destruct srcs as [|s srcs]; [congruence|]. reflexivity.
Qed.

(** The topic "Banking" with one source; and what a topic of two lines
    does, the second line being read as one more bullet. *)
Lemma fallback_report_is_well_formed_witness :
  oneLine (lit "Banking")
  /\ Forall oneLineSource [readSource]
  /\ sectionErrors
       (parseReportMarkdown (generateFallbackReport [readSource]
                               (lit "Banking"))) = []
  /\ sectionErrors
       (parseReportMarkdown
          (generateFallbackReport [readSource]
             (lit "Banking" ++ [10%N] ++ lit "- rates")))
     = [WhyItMattersNotThree].
Proof.
  assert (Ht : oneLine (lit "Banking"))
    by (apply oneLine_check; vm_compute; reflexivity).
  assert (Hs : Forall oneLineSource [readSource]).
  { constructor; [|constructor].
    repeat split; apply oneLine_check; vm_compute; reflexivity. }
  split; [exact Ht|]. split; [exact Hs|].
  split; [|vm_compute; reflexivity].
  apply (fallback_report_is_well_formed [readSource] (lit "Banking") Ht Hs).
  discriminate.
Defined.

(* ===================================================================== *)
(** * Discovery: theorems                                                 *)
(* ===================================================================== *)

Section Discovery.

Variable env : Env.

Lemma dedupe_spec urls : forall seen,
  let kept := dedupe env seen urls in
  NoDup (map (canonicalizeUrl env) kept)
  /\ (forall url, In url kept ->
        In url urls /\ ~ In (canonicalizeUrl env url) seen)
  /\ (forall url, In url urls ->
        In (canonicalizeUrl env url) seen
        \/ In (canonicalizeUrl env url) (map (canonicalizeUrl env) kept))
  /\ dedupe env seen kept = kept.
Proof.
  induction urls as [|u urls IH]; intros seen; cbn [dedupe].
  - cbv zeta. split; [constructor|]. split; [intros ? []|].
    split; [intros ? []|reflexivity].
  - destruct (strIn (canonicalizeUrl env u) seen) eqn:E.
    + destruct (IH seen) as [H1 [H2 [H3 H4]]]. cbv zeta.
      split; [exact H1|]. split; [|split; [|exact H4]].
      * intros url Hin. destruct (H2 url Hin) as [Ha Hb].
        split; [right; exact Ha|exact Hb].
      * intros url [Hu|Hin]; [|exact (H3 url Hin)].
        subst url. left. apply strIn_In. exact E.
    + destruct (IH (canonicalizeUrl env u :: seen)) as [H1 [H2 [H3 H4]]].
      assert (Hnot : ~ In (canonicalizeUrl env u) seen).
      { intros Hin. apply strIn_In in Hin. congruence. }
      cbv zeta. split; [|split; [|split]].
      * cbn [map]. constructor; [|exact H1].
        intros Hin. apply in_map_iff in Hin. destruct Hin as [v [Hv Hin]].
        destruct (H2 v Hin) as [_ Hb]. apply Hb. left. symmetry. exact Hv.
      * intros url [Hu|Hin].
        -- subst url. split; [left; reflexivity|exact Hnot].
        -- destruct (H2 url Hin) as [Ha Hb]. split; [right; exact Ha|].
           intros Hs. apply Hb. right. exact Hs.
      * intros url [Hu|Hin].
        -- subst url. right. left. reflexivity.
        -- destruct (H3 url Hin) as [[Hs|Hs]|Hs].
           ++ right. left. exact Hs.
           ++ left. exact Hs.
           ++ right. right. exact Hs.
      * cbn [dedupe]. rewrite E, H4. reflexivity.
Qed.

Lemma dedupe_order urls : forall seen,
  subsequence (dedupe env seen urls) urls.
Proof.
  induction urls as [|u urls IH]; intros seen; cbn [dedupe].
  - constructor.
  - destruct (strIn (canonicalizeUrl env u) seen).
    + apply sub_skip. apply IH.
    + apply sub_keep. apply IH.
Qed.

Lemma dedupe_first urls : forall seen url,
  In url (dedupe env seen urls) -> firstOfForm env urls url = Some url.
Proof.
  induction urls as [|u urls IH]; intros seen url Hin; cbn [dedupe] in Hin;
    [destruct Hin|].
  unfold firstOfForm. cbn [find]. fold (firstOfForm env urls url).
  destruct (strIn (canonicalizeUrl env u) seen) eqn:E.
  - destruct (proj1 (proj2 (dedupe_spec urls seen)) url Hin)
      as [_ Hnot].
    destruct (str_eqb (canonicalizeUrl env u) (canonicalizeUrl env url))
      eqn:Eu.
    + apply str_eqb_eq in Eu. exfalso. apply Hnot. rewrite <- Eu.
      apply strIn_In. exact E.
    + exact (IH seen url Hin).
  - destruct Hin as [Hu|Hin].
    + subst url. rewrite str_eqb_refl. reflexivity.
    + destruct (proj1 (proj2 (dedupe_spec urls
                                (canonicalizeUrl env u :: seen))) url Hin)
        as [_ Hnot].
      destruct (str_eqb (canonicalizeUrl env u) (canonicalizeUrl env url))
        eqn:Eu.
      * apply str_eqb_eq in Eu. exfalso. apply Hnot. left. exact Eu.
      * exact (IH _ url Hin).
Qed.

(** [X12]. The dedupe loop of discovery keeps, of the candidate URLs, the
    first one of each canonical form, in the order of the candidates: the
    URLs kept are the candidates with some left out, each of them is the
    first candidate that has its canonical form, no two of them have the
    same canonical form, every candidate has the canonical form of a URL
    that is kept, and deduplicating again changes nothing. *)
Theorem dedupe_keeps_one_per_canonical_url :
  forall urls,
    let kept := dedupe env [] urls in
    subsequence kept urls
    /\ (forall url, In url kept -> firstOfForm env urls url = Some url)
    /\ NoDup (map (canonicalizeUrl env) kept)
    /\ (forall url, In url kept -> In url urls)
    /\ (forall url, In url urls ->
          In (canonicalizeUrl env url) (map (canonicalizeUrl env) kept))
    /\ dedupe env [] kept = kept.
Proof.
  intros urls. destruct (dedupe_spec urls []) as [H1 [H2 [H3 H4]]].
  cbv zeta in *.
  split; [apply dedupe_order|]. split; [apply dedupe_first|].
  split; [exact H1|]. split; [|split; [|exact H4]].
  - intros url Hin. exact (proj1 (H2 url Hin)).
  - intros url Hin. destruct (H3 url Hin) as [[]|H]. exact H.
Qed.

(** ** The ranking *)

Lemma insertByTier_perm feeds x l :
  Permutation (insertByTier env feeds x l) (x :: l).
Proof.
  induction l as [|y l IH]; cbn [insertByTier]; [apply Permutation_refl|].
  destruct (tierOf env feeds x <=? tierOf env feeds y)%Z;
    [apply Permutation_refl|].
  eapply Permutation_trans; [apply perm_skip; exact IH|apply perm_swap].
Qed.

Lemma sortByTier_perm feeds l : Permutation (sortByTier env feeds l) l.
Proof.
  unfold sortByTier. induction l as [|x l IH]; cbn [fold_right];
    [apply Permutation_refl|].
  eapply Permutation_trans; [apply insertByTier_perm|].
  apply perm_skip. exact IH.
Qed.

Lemma insertByTier_sorted feeds x l :
  let le a b := (tierOf env feeds a <= tierOf env feeds b)%Z in
  StronglySorted le l -> StronglySorted le (insertByTier env feeds x l).
Proof.
  intros le Hl. induction Hl as [|y l Hl IH Hy]; cbn [insertByTier].
  - constructor; constructor.
  - destruct (tierOf env feeds x <=? tierOf env feeds y)%Z eqn:E.
    + apply Z.leb_le in E. constructor; [constructor; assumption|].
      constructor; [exact E|].
      eapply Forall_impl; [|exact Hy]. intros z Hz. unfold le in *. lia.
    + apply Z.leb_gt in E. constructor; [exact IH|].
      assert (Hperm := insertByTier_perm feeds x l).
      apply (Permutation_Forall (Permutation_sym Hperm)).
      constructor; [unfold le; lia|exact Hy].
Qed.

Lemma sortByTier_sorted feeds l :
  StronglySorted
    (fun a b => (tierOf env feeds a <= tierOf env feeds b)%Z)
    (sortByTier env feeds l).
Proof.
  unfold sortByTier. induction l as [|x l IH]; cbn [fold_right];
    [constructor|].
  apply insertByTier_sorted. exact IH.
Qed.

Lemma insertByTier_stable feeds t x l :
  filter (fun u => (tierOf env feeds u =? t)%Z) (insertByTier env feeds x l)
  = filter (fun u => (tierOf env feeds u =? t)%Z) (x :: l).
Proof.
  induction l as [|y l IH]; cbn [insertByTier]; [reflexivity|].
  destruct (tierOf env feeds x <=? tierOf env feeds y)%Z eqn:E;
    [reflexivity|].
  apply Z.leb_gt in E. cbn [filter] in *. rewrite IH.
  destruct (tierOf env feeds x =? t)%Z eqn:Ex; [|reflexivity].
  apply Z.eqb_eq in Ex.
  destruct (tierOf env feeds y =? t)%Z eqn:Ey; [|reflexivity].
  apply Z.eqb_eq in Ey. lia.
Qed.

Lemma sortByTier_stable feeds t l :
  filter (fun u => (tierOf env feeds u =? t)%Z) (sortByTier env feeds l)
  = filter (fun u => (tierOf env feeds u =? t)%Z) l.
Proof.
  unfold sortByTier. induction l as [|x l IH]; cbn [fold_right];
    [reflexivity|].
  rewrite insertByTier_stable. cbn [filter]. rewrite IH. reflexivity.
Qed.

(** What [rankBySourceTier] returns, when it returns. *)
Lemma rankBySourceTier_run urls w ranked w' :
  rankBySourceTier env urls w = (Returned ranked, w') ->
  db w' = db w
  /\ ranked
     = sortByTier env (source (db w))
         (filter (fun u => negb (blockedBy env (db w) u)) urls).
Proof.
  unfold rankBySourceTier, query, bind, call, ask, ret.
  destruct (faults env (tick w)); [discriminate|]. cbn [db advance tick].
  destruct (faults env (S (tick w))); [discriminate|].
  intros H. inversion H; subst. split; reflexivity.
Qed.

(** [X13]. When [rankBySourceTier] returns, it has changed nothing in the
    database, and the list it gives is a rearrangement of the URLs whose
    domain holds the pattern of no block rule: no such URL is lost or
    repeated, no blocked URL is kept, the quality tiers never decrease
    along the list (tier 3 for a domain that is not registered), and URLs
    of the same tier keep the order they came in. *)
Theorem ranking_sorts_unblocked_urls :
  forall urls w ranked w',
    rankBySourceTier env urls w = (Returned ranked, w') ->
    db w' = db w
    /\ Permutation ranked
         (filter (fun u => negb (blockedBy env (db w) u)) urls)
    /\ (forall u, In u ranked -> blockedBy env (db w) u = false)
    /\ StronglySorted (tierLe env (db w)) ranked
    /\ (forall t,
          ofTier env (db w) t ranked
          = ofTier env (db w) t
              (filter (fun u => negb (blockedBy env (db w) u)) urls)).
Proof.
  intros urls w ranked w' Hrun.
  destruct (rankBySourceTier_run urls w ranked w' Hrun) as [Hdb Hranked].
  subst ranked. split; [exact Hdb|]. split; [apply sortByTier_perm|].
  split; [|split].
  - intros u Hin.
    apply (Permutation_in _ (sortByTier_perm _ _)) in Hin.
    apply filter_In in Hin. destruct Hin as [_ Hb].
    apply negb_true_iff in Hb. exact Hb.
  - apply sortByTier_sorted.
  - intros t. apply sortByTier_stable.
Qed.

End Discovery.

Lemma ranking_sorts_unblocked_urls_witness :
  rankBySourceTier corpusEnv
    [lit "https://b.example/2"; lit "https://c.example/3";
     lit "https://a.example/1"] (freshWorld corpusDb)
  = (Returned [lit "https://a.example/1"; lit "https://b.example/2"],
     {| db := corpusDb; tick := 2; llmLog := []; outbox := [] |})
  /\ StronglySorted (tierLe corpusEnv corpusDb)
       [lit "https://a.example/1"; lit "https://b.example/2"].
Proof.
  assert (H : rankBySourceTier corpusEnv
                [lit "https://b.example/2"; lit "https://c.example/3";
                 lit "https://a.example/1"] (freshWorld corpusDb)
              = (Returned [lit "https://a.example/1"; lit "https://b.example/2"],
                 {| db := corpusDb; tick := 2; llmLog := []; outbox := [] |}))
    by (vm_compute; reflexivity).
  split; [exact H|].
  exact (proj1 (proj2 (proj2 (proj2
           (ranking_sorts_unblocked_urls corpusEnv _ _ _ _ H))))).
Defined.

(** ** What discovery leaves *)

Lemma createSources_keeps jobId urls : forall d s,
  In s (deepDiveSource d) -> In s (deepDiveSource (createSources jobId urls d)).
Proof.
  induction urls as [|u urls IH]; intros d s Hin; cbn [createSources];
    [exact Hin|].
  apply IH. destruct (existsb _ (deepDiveSource d)); [exact Hin|].
  cbn [withSources deepDiveSource]. apply in_or_app. left. exact Hin.
Qed.

Lemma createSources_has jobId urls : forall d url,
  In url urls -> hasSource (createSources jobId urls d) jobId url.
Proof.
  induction urls as [|u urls IH]; intros d url Hin; [destruct Hin|].
  cbn [createSources]. destruct Hin as [Hu|Hin]; [subst u|apply IH; exact Hin].
  destruct (existsb (fun s => N.eqb (src_jobId s) jobId
                              && str_eqb (src_url s) url)
                    (deepDiveSource d)) eqn:E.
  - apply existsb_exists in E. destruct E as [s [Hs Hm]].
    apply andb_prop in Hm. destruct Hm as [Hj Hurl].
    apply N.eqb_eq in Hj. apply str_eqb_eq in Hurl.
    exists s. split; [apply createSources_keeps; exact Hs|]. auto.
  - eexists. split.
    + apply createSources_keeps. cbn [withSources deepDiveSource].
      apply in_or_app. right. left. reflexivity.
    + split; reflexivity.
Qed.

Lemma findJob_createSources jobId urls d id :
  findJob (createSources jobId urls d) id = findJob d id.
Proof.
  unfold findJob. rewrite (proj1 (createSources_jobs jobId urls d)).
  reflexivity.
Qed.

Lemma slice0_firstn {A} (l : list A) n : exists k, slice0 l n = firstn k l.
Proof. unfold slice0. destruct (n <? 0)%Z; eexists; reflexivity. Qed.

Lemma NoDup_map_firstn {A B} (f : A -> B) k (l : list A) :
  NoDup (map f l) -> NoDup (map f (firstn k l)).
Proof.
  intros H. rewrite <- (firstn_skipn k l), map_app in H.
  exact (NoDup_app_remove_r _ _ H).
Qed.

Lemma NoDup_map_filter {A B} (f : A -> B) p (l : list A) :
  NoDup (map f l) -> NoDup (map f (filter p l)).
Proof.
  induction l as [|x l IH]; cbn [map filter]; intros H; [constructor|].
  inversion H as [|? ? Hx Hl]; subst.
  destruct (p x); [|exact (IH Hl)]. cbn [map]. constructor; [|exact (IH Hl)].
  intros Hin. apply Hx. apply in_map_iff in Hin.
  destruct Hin as [y [Hy Hin]]. apply filter_In in Hin.
  apply in_map_iff. exists y. tauto.
Qed.

Section DiscoveryOutcome.

Variable env : Env.
Variable j : Id.
Variable row0 : JobRow.
Variable u : UserRow.
Variable before : list SourceRow.

(** What holds of the database until discovery writes. *)
Let untouched (d : DB) : Prop :=
  findJob d j = Some row0
  /\ findUser d (job_userId row0) = Some u
  /\ deepDiveSource d = before.

Lemma selected_distinct feeds (rules : jsstring -> bool) urls n :
  NoDup (map (canonicalizeUrl env)
           (slice0 (sortByTier env feeds
                      (filter rules (dedupe env [] urls))) n)).
Proof.
  destruct (slice0_firstn (sortByTier env feeds
                             (filter rules (dedupe env [] urls))) n)
    as [k Hk].
  rewrite Hk. apply NoDup_map_firstn.
  apply (Permutation_NoDup
           (Permutation_map _ (Permutation_sym (sortByTier_perm env feeds _)))).
  apply NoDup_map_filter.
  exact (proj1 (dedupe_spec env urls [])).
Qed.

Lemma selected_bound {A} (l : list A) n :
  (0 <= n)%Z -> (Z.of_nat (List.length (slice0 l n)) <= n)%Z.
Proof.
  intros Hn. unfold slice0.
  assert (H : (n <? 0)%Z = false) by (apply Z.ltb_ge; lia). rewrite H.
  pose proof (firstn_le_length (Z.to_nat n) l). lia.
Qed.

Lemma untouched_query {A} (f : DB -> A) :
  triple untouched (query env f) (fun _ d => untouched d) (fun _ => True).
Proof.
  eapply triple_conseq; [apply (inv_query env untouched f)| | |]; auto.
Qed.

Lemma untouched_ask {A} (f : nat -> A) :
  triple untouched (ask env f) (fun _ d => untouched d) (fun _ => True).
Proof.
  eapply triple_conseq; [apply (triple_ask env untouched f)| | |]; auto.
Qed.

Lemma untouched_rank urls :
  triple untouched (rankBySourceTier env urls)
    (fun ranked d =>
       untouched d
       /\ exists fs (rs : jsstring -> bool),
            ranked = sortByTier env fs (filter rs urls))
    (fun _ => True).
Proof.
  unfold rankBySourceTier.
  eapply triple_bind; [apply untouched_query|]. intros feeds.
  eapply triple_bind; [apply untouched_query|]. intros rules.
  apply triple_ret. intros d Hd. split; [exact Hd|].
  eexists. eexists. reflexivity.
Qed.

Lemma discover_triple :
  triple untouched (discoverCandidates env j)
    (fun _ d => discovered env j row0 u before d) (fun _ => True).
Proof.
  unfold discoverCandidates.
  eapply triple_bind.
  { eapply triple_weaken_E; [apply (triple_queryOrThrow env untouched)|auto]. }
  intros [job usr]. cbn [fst snd].
  apply triple_conseq with
    (P' := fun d => untouched d /\ (job = row0 /\ usr = u))
    (Q' := fun _ d => discovered env j row0 u before d)
    (E' := fun _ => True); auto.
  2:{ intros d [[H1 [H2 H3]] Hq]. rewrite H1, H2 in Hq.
      inversion Hq; subst. unfold untouched. auto. }
  apply triple_pure. intros [Hjob Husr]. subst job usr.
  fold (maxSourcesOf env u).
  eapply triple_bind; [apply untouched_query|].
  intros topic.
  destruct topic as [topicRow|].
  2:{ eapply triple_conseq;
        [apply (triple_exec env untouched
                  (discovered env j row0 u before))| | |]; auto.
      intros d d' [H1 [H2 H3]] Hu. left. split.
      - rewrite (findJob_updateJob _ _ _ _ j Hu), N.eqb_refl, H1. reflexivity.
      - rewrite (updateJob_sources _ _ _ _ Hu). exact H3. }
  eapply triple_bind; [apply untouched_ask|].
  intros matches. cbv beta.
  eapply triple_bind with (Q1 := fun _ d => untouched d).
  { destruct matches; [apply untouched_ask|apply triple_ret; auto]. }
  intros candidateUrls. cbv beta zeta.
  eapply triple_bind; [apply untouched_rank|].
  intros ranked. apply triple_pure. intros [fs [rs Hranked]].
  destruct (slice0 ranked (maxSourcesOf env u)) as [|s0 selected] eqn:Esel.
  { eapply triple_conseq;
      [apply (triple_exec env untouched
                (discovered env j row0 u before))| | |]; auto.
    intros d d' [H1 [H2 H3]] Hu. right. left. split.
    - rewrite (findJob_updateJob _ _ _ _ j Hu), N.eqb_refl, H1. reflexivity.
    - rewrite (updateJob_sources _ _ _ _ Hu). exact H3. }
  set (sel := s0 :: selected) in *.
  assert (Hdistinct : NoDup (map (canonicalizeUrl env) sel)).
  { rewrite <- Esel, Hranked. apply selected_distinct. }
  assert (Hbound : (0 <= maxSourcesOf env u)%Z ->
                   (Z.of_nat (List.length sel) <= maxSourcesOf env u)%Z).
  { intros Hn. rewrite <- Esel. apply selected_bound. exact Hn. }
  eapply triple_bind with
    (Q1 := fun _ d => findJob d j = Some row0
                      /\ (forall s, In s before -> In s (deepDiveSource d))
                      /\ forall url, In url sel -> hasSource d j url).
  { eapply triple_conseq;
      [apply (triple_exec env untouched
                (fun d => findJob d j = Some row0
                          /\ (forall s, In s before ->
                                In s (deepDiveSource d))
                          /\ forall url, In url sel -> hasSource d j url))
      | | |]; auto.
    intros d d' [H1 [H2 H3]] Hc.
    assert (Hd' : createSources j sel d = d') by congruence.
    clear Hc. subst d'.
    split; [rewrite findJob_createSources; exact H1|]. split.
    - intros s Hs. apply createSources_keeps. rewrite H3. exact Hs.
    - intros url Hurl. apply createSources_has. exact Hurl. }
  intros _.
  eapply triple_conseq;
    [apply (triple_exec env
              (fun d => findJob d j = Some row0
                        /\ (forall s, In s before -> In s (deepDiveSource d))
                        /\ forall url, In url sel -> hasSource d j url)
              (discovered env j row0 u before))| | |]; auto.
  intros d d' [H1 [H2 H3]] Hu. right. right. exists sel.
  split; [discriminate|]. split; [|split; [exact Hdistinct|split;
    [exact Hbound|split]]].
  - rewrite (findJob_updateJob _ _ _ _ j Hu), N.eqb_refl, H1. reflexivity.
  - intros s Hs. rewrite (updateJob_sources _ _ _ _ Hu). exact (H2 s Hs).
  - intros url Hurl. unfold hasSource.
    rewrite (updateJob_sources _ _ _ _ Hu). exact (H3 url Hurl).
Qed.

End DiscoveryOutcome.

(** [X14]. When discovery returns for a job that has a row and a user, it
    has left the job in one of three ways, with no other column of the row
    changed. With the topic missing: status failed, stage DISCOVER, the
    error noted, no source created. With no candidate left after
    deduplication, block rules and the cap: status partial, stage
    SYNTHESIZE, no source created. Otherwise: stage FETCH with the selected
    URLs, their number as [selectedCount] and [totalSources] and the other
    counters at zero; the selected URLs have pairwise distinct canonical
    forms, are no more than [maxSources] when that is not negative, and
    each has a source row of the job; no source row that existed is
    removed. *)
Theorem discovery_outcome :
  forall env j row0 u w w',
    findJob (db w) j = Some row0 ->
    findUser (db w) (job_userId row0) = Some u ->
    discoverCandidates env j w = (Returned tt, w') ->
    discovered env j row0 u (deepDiveSource (db w)) (db w').
Proof.
  intros env j row0 u w w' Hjob Husr Hrun.
  pose proof (discover_triple env j row0 u (deepDiveSource (db w)) w
                (conj Hjob (conj Husr eq_refl))) as H.
  exact (wp_run _ _ _ _ H _ _ Hrun).
Qed.

Lemma discovery_outcome_witness :
  findJob corpusDb 1 = Some (sampleJob running 1%Z (toJson (stateOf DISCOVER)))
  /\ findUser corpusDb 7 = Some sampleUser
  /\ fst (discoverCandidates corpusEnv 1 (freshWorld corpusDb)) = Returned tt
  /\ stageOfJob (db (snd (discoverCandidates corpusEnv 1
                            (freshWorld corpusDb)))) 1 = Some FETCH
  /\ map src_url
       (deepDiveSource (db (snd (discoverCandidates corpusEnv 1
                                   (freshWorld corpusDb)))))
     = [lit "https://a.example/1"; lit "https://b.example/2"]
  /\ discovered corpusEnv 1
       (sampleJob running 1%Z (toJson (stateOf DISCOVER))) sampleUser []
       (db (snd (discoverCandidates corpusEnv 1 (freshWorld corpusDb)))).
Proof.
  assert (Hj : findJob corpusDb 1
               = Some (sampleJob running 1%Z (toJson (stateOf DISCOVER))))
    by (vm_compute; reflexivity).
  assert (Hu : findUser corpusDb 7 = Some sampleUser)
    by (vm_compute; reflexivity).
  assert (Hrun : discoverCandidates corpusEnv 1 (freshWorld corpusDb)
                 = (Returned tt,
                    snd (discoverCandidates corpusEnv 1
                           (freshWorld corpusDb))))
    by (vm_compute; reflexivity).
  split; [exact Hj|]. split; [exact Hu|].
  split; [vm_compute; reflexivity|]. split; [vm_compute; reflexivity|].
  split; [vm_compute; reflexivity|].
  exact (discovery_outcome corpusEnv 1 _ sampleUser (freshWorld corpusDb) _
           Hj Hu Hrun).
Defined.

(* ===================================================================== *)
(** * What a step keeps, over whole worlds                                *)
(* ===================================================================== *)

Lemma winv_ret {A} (I : World -> Prop) (a : A) : winv I (ret a).
Proof. intros w Hw. exact Hw. Qed.

Lemma winv_throw {A} (I : World -> Prop) : winv I (@throw A).
Proof. intros w Hw. exact Hw. Qed.

Lemma winv_bind {A B} (I : World -> Prop) (m : M A) (k : A -> M B) :
  winv I m -> (forall a, winv I (k a)) -> winv I (bind m k).
Proof.
  intros Hm Hk w Hw. specialize (Hm w Hw). unfold wp, bind in *.
  destruct (m w) as [[a|] w1]; [|exact Hm].
  exact (Hk a w1 Hm).
Qed.

Lemma winv_try {A} (I : World -> Prop) (m h : M A) :
  winv I m -> winv I h -> winv I (try_catch m h).
Proof.
  intros Hm Hh w Hw. specialize (Hm w Hw). unfold wp, try_catch in *.
  destruct (m w) as [[a|] w1]; [exact Hm|].
  exact (Hh w1 Hm).
Qed.

Lemma winv_forBreak {A S} (I : World -> Prop) (xs : list A)
  (body : A -> S -> M (S * bool)) :
  (forall x s, winv I (body x s)) ->
  forall s, winv I (forBreak xs body s).
Proof.
  intros Hb. induction xs as [|x xs IH]; intros s; simpl.
  - apply winv_ret.
  - apply winv_bind; [apply Hb|].
    intros [s' more]; simpl. destruct more; [apply IH|apply winv_ret].
Qed.

(** The world a run leaves satisfies what the run keeps. *)
Lemma winv_run {A} (I : World -> Prop) (m : M A) w :
  winv I m -> I w -> I (snd (m w)).
Proof.
  intros H Hw. specialize (H w Hw). unfold wp in H.
  destruct (m w) as [[a|] w']; exact H.
Qed.

(** A property of the database alone, as a property of the world. *)
Lemma winv_inv {A} (J : DB -> Prop) (m : M A) :
  winv (fun w => J (db w)) m <-> inv J m.
Proof. split; intros H w Hw; exact (H w Hw). Qed.

Section WorldRules.

Variable env : Env.
Variable I : World -> Prop.
Hypothesis I_tick : forall w, I w -> I (advance w).

Lemma winv_ask {A} (f : nat -> A) : winv I (ask env f).
Proof.
  intros w Hw. unfold wp, ask.
  destruct (faults env (tick w)); apply I_tick; exact Hw.
Qed.

Lemma winv_call : winv I (call env).
Proof. apply winv_ask. Qed.

Lemma winv_now : winv I (now env).
Proof. intros w Hw. apply I_tick. exact Hw. Qed.

Lemma winv_hasTime a b c : winv I (hasTimeRemaining env a b c).
Proof.
  unfold hasTimeRemaining. apply winv_bind; [apply winv_now|].
  intros t. apply winv_ret.
Qed.

Lemma winv_query {A} (f : DB -> A) : winv I (query env f).
Proof.
  unfold query. apply winv_bind; [apply winv_call|].
  intros _ w Hw. exact Hw.
Qed.

Lemma winv_queryOrThrow {A} (f : DB -> option A) :
  winv I (queryOrThrow env f).
Proof.
  unfold queryOrThrow. apply winv_bind; [apply winv_query|].
  intros [a|]; [apply winv_ret|apply winv_throw].
Qed.

Lemma winv_exec (f : DB -> option DB) :
  (forall w d, I w -> f (db w) = Some d -> I (withDb w d)) ->
  winv I (exec env f).
Proof.
  intros H. unfold exec. apply winv_bind; [apply winv_call|].
  intros _ w Hw. unfold wp.
  destruct (f (db w)) eqn:Hf; [exact (H w _ Hw Hf)|exact Hw].
Qed.

Lemma winv_exec_total (f : DB -> DB) :
  (forall w, I w -> I (withDb w (f (db w)))) ->
  winv I (exec env (fun d => Some (f d))).
Proof.
  intros H. apply winv_exec. intros w d Hw Hd.
  assert (E : f (db w) = d) by congruence. rewrite <- E. exact (H w Hw).
Qed.

Lemma winv_insert {A} (f : nat -> DB -> A * DB) :
  (forall n w, I w -> I (withDb w (snd (f n (db w))))) ->
  winv I (insert env f).
Proof.
  intros H w Hw. unfold wp, insert.
  destruct (faults env (tick w)); [apply I_tick; exact Hw|].
  specialize (H (tick w) w Hw).
  destruct (f (tick w) (db w)) as [a d]; simpl in *.
  exact (I_tick _ H).
Qed.

Lemma winv_chat c :
  (forall w, I w -> I (logged w c)) -> winv I (chatCompletion env c).
Proof.
  intros H w Hw. unfold wp, chatCompletion.
  destruct (chat env (tick w) c); exact (H w Hw).
Qed.

Lemma winv_rankBySourceTier urls : winv I (rankBySourceTier env urls).
Proof.
  unfold rankBySourceTier.
  apply winv_bind; [apply winv_query|intros feeds].
  apply winv_bind; [apply winv_query|intros rules]. apply winv_ret.
Qed.

Lemma winv_createTokenSet : winv I (createTokenSet env).
Proof.
  unfold createTokenSet.
  repeat (apply winv_bind; [apply winv_call|intros _]). apply winv_call.
Qed.

End WorldRules.

(** No outcome of a request leaves a source unclassified. *)
Lemma classify_known env r : fr_status (classify env r) <> unknown.
Proof.
  unfold classify, bare. destruct r as [|status finalUrl body];
    [discriminate|].
  repeat match goal with
         | |- fr_status (if ?c then _ else _) <> _ => destruct c
         | |- fr_status (match ?x with _ => _ end) <> _ => destruct x
         end; discriminate.
Qed.

Ltac winv_auto :=
  repeat
    match goal with
    | |- winv _ (ret _) => apply winv_ret
    | |- winv _ throw => apply winv_throw
    | |- winv _ (now _) => apply winv_now; try assumption
    | |- winv _ (hasTimeRemaining _ _ _ _) => apply winv_hasTime; try assumption
    | |- winv _ (call _) => apply winv_call; try assumption
    | |- winv _ (ask _ _) => apply winv_ask; try assumption
    | |- winv _ (query _ _) => apply winv_query; try assumption
    | |- winv _ (queryOrThrow _ _) => apply winv_queryOrThrow; try assumption
    | |- winv _ (createTokenSet _) => apply winv_createTokenSet; try assumption
    | |- winv _ (rankBySourceTier _ _) =>
        apply winv_rankBySourceTier; try assumption
    | |- winv _ (bind _ _) => apply winv_bind; [|intro]
    | |- winv _ (try_catch _ _) => apply winv_try
    | |- winv _ (match ?x with _ => _ end) => destruct x
    | |- winv _ (if ?x then _ else _) => destruct x
    end.

(** The writes of the stages of job [j0], one closure condition for each
    kind; a lemma asks for those of the writes its function makes. *)
Section StageFrames.

Variable env : Env.
Variable I : World -> Prop.
Variable j0 : Id.

Hypothesis I_tick : forall w, I w -> I (advance w).
Hypothesis I_job : forall p w d,
  stagePatch p -> I w -> updateJob j0 p (db w) = Some d -> I (withDb w d).
Hypothesis I_source : forall id p w d,
  sp_accessStatus p <> unknown ->
  I w -> updateSource id p (db w) = Some d -> I (withDb w d).
Hypothesis I_created : forall urls w,
  I w -> I (withDb w (createSources j0 urls (db w))).
Hypothesis I_report : forall subject markdown html w,
  I w ->
  I (withDb w (snd (createReport j0 subject markdown html (db w)))).
Hypothesis I_event : forall es w,
  I w -> I (withDb w (withEvents (db w) es)).
Hypothesis I_llm : forall c w, I w -> I (logged w c).
Hypothesis I_mail : forall mail w, I w -> I (mailed w mail).

Lemma winv_updateJob p :
  stagePatch p -> winv I (exec env (updateJob j0 p)).
Proof.
  intros Hp. apply winv_exec; [exact I_tick|].
  intros w d Hw Hu. exact (I_job p w d Hp Hw Hu).
Qed.

Lemma winv_updateSource id p :
  sp_accessStatus p <> unknown -> winv I (exec env (updateSource id p)).
Proof.
  intros Hp. apply winv_exec; [exact I_tick|].
  intros w d Hw Hu. exact (I_source id p w d Hp Hw Hu).
Qed.

Lemma discover_winv : winv I (discoverCandidates env j0).
Proof.
  unfold discoverCandidates. winv_auto.
  all: try (apply winv_updateJob; split; reflexivity).
  apply (winv_exec_total env I I_tick (createSources j0 _)).
  intros w Hw. apply I_created. exact Hw.
Qed.

Lemma fetchOne_winv startTime maxDuration src acc :
  winv I (fetchOne env startTime maxDuration src acc).
Proof.
  unfold fetchOne.
  apply winv_bind; [apply winv_hasTime; exact I_tick|intros more].
  destruct (negb more); [apply winv_ret|].
  apply winv_bind; [|intros okc; apply winv_ret].
  apply winv_try.
  - intros w Hw. unfold wp, bind, fetchSingleSource.
    set (result := classify env (httpGet env (tick w) (src_url src))).
    assert (Hk : sp_accessStatus (fetchPatch result) <> unknown)
      by apply classify_known.
    pose proof (winv_bind I _ (fun _ : unit =>
                  ret (if isOk (fr_status result) then (snd acc + 1)%Z
                       else snd acc))
                  (winv_updateSource (src_id src) (fetchPatch result) Hk)
                  (fun _ => winv_ret I _) (advance w) (I_tick w Hw)) as H.
    exact H.
  - apply winv_bind; [|intros _; apply winv_ret].
    apply winv_updateSource. discriminate.
Qed.

Lemma fetch_winv maxDuration : winv I (fetchAndExtractBatch env j0 maxDuration).
Proof.
  unfold fetchAndExtractBatch.
  apply winv_bind; [apply winv_now; exact I_tick|intros startTime].
  apply winv_bind; [apply winv_queryOrThrow; exact I_tick|intros job].
  apply winv_bind; [apply winv_query; exact I_tick|intros unfetched].
  apply winv_bind; [apply winv_forBreak; intros; apply fetchOne_winv|].
  intros counts.
  apply winv_bind; [apply winv_query; exact I_tick|intros remaining].
  apply winv_bind.
  - destruct (snd (nextFetchState _ _ _ _)); [|apply winv_ret].
    apply winv_updateJob. split; reflexivity.
  - intros _. apply winv_updateJob. split; reflexivity.
Qed.

Lemma summarize_winv srcs : winv I (summarize env srcs).
Proof.
  induction srcs as [|s srcs IH]; simpl; [apply winv_ret|].
  apply winv_bind; [|intros _; exact IH].
  apply winv_chat. apply I_llm.
Qed.

Lemma synth_winv maxDuration : winv I (synthesizeReport env j0 maxDuration).
Proof.
  assert (Hchat : forall c, winv I (chatCompletion env c))
    by (intros c; apply winv_chat; apply I_llm).
  assert (Hmr : forall srcs, winv I (synthesizeMapReduce env srcs)).
  { intros srcs. unfold synthesizeMapReduce.
    apply winv_bind; [apply summarize_winv|intros _; apply Hchat]. }
  unfold synthesizeReport.
  apply winv_bind; [apply winv_now; exact I_tick|intros startTime].
  apply winv_bind; [apply winv_queryOrThrow; exact I_tick|intros job].
  apply winv_bind; [apply winv_query; exact I_tick|intros srcs].
  destruct srcs as [|s0 srcs].
  { unfold createMinimalReport. winv_auto.
    apply winv_updateJob. split; reflexivity. }
  apply winv_bind; [apply winv_query; exact I_tick|intros topic].
  apply winv_bind.
  { unfold synthesizeDirect. winv_auto; try apply Hchat; try apply Hmr. }
  intros generated.
  apply winv_bind.
  { unfold synthesizeDirect. winv_auto; try apply Hchat.
    apply winv_updateJob. split; reflexivity. }
  intros markdown. apply winv_updateJob. split; reflexivity.
Qed.

Lemma deliver_winv u subject r : winv I (deliver env u subject r).
Proof.
  unfold deliver. apply winv_try; [|apply winv_ret].
  apply winv_bind; [apply winv_call; exact I_tick|intros _].
  apply winv_bind.
  - intros w Hw. exact (I_mail _ w Hw).
  - intros _.
    apply (winv_exec_total env I I_tick
             (fun d => withEvents d
                         (emailEvent d ++ [{| ev_userId := user_id u;
                                              ev_reportId := rep_id r |}]))).
    intros w Hw. apply I_event. exact Hw.
Qed.

Lemma publish_winv : winv I (publishReport env j0).
Proof.
  unfold publishReport.
  apply winv_bind; [apply winv_queryOrThrow; exact I_tick|].
  intros [[job u] rep]; simpl.
  destruct rep as [r|]; [apply winv_updateJob; split; reflexivity|].
  destruct (truthy _) as [markdown|];
    [|apply winv_updateJob; split; reflexivity].
  apply winv_bind; [apply winv_query; exact I_tick|intros topic].
  apply winv_bind; [apply winv_now; exact I_tick|intros t].
  destruct (renderSafeHtml env markdown) as [safeHtml|]; [|apply winv_throw].
  apply winv_bind.
  { apply winv_insert; [exact I_tick|]. intros n w Hw. apply I_report.
    exact Hw. }
  intros report.
  apply winv_bind; [apply winv_createTokenSet; exact I_tick|intros _].
  apply winv_bind.
  { destruct (mayMail u); [apply deliver_winv|apply winv_ret]. }
  intros _. apply winv_updateJob. split; reflexivity.
Qed.

(** The [try] block and the [catch] block of the step function, for a
    property that the publisher keeps, by its writes or otherwise. *)
Hypothesis I_publish : winv I (publishReport env j0).

Lemma dispatch_winv maxDuration startTime state :
  winv I (dispatch env j0 maxDuration startTime state).
Proof.
  unfold dispatch. apply winv_bind; [apply winv_now; exact I_tick|intros t].
  destruct (stage state) as [[]|].
  - apply discover_winv.
  - apply fetch_winv.
  - apply synth_winv.
  - apply I_publish.
  - apply winv_updateJob. split; reflexivity.
Qed.

Lemma onStageError_winv newAttempt state :
  winv I (onStageError env j0 newAttempt state).
Proof.
  unfold onStageError. destruct (MAX_ATTEMPTS <=? newAttempt)%Z.
  - apply winv_bind; [apply winv_query; exact I_tick|intros cj].
    destruct (negb _); [|apply winv_ret].
    apply winv_bind; [apply winv_updateJob; split; reflexivity|intros _].
    apply winv_try; [apply I_publish|].
    apply winv_updateJob. split; reflexivity.
  - apply winv_updateJob. split; reflexivity.
Qed.

(** The whole step, for a property that the update at its head keeps as
    well: that update counts the attempt, stamps the row and sets the
    status to [running]. *)
Lemma step_winv maxDuration :
  (forall stamp row w d,
     I w -> findJob (db w) j0 = Some row ->
     hardTerminal (job_status row) = false ->
     updateJob j0 {| p_status := Some running;
                     p_attempt := Some (job_attempt row + 1)%Z;
                     p_state := None; p_updatedAt := Some stamp |} (db w)
     = Some d ->
     I (withDb w d)) ->
  winv I (deepDiveStep env j0 maxDuration).
Proof.
  intros I_enter. unfold deepDiveStep. apply winv_bind.
  - intros w Hw.
    cbv beta iota zeta delta
      [wp enterStep bind now query exec call ask ret advance tick db].
    destruct w as [d t lg ob]; cbn [db tick llmLog outbox] in *.
    destruct (faults env (S t)) eqn:Hf; [exact (I_tick _ (I_tick _ Hw))|].
    destruct (findJob d j0) as [row|] eqn:Hrow;
      [|exact (I_tick _ (I_tick _ Hw))].
    destruct (hardTerminal (job_status row)) eqn:Hterm;
      [exact (I_tick _ (I_tick _ Hw))|].
    destruct (faults env (S (S (S t))));
      [exact (I_tick _ (I_tick _ (I_tick _ (I_tick _ Hw))))|].
    match goal with
    | |- context [updateJob j0 ?p d] =>
        destruct (updateJob j0 p d) as [d'|] eqn:Hu
    end.
    + pose proof (I_enter _ row _ d' Hw Hrow Hterm Hu) as Hd.
      exact (I_tick _ (I_tick _ (I_tick _ (I_tick _ Hd)))).
    + exact (I_tick _ (I_tick _ (I_tick _ (I_tick _ Hw)))).
  - intros [[[job startTime] newAttempt]|]; [|apply winv_ret].
    apply winv_try; [apply dispatch_winv|apply onStageError_winv].
Qed.

End StageFrames.

(** The same for a property of the database: it is kept by a step of job
    [j0] as soon as each kind of write of that job keeps it. *)
Lemma step_keeps env (J : DB -> Prop) j0 maxDuration :
  (forall p d d', J d -> updateJob j0 p d = Some d' -> J d') ->
  (forall id p d d', J d -> updateSource id p d = Some d' -> J d') ->
  (forall urls d, J d -> J (createSources j0 urls d)) ->
  (forall subject markdown html d,
     J d -> J (snd (createReport j0 subject markdown html d))) ->
  (forall es d, J d -> J (withEvents d es)) ->
  inv J (deepDiveStep env j0 maxDuration).
Proof.
  intros Hjob Hsrc Hnew Hrep Hev. apply winv_inv.
  assert (Htick : forall w : World, J (db w) -> J (db (advance w)))
    by (intros w H; exact H).
  assert (Hj : forall p w d, stagePatch p -> J (db w) ->
                 updateJob j0 p (db w) = Some d -> J (db (withDb w d)))
    by (intros p w d _ Hw Hu; exact (Hjob p _ _ Hw Hu)).
  apply step_winv; try assumption.
  - intros id p w d _ Hw Hu. exact (Hsrc id p _ _ Hw Hu).
  - intros urls w Hw. exact (Hnew urls _ Hw).
  - intros c w Hw. exact Hw.
  - apply publish_winv; try assumption.
    + intros subject markdown html w Hw. exact (Hrep _ _ _ _ Hw).
    + intros es w Hw. exact (Hev es _ Hw).
    + intros mail w Hw. exact Hw.
  - intros stamp row w d Hw _ _ Hu. exact (Hjob _ _ _ Hw Hu).
Qed.

(** The [try] block and the [catch] block of a step of job [j0] keep a
    property of the database that each kind of write of the stages keeps;
    the job updates in them set the status and the state only. *)
Section StageKeeps.

Variable env : Env.
Variable J : DB -> Prop.
Variable j0 : Id.
Hypothesis J_job : forall p d d',
  stagePatch p -> J d -> updateJob j0 p d = Some d' -> J d'.
Hypothesis J_source : forall id p d d',
  J d -> updateSource id p d = Some d' -> J d'.
Hypothesis J_created : forall urls d, J d -> J (createSources j0 urls d).
Hypothesis J_report : forall subject markdown html d,
  J d -> J (snd (createReport j0 subject markdown html d)).
Hypothesis J_event : forall es d, J d -> J (withEvents d es).

Let W (w : World) : Prop := J (db w).

Lemma W_tick : forall w, W w -> W (advance w).
Proof. intros w H. exact H. Qed.

Lemma W_job : forall p w d,
  stagePatch p -> W w -> updateJob j0 p (db w) = Some d -> W (withDb w d).
Proof. intros p w d Hp Hw Hu. exact (J_job p _ _ Hp Hw Hu). Qed.

Lemma W_publish : winv W (publishReport env j0).
Proof.
  apply publish_winv.
  - exact W_tick.
  - exact W_job.
  - intros subject markdown html w Hw. exact (J_report _ _ _ _ Hw).
  - intros es w Hw. exact (J_event es _ Hw).
  - intros mail w Hw. exact Hw.
Qed.

Lemma dispatch_keeps maxDuration startTime state :
  inv J (dispatch env j0 maxDuration startTime state).
Proof.
  apply winv_inv. apply dispatch_winv.
  - exact W_tick.
  - exact W_job.
  - intros id p w d _ Hw Hu. exact (J_source id p _ _ Hw Hu).
  - intros urls w Hw. exact (J_created urls _ Hw).
  - intros c w Hw. exact Hw.
  - exact W_publish.
Qed.

Lemma onStageError_keeps newAttempt state :
  inv J (onStageError env j0 newAttempt state).
Proof.
  apply winv_inv. apply onStageError_winv.
  - exact W_tick.
  - exact W_job.
  - exact W_publish.
Qed.

Lemma stage_keeps maxDuration startTime state newAttempt :
  inv J (try_catch (dispatch env j0 maxDuration startTime state)
                   (onStageError env j0 newAttempt state)).
Proof. apply inv_try; [apply dispatch_keeps|apply onStageError_keeps]. Qed.

End StageKeeps.

(** What the head of a step does, outcome by outcome. *)
Lemma enterStep_spec env j w :
  llmLog (snd (enterStep env j w)) = llmLog w
  /\ outbox (snd (enterStep env j w)) = outbox w
  /\ match fst (enterStep env j w) with
     | Returned (Some (job, startTime, newAttempt)) =>
         findJob (db w) j = Some job
         /\ hardTerminal (job_status job) = false
         /\ newAttempt = (job_attempt job + 1)%Z
         /\ exists stamp,
              updateJob j {| p_status := Some running;
                             p_attempt := Some newAttempt;
                             p_state := None;
                             p_updatedAt := Some stamp |} (db w)
              = Some (db (snd (enterStep env j w)))
     | Returned None =>
         db (snd (enterStep env j w)) = db w
         /\ (findJob (db w) j = None
             \/ exists job, findJob (db w) j = Some job
                            /\ hardTerminal (job_status job) = true)
     | Thrown => db (snd (enterStep env j w)) = db w
     end.
Proof.
  cbv beta iota zeta delta
    [enterStep bind now query exec call ask ret advance tick db].
  destruct w as [d t lg ob]; cbn [db tick llmLog outbox] in *.
  destruct (faults env (S t)) eqn:Hf; [cbn; auto|].
  destruct (findJob d j) as [row|] eqn:Hrow; [|cbn; auto].
  destruct (hardTerminal (job_status row)) eqn:Hterm.
  { cbn. repeat split; auto. right. exists row. auto. }
  destruct (faults env (S (S (S t)))); [cbn; auto|].
  match goal with
  | |- context [updateJob j ?p d] =>
      destruct (updateJob j p d) as [d'|] eqn:Hu
  end; [|cbn; auto].
  cbn. repeat split; auto. eexists. exact Hu.
Qed.

(* ===================================================================== *)
(** * The step function: what it touches, what it counts                  *)
(* ===================================================================== *)

Lemma Forall2_same {A} (R : A -> A -> Prop) (l : list A) :
  (forall x, R x x) -> Forall2 R l l.
Proof. intros H. induction l; constructor; auto. Qed.

Lemma Forall2_compose {A} (R : A -> A -> Prop) (l1 l2 l3 : list A) :
  (forall x y z, R x y -> R y z -> R x z) ->
  Forall2 R l1 l2 -> Forall2 R l2 l3 -> Forall2 R l1 l3.
Proof.
  intros Ht H12. revert l3. induction H12; intros l3 H23.
  - inversion H23. constructor.
  - inversion H23; subst. constructor; eauto.
Qed.

Lemma Forall2_map_r {A} (R : A -> A -> Prop) (g : A -> A) (l : list A) :
  (forall x, R x (g x)) -> Forall2 R l (map g l).
Proof. intros H. induction l; simpl; constructor; auto. Qed.

Lemma sameJob_refl j r : sameJob j r r.
Proof. unfold sameJob. repeat split; auto. Qed.

Lemma sameJob_trans j r1 r2 r3 :
  sameJob j r1 r2 -> sameJob j r2 r3 -> sameJob j r1 r3.
Proof.
  unfold sameJob.
  intros [A1 [A2 [A3 [A4 [A5 A6]]]]] [B1 [B2 [B3 [B4 [B5 B6]]]]].
  repeat split; try congruence.
  intros Hne. rewrite B6; [apply A6; exact Hne|congruence].
Qed.

Lemma sameSource_refl s : sameSource s s.
Proof. unfold sameSource. auto. Qed.

Lemma sameSource_trans s1 s2 s3 :
  sameSource s1 s2 -> sameSource s2 s3 -> sameSource s1 s3.
Proof. unfold sameSource. intros [A1 [A2 A3]] [B1 [B2 B3]]. repeat split; congruence. Qed.

Lemma touches_refl j d : touches j d d.
Proof.
  unfold touches. split; [apply Forall2_same; apply sameJob_refl|].
  split.
  { exists (deepDiveSource d), []. rewrite app_nil_r.
    split; [reflexivity|]. split; [|constructor].
    apply Forall2_same. apply sameSource_refl. }
  split; [exists []; rewrite app_nil_r; split; [reflexivity|constructor]|].
  auto.
Qed.

Lemma touches_trans j d1 d2 d3 :
  touches j d1 d2 -> touches j d2 d3 -> touches j d1 d3.
Proof.
  unfold touches.
  intros [J1 [[k1 [n1 [S1 [K1 N1]]]] [[r1 [R1 F1]] [U1 [I1 [G1 L1]]]]]]
         [J2 [[k2 [n2 [S2 [K2 N2]]]] [[r2 [R2 F2]] [U2 [I2 [G2 L2]]]]]].
  split.
  { eapply Forall2_compose; [apply sameJob_trans|exact J1|exact J2]. }
  split.
  { rewrite S1 in K2. apply Forall2_app_inv_l in K2.
    destruct K2 as [ka [kb [Ka [Kb E]]]]. subst k2.
    exists ka, (kb ++ n2). split; [rewrite S2, app_assoc; reflexivity|].
    split.
    - eapply Forall2_compose; [apply sameSource_trans|exact K1|exact Ka].
    - apply Forall_app. split; [|exact N2].
      clear - N1 Kb. induction Kb; [constructor|].
      inversion N1; subst. constructor; [|auto].
      destruct H as [_ [H _]]. congruence. }
  split.
  { exists (r1 ++ r2). split; [rewrite R2, R1, app_assoc; reflexivity|].
    apply Forall_app. auto. }
  repeat split; congruence.
Qed.

Lemma updateJob_touches j p d d' :
  updateJob j p d = Some d' -> touches j d d'.
Proof.
  unfold updateJob. destruct (findJob d j); [|discriminate].
  intros H. assert (E : d' = withJobs d
              (map (fun r => if N.eqb (job_id r) j then applyPatch p r else r)
                   (deepDiveJob d))) by congruence.
  subst d'. clear H. unfold touches; cbn [withJobs deepDiveJob deepDiveSource
    deepDiveReport user interest source sourceRule].
  split.
  { apply Forall2_map_r. intros r.
    destruct (N.eqb (job_id r) j) eqn:Hid; [|apply sameJob_refl].
    apply N.eqb_eq in Hid. unfold sameJob; simpl. repeat split; auto.
    intros Hne. congruence. }
  split.
  { exists (deepDiveSource d), []. rewrite app_nil_r.
    split; [reflexivity|]. split; [|constructor].
    apply Forall2_same. apply sameSource_refl. }
  split; [exists []; rewrite app_nil_r; split; [reflexivity|constructor]|].
  auto.
Qed.

Lemma updateSource_touches j id p d d' :
  updateSource id p d = Some d' -> touches j d d'.
Proof.
  unfold updateSource.
  destruct (find _ (deepDiveSource d)); [|discriminate].
  intros H. injection H as H. subst d'.
  unfold touches; cbn [withSources deepDiveJob deepDiveSource
    deepDiveReport user interest source sourceRule].
  split; [apply Forall2_same; apply sameJob_refl|].
  split.
  { eexists _, []. rewrite app_nil_r. split; [reflexivity|].
    split; [|constructor].
    apply Forall2_map_r. intros x.
    destruct (N.eqb (src_id x) id); [|apply sameSource_refl].
    unfold sameSource; simpl. auto. }
  split; [exists []; rewrite app_nil_r; split; [reflexivity|constructor]|].
  auto.
Qed.

Lemma createSources_touches j urls d : touches j d (createSources j urls d).
Proof.
  revert d. induction urls as [|u urls IH]; intros d; simpl;
    [apply touches_refl|].
  destruct (existsb _ (deepDiveSource d)); [apply IH|].
  eapply touches_trans; [|apply IH].
  unfold touches; cbn [withSources deepDiveJob deepDiveSource
    deepDiveReport user interest source sourceRule].
  split; [apply Forall2_same; apply sameJob_refl|].
  split.
  { eexists _, _. split; [reflexivity|].
    split; [apply Forall2_same; apply sameSource_refl|].
    constructor; [reflexivity|constructor]. }
  split; [exists []; rewrite app_nil_r; split; [reflexivity|constructor]|].
  auto.
Qed.

Lemma createReport_touches j subject markdown html d :
  touches j d (snd (createReport j subject markdown html d)).
Proof.
  unfold touches, createReport; cbn [snd withReports deepDiveJob deepDiveSource
    deepDiveReport user interest source sourceRule].
  split; [apply Forall2_same; apply sameJob_refl|].
  split.
  { exists (deepDiveSource d), []. rewrite app_nil_r.
    split; [reflexivity|]. split; [|constructor].
    apply Forall2_same. apply sameSource_refl. }
  split; [|auto].
  eexists. split; [reflexivity|]. constructor; [reflexivity|constructor].
Qed.

Lemma withEvents_touches j es d : touches j d (withEvents d es).
Proof.
  unfold touches; cbn [withEvents deepDiveJob deepDiveSource
    deepDiveReport user interest source sourceRule].
  split; [apply Forall2_same; apply sameJob_refl|].
  split.
  { exists (deepDiveSource d), []. rewrite app_nil_r.
    split; [reflexivity|]. split; [|constructor].
    apply Forall2_same. apply sameSource_refl. }
  split; [exists []; rewrite app_nil_r; split; [reflexivity|constructor]|].
  auto.
Qed.

Lemma step_touches env j maxDuration d0 :
  inv (touches j d0) (deepDiveStep env j maxDuration).
Proof.
  apply step_keeps.
  - intros p d d' H Hu.
    exact (touches_trans _ _ _ _ H (updateJob_touches _ _ _ _ Hu)).
  - intros id p d d' H Hu.
    exact (touches_trans _ _ _ _ H (updateSource_touches j _ _ _ _ Hu)).
  - intros urls d H.
    exact (touches_trans _ _ _ _ H (createSources_touches _ _ _)).
  - intros subject markdown html d H.
    exact (touches_trans _ _ _ _ H (createReport_touches _ _ _ _ _)).
  - intros es d H.
    exact (touches_trans _ _ _ _ H (withEvents_touches _ _ _)).
Qed.

(** A row found by its identifier is found again among rows that are
    [sameJob] for another job. *)
Lemma findJob_sameJob j j' l l' :
  j' <> j -> Forall2 (sameJob j) l l' ->
  find (fun r => N.eqb (job_id r) j') l'
  = find (fun r => N.eqb (job_id r) j') l.
Proof.
  intros Hne H. induction H as [|r r' l l' Hr _ IH]; [reflexivity|].
  simpl. destruct Hr as [Hid [_ [_ [_ [_ Hsame]]]]]. rewrite Hid.
  destruct (N.eqb (job_id r) j') eqn:E; [|exact IH].
  apply N.eqb_eq in E. rewrite Hsame; [reflexivity|congruence].
Qed.

Lemma touches_other j j' d d' :
  touches j d d' -> j' <> j ->
  findJob d' j' = findJob d j' /\ reportsOf d' j' = reportsOf d j'.
Proof.
  intros H Hne. destruct H as [HJ [_ [[new [HR HF]] _]]]. split.
  - unfold findJob. apply findJob_sameJob with (j := j); assumption.
  - unfold reportsOf. rewrite HR, filter_app.
    assert (E : filter (fun r => N.eqb (rep_jobId r) j') new = []).
    { clear HR. induction HF as [|r new Hr _ IH]; [reflexivity|].
      simpl. destruct (N.eqb (rep_jobId r) j') eqn:E; [|exact IH].
      apply N.eqb_eq in E. congruence. }
    rewrite E, app_nil_r. reflexivity.
Qed.

Lemma step_touched env j maxDuration w :
  touches j (db w) (db (snd (deepDiveStep env j maxDuration w))).
Proof.
  apply (winv_run (fun w' => touches j (db w) (db w'))
           (deepDiveStep env j maxDuration) w).
  - apply winv_inv. apply step_touches.
  - apply touches_refl.
Qed.

(** The job has a row whose attempt counter reads [a]. *)
Lemma attempt_kept_job j a j0 p d d' :
  stagePatch p ->
  (exists row, findJob d j = Some row /\ job_attempt row = a) ->
  updateJob j0 p d = Some d' ->
  exists row, findJob d' j = Some row /\ job_attempt row = a.
Proof.
  intros [Hp _] [row [Hrow Ha]] Hu.
  rewrite (findJob_updateJob _ _ _ _ j Hu), Hrow.
  destruct (N.eqb j0 j); [|exists row; auto].
  eexists. split; [reflexivity|]. simpl. rewrite Hp. exact Ha.
Qed.

Lemma inv_run {A} (J : DB -> Prop) (m : M A) w :
  inv J m -> J (db w) -> J (db (snd (m w))).
Proof.
  intros H Hw. specialize (H w Hw). unfold wp in H.
  destruct (m w) as [[a|] w']; exact H.
Qed.

Lemma attempt_through_stage env j a j0 maxDuration startTime state newAttempt :
  inv (fun d => exists row, findJob d j = Some row /\ job_attempt row = a)
      (try_catch (dispatch env j0 maxDuration startTime state)
                 (onStageError env j0 newAttempt state))
  /\ inv (fun d => exists row, findJob d j = Some row /\ job_attempt row = a)
         (dispatch env j0 maxDuration startTime state).
Proof.
  assert (Hjob : forall p d d', stagePatch p ->
            (exists row, findJob d j = Some row /\ job_attempt row = a) ->
            updateJob j0 p d = Some d' ->
            exists row, findJob d' j = Some row /\ job_attempt row = a)
    by (intros p d d'; apply attempt_kept_job).
  assert (Hsrc : forall id p d d',
            (exists row, findJob d j = Some row /\ job_attempt row = a) ->
            updateSource id p d = Some d' ->
            exists row, findJob d' j = Some row /\ job_attempt row = a).
  { intros id p d d' H Hu. destruct (updateSource_jobs _ _ _ _ Hu) as [E _].
    unfold findJob in *. rewrite E. exact H. }
  assert (Hnew : forall urls d,
            (exists row, findJob d j = Some row /\ job_attempt row = a) ->
            exists row, findJob (createSources j0 urls d) j = Some row
                        /\ job_attempt row = a).
  { intros urls d H. destruct (createSources_jobs j0 urls d) as [E _].
    unfold findJob in *. rewrite E. exact H. }
  split.
  - apply stage_keeps; auto.
  - apply dispatch_keeps; auto.
Qed.

(** [X15]. A step of job [j], whatever the environment does and whether
    the step returns or throws, changes nothing but what belongs to [j]:
    every job row stays in place with its identifier, user, week, topic
    and creation time, and the rows of other jobs are untouched; source
    rows stay in place with their identifier, job and URL, and only rows
    of [j] are added; only reports of [j] are added; users, interests,
    feed registry and source rules are as before. In particular the row
    and the reports of any other job are those of before. *)
Theorem step_touches_one_job :
  forall env j maxDuration w,
    let d' := db (snd (deepDiveStep env j maxDuration w)) in
    touches j (db w) d'
    /\ forall j', j' <> j ->
         findJob d' j' = findJob (db w) j'
         /\ reportsOf d' j' = reportsOf (db w) j'.
Proof.
  intros env j maxDuration w d'.
  pose proof (step_touched env j maxDuration w) as H.
  split; [exact H|].
  intros j' Hne. exact (touches_other _ _ _ _ H Hne).
Qed.

(** A step of any job leaves the row and the reports of a finished job. *)
Lemma step_leaves_finished env j0 maxDuration j row (R : list ReportRow) w :
  hardTerminal (job_status row) = true ->
  findJob (db w) j = Some row /\ reportsOf (db w) j = R ->
  findJob (db (snd (deepDiveStep env j0 maxDuration w))) j = Some row
  /\ reportsOf (db (snd (deepDiveStep env j0 maxDuration w))) j = R.
Proof.
  intros Hterm [Hrow HR].
  destruct (N.eq_dec j0 j) as [E|Hne].
  - subst j0.
    destruct (step_noop env j maxDuration w
                (or_intror (ex_intro _ row (conj Hrow Hterm))))
      as [Hd _].
    rewrite Hd. auto.
  - destruct (touches_other j0 j _ _ (step_touched env j0 maxDuration w))
      as [Hf Hr]; [congruence|].
    rewrite Hf, Hr. auto.
Qed.

(** [X16]. A job whose status is complete, aborted or failed is left
    alone by every sequence of steps, on whatever jobs and under whatever
    environment: its row and its reports stay as they are. Steps on the
    finished job itself change nothing at all: no table, no generation
    call, no mail. *)
Theorem finished_job_is_left_alone :
  forall env steps w j row,
    findJob (db w) j = Some row ->
    hardTerminal (job_status row) = true ->
    let w' := runSteps env steps w in
    findJob (db w') j = Some row
    /\ reportsOf (db w') j = reportsOf (db w) j
    /\ (Forall (fun s => fst s = j) steps ->
        db w' = db w /\ llmLog w' = llmLog w /\ outbox w' = outbox w).
Proof.
  intros env steps. induction steps as [|[j0 m] steps IH];
    intros w j row Hrow Hterm; simpl.
  - repeat split; auto.
  - set (w1 := snd (deepDiveStep env j0 m w)).
    assert (H1 : findJob (db w1) j = Some row
                 /\ reportsOf (db w1) j = reportsOf (db w) j
                 /\ (j0 = j -> db w1 = db w /\ llmLog w1 = llmLog w
                               /\ outbox w1 = outbox w)).
    { destruct (N.eq_dec j0 j) as [E|Hne].
      - subst j0.
        destruct (step_noop env j m w
                    (or_intror (ex_intro _ row (conj Hrow Hterm))))
          as [Hd [Hl [Ho _]]].
        fold w1 in Hd, Hl, Ho. rewrite Hd. auto.
      - destruct (touches_other j0 j _ _ (step_touched env j0 m w))
          as [Hf Hr]; [congruence|].
        fold w1 in Hf, Hr. rewrite Hf, Hr.
        split; [exact Hrow|]. split; [reflexivity|].
        intros E. contradiction. }
    destruct H1 as [Hf1 [Hr1 Hsame]].
    destruct (IH w1 j row Hf1 Hterm) as [Hf [Hr Hall]].
    split; [exact Hf|]. split; [congruence|].
    intros HF.
    assert (Hx : j0 = j) by (inversion HF; assumption).
    assert (Hl : Forall (fun s => fst s = j) steps)
      by (inversion HF; assumption).
    destruct (Hsame Hx) as [Hd1 [Hl1 Ho1]].
    destruct (Hall Hl) as [Hd2 [Hl2 Ho2]].
    repeat split; congruence.
Qed.

Lemma finished_job_is_left_alone_witness :
  findJob (db (runSteps quietEnv [(1, 50000%Z); (2, 50000%Z); (1, 50000%Z)]%N
                 finishedWorld)) 1%N
  = Some (sampleJob complete 4%Z (Some draftedState)).
Proof.
  exact (proj1 (finished_job_is_left_alone quietEnv
                  [(1, 50000%Z); (2, 50000%Z); (1, 50000%Z)]%N
                  finishedWorld 1%N
                  (sampleJob complete 4%Z (Some draftedState))
                  eq_refl eq_refl)).
Defined.

(** [X17]. Every step counts itself: a step of a job that is not finished
    and that returns leaves the attempt counter one higher than it found
    it, whichever stage ran and whether the stage failed or not; and no
    step, returning or throwing, lowers the counter or raises it by more
    than one. *)
Theorem step_counts_the_attempt :
  forall env j maxDuration w row,
    findJob (db w) j = Some row ->
    let run := deepDiveStep env j maxDuration w in
    exists row',
      findJob (db (snd run)) j = Some row'
      /\ (job_attempt row' = job_attempt row
          \/ job_attempt row' = (job_attempt row + 1)%Z)
      /\ (hardTerminal (job_status row) = false ->
          fst run = Returned tt ->
          job_attempt row' = (job_attempt row + 1)%Z).
Proof.
  intros env j maxDuration w row Hrow run.
  destruct (enterStep_spec env j w) as [_ [_ Hspec]].
  subst run. unfold deepDiveStep, bind.
  destruct (enterStep env j w) as [[[[[job st] na]|]|] w1] eqn:He;
    cbn [fst snd] in *.
  - destruct Hspec as [Hjob [Hterm [Hna [stamp Hu]]]].
    assert (job = row) by congruence. subst job.
    set (a := (job_attempt row + 1)%Z) in *.
    assert (H1 : exists row', findJob (db w1) j = Some row'
                              /\ job_attempt row' = a).
    { rewrite (findJob_updateJob _ _ _ _ j Hu), N.eqb_refl, Hrow.
      eexists. split; [reflexivity|]. simpl. exact Hna. }
    destruct (attempt_through_stage env j a j maxDuration st
                (fromJson (job_state row)) na) as [Hinv _].
    destruct (inv_run _ _ w1 Hinv H1) as [row' [Hrow' Ha]].
    exists row'. split; [exact Hrow'|]. split; [right; exact Ha|].
    intros _ _. exact Ha.
  - destruct Hspec as [Hd Hcase]. exists row. cbn [ret snd fst].
    split; [rewrite Hd; exact Hrow|]. split; [left; reflexivity|].
    intros Hlive _. destruct Hcase as [Hnone|[job [Hjob Hterm]]];
      [congruence|].
    assert (job = row) by congruence. subst job. congruence.
  - exists row. split; [rewrite Hspec; exact Hrow|].
    split; [left; reflexivity|]. intros _ Hret. discriminate Hret.
Qed.

Lemma step_counts_the_attempt_witness :
  exists row',
    findJob (db (snd (deepDiveStep abortEnv 1%N 50000%Z abortWorld))) 1%N
    = Some row'
    /\ job_attempt row' = 3%Z.
Proof.
  destruct (step_counts_the_attempt abortEnv 1%N 50000%Z abortWorld
              (sampleJob queued 2%Z (Some (stateOf SYNTHESIZE))) eq_refl)
    as [row' [Hrow [_ Hplus]]].
  exists row'. split; [exact Hrow|].
  exact (Hplus eq_refl eq_refl).
Defined.

(** [X18]. When the stage of a step throws and the attempt counter is
    still below the ceiling of 3, the step itself does not fail as long as
    its next database call goes through: it returns, and the job is back
    to status queued with the attempt counted and with whatever state the
    stage had written before it failed, so that the next tick takes it up
    from there. The [catch] block adds no source, no report, no generation
    call and no mail. *)
Theorem failed_stage_is_retried :
  forall env j maxDuration w w1 job startTime newAttempt wt,
    enterStep env j w
      = (Returned (Some (job, startTime, newAttempt)), w1) ->
    dispatch env j maxDuration startTime (fromJson (job_state job)) w1
      = (Thrown, wt) ->
    (newAttempt < MAX_ATTEMPTS)%Z ->
    faults env (tick wt) = false ->
    exists w' row,
      deepDiveStep env j maxDuration w = (Returned tt, w')
      /\ findJob (db wt) j = Some row
      /\ job_attempt row = newAttempt
      /\ findJob (db w') j = Some (applyPatch (patchStatus queued) row)
      /\ deepDiveSource (db w') = deepDiveSource (db wt)
      /\ deepDiveReport (db w') = deepDiveReport (db wt)
      /\ llmLog w' = llmLog wt /\ outbox w' = outbox wt.
Proof.
  intros env j maxDuration w w1 job startTime newAttempt wt He Hd Hlt Hf.
  destruct (enterStep_spec env j w) as [_ [_ Hspec]].
  rewrite He in Hspec. cbn [fst snd] in Hspec.
  destruct Hspec as [Hjob [Hterm [Hna [stamp Hu]]]].
  assert (H1 : exists row', findJob (db w1) j = Some row'
                            /\ job_attempt row' = newAttempt).
  { rewrite (findJob_updateJob _ _ _ _ j Hu), N.eqb_refl, Hjob.
    eexists. split; [reflexivity|]. reflexivity. }
  destruct (attempt_through_stage env j newAttempt j maxDuration startTime
              (fromJson (job_state job)) newAttempt) as [_ Hinv].
  pose proof (inv_run _ _ w1 Hinv H1) as H2. rewrite Hd in H2.
  cbn [snd] in H2. destruct H2 as [row [Hrow Ha]].
  destruct (updateJob j (patchStatus queued) (db wt)) as [d'|] eqn:Hq.
  2:{ unfold updateJob in Hq. rewrite Hrow in Hq. discriminate Hq. }
  exists (withDb (advance wt) d'), row.
  split.
  { unfold deepDiveStep, bind. rewrite He. unfold try_catch. rewrite Hd.
    unfold onStageError.
    assert (Hb : (MAX_ATTEMPTS <=? newAttempt)%Z = false)
      by (apply Z.leb_gt; exact Hlt).
    rewrite Hb. unfold exec, bind, call, ask. rewrite Hf.
    cbn [db advance]. rewrite Hq. reflexivity. }
  split; [exact Hrow|]. split; [exact Ha|].
  split.
  { cbn [db withDb]. rewrite (findJob_updateJob _ _ _ _ j Hq), N.eqb_refl.
    rewrite Hrow. reflexivity. }
  split; [exact (updateJob_sources _ _ _ _ Hq)|].
  split; [exact (updateJob_reports _ _ _ _ Hq)|].
  split; reflexivity.
Qed.

Lemma failed_stage_is_retried_witness :
  exists w',
    deepDiveStep abortEnv 1%N 50000%Z newWorld = (Returned tt, w')
    /\ statusOfJob (db w') 1%N = Some queued
    /\ stageOfJob (db w') 1%N = Some DISCOVER.
Proof.
  destruct (failed_stage_is_retried abortEnv 1%N 50000%Z newWorld
              (snd (enterStep abortEnv 1%N newWorld))
              (sampleJob queued 0%Z (toJson (stateOf DISCOVER))) 0%Z 1%Z
              (snd (dispatch abortEnv 1%N 50000%Z 0%Z (stateOf DISCOVER)
                      (snd (enterStep abortEnv 1%N newWorld))))
              eq_refl eq_refl eq_refl eq_refl)
    as [w' [row [Hrun [Hrow [_ [Hq _]]]]]].
  exists w'. split; [exact Hrun|].
  assert (E : Some row
              = Some (sampleJob running 1%Z (toJson (stateOf DISCOVER))))
    by (rewrite <- Hrow; vm_compute; reflexivity).
  injection E as E.
  unfold statusOfJob, stageOfJob. rewrite Hq, E. split; reflexivity.
Defined.

(* ===================================================================== *)
(** * The publisher: what it writes and what it sends                     *)
(* ===================================================================== *)

(** ** Runs in which any call may fail *)

Lemma wp_try {A} (m h : M A) Q E w :
  wp m Q (fun w' => wp h Q E w') w -> wp (try_catch m h) Q E w.
Proof. unfold wp, try_catch. destruct (m w) as [[a|] w1]; auto. Qed.

Lemma wp_seq {A B} (m : M A) (k : A -> M B) (Mid : A -> World -> Prop)
  Q E w :
  wp m Mid E w ->
  (forall a w', Mid a w' -> wp (k a) Q E w') ->
  wp (bind m k) Q E w.
Proof.
  intros Hm Hk. unfold wp, bind in *.
  destruct (m w) as [[a|] w1]; [exact (Hk a w1 Hm)|exact Hm].
Qed.

Section FaultyRuns.

Variable env : Env.

Lemma wpf_ask {A} (f : nat -> A) (Q : A -> World -> Prop) E w :
  E (advance w) -> Q (f (tick w)) (advance w) -> wp (ask env f) Q E w.
Proof. intros HE HQ. unfold wp, ask. destruct (faults env (tick w)); auto. Qed.

Lemma wpf_call (Q : unit -> World -> Prop) E w :
  E (advance w) -> Q tt (advance w) -> wp (call env) Q E w.
Proof. intros HE HQ. exact (wpf_ask (fun _ => tt) Q E w HE HQ). Qed.

Lemma wpf_query {A} (f : DB -> A) (Q : A -> World -> Prop) E w :
  E (advance w) -> Q (f (db w)) (advance w) -> wp (query env f) Q E w.
Proof.
  intros HE HQ. unfold wp, query, bind, call, ask.
  destruct (faults env (tick w)); auto.
Qed.

Lemma wpf_queryOrThrow {A} (f : DB -> option A) (Q : A -> World -> Prop) E w :
  E (advance w) ->
  (forall a, f (db w) = Some a -> Q a (advance w)) ->
  wp (queryOrThrow env f) Q E w.
Proof.
  intros HE HQ. unfold wp, queryOrThrow, query, bind, call, ask.
  destruct (faults env (tick w)); auto. cbn [db advance].
  destruct (f (db w)) as [a|] eqn:Hf; cbn; auto.
Qed.

Lemma wpf_exec (f : DB -> option DB) (Q : unit -> World -> Prop) E w :
  E (advance w) ->
  (forall d, f (db w) = Some d -> Q tt (withDb (advance w) d)) ->
  wp (exec env f) Q E w.
Proof.
  intros HE HQ. unfold wp, exec, bind, call, ask.
  destruct (faults env (tick w)); auto. cbn [db advance].
  destruct (f (db w)) as [d|] eqn:Hf; auto.
Qed.

Lemma wpf_insert {A} (f : nat -> DB -> A * DB) (Q : A -> World -> Prop) E w :
  E (advance w) ->
  Q (fst (f (tick w) (db w))) (advance (withDb w (snd (f (tick w) (db w))))) ->
  wp (insert env f) Q E w.
Proof.
  intros HE HQ. unfold wp, insert.
  destruct (faults env (tick w)); auto.
  destruct (f (tick w) (db w)) as [a d]; exact HQ.
Qed.

End FaultyRuns.

Lemma wp_conseq {A} (m : M A) (Q Q' : A -> World -> Prop)
  (E E' : World -> Prop) w :
  wp m Q E w ->
  (forall a w', Q a w' -> Q' a w') ->
  (forall w', E w' -> E' w') ->
  wp m Q' E' w.
Proof.
  intros H HQ HE. unfold wp in *. destruct (m w) as [[a|] w1]; auto.
Qed.

Ltac world := cbn [db tick llmLog outbox advance withDb fst snd].

(** The publisher from [w], whatever fails on the way: what it has added
    at the point it returns or throws, the row it leaves when it returns,
    and the job table it leaves untouched when it throws. *)
Lemma publish_effects env j w :
  wp (publishReport env j)
     (fun _ w' =>
        publishAdds env j w w'
        /\ exists job u,
             findJob (db w) j = Some job
             /\ findUser (db w) (job_userId job) = Some u
             /\ findJob (db w') j
                = Some (applyPatch (closingPatch j (db w) job) job)
             /\ match findReport (db w) j, draftOf job with
                | None, Some markdown =>
                    exists html,
                      renderSafeHtml env markdown = Some html
                      /\ deepDiveReport (db w')
                         = deepDiveReport (db w)
                           ++ [newReport env j job markdown html w]
                | _, _ =>
                    deepDiveReport (db w') = deepDiveReport (db w)
                    /\ outbox w' = outbox w
                end)
     (fun w' => publishAdds env j w w'
                /\ deepDiveJob (db w') = deepDiveJob (db w))
     w.
Proof.
  assert (Hsame : forall w', llmLog w' = llmLog w ->
            deepDiveReport (db w') = deepDiveReport (db w) ->
            outbox w' = outbox w -> publishAdds env j w w')
    by (intros w' H1 H2 H3; split; [exact H1|left; split; assumption]).
  unfold publishReport. apply wp_bind.
  apply wpf_queryOrThrow.
  { split; [apply Hsame; reflexivity|reflexivity]. }
  intros [[job u] rep] Hq. world.
  assert (Hjob : findJob (db w) j = Some job
                 /\ findUser (db w) (job_userId job) = Some u
                 /\ findReport (db w) j = rep).
  { destruct (findJob (db w) j) as [job'|]; [|discriminate].
    destruct (findUser (db w) (job_userId job')) as [u'|] eqn:Hu;
      [|discriminate].
    injection Hq as E1 E2 E3. subst job' u' rep. auto. }
  clear Hq. destruct Hjob as [Hjob [Hu Hrep]].
  assert (Hclose : forall p d d',
            closingPatch j (db w) job = p ->
            deepDiveJob d = deepDiveJob (db w) ->
            updateJob j p d = Some d' ->
            findJob d' j
            = Some (applyPatch (closingPatch j (db w) job) job)).
  { intros p d d' Hp Hd Hup.
    rewrite (findJob_updateJob _ _ _ _ j Hup), N.eqb_refl.
    unfold findJob at 1. rewrite Hd. fold (findJob (db w) j).
    rewrite Hjob, Hp. reflexivity. }
  destruct rep as [r|].
  { apply wpf_exec; world.
    - split; [apply Hsame; reflexivity|reflexivity].
    - intros d Hup. split.
      + apply Hsame; world; try reflexivity.
        exact (updateJob_reports _ _ _ _ Hup).
      + exists job, u. split; [exact Hjob|]. split; [exact Hu|]. split.
        * apply (Hclose (patchStatus complete) (db w));
            [unfold closingPatch; rewrite Hrep; reflexivity|reflexivity
            |exact Hup].
        * rewrite Hrep. split; [|reflexivity].
          exact (updateJob_reports _ _ _ _ Hup). }
  fold (draftOf job). destruct (draftOf job) as [markdown|] eqn:Hdraft.
  2:{ apply wpf_exec; world.
      - split; [apply Hsame; reflexivity|reflexivity].
      - intros d Hup. split.
        + apply Hsame; world; try reflexivity.
          exact (updateJob_reports _ _ _ _ Hup).
        + exists job, u. split; [exact Hjob|]. split; [exact Hu|]. split.
          * apply (Hclose (patchStatus failed) (db w));
              [unfold closingPatch; rewrite Hrep, Hdraft; reflexivity
              |reflexivity|exact Hup].
          * rewrite Hrep, Hdraft. split; [|reflexivity].
            exact (updateJob_reports _ _ _ _ Hup). }
  apply wp_bind. apply wpf_query; world.
  { split; [apply Hsame; reflexivity|reflexivity]. }
  apply wp_bind. apply wp_now. world.
  destruct (renderSafeHtml env markdown) as [html|] eqn:Hhtml.
  2:{ split; [apply Hsame; reflexivity|reflexivity]. }
  set (rep := newReport env j job markdown html w).
  assert (Hadded : forall w', llmLog w' = llmLog w ->
            deepDiveReport (db w') = deepDiveReport (db w) ++ [rep] ->
            (outbox w' = outbox w
             \/ (mayMail u = true /\ outbox w' = outbox w ++ [mailFor u rep])) ->
            publishAdds env j w w').
  { intros w' H1 H2 H3. split; [exact H1|right].
    exists job, u, markdown, html. repeat split; assumption. }
  set (Pre := fun w' =>
         llmLog w' = llmLog w
         /\ deepDiveReport (db w') = deepDiveReport (db w) ++ [rep]
         /\ deepDiveJob (db w') = deepDiveJob (db w)
         /\ outbox w' = outbox w).
  set (Mid := fun w' =>
         llmLog w' = llmLog w
         /\ deepDiveReport (db w') = deepDiveReport (db w) ++ [rep]
         /\ deepDiveJob (db w') = deepDiveJob (db w)
         /\ (outbox w' = outbox w
             \/ (mayMail u = true
                 /\ outbox w' = outbox w ++ [mailFor u rep]))).
  assert (HpreMid : forall w', Pre w' -> Mid w').
  { intros w' [H1 [H2 [H3 H4]]]. repeat split; auto. }
  assert (HmidE : forall w', Mid w' ->
            publishAdds env j w w'
            /\ deepDiveJob (db w') = deepDiveJob (db w)).
  { intros w' [H1 [H2 [H3 H4]]]. split; [apply Hadded; assumption|exact H3]. }
  assert (Hpre_tick : forall w', Pre w' -> Pre (advance w'))
    by (intros w' H; exact H).
  assert (Hmid_tick : forall w', Mid w' -> Mid (advance w'))
    by (intros w' H; exact H).
  apply wp_seq with (Mid := fun r w' => r = rep /\ Pre w').
  { apply wpf_insert; world.
    - split; [apply Hsame; reflexivity|reflexivity].
    - split; [reflexivity|]. unfold Pre; world.
      repeat split; reflexivity. }
  intros report w1 [Hreport H1]. subst report.
  apply wp_seq with (Mid := fun _ => Pre).
  { unfold createTokenSet.
    apply wp_bind.
    apply wpf_call; [apply HmidE, HpreMid, Hpre_tick, H1|].
    apply wp_bind.
    apply wpf_call;
      [apply HmidE, HpreMid; do 2 apply Hpre_tick; exact H1|].
    apply wpf_call; [apply HmidE, HpreMid|];
      do 3 apply Hpre_tick; exact H1. }
  clear w1 H1. intros _ w1 H1.
  apply wp_seq with (Mid := fun _ => Mid).
  { destruct (mayMail u) eqn:Hmay; [|exact (HpreMid _ H1)].
    unfold deliver. apply wp_try. apply wp_bind.
    apply wpf_call; [exact (HpreMid _ (Hpre_tick _ H1))|].
    apply wp_bind. unfold wp at 1.
    assert (H2 : Mid (mailed (advance w1) (mailFor u rep))).
    { destruct H1 as [A1 [A2 [A3 A4]]]. unfold Mid; world.
      repeat split; try assumption. right. split; [reflexivity|].
      cbn [mailed outbox advance]. rewrite A4. reflexivity. }
    apply wpf_exec; [exact (Hmid_tick _ H2)|].
    intros d Hd. injection Hd as Hd. subst d.
    exact H2. }
  clear w1 H1. intros _ w1 H1.
  destruct H1 as [A1 [A2 [A3 A4]]].
  apply wpf_exec.
  { apply HmidE. repeat split; assumption. }
  intros d Hup. split.
  - apply Hadded; world; [exact A1| |exact A4].
    rewrite (updateJob_reports _ _ _ _ Hup). exact A2.
  - world. exists job, u. split; [exact Hjob|]. split; [exact Hu|]. split.
    + refine (Hclose _ (db w1) d _ A3 Hup).
      unfold closingPatch. rewrite Hrep, Hdraft. reflexivity.
    + rewrite Hrep, Hdraft. exists html. split; [exact Hhtml|].
      rewrite (updateJob_reports _ _ _ _ Hup). exact A2.
Qed.

(** [X19]. What the publisher leaves when it returns. The job had a row
    and its user was found. If the job had a report already, only its
    status changes, to complete. If it had none and its state carries no
    draft, only its status changes, to failed. Otherwise exactly one report
    row is added, made from the draft and its safe HTML, and the row of the
    job gets the status partial when it was partial and complete otherwise,
    and a state that records the identifier of the report and
    [emailSent = true], whether or not a mail went out. *)
Theorem publish_outcome :
  forall env j w w',
    publishReport env j w = (Returned tt, w') ->
    exists job u,
      findJob (db w) j = Some job
      /\ findUser (db w) (job_userId job) = Some u
      /\ findJob (db w') j
         = Some (applyPatch (closingPatch j (db w) job) job)
      /\ match findReport (db w) j, draftOf job with
         | None, Some markdown =>
             exists html,
               renderSafeHtml env markdown = Some html
               /\ deepDiveReport (db w')
                  = deepDiveReport (db w)
                    ++ [newReport env j job markdown html w]
         | _, _ =>
             deepDiveReport (db w') = deepDiveReport (db w)
             /\ outbox w' = outbox w
         end.
Proof.
  intros env j w w' Hrun.
  pose proof (publish_effects env j w) as H. unfold wp in H.
  rewrite Hrun in H. exact (proj2 H).
Qed.

Lemma publish_outcome_witness :
  exists w',
    publishReport quietEnv 1%N draftedWorld = (Returned tt, w')
    /\ statusOfJob (db w') 1%N = Some complete
    /\ List.length (deepDiveReport (db w')) = 1.
Proof.
  exists (snd (publishReport quietEnv 1%N draftedWorld)).
  assert (Hrun : publishReport quietEnv 1%N draftedWorld
                 = (Returned tt, snd (publishReport quietEnv 1%N draftedWorld)))
    by (vm_compute; reflexivity).
  split; [exact Hrun|].
  destruct (publish_outcome quietEnv 1%N draftedWorld _ Hrun)
    as [job [u [Hjob [_ [Hrow Hrep]]]]].
  assert (E : Some job = Some (sampleJob running 1%Z (Some draftedState)))
    by (rewrite <- Hjob; vm_compute; reflexivity).
  injection E as E. subst job. split.
  - unfold statusOfJob. rewrite Hrow. reflexivity.
  - change (findReport (db draftedWorld) 1%N) with (@None ReportRow) in Hrep.
    change (draftOf (sampleJob running 1%Z (Some draftedState)))
      with (Some (lit "# Banking weekly")) in Hrep.
    destruct Hrep as [html [_ Hrep]]. rewrite Hrep. reflexivity.
Defined.

(** [X20]. The mail policy of the publisher, whether it returns or throws.
    It makes no generation call. It sends at most one mail, and only after
    it has created the report of the job in this very run: the mail goes
    to the address of the user of the job and carries the subject of that
    report. So it sends nothing for a job that already has a report,
    nothing when the state has no draft, and nothing to a user who has no
    profile, has mail disabled or is paused. *)
Theorem publish_mail_policy :
  forall env j w,
    let w' := snd (publishReport env j w) in
    publishAdds env j w w'
    /\ (forall job u,
          findJob (db w) j = Some job ->
          findUser (db w) (job_userId job) = Some u ->
          mayMail u = false \/ draftOf job = None ->
          outbox w' = outbox w)
    /\ (findReport (db w) j <> None ->
        outbox w' = outbox w
        /\ deepDiveReport (db w') = deepDiveReport (db w)).
Proof.
  intros env j w w'.
  assert (H : publishAdds env j w w').
  { pose proof (publish_effects env j w) as H. unfold wp in H. subst w'.
    destruct (publishReport env j w) as [[[]|] w1]; exact (proj1 H). }
  split; [exact H|].
  destruct H as [_ [[Hr Ho]|[job [u [md [html [Hj [Hu [Hn [Hd [_ [_ Ho]]]]]]]]]]]].
  - split; [intros; exact Ho|]. intros _. split; assumption.
  - split.
    + intros job' u' Hj' Hu' Hcase.
      assert (job' = job) by congruence. subst job'.
      assert (u' = u) by congruence. subst u'.
      destruct Ho as [Ho|[Hm Ho]]; [exact Ho|].
      destruct Hcase as [Hc|Hc]; congruence.
    + intros Hsome. contradiction.
Qed.

(** How many mails have gone out against how many reports have been
    created since [w0]: the publisher keeps the account, and so does a
    step. *)
Lemma accounting_publish env j (w0 : World) :
  winv (accounted w0) (publishReport env j).
Proof.
  intros w [mails [reports [Ho [Hr Hle]]]].
  assert (H : forall w', publishAdds env j w w' -> accounted w0 w').
  { intros w' [_ [[Hr' Ho']|[job [u [md [html [_ [_ [_ [_ [_ [Hr' Ho']]]]]]]]]]]].
    - exists mails, reports. rewrite Ho', Hr'. auto.
    - destruct Ho' as [Ho'|[_ Ho']].
      + exists mails, (reports ++ [newReport env j job md html w]).
        rewrite Hr', Hr, Ho', Ho, <- app_assoc.
        split; [reflexivity|]. split; [reflexivity|].
        rewrite length_app. simpl. lia.
      + exists (mails ++ [mailFor u (newReport env j job md html w)]),
               (reports ++ [newReport env j job md html w]).
        rewrite Hr', Hr, Ho', Ho, <- !app_assoc.
        split; [reflexivity|]. split; [reflexivity|].
        rewrite !length_app. simpl. lia. }
  eapply wp_conseq; [apply publish_effects| |].
  - intros _ w' [Hadds _]. exact (H w' Hadds).
  - intros w' [Hadds _]. exact (H w' Hadds).
Qed.

Lemma accounted_db w0 w d :
  deepDiveReport d = deepDiveReport (db w) ->
  accounted w0 w -> accounted w0 (withDb w d).
Proof.
  intros Hd [mails [reports [Ho [Hr Hle]]]]. exists mails, reports.
  cbn [outbox db withDb]. rewrite Hd. auto.
Qed.

Lemma accounted_refl w : accounted w w.
Proof. exists [], []. rewrite !app_nil_r. auto. Qed.

Lemma accounting_step env j maxDuration (w0 : World) :
  winv (accounted w0) (deepDiveStep env j maxDuration).
Proof.
  apply step_winv.
  - intros w H. exact H.
  - intros p w d _ H Hu. apply accounted_db; [|exact H].
    exact (updateJob_reports _ _ _ _ Hu).
  - intros id p w d _ H Hu. apply accounted_db; [|exact H].
    exact (proj2 (updateSource_jobs _ _ _ _ Hu)).
  - intros urls w H. apply accounted_db; [|exact H].
    exact (proj2 (createSources_jobs _ _ _)).
  - intros c w H. exact H.
  - apply accounting_publish.
  - intros stamp row w d H _ _ Hu. apply accounted_db; [|exact H].
    exact (updateJob_reports _ _ _ _ Hu).
Qed.

(** [X21]. Whatever mix of steps and direct calls of the publisher is run,
    on whatever jobs and under whatever environment, mails and reports are
    only ever added, and no more mails go out than reports are created. *)
Theorem no_mail_without_report :
  forall env calls w,
    let w' := runAll env calls w in
    exists mails reports,
      outbox w' = outbox w ++ mails
      /\ deepDiveReport (db w') = deepDiveReport (db w) ++ reports
      /\ List.length mails <= List.length reports.
Proof.
  intros env calls w.
  assert (H : forall w1, accounted w w1 -> accounted w (runAll env calls w1)).
  { induction calls as [|i calls IH]; intros w1 H1; simpl; [exact H1|].
    apply IH.
    apply (winv_run (accounted w) (invoke env i) w1); [|exact H1].
    destruct i; simpl; [apply accounting_step|apply accounting_publish]. }
  exact (H w (accounted_refl w)).
Qed.

(* ===================================================================== *)
(** * Synthesis: the draft it hands over, the calls it makes              *)
(* ===================================================================== *)

Lemma truthy_some o m : truthy o = Some m -> m <> [].
Proof.
  destruct o as [[|c s]|]; simpl; intros H; try discriminate.
  injection H as H. subst m. discriminate.
Qed.

Lemma join_nonempty sep x xs : x <> [] -> join sep (x :: xs) <> [].
Proof.
  intros Hx. destruct xs as [|y ys]; simpl; [exact Hx|].
  destruct x; [contradiction|discriminate].
Qed.

Lemma generateFallbackReport_nonempty srcs topic :
  generateFallbackReport srcs topic <> [].
Proof. unfold generateFallbackReport. apply join_nonempty. discriminate. Qed.

Lemma minimalMarkdown_nonempty label : minimalMarkdown label <> [].
Proof. unfold minimalMarkdown. apply join_nonempty. discriminate. Qed.

(** What the last update of synthesis leaves: a row at PUBLISH with the
    draft, the status being the one written. *)
Lemma updateJob_draft j d d' row0 st strat retries markdown status :
  findJob d j = Some row0 ->
  markdown <> [] ->
  updateJob j {| p_status := Some status; p_attempt := None;
                 p_state :=
                   Some (toJson (withSynthesis st PUBLISH
                                   {| strategy := strat;
                                      retryCount := retries;
                                      partialMarkdown := Some markdown |}));
                 p_updatedAt := None |} d = Some d' ->
  exists row,
    findJob d' j = Some row
    /\ stage (fromJson (job_state row)) = Some PUBLISH
    /\ draftOf row = Some markdown
    /\ job_status row = status
    /\ job_attempt row = job_attempt row0.
Proof.
  intros Hrow Hne Hu.
  rewrite (findJob_updateJob _ _ _ _ j Hu), N.eqb_refl, Hrow.
  eexists. split; [reflexivity|]. unfold draftOf; simpl.
  repeat split; try reflexivity.
  destruct markdown; [contradiction|reflexivity].
Qed.

(** The row of [j] keeps its status and its attempt counter. *)
Lemma sameStatus_update j d d' row0 state :
  (exists row, findJob d j = Some row
               /\ job_status row = job_status row0
               /\ job_attempt row = job_attempt row0) ->
  updateJob j (patchState state) d = Some d' ->
  exists row, findJob d' j = Some row
              /\ job_status row = job_status row0
              /\ job_attempt row = job_attempt row0.
Proof.
  intros [row [Hrow [Hs Ha]]] Hu.
  rewrite (findJob_updateJob _ _ _ _ j Hu), N.eqb_refl, Hrow.
  eexists. split; [reflexivity|]. simpl. auto.
Qed.

Lemma synth_triple env j maxDuration row0 :
  triple (fun d => findJob d j = Some row0)
    (synthesizeReport env j maxDuration)
    (fun _ d => exists row markdown,
        findJob d j = Some row
        /\ stage (fromJson (job_state row)) = Some PUBLISH
        /\ draftOf row = Some markdown
        /\ (job_status row = job_status row0 \/ job_status row = partial)
        /\ job_attempt row = job_attempt row0)
    (fun _ => True).
Proof.
  set (Same := fun d => exists row, findJob d j = Some row
                        /\ job_status row = job_status row0
                        /\ job_attempt row = job_attempt row0).
  assert (Hstart : forall d, findJob d j = Some row0 -> Same d)
    by (intros d H; exists row0; auto).
  unfold synthesizeReport.
  eapply triple_bind; [apply triple_now|intros startTime; simpl].
  eapply triple_bind;
    [eapply triple_weaken_E; [apply triple_queryOrThrow|auto]|].
  intros job; simpl.
  apply triple_conseq with
    (P' := fun d => Same d /\ job = row0)
    (Q' := fun _ d => exists row markdown,
        findJob d j = Some row
        /\ stage (fromJson (job_state row)) = Some PUBLISH
        /\ draftOf row = Some markdown
        /\ (job_status row = job_status row0 \/ job_status row = partial)
        /\ job_attempt row = job_attempt row0)
    (E' := fun _ => True); auto.
  2:{ intros d [H1 H2]. split; [apply Hstart; exact H1|congruence]. }
  apply triple_pure. intros Hjob. subst job.
  assert (Hfinal : forall st strat retries markdown status,
            markdown <> [] ->
            (status = job_status row0 \/ status = partial) ->
            triple Same
              (exec env
                 (updateJob j
                    {| p_status := Some status; p_attempt := None;
                       p_state :=
                         Some (toJson (withSynthesis st PUBLISH
                                         {| strategy := strat;
                                            retryCount := retries;
                                            partialMarkdown :=
                                              Some markdown |}));
                       p_updatedAt := None |}))
              (fun _ d => exists row markdown,
                  findJob d j = Some row
                  /\ stage (fromJson (job_state row)) = Some PUBLISH
                  /\ draftOf row = Some markdown
                  /\ (job_status row = job_status row0
                      \/ job_status row = partial)
                  /\ job_attempt row = job_attempt row0)
              (fun _ => True)).
  { intros st strat retries markdown status Hne Hst.
    eapply triple_weaken_E; [apply triple_exec|auto].
    intros d d' [row [Hrow [Hs Ha]]] Hu.
    destruct (updateJob_draft _ _ _ _ _ _ _ _ _ Hrow Hne Hu)
      as [row' [H1 [H2 [H3 [H4 H5]]]]].
    exists row', markdown. repeat split; auto; [|congruence].
    rewrite H4. destruct Hst as [->| ->]; auto. }
  eapply triple_bind;
    [eapply triple_conseq; [apply (triple_query env Same)| | |]; simpl; auto;
     intros a d [H _]; exact H|].
  intros srcs; simpl.
  destruct srcs as [|s0 srcs].
  { unfold createMinimalReport.
    eapply triple_bind;
      [eapply triple_weaken_E; [apply triple_queryOrThrow|auto]|].
    intros job; simpl.
    apply triple_conseq with (P' := Same)
      (Q' := fun _ d => exists row markdown,
          findJob d j = Some row
          /\ stage (fromJson (job_state row)) = Some PUBLISH
          /\ draftOf row = Some markdown
          /\ (job_status row = job_status row0 \/ job_status row = partial)
          /\ job_attempt row = job_attempt row0)
      (E' := fun _ => True); auto; [|intros d [H _]; exact H].
    eapply triple_bind;
      [eapply triple_conseq; [apply (triple_query env Same)| | |];
       simpl; auto; intros a d [H _]; exact H|].
    intros topic; simpl.
    apply Hfinal; [apply minimalMarkdown_nonempty|right; reflexivity]. }
  eapply triple_bind;
    [eapply triple_conseq; [apply (triple_query env Same)| | |]; simpl; auto;
     intros a d [H _]; exact H|].
  intros topic; simpl.
  eapply triple_bind with (Q1 := fun _ => Same).
  { eapply triple_weaken_E with (E' := Same); [|auto].
    apply inv_try; [|apply inv_ret].
    apply inv_bind.
    - destruct (match synthesis (fromJson (job_state row0)) with
                | Some s => strategy s
                | None => deep_research
                end); [|apply inv_ret].
      apply inv_bind; [apply inv_hasTime|intros more].
      destruct more; [apply inv_chat|apply inv_ret].
    - intros direct. destruct (noText direct); [|apply inv_ret].
      apply inv_bind; [apply inv_hasTime|intros more].
      destruct more; [|apply inv_ret].
      unfold synthesizeMapReduce.
      apply inv_bind; [|intros _; apply inv_chat].
      induction (s0 :: srcs) as [|x xs IH]; simpl; [apply inv_ret|].
      apply inv_bind; [apply inv_chat|intros _; exact IH]. }
  intros generated.
  match goal with
  | |- triple _ (bind _ ?k) _ _ =>
      eapply triple_bind with (Q1 := fun md d => Same d /\ md <> [])
  end.
  2:{ intros markdown. apply triple_pure. intros Hne.
      apply Hfinal; [exact Hne|].
      match goal with
      | |- context [if ?c then _ else _] => destruct c
      end; [left|right]; reflexivity. }
  set (markdown0 := match truthy generated with
                    | Some m => m
                    | None => generateFallbackReport (s0 :: srcs) _
                    end).
  assert (Hne0 : markdown0 <> []).
  { unfold markdown0. destruct (truthy generated) as [m|] eqn:Hg.
    - exact (truthy_some _ _ Hg).
    - apply generateFallbackReport_nonempty. }
  assert (Hret0 : triple Same (ret markdown0)
                    (fun md d => Same d /\ md <> []) (fun _ => True))
    by (apply triple_ret; auto).
  destruct (negb _ && _); [|exact Hret0].
  eapply triple_bind; [apply triple_hasTime|intros more; simpl].
  destruct more; [|exact Hret0].
  eapply triple_bind with (Q1 := fun _ => Same).
  { eapply triple_weaken_E; [apply triple_exec|auto].
    intros d d' Hd Hu. exact (sameStatus_update _ _ _ _ _ Hd Hu). }
  intros _.
  eapply triple_bind; [apply triple_chat|intros retryMarkdown; simpl].
  destruct (truthy retryMarkdown) as [m|] eqn:Hm; [|exact Hret0].
  match goal with
  | |- context [if ?c then _ else _] => destruct c
  end; [|exact Hret0].
  apply triple_ret. intros d Hd. split; [exact Hd|exact (truthy_some _ _ Hm)].
Qed.

(** [X22]. Whenever synthesis returns, whichever path it took and whatever
    the generation service answered, the job is at PUBLISH with a draft
    that is not empty: the answer of the service, the report built from
    the source titles, or the fixed report for a job without readable
    sources. Its status is the one it had or partial, its attempt counter
    is unchanged. So the publisher, run next, never marks the job failed
    for want of a draft. *)
Theorem synthesis_hands_over_a_draft :
  forall env j maxDuration w w' row0,
    findJob (db w) j = Some row0 ->
    synthesizeReport env j maxDuration w = (Returned tt, w') ->
    exists row markdown,
      findJob (db w') j = Some row
      /\ stage (fromJson (job_state row)) = Some PUBLISH
      /\ draftOf row = Some markdown
      /\ markdown <> []
      /\ (job_status row = job_status row0 \/ job_status row = partial)
      /\ job_attempt row = job_attempt row0
      /\ closingPatch j (db w') row <> patchStatus failed.
Proof.
  intros env j maxDuration w w' row0 Hrow Hrun.
  pose proof (synth_triple env j maxDuration row0 w Hrow) as H.
  unfold wp in H. rewrite Hrun in H.
  destruct H as [row [markdown [H1 [H2 [H3 [H4 H5]]]]]].
  exists row, markdown. repeat split; auto.
  - unfold draftOf in H3. exact (truthy_some _ _ H3).
  - unfold closingPatch. rewrite H3.
    destruct (findReport (db w') j); [discriminate|].
    unfold patchStatusState, patchStatus. intros E. discriminate E.
Qed.

Lemma synthesis_hands_over_a_draft_witness :
  exists row markdown,
    findJob (db (snd (synthesizeReport quietEnv 1%N 50000%Z twoSourceWorld)))
            1%N = Some row
    /\ stage (fromJson (job_state row)) = Some PUBLISH
    /\ draftOf row = Some markdown
    /\ job_status row = running.
Proof.
  assert (Hrun : synthesizeReport quietEnv 1%N 50000%Z twoSourceWorld
                 = (Returned tt,
                    snd (synthesizeReport quietEnv 1%N 50000%Z
                           twoSourceWorld)))
    by (vm_compute; reflexivity).
  destruct (synthesis_hands_over_a_draft quietEnv 1%N 50000%Z twoSourceWorld
              (snd (synthesizeReport quietEnv 1%N 50000%Z twoSourceWorld))
              synthesisJob eq_refl Hrun)
    as [row [markdown [H1 [H2 [H3 _]]]]].
  exists row, markdown.
  split; [exact H1|]. split; [exact H2|]. split; [exact H3|].
  assert (E : option_map job_status (Some row) = Some running)
    by (rewrite <- H1; vm_compute; reflexivity).
  injection E as E. exact E.
Defined.

(** ** The calls to the generation service *)

Lemma calls_weaken {A} n n' (m : M A) :
  n <= n' -> callsAtMost n m -> callsAtMost n' m.
Proof.
  intros Hle H w. destruct (H w) as [calls [H1 H2]].
  exists calls. split; [exact H1|lia].
Qed.

Lemma calls_bind {A B} n1 n2 n (m : M A) (k : A -> M B) :
  n1 + n2 <= n ->
  callsAtMost n1 m -> (forall a, callsAtMost n2 (k a)) ->
  callsAtMost n (bind m k).
Proof.
  intros Hle Hm Hk w. destruct (Hm w) as [c1 [H1 L1]].
  unfold bind. destruct (m w) as [[a|] w1]; cbn [snd] in *.
  - destruct (Hk a w1) as [c2 [H2 L2]]. exists (c1 ++ c2).
    rewrite H2, H1, app_assoc, length_app. split; [reflexivity|lia].
  - exists c1. split; [exact H1|lia].
Qed.

Lemma calls_try {A} n1 n2 n (m h : M A) :
  n1 + n2 <= n ->
  callsAtMost n1 m -> callsAtMost n2 h -> callsAtMost n (try_catch m h).
Proof.
  intros Hle Hm Hh w. destruct (Hm w) as [c1 [H1 L1]].
  unfold try_catch. destruct (m w) as [[a|] w1]; cbn [snd] in *.
  - exists c1. split; [exact H1|lia].
  - destruct (Hh w1) as [c2 [H2 L2]]. exists (c1 ++ c2).
    rewrite H2, H1, app_assoc, length_app. split; [reflexivity|lia].
Qed.

(** A computation that keeps the log as it is makes no call. *)
Lemma calls_none {A} (m : M A) :
  (forall L, winv (fun w => llmLog w = L) m) -> callsAtMost 0 m.
Proof.
  intros H w. exists []. rewrite app_nil_r. split; [|simpl; lia].
  exact (winv_run _ m w (H (llmLog w)) eq_refl).
Qed.

Lemma calls_ret {A} (a : A) : callsAtMost 0 (ret a).
Proof. intros w. exists []. rewrite app_nil_r. split; [reflexivity|simpl; lia]. Qed.

Section Calls.

Variable env : Env.

Lemma calls_chat c : callsAtMost 1 (chatCompletion env c).
Proof.
  intros w. exists [c]. unfold chatCompletion.
  destruct (chat env (tick w) c); split; reflexivity.
Qed.

Lemma calls_now : callsAtMost 0 (now env).
Proof. apply calls_none. intros L. apply winv_now. intros w H; exact H. Qed.

Lemma calls_hasTime a b c : callsAtMost 0 (hasTimeRemaining env a b c).
Proof. apply calls_none. intros L. apply winv_hasTime. intros w H; exact H. Qed.

Lemma calls_query {A} (f : DB -> A) : callsAtMost 0 (query env f).
Proof. apply calls_none. intros L. apply winv_query. intros w H; exact H. Qed.

Lemma calls_queryOrThrow {A} (f : DB -> option A) :
  callsAtMost 0 (queryOrThrow env f).
Proof.
  apply calls_none. intros L. apply winv_queryOrThrow. intros w H; exact H.
Qed.

Lemma calls_exec (f : DB -> option DB) : callsAtMost 0 (exec env f).
Proof.
  apply calls_none. intros L. apply winv_exec.
  - intros w H; exact H.
  - intros w d H _. exact H.
Qed.

(** What follows a read runs on what the read found. *)
Lemma calls_after_query {A B} n (f : DB -> A) (k : A -> M B) :
  (forall d, callsAtMost n (k (f d))) -> callsAtMost n (bind (query env f) k).
Proof.
  intros Hk w. cbv beta delta [bind query call ask].
  destruct (faults env (tick w)); cbn [snd].
  - exists []. rewrite app_nil_r. split; [reflexivity|simpl; lia].
  - exact (Hk (db w) (advance w)).
Qed.

Lemma calls_summarize srcs : callsAtMost (List.length srcs) (summarize env srcs).
Proof.
  induction srcs as [|s srcs IH]; simpl; [apply calls_ret|].
  apply (calls_bind 1 (List.length srcs)); [lia|apply calls_chat|].
  intros _. exact IH.
Qed.

Lemma calls_mapReduce srcs :
  callsAtMost (List.length srcs + 1) (synthesizeMapReduce env srcs).
Proof.
  unfold synthesizeMapReduce.
  apply (calls_bind (List.length srcs) 1); [lia|apply calls_summarize|].
  intros _. apply calls_chat.
Qed.

(** The stages that do not generate, and the [catch] block, leave the log
    as it is. *)
Lemma quiet_tick L : forall w, llmLog w = L -> llmLog (advance w) = L.
Proof. intros w H. exact H. Qed.

Lemma quiet_job L j : forall p w d,
  stagePatch p -> llmLog w = L -> updateJob j p (db w) = Some d ->
  llmLog (withDb w d) = L.
Proof. intros p w d _ H _. exact H. Qed.

Lemma quiet_publish L j : winv (fun w => llmLog w = L) (publishReport env j).
Proof.
  apply publish_winv.
  - apply quiet_tick.
  - apply quiet_job.
  - intros subject markdown html w H. exact H.
  - intros es w H. exact H.
  - intros mail w H. exact H.
Qed.

Lemma calls_createMinimal j : callsAtMost 0 (createMinimalReport env j).
Proof.
  unfold createMinimalReport.
  apply (calls_bind 0 0); [lia|apply calls_queryOrThrow|intros job].
  apply (calls_bind 0 0); [lia|apply calls_query|intros topic].
  apply calls_exec.
Qed.

Lemma calls_synthesize j maxDuration :
  callsAtMost (DEEP_DIVE_MAX_SYNTHESIS_SOURCES env + 3)
              (synthesizeReport env j maxDuration).
Proof.
  unfold synthesizeReport.
  apply (calls_bind 0 (DEEP_DIVE_MAX_SYNTHESIS_SOURCES env + 3));
    [lia|apply calls_now|intros startTime].
  apply (calls_bind 0 (DEEP_DIVE_MAX_SYNTHESIS_SOURCES env + 3));
    [lia|apply calls_queryOrThrow|intros job].
  apply calls_after_query. intros d.
  pose proof (firstn_le_length (DEEP_DIVE_MAX_SYNTHESIS_SOURCES env)
                (filter hasText (sourcesWith d j ok))) as Hcap.
  destruct (firstn _ _) as [|s0 srcs].
  { eapply calls_weaken; [|apply calls_createMinimal]. lia. }
  set (n := List.length (s0 :: srcs)) in *.
  apply calls_weaken with (n := n + 3); [lia|].
  apply (calls_bind 0 (n + 3)); [lia|apply calls_query|intros topic].
  apply (calls_bind (n + 2) 1); [lia| |intros generated].
  { apply (calls_try (n + 2) 0); [lia| |apply calls_ret].
    apply (calls_bind 1 (n + 1)); [lia| |intros direct].
    - destruct (match synthesis (fromJson (job_state job)) with
                | Some s => strategy s
                | None => deep_research
                end); [|eapply calls_weaken; [|apply calls_ret]; lia].
      apply (calls_bind 0 1); [lia|apply calls_hasTime|intros more].
      destruct more; [apply calls_chat|].
      eapply calls_weaken; [|apply calls_ret]; lia.
    - destruct (noText direct);
        [|eapply calls_weaken; [|apply calls_ret]; lia].
      apply (calls_bind 0 (n + 1)); [lia|apply calls_hasTime|intros more].
      destruct more; [apply calls_mapReduce|].
      eapply calls_weaken; [|apply calls_ret]; lia. }
  apply (calls_bind 1 0); [lia| |intros markdown; apply calls_exec].
  match goal with
  | |- context [if ?c then _ else _] => destruct c
  end; [|eapply calls_weaken; [|apply calls_ret]; lia].
  apply (calls_bind 0 1); [lia|apply calls_hasTime|intros more].
  destruct more; [|eapply calls_weaken; [|apply calls_ret]; lia].
  apply (calls_bind 0 1); [lia|apply calls_exec|intros _].
  apply (calls_bind 1 0); [lia|apply calls_chat|intros retryMarkdown].
  destruct (truthy retryMarkdown); [|apply calls_ret].
  match goal with
  | |- context [if ?c then _ else _] => destruct c
  end; apply calls_ret.
Qed.

Lemma calls_dispatch j maxDuration startTime state :
  callsAtMost (match stage state with
               | Some SYNTHESIZE => DEEP_DIVE_MAX_SYNTHESIS_SOURCES env + 3
               | _ => 0
               end)
              (dispatch env j maxDuration startTime state).
Proof.
  unfold dispatch.
  eapply calls_bind with (n1 := 0); [|apply calls_now|intros t];
    [simpl; apply Nat.le_refl|].
  destruct (stage state) as [[]|].
  - apply calls_none. intros L. apply discover_winv.
    + apply quiet_tick.
    + apply quiet_job.
    + intros urls w H. exact H.
  - apply calls_none. intros L. apply fetch_winv.
    + apply quiet_tick.
    + apply quiet_job.
    + intros id p w d _ H _. exact H.
  - apply calls_synthesize.
  - apply calls_none. intros L. apply quiet_publish.
  - apply calls_exec.
Qed.

Lemma calls_onStageError j newAttempt state :
  callsAtMost 0 (onStageError env j newAttempt state).
Proof.
  apply calls_none. intros L. apply onStageError_winv.
  - apply quiet_tick.
  - apply quiet_job.
  - apply quiet_publish.
Qed.

End Calls.

Lemma calls_step env j maxDuration :
  callsAtMost (DEEP_DIVE_MAX_SYNTHESIS_SOURCES env + 3)
              (deepDiveStep env j maxDuration).
Proof.
  unfold deepDiveStep.
  apply (calls_bind 0 (DEEP_DIVE_MAX_SYNTHESIS_SOURCES env + 3)); [lia| |].
  - intros w. exists []. rewrite app_nil_r.
    split; [exact (proj1 (enterStep_spec env j w))|simpl; lia].
  - intros [[[job st] na]|];
      [|eapply calls_weaken; [|apply calls_ret]; lia].
    apply (calls_try (DEEP_DIVE_MAX_SYNTHESIS_SOURCES env + 3) 0); [lia| |].
    + eapply calls_weaken; [|apply calls_dispatch].
      destruct (stage _) as [[]|]; lia.
    + apply calls_onStageError.
Qed.

(** [X23]. The generation budget of a step. A step calls the generation
    service only when the stage it reads is SYNTHESIZE, and then at most
    [DEEP_DIVE_MAX_SYNTHESIS_SOURCES + 3] times: one direct call, one
    summary per source and one reduce call, and one strict retry. The head
    of the step, discovery, the fetch batch, the publisher and the [catch]
    block, abort path included, make none; and no step removes a call from
    the log. *)
Theorem step_generation_budget :
  forall env j maxDuration w,
    let w' := snd (deepDiveStep env j maxDuration w) in
    exists calls,
      llmLog w' = llmLog w ++ calls
      /\ List.length calls <= DEEP_DIVE_MAX_SYNTHESIS_SOURCES env + 3
      /\ (stageOfJob (db w) j <> Some SYNTHESIZE -> calls = []).
Proof.
  intros env j maxDuration w w'. subst w'.
  destruct (enterStep_spec env j w) as [Hl [_ Hspec]].
  unfold deepDiveStep, bind.
  destruct (enterStep env j w) as [[[[[job st] na]|]|] w1] eqn:He;
    cbn [fst snd] in *.
  - destruct Hspec as [Hjob _].
    pose proof (calls_try _ 0 _ _ _ (Nat.le_refl _)
                  (calls_dispatch env j maxDuration st
                     (fromJson (job_state job)))
                  (calls_onStageError env j na (fromJson (job_state job)))
                  w1) as [calls [H1 H2]].
    exists calls. rewrite H1, Hl. split; [reflexivity|].
    assert (Hstage : stageOfJob (db w) j = stage (fromJson (job_state job)))
      by (unfold stageOfJob; rewrite Hjob; reflexivity).
    rewrite Hstage.
    destruct (stage (fromJson (job_state job))) as [[]|];
      simpl in H2; (split; [lia|]); intros Hne;
      try (destruct calls; [reflexivity|simpl in H2; lia]).
    contradiction.
  - exists []. rewrite app_nil_r. cbn [ret snd].
    split; [exact Hl|]. split; [simpl; lia|reflexivity].
  - exists []. rewrite app_nil_r.
    split; [exact Hl|]. split; [simpl; lia|reflexivity].
Qed.

(* ===================================================================== *)
(** * The callers: the advance job and the daily tick                     *)
(* ===================================================================== *)

Lemma inv_of_run {A} (J : DB -> Prop) (m : M A) :
  (forall w, J (db w) -> J (db (snd (m w)))) -> inv J m.
Proof.
  intros H w Hw. specialize (H w Hw). unfold wp.
  destruct (m w) as [[a|] w']; exact H.
Qed.

Lemma winv_of_run {A} (I : World -> Prop) (m : M A) :
  (forall w, I w -> I (snd (m w))) -> winv I m.
Proof.
  intros H w Hw. specialize (H w Hw). unfold wp.
  destruct (m w) as [[a|] w']; exact H.
Qed.

(** What every step keeps, and the scheduler, the callers keep. *)
Section TickFrames.

Variable env : Env.
Variable I : World -> Prop.
Hypothesis I_tick : forall w, I w -> I (advance w).
Hypothesis I_step : forall j maxDuration,
  winv I (deepDiveStep env j maxDuration).

Lemma advanceOne_winv maxDuration startTime job advanced :
  winv I (advanceOne env maxDuration startTime job advanced).
Proof.
  unfold advanceOne.
  apply winv_bind; [apply winv_hasTime; exact I_tick|intros more].
  destruct (negb more); [apply winv_ret|].
  apply winv_bind.
  { destruct (Status_eqb _ _); [|apply winv_ret].
    apply winv_bind; [apply winv_query; exact I_tick|intros report].
    apply winv_ret. }
  intros done. destruct done; [apply winv_ret|].
  apply winv_bind; [apply winv_now; exact I_tick|intros t].
  apply winv_try; [|apply winv_ret].
  apply winv_bind; [apply I_step|intros _; apply winv_ret].
Qed.

Lemma advance_winv maxJobs maxDuration startTime :
  winv I (advanceDeepDiveJobs env maxJobs maxDuration startTime).
Proof.
  unfold advanceDeepDiveJobs.
  apply winv_bind; [apply winv_query; exact I_tick|intros jobs].
  destruct jobs as [|job jobs]; [apply winv_ret|].
  apply winv_forBreak. intros x s. apply advanceOne_winv.
Qed.

Hypothesis I_schedule : winv I (scheduleDeepDives env).

Lemma tick_winv deepResearchEnabled maxJobs :
  winv I (runDailyTick env deepResearchEnabled maxJobs).
Proof.
  unfold runDailyTick.
  apply winv_bind; [apply winv_now; exact I_tick|intros startTime].
  apply winv_bind.
  2:{ intros done. apply winv_bind; [apply winv_now; exact I_tick|].
      intros finish. apply winv_ret. }
  apply winv_try; [|apply winv_ret].
  do 3 (apply winv_bind; [apply winv_hasTime; exact I_tick|intros _]).
  destruct deepResearchEnabled; [|apply winv_ret].
  apply winv_bind; [apply winv_hasTime; exact I_tick|intros more].
  destruct more; [|apply winv_ret].
  apply winv_bind; [apply I_schedule|intros _].
  apply winv_bind; [apply winv_hasTime; exact I_tick|intros again].
  destruct again; [|apply winv_ret].
  apply winv_bind; [apply advance_winv|intros advanced; apply winv_ret].
Qed.

End TickFrames.

(** The same for a property of the database. *)
Lemma tick_keeps env (J : DB -> Prop) deepResearchEnabled maxJobs :
  inv J (scheduleDeepDives env) ->
  (forall j maxDuration, inv J (deepDiveStep env j maxDuration)) ->
  inv J (runDailyTick env deepResearchEnabled maxJobs).
Proof.
  intros Hs Hstep. apply winv_inv. apply tick_winv.
  - intros w H. exact H.
  - intros j maxDuration. apply winv_inv. apply Hstep.
  - apply winv_inv. exact Hs.
Qed.

Lemma advance_keeps env (J : DB -> Prop) maxJobs maxDuration startTime :
  (forall j m, inv J (deepDiveStep env j m)) ->
  inv J (advanceDeepDiveJobs env maxJobs maxDuration startTime).
Proof.
  intros Hstep. apply winv_inv. apply advance_winv.
  - intros w H. exact H.
  - intros j m. apply winv_inv. apply Hstep.
Qed.

(** The scheduler, over whole worlds: it only reads, and adds job rows. *)
Lemma schedule_winv env (I : World -> Prop) :
  (forall w, I w -> I (advance w)) ->
  (forall u wk topic at_ w,
     I w -> I (withDb w (createJob u wk topic at_ (db w)))) ->
  winv I (scheduleDeepDives env).
Proof.
  intros I_tick I_create.
  assert (Hsel : forall userId topics,
            winv I (selectTopicForUser env userId topics)).
  { intros userId topics. unfold selectTopicForUser.
    destruct topics as [|t1 [|t2 rest]]; try apply winv_ret.
    apply winv_bind; [apply winv_query; exact I_tick|intros recent].
    destruct (find _ _); apply winv_ret. }
  assert (Hone : forall u c created, winv I (scheduleOne env u c created)).
  { intros u c created. unfold scheduleOne.
    destruct (user_deepDiveTopics u) as [|t0 ts]; [apply winv_ret|].
    apply winv_bind; [apply winv_now; exact I_tick|intros t].
    destruct (localDate env t (user_timezone u)) as [today|];
      [|apply winv_throw].
    destruct (negb _); [apply winv_ret|].
    apply winv_try; [|apply winv_ret].
    apply winv_bind; [apply winv_query; exact I_tick|intros existing].
    destruct existing; [apply winv_ret|].
    apply winv_bind; [apply Hsel|].
    intros topicId. destruct topicId as [topic|]; [|apply winv_ret].
    apply winv_bind; [|intros _; apply winv_ret].
    apply winv_insert; [exact I_tick|].
    intros n w Hw. apply I_create. exact Hw. }
  unfold scheduleDeepDives.
  apply winv_bind; [apply winv_query; exact I_tick|intros configs].
  assert (Hall : forall created, winv I (scheduleAll env configs created)).
  { induction configs as [|[u c] configs IH]; intros created; simpl.
    - apply winv_ret.
    - apply winv_bind; [apply Hone|intros created'; apply IH]. }
  apply Hall.
Qed.

(** ** What the callers return *)

Lemma returns_ret {A} (a : A) : returns (ret a).
Proof. intros w. exists a, w. reflexivity. Qed.

Lemma returns_bind {A B} (m : M A) (k : A -> M B) :
  returns m -> (forall a, returns (k a)) -> returns (bind m k).
Proof.
  intros Hm Hk w. destruct (Hm w) as [a [w1 H1]].
  destruct (Hk a w1) as [b [w2 H2]]. exists b, w2.
  unfold bind. rewrite H1. exact H2.
Qed.

(** A [try] whose [catch] block only gives a value always returns. *)
Lemma returns_try {A} (m : M A) (a : A) : returns (try_catch m (ret a)).
Proof.
  intros w. unfold try_catch. destruct (m w) as [[b|] w1].
  - exists b, w1. reflexivity.
  - exists a, w1. reflexivity.
Qed.

Lemma returns_now env : returns (now env).
Proof. intros w. eexists _, _. reflexivity. Qed.

Lemma returns_hasTime env a b c : returns (hasTimeRemaining env a b c).
Proof. intros w. eexists _, _. reflexivity. Qed.

Lemma returns_forBreak {A S} (xs : list A) (body : A -> S -> M (S * bool))
  (ok : A -> Prop) :
  (forall x s, ok x -> returns (body x s)) ->
  Forall ok xs -> forall s, returns (forBreak xs body s).
Proof.
  intros Hb Hxs. induction Hxs as [|x xs Hx _ IH]; intros s; simpl.
  - apply returns_ret.
  - apply returns_bind; [apply Hb; exact Hx|].
    intros [s' more]; simpl. destruct more; [apply IH|apply returns_ret].
Qed.

Lemma yields_ret {A} (R : A -> Prop) (a : A) : R a -> yields R (ret a).
Proof. intros H w b w' E. injection E as E _. subst b. exact H. Qed.

Lemma yields_bind {A B} (R : B -> Prop) (m : M A) (k : A -> M B) :
  (forall a, yields R (k a)) -> yields R (bind m k).
Proof.
  intros Hk w b w' E. unfold bind in E.
  destruct (m w) as [[a|] w1]; [|discriminate].
  exact (Hk a w1 b w' E).
Qed.

Lemma yields_try {A} (R : A -> Prop) (m h : M A) :
  yields R m -> yields R h -> yields R (try_catch m h).
Proof.
  intros Hm Hh w b w' E. unfold try_catch in E.
  destruct (m w) as [[a|] w1] eqn:Em.
  - injection E as E1 E2. subst. exact (Hm w b w' Em).
  - exact (Hh w1 b w' E).
Qed.

(** A loop that counts: each turn adds one at most. *)
Lemma yields_count {A} (xs : list A) (body : A -> nat -> M (nat * bool)) :
  (forall x s, yields (fun r => fst r <= S s) (body x s)) ->
  forall s, yields (fun n => n <= s + List.length xs) (forBreak xs body s).
Proof.
  intros Hb. induction xs as [|x xs IH]; intros s; simpl.
  - apply yields_ret. lia.
  - intros w n w' E. unfold bind in E.
    destruct (body x s w) as [[[s' more]|] w1] eqn:Eb; [|discriminate].
    pose proof (Hb x s w _ _ Eb) as Hs. simpl in Hs, E.
    destruct more.
    + pose proof (IH s' w1 n w' E). simpl in *. lia.
    + injection E as E _. subst n. lia.
Qed.

Lemma insertJob_length x l :
  List.length (insertJob x l) = S (List.length l).
Proof.
  induction l as [|y l IH]; simpl; [reflexivity|].
  destruct (jobLe x y); simpl; [reflexivity|]. rewrite IH. reflexivity.
Qed.

Lemma jobsToAdvance_bound maxJobs d :
  List.length (jobsToAdvance maxJobs d) <= maxJobs
  /\ List.length (jobsToAdvance maxJobs d)
     <= List.length (filter (fun j => advancing (job_status j))
                            (deepDiveJob d)).
Proof.
  unfold jobsToAdvance. split; [apply firstn_le_length|].
  rewrite length_firstn.
  assert (E : forall l, List.length (fold_right insertJob [] l)
                        = List.length l).
  { induction l as [|x l IH]; simpl; [reflexivity|].
    rewrite insertJob_length, IH. reflexivity. }
  rewrite E. apply Nat.le_min_r.
Qed.

Lemma advanceOne_counts env maxDuration startTime job advanced :
  yields (fun r => fst r <= S advanced)
         (advanceOne env maxDuration startTime job advanced).
Proof.
  unfold advanceOne. apply yields_bind. intros more.
  destruct (negb more); [apply yields_ret; simpl; lia|].
  apply yields_bind. intros done.
  destruct done; [apply yields_ret; simpl; lia|].
  apply yields_bind. intros t.
  apply yields_try; [|apply yields_ret; simpl; lia].
  apply yields_bind. intros _. apply yields_ret. simpl. lia.
Qed.

Lemma advance_counts env maxJobs maxDuration startTime w n w' :
  advanceDeepDiveJobs env maxJobs maxDuration startTime w
    = (Returned n, w') ->
  n <= List.length (jobsToAdvance maxJobs (db w)).
Proof.
  unfold advanceDeepDiveJobs. cbv beta delta [bind query call ask].
  destruct (faults env (tick w)); [discriminate|].
  cbn [db advance].
  destruct (jobsToAdvance maxJobs (db w)) as [|job jobs] eqn:Ej.
  - intros E. injection E as E _. subst n. simpl. lia.
  - intros E.
    exact (yields_count (job :: jobs) _
             (advanceOne_counts env maxDuration startTime) 0 _ _ _ E).
Qed.

Lemma advanceOne_returns env maxDuration startTime job advanced :
  job_status job <> partial ->
  returns (advanceOne env maxDuration startTime job advanced).
Proof.
  intros Hs. unfold advanceOne.
  apply returns_bind; [apply returns_hasTime|intros more].
  destruct (negb more); [apply returns_ret|].
  assert (E : Status_eqb (job_status job) partial = false)
    by (destruct (job_status job); try reflexivity; contradiction).
  rewrite E. apply returns_bind; [apply returns_ret|intros done].
  destruct done; [apply returns_ret|].
  apply returns_bind; [apply returns_now|intros t].
  apply returns_try.
Qed.

(** [X24]. The advance job. What it returns counts the steps that
    returned: it is at most [maxJobs] and at most the number of jobs that
    were queued, running or partial when it started. And no failure inside
    a step makes it fail: when its first query goes through and none of the
    jobs it lists is partial (for those it looks up the report, outside
    any [try]), it returns, whatever the database, the network and the
    generation service do during the steps. *)
Theorem advance_job_bounds :
  forall env maxJobs maxDuration startTime w,
    (forall n w',
        advanceDeepDiveJobs env maxJobs maxDuration startTime w
          = (Returned n, w') ->
        n <= maxJobs
        /\ n <= List.length (filter (fun j => advancing (job_status j))
                                    (deepDiveJob (db w))))
    /\ (faults env (tick w) = false ->
        Forall (fun job => job_status job <> partial)
               (jobsToAdvance maxJobs (db w)) ->
        exists n w',
          advanceDeepDiveJobs env maxJobs maxDuration startTime w
            = (Returned n, w')).
Proof.
  intros env maxJobs maxDuration startTime w. split.
  - intros n w' E. pose proof (advance_counts _ _ _ _ _ _ _ E) as Hn.
    destruct (jobsToAdvance_bound maxJobs (db w)) as [H1 H2]. lia.
  - intros Hf Hall. unfold advanceDeepDiveJobs.
    cbv beta delta [bind query call ask]. rewrite Hf. cbn [db advance].
    destruct (jobsToAdvance maxJobs (db w)) as [|job jobs].
    + eexists _, _. reflexivity.
    + apply (returns_forBreak (job :: jobs) _
               (fun job => job_status job <> partial)); [|exact Hall].
      intros x s Hx. apply advanceOne_returns. exact Hx.
Qed.

Lemma advance_job_bounds_witness :
  exists n w',
    advanceDeepDiveJobs brokenEnv 3 55000 0 newWorld = (Returned n, w')
    /\ n <= 3.
Proof.
  destruct (proj2 (advance_job_bounds brokenEnv 3 55000%Z 0%Z newWorld)
              eq_refl)
    as [n [w' E]].
  { repeat constructor; discriminate. }
  exists n, w'. split; [exact E|].
  exact (proj1 (proj1 (advance_job_bounds brokenEnv 3 55000%Z 0%Z newWorld)
                  n w' E)).
Defined.


(** ** What the daily tick keeps *)

Lemma touches_weeks j d d' u wk :
  touches j d d' ->
  List.length (jobsOfWeek d' u wk) = List.length (jobsOfWeek d u wk).
Proof.
  intros [HJ _]. unfold jobsOfWeek.
  induction HJ as [|r r' l l' Hr _ IH]; [reflexivity|].
  simpl. destruct Hr as [_ [Hu [Hw _]]]. rewrite Hu, Hw.
  destruct (N.eqb (job_userId r) u && (job_runWeek r =? wk)%Z); simpl;
    rewrite IH; reflexivity.
Qed.

Lemma step_oneJobOfWeek env j maxDuration u wk :
  inv (oneJobOfWeek u wk) (deepDiveStep env j maxDuration).
Proof.
  apply inv_of_run. intros w H. unfold oneJobOfWeek in *.
  rewrite (touches_weeks j _ _ u wk (step_touched env j maxDuration w)).
  exact H.
Qed.

Lemma find_app_some {A} (p : A -> bool) l l' x :
  find p l = Some x -> find p (l ++ l') = Some x.
Proof.
  induction l as [|y l IH]; simpl; [discriminate|].
  destruct (p y); auto.
Qed.

Lemma findJob_createJob d j row u wk topic at_ :
  findJob d j = Some row -> findJob (createJob u wk topic at_ d) j = Some row.
Proof. unfold findJob; simpl. apply find_app_some. Qed.

Lemma schedule_atMostOne env j : inv (atMostOne j) (scheduleDeepDives env).
Proof. apply schedule_inv. intros d u0 wk0 topic at_ _ H. exact H. Qed.

Lemma schedule_atLeast env k j : inv (atLeast k j) (scheduleDeepDives env).
Proof.
  apply schedule_inv. intros d u0 wk0 topic at_ _ [s [Hs Hk]].
  exists s. split; [|exact Hk]. unfold stageOfJob in *.
  destruct (findJob d j) as [row|] eqn:Hrow; [|discriminate].
  rewrite (findJob_createJob _ _ _ _ _ _ _ Hrow). exact Hs.
Qed.

Lemma schedule_oneJobOfWeek env u wk :
  inv (oneJobOfWeek u wk) (scheduleDeepDives env).
Proof.
  apply schedule_inv. intros d u0 wk0 topic at_ Hnone H.
  apply createJob_oneJobOfWeek; assumption.
Qed.

Lemma schedule_finished env j row (R : list ReportRow) :
  inv (fun d => findJob d j = Some row /\ reportsOf d j = R)
      (scheduleDeepDives env).
Proof.
  apply schedule_inv. intros d u0 wk0 topic at_ _ [Hrow HR].
  split; [apply findJob_createJob; exact Hrow|exact HR].
Qed.

(** [X26]. One daily tick, scheduling and advancing together, under
    whatever environment and configuration, whether its [try] block goes
    through or not: a job that has at most one report keeps at most one; a
    user who has at most one job for a week keeps at most one; no job goes
    back to an earlier stage; and a job that is complete, aborted or failed
    keeps its row and its reports as they are. *)
Theorem daily_tick_keeps_the_invariants :
  forall env deepResearchEnabled maxJobs w,
    let w' := snd (runDailyTick env deepResearchEnabled maxJobs w) in
    (forall j,
        List.length (reportsOf (db w) j) <= 1 ->
        List.length (reportsOf (db w') j) <= 1)
    /\ (forall u wk,
          List.length (jobsOfWeek (db w) u wk) <= 1 ->
          List.length (jobsOfWeek (db w') u wk) <= 1)
    /\ (forall j s,
          stageOfJob (db w) j = Some s ->
          exists s', stageOfJob (db w') j = Some s'
                     /\ stage_rank s <= stage_rank s')
    /\ (forall j row,
          findJob (db w) j = Some row ->
          hardTerminal (job_status row) = true ->
          findJob (db w') j = Some row
          /\ reportsOf (db w') j = reportsOf (db w) j).
Proof.
  intros env flag maxJobs w w'. subst w'.
  split; [|split; [|split]].
  - intros j H.
    apply (inv_run (atMostOne j) (runDailyTick env flag maxJobs) w);
      [|exact H].
    apply tick_keeps; [apply schedule_atMostOne|].
    intros j0 m. apply step_atMostOne.
  - intros u wk H.
    apply (inv_run (oneJobOfWeek u wk) (runDailyTick env flag maxJobs) w);
      [|exact H].
    apply tick_keeps; [apply schedule_oneJobOfWeek|].
    intros j0 m. apply step_oneJobOfWeek.
  - intros j s Hs.
    apply (inv_run (atLeast (stage_rank s) j)
             (runDailyTick env flag maxJobs) w).
    + apply tick_keeps; [apply schedule_atLeast|].
      intros j0 m. apply step_atLeast.
    + exists s. split; [exact Hs|apply Nat.le_refl].
  - intros j row Hrow Hterm.
    apply (inv_run (fun d => findJob d j = Some row
                             /\ reportsOf d j = reportsOf (db w) j)
             (runDailyTick env flag maxJobs) w); [|auto].
    apply tick_keeps; [apply schedule_finished|].
    intros j0 m. apply inv_of_run. intros w0 H.
    apply step_leaves_finished; assumption.
Qed.

Lemma daily_tick_keeps_the_invariants_witness :
  List.length
    (jobsOfWeek (db (snd (runDailyTick quietEnv true 3 tickWorld))) 7 (-3))
  <= 1.
Proof.
  apply (proj1 (proj2 (daily_tick_keeps_the_invariants quietEnv true 3
                         tickWorld)) 7%N (-3)%Z).
  vm_compute. apply Nat.le_0_l.
Defined.

(** ** What the daily tick spends *)

Lemma calls_forBreak {A S} n (xs : list A) (body : A -> S -> M (S * bool)) :
  (forall x s, callsAtMost n (body x s)) ->
  forall s, callsAtMost (List.length xs * n) (forBreak xs body s).
Proof.
  intros Hb. induction xs as [|x xs IH]; intros s; simpl.
  - apply calls_ret.
  - apply (calls_bind n (List.length xs * n)); [lia|apply Hb|].
    intros [s' more]; simpl. destruct more; [apply IH|].
    eapply calls_weaken; [|apply calls_ret]. lia.
Qed.

Lemma calls_advanceOne env maxDuration startTime job advanced :
  callsAtMost (DEEP_DIVE_MAX_SYNTHESIS_SOURCES env + 3)
              (advanceOne env maxDuration startTime job advanced).
Proof.
  set (n := DEEP_DIVE_MAX_SYNTHESIS_SOURCES env + 3).
  assert (Hret : forall (r : nat * bool), callsAtMost n (ret r))
    by (intros r; eapply calls_weaken; [|apply calls_ret]; lia).
  unfold advanceOne.
  apply (calls_bind 0 n); [lia|apply calls_hasTime|intros more].
  destruct (negb more); [apply Hret|].
  apply (calls_bind 0 n); [lia| |intros done].
  { destruct (Status_eqb _ _); [|apply calls_ret].
    apply (calls_bind 0 0); [lia|apply calls_query|intros report].
    apply calls_ret. }
  destruct done; [apply Hret|].
  apply (calls_bind 0 n); [lia|apply calls_now|intros t].
  apply (calls_try n 0); [lia| |apply calls_ret].
  apply (calls_bind n 0); [lia|apply calls_step|intros _; apply calls_ret].
Qed.

Lemma calls_advance env maxJobs maxDuration startTime :
  callsAtMost (maxJobs * (DEEP_DIVE_MAX_SYNTHESIS_SOURCES env + 3))
              (advanceDeepDiveJobs env maxJobs maxDuration startTime).
Proof.
  unfold advanceDeepDiveJobs. apply calls_after_query. intros d.
  destruct (jobsToAdvance_bound maxJobs d) as [Hle _].
  destruct (jobsToAdvance maxJobs d) as [|job jobs];
    [eapply calls_weaken; [|apply calls_ret]; lia|].
  eapply calls_weaken; [|apply calls_forBreak; intros x s;
                          apply calls_advanceOne].
  apply Nat.mul_le_mono_r. exact Hle.
Qed.

Lemma calls_schedule env : callsAtMost 0 (scheduleDeepDives env).
Proof.
  apply calls_none. intros L. apply schedule_winv.
  - intros w H. exact H.
  - intros u wk topic at_ w H. exact H.
Qed.

Lemma calls_tick env deepResearchEnabled maxJobs :
  callsAtMost (maxJobs * (DEEP_DIVE_MAX_SYNTHESIS_SOURCES env + 3))
              (runDailyTick env deepResearchEnabled maxJobs).
Proof.
  set (n := maxJobs * (DEEP_DIVE_MAX_SYNTHESIS_SOURCES env + 3)).
  assert (Hret : forall (r : bool * nat), callsAtMost n (ret r))
    by (intros r; eapply calls_weaken; [|apply calls_ret]; lia).
  unfold runDailyTick.
  apply (calls_bind 0 n); [lia|apply calls_now|intros startTime].
  apply (calls_bind n 0); [lia| |].
  2:{ intros done. apply (calls_bind 0 0); [lia|apply calls_now|].
      intros finish. apply calls_ret. }
  apply (calls_try n 0); [lia| |apply calls_ret].
  do 3 (apply (calls_bind 0 n); [lia|apply calls_hasTime|intros _]).
  destruct deepResearchEnabled; [|apply Hret].
  apply (calls_bind 0 n); [lia|apply calls_hasTime|intros more].
  destruct more; [|apply Hret].
  apply (calls_bind 0 n); [lia|apply calls_schedule|intros _].
  apply (calls_bind 0 n); [lia|apply calls_hasTime|intros again].
  destruct again; [|apply Hret].
  apply (calls_bind n 0); [lia|apply calls_advance|].
  intros advanced. apply calls_ret.
Qed.

Lemma accounting_schedule env w0 :
  winv (accounted w0) (scheduleDeepDives env).
Proof.
  apply schedule_winv.
  - intros w H. exact H.
  - intros u wk topic at_ w H. apply accounted_db; [reflexivity|exact H].
Qed.

(** [X27]. What one daily tick can spend, under whatever environment:
    at most [maxJobs * (DEEP_DIVE_MAX_SYNTHESIS_SOURCES + 3)] calls to the
    generation service; and no more mails than it creates reports, mails
    and reports being only ever added. *)
Theorem daily_tick_budget :
  forall env deepResearchEnabled maxJobs w,
    let w' := snd (runDailyTick env deepResearchEnabled maxJobs w) in
    (exists calls,
        llmLog w' = llmLog w ++ calls
        /\ List.length calls
           <= maxJobs * (DEEP_DIVE_MAX_SYNTHESIS_SOURCES env + 3))
    /\ exists mails reports,
         outbox w' = outbox w ++ mails
         /\ deepDiveReport (db w') = deepDiveReport (db w) ++ reports
         /\ List.length mails <= List.length reports.
Proof.
  intros env flag maxJobs w w'. subst w'. split.
  - exact (calls_tick env flag maxJobs w).
  - apply (winv_run (accounted w) (runDailyTick env flag maxJobs) w);
      [|apply accounted_refl].
    apply tick_winv.
    + intros w0 H. exact H.
    + intros j m. apply accounting_step.
    + apply accounting_schedule.
Qed.

(* ===================================================================== *)
(** * The scheduler: what it creates                                      *)
(* ===================================================================== *)

Lemma getMondayOfWeek_monday e : utcDay (getMondayOfWeek e) = 1%Z.
Proof.
  unfold getMondayOfWeek. pose proof (utcDay_range e) as Hr.
  destruct (utcDay e =? 0)%Z eqn:H0.
  - apply Z.eqb_eq in H0. rewrite utcDay_shift, H0. reflexivity.
  - rewrite utcDay_shift.
    replace (utcDay e + (1 - utcDay e))%Z with 1%Z by lia. reflexivity.
Qed.

Lemma idIn_In x l : idIn x l = true -> In x l.
Proof.
  unfold idIn. rewrite existsb_exists. intros [y [Hy E]].
  apply N.eqb_eq in E. subst y. exact Hy.
Qed.

Lemma insertNewest_Forall (P : JobRow -> Prop) x l :
  P x -> Forall P l -> Forall P (insertNewest x l).
Proof.
  intros Hx Hl. induction Hl as [|y l Hy Hl IH]; simpl.
  - constructor; [exact Hx|constructor].
  - destruct (job_createdAt y <=? job_createdAt x)%Z.
    + constructor; [exact Hx|]. constructor; assumption.
    + constructor; assumption.
Qed.

Lemma newestFirst_Forall (P : JobRow -> Prop) l :
  Forall P l -> Forall P (newestFirst l).
Proof.
  unfold newestFirst. intros H. induction H as [|x l Hx _ IH]; simpl.
  - constructor.
  - apply insertNewest_Forall; assumption.
Qed.

Lemma Forall_firstn {A} (P : A -> Prop) n l :
  Forall P l -> Forall P (firstn n l).
Proof.
  intros H. revert n. induction H as [|x l Hx _ IH]; intros [|n]; simpl;
    constructor; auto.
Qed.

Lemma last_In {A} (l : list A) (d : A) : l <> [] -> In (last l d) l.
Proof.
  induction l as [|x l IH]; [contradiction|]. intros _.
  destruct l as [|y l]; [left; reflexivity|].
  right. apply IH. discriminate.
Qed.

(** The topic chosen for a user is one of the user's topics. *)
Lemma selectTopic_member env userId topics w t w' :
  selectTopicForUser env userId topics w = (Returned (Some t), w') ->
  In t topics.
Proof.
  unfold selectTopicForUser.
  destruct topics as [|t1 [|t2 rest]].
  - intros E. discriminate E.
  - intros E. injection E as E _. subst t. left. reflexivity.
  - set (topics := t1 :: t2 :: rest).
    cbv beta delta [bind query call ask].
    destruct (faults env (tick w)); [discriminate|]. cbn [db advance].
    set (recent := map job_topicInterestId _).
    assert (Hrecent : Forall (fun x => In x topics) recent).
    { unfold recent. apply Forall_map. apply Forall_firstn.
      apply newestFirst_Forall. apply Forall_forall. intros x Hx.
      apply filter_In in Hx. destruct Hx as [_ Hx].
      apply andb_prop in Hx. apply idIn_In. exact (proj2 Hx). }
    destruct (find (fun t0 => negb (idIn t0 recent)) topics) as [t0|] eqn:Hf.
    + intros E. injection E as E _. subst t0.
      exact (proj1 (find_some _ _ Hf)).
    + intros E. injection E as E _. subst t.
      destruct recent as [|r0 recent']; [left; reflexivity|].
      rewrite Forall_forall in Hrecent. apply Hrecent.
      apply last_In. discriminate.
Qed.

Lemma findJobOfWeek_app d l u wk :
  find (fun j => N.eqb (job_userId j) u && (job_runWeek j =? wk)%Z)
       (deepDiveJob d ++ l) = None ->
  findJobOfWeek d u wk = None
  /\ ~ In (u, wk) (map weekKey l).
Proof.
  intros H. split.
  - unfold findJobOfWeek.
    destruct (find _ (deepDiveJob d)) as [x|] eqn:E; [|reflexivity].
    rewrite (find_app_some _ _ l _ E) in H. discriminate.
  - intros Hin. apply in_map_iff in Hin. destruct Hin as [x [Hk Hx]].
    pose proof (find_none _ _ H x (in_or_app _ _ _ (or_intror Hx))) as Hf.
    unfold weekKey in Hk. injection Hk as Hu Hw. subst u wk.
    cbv beta in Hf. rewrite N.eqb_refl, Z.eqb_refl in Hf. discriminate Hf.
Qed.

Lemma NoDup_snoc {A} (l : list A) (x : A) :
  NoDup l -> ~ In x l -> NoDup (l ++ [x]).
Proof.
  intros Hl Hx. induction Hl as [|y l Hy Hl IH]; simpl.
  - constructor; [intros []|constructor].
  - constructor.
    + intros Hin. apply in_app_or in Hin. destruct Hin as [Hin|[E|[]]].
      * contradiction.
      * subst y. apply Hx. left. reflexivity.
    + apply IH. intros Hin. apply Hx. right. exact Hin.
Qed.

Lemma scheduledFrom_later env d from upto upto' job :
  upto <= upto' ->
  scheduledFrom env d from upto job -> scheduledFrom env d from upto' job.
Proof.
  intros Hle [H1 [H2 [H3 [H4 [H5 [u [c [n [today [Hin [Hn Hrest]]]]]]]]]]].
  repeat (split; [assumption|]).
  exists u, c, n, today. split; [exact Hin|]. split; [lia|exact Hrest].
Qed.

(** Choosing the topic reads at most once and writes nothing. *)
Lemma selectTopic_world env userId topics w :
  snd (selectTopicForUser env userId topics w) = w
  \/ snd (selectTopicForUser env userId topics w) = advance w.
Proof.
  unfold selectTopicForUser.
  destruct topics as [|t1 [|t2 rest]]; [left; reflexivity..|].
  right. cbv beta delta [bind query call ask].
  destruct (faults env (tick w)); [reflexivity|]. cbn [db advance].
  destruct (find _ _); reflexivity.
Qed.

Section SchedulerOutcome.

Variable env : Env.
Variable w0 : World.

(** The world of a run that started in [w0], after [created] jobs have
    been added. *)
Let grown (created : nat) (w : World) : Prop :=
  tick w0 <= tick w
  /\ llmLog w = llmLog w0
  /\ outbox w = outbox w0
  /\ exists new,
       deepDiveJob (db w) = deepDiveJob (db w0) ++ new
       /\ List.length new = created
       /\ Forall (scheduledFrom env (db w0) (tick w0) (tick w)) new
       /\ NoDup (map weekKey new)
       /\ deepDiveSource (db w) = deepDiveSource (db w0)
       /\ deepDiveReport (db w) = deepDiveReport (db w0)
       /\ user (db w) = user (db w0).

Lemma grown_advance created w : grown created w -> grown created (advance w).
Proof.
  intros [Ht [Hl [Ho [new [H1 [H2 [H3 H4]]]]]]].
  split; [cbn; lia|]. split; [exact Hl|]. split; [exact Ho|].
  exists new. split; [exact H1|]. split; [exact H2|]. split; [|exact H4].
  apply Forall_forall. intros job Hjob. rewrite Forall_forall in H3.
  apply (scheduledFrom_later env _ _ (tick w)); [cbn; lia|auto].
Qed.

Lemma selectTopic_grown created userId topics w :
  grown created w ->
  wp (selectTopicForUser env userId topics)
     (fun r w' => grown created w' /\ db w' = db w /\ tick w <= tick w'
                  /\ forall t, r = Some t -> In t topics)
     (grown created) w.
Proof.
  intros Hw. unfold wp.
  pose proof (selectTopic_world env userId topics w) as Hworld.
  destruct (selectTopicForUser env userId topics w) as [[r|] w'] eqn:E;
    cbn [snd] in Hworld.
  - assert (Hg : grown created w' /\ db w' = db w /\ tick w <= tick w').
    { destruct Hworld as [Hs|Hs]; subst w'.
      - auto.
      - split; [apply grown_advance; exact Hw|]. split; [reflexivity|].
        cbn. lia. }
    destruct Hg as [H1 [H2 H3]]. repeat (split; [assumption|]).
    intros t Ht. subst r. exact (selectTopic_member _ _ _ _ _ _ E).
  - destruct Hworld as [Hs|Hs]; subst w';
      [exact Hw|apply grown_advance; exact Hw].
Qed.

(** The [try] block of one turn, for a date read at call [n]. *)
Lemma scheduleTry_grows u c created n today w :
  In (u, c) (enabledConfigs (db w0)) ->
  tick w0 <= n < tick w ->
  localDate env (clock env n) (user_timezone u) = Some today ->
  getDayOfWeek today = cfg_dayOfWeek c ->
  grown created w ->
  wp (existing <- query env (fun d => findJobOfWeek d (user_id u)
                                        (getMondayOfWeek today)) ;;
      match existing with
      | Some _ => ret created
      | None =>
          topicId <- selectTopicForUser env (user_id u)
                       (user_deepDiveTopics u) ;;
          match topicId with
          | None => ret created
          | Some topic =>
              insert env (fun n d =>
                            (tt, createJob (user_id u) (getMondayOfWeek today)
                                   topic (clock env n) d)) ;;;
              ret (S created)
          end
      end)
     (fun k w' => grown k w') (grown created) w.
Proof.
  intros Hin Hn Hdate Hday Hw.
  set (monday := getMondayOfWeek today).
  apply wp_seq with
    (Mid := fun existing w1 =>
              grown created w1
              /\ existing = findJobOfWeek (db w1) (user_id u) monday
              /\ n < tick w1).
  { apply wpf_query; [apply grown_advance; exact Hw|].
    split; [apply grown_advance; exact Hw|]. split; [reflexivity|].
    cbn. lia. }
  intros existing w1 [Hw1 [Hex Hn1]].
  destruct existing as [row|]; [apply wp_ret; exact Hw1|].
  apply wp_seq with
    (Mid := fun topicId w2 =>
              grown created w2
              /\ None = findJobOfWeek (db w2) (user_id u) monday
              /\ n < tick w2
              /\ forall t, topicId = Some t -> In t (user_deepDiveTopics u)).
  { eapply wp_conseq; [apply selectTopic_grown; exact Hw1| |auto].
    intros r w2 [Hg [Hdb [Hti Hr]]]. split; [exact Hg|].
    split; [rewrite Hdb; exact Hex|]. split; [lia|exact Hr]. }
  intros topicId w2 [Hw2 [Hnone [Hn2 Htopic]]].
  destruct topicId as [topic|]; [|apply wp_ret; exact Hw2].
  specialize (Htopic topic eq_refl).
  apply wp_seq with (Mid := fun _ w3 => grown (S created) w3);
    [|intros _ w3 H3; apply wp_ret; exact H3].
  apply wpf_insert; [apply grown_advance; exact Hw2|].
  cbn [fst snd].
  destruct Hw2 as [Ht [Hl [Ho [new [Hj [Hlen [Hall [Hnd [Hs [Hr Hu]]]]]]]]]].
  symmetry in Hnone. unfold findJobOfWeek in Hnone. rewrite Hj in Hnone.
  destruct (findJobOfWeek_app (db w0) new _ _ Hnone) as [Hfree Hfresh].
  split; [cbn; lia|]. split; [exact Hl|]. split; [exact Ho|].
  eexists (new ++ [_]).
  cbn [createJob deepDiveJob deepDiveSource deepDiveReport user db advance
       withDb tick].
  rewrite Hj, <- app_assoc.
  split; [reflexivity|].
  split; [rewrite length_app, Hlen; simpl; lia|].
  split.
  { apply Forall_app. split.
    - apply Forall_forall. intros job Hjob. rewrite Forall_forall in Hall.
      apply (scheduledFrom_later env _ _ (tick w2)); [lia|auto].
    - constructor; [|constructor].
      unfold scheduledFrom; cbn.
      repeat split; try reflexivity.
      + apply getMondayOfWeek_monday.
      + exact Hfree.
      + exists u, c, n, today. repeat split; auto; lia. }
  split.
  { rewrite map_app. simpl. apply NoDup_snoc; assumption. }
  auto.
Qed.

Lemma scheduleOne_grows u c created w :
  In (u, c) (enabledConfigs (db w0)) ->
  grown created w ->
  wp (scheduleOne env u c created) (fun k w' => grown k w') (fun _ => True) w.
Proof.
  intros Hin Hw. unfold scheduleOne.
  destruct (user_deepDiveTopics u) as [|t0 ts] eqn:Htopics;
    [apply wp_ret; exact Hw|].
  rewrite <- Htopics.
  apply wp_bind. apply wp_now.
  destruct (localDate env (clock env (tick w)) (user_timezone u))
    as [today|] eqn:Hdate; [|exact Logic.I].
  destruct (negb (str_eqb (getDayOfWeek today) (cfg_dayOfWeek c))) eqn:Hday;
    [apply wp_ret; apply grown_advance; exact Hw|].
  apply negb_false_iff in Hday. apply str_eqb_eq in Hday.
  apply wp_try.
  eapply wp_conseq;
    [apply (scheduleTry_grows u c created (tick w) today (advance w));
       [exact Hin|destruct Hw as [Ht _]; cbn; lia|exact Hdate|exact Hday
       |apply grown_advance; exact Hw]
    |intros k w' H; exact H
    |intros w' Hw'; apply wp_ret; exact Hw'].
Qed.

Lemma scheduleAll_grows configs :
  (forall x, In x configs -> In x (enabledConfigs (db w0))) ->
  forall created w,
    grown created w ->
    wp (scheduleAll env configs created) (fun k w' => grown k w')
       (fun _ => True) w.
Proof.
  induction configs as [|[u c] configs IH]; intros Hin created w Hw;
    cbn [scheduleAll].
  - apply wp_ret. exact Hw.
  - apply wp_seq with (Mid := fun k w' => grown k w').
    + apply scheduleOne_grows; [apply Hin; left; reflexivity|exact Hw].
    + intros created' w' Hw'. apply IH; [|exact Hw'].
      intros x Hx. apply Hin. right. exact Hx.
Qed.

Lemma schedule_grows :
  wp (scheduleDeepDives env) (fun k w' => grown k w') (fun _ => True) w0.
Proof.
  unfold scheduleDeepDives.
  apply wp_seq with
    (Mid := fun configs w => grown 0 w /\ configs = enabledConfigs (db w0)).
  - apply wpf_query; [exact Logic.I|]. split; [|reflexivity].
    split; [cbn; lia|]. split; [reflexivity|]. split; [reflexivity|].
    exists []. cbn [db advance]. rewrite app_nil_r.
    repeat split; auto; constructor.
  - intros configs w [Hw Hc]. subst configs.
    apply scheduleAll_grows; auto.
Qed.

End SchedulerOutcome.

(** [X28]. What the scheduler leaves when it returns [n]: exactly [n] job
    rows have been added after the existing ones, and nothing else in the
    job, source, report and user tables has changed; no generation call
    was made and no mail sent. Each new job is queued, at DISCOVER, with
    no attempt; it belongs to a user with an enabled configuration whose
    day of the week is the current day in the time zone of the user, the
    current day being read off the clock at a call made during this run;
    its week is the Monday of that day's week, a week for which the user
    had no job before; its topic is one of the deep-dive topics of the
    user; and no two new jobs are for the same user and week. *)
Theorem scheduler_outcome :
  forall env w n w',
    scheduleDeepDives env w = (Returned n, w') ->
    exists new,
      deepDiveJob (db w') = deepDiveJob (db w) ++ new
      /\ List.length new = n
      /\ Forall (scheduledFrom env (db w) (tick w) (tick w')) new
      /\ NoDup (map weekKey new)
      /\ deepDiveSource (db w') = deepDiveSource (db w)
      /\ deepDiveReport (db w') = deepDiveReport (db w)
      /\ user (db w') = user (db w)
      /\ llmLog w' = llmLog w /\ outbox w' = outbox w.
Proof.
  intros env w n w' Hrun.
  pose proof (schedule_grows env w) as H.
  unfold wp in H. rewrite Hrun in H.
  destruct H as [_ [Hl [Ho [new [H1 [H2 [H3 [H4 [H5 [H6 H7]]]]]]]]]].
  exists new. repeat split; assumption.
Qed.

(** A Thursday on which the sample user has no job for the week: one job
    is created, for the Monday of the week, from the date read at the
    second call of the run. *)
Lemma scheduler_outcome_witness :
  exists new,
    deepDiveJob (db (snd (scheduleDeepDives quietEnv unscheduledWorld)))
    = deepDiveJob (db unscheduledWorld) ++ new
    /\ List.length new = 1
    /\ Forall (scheduledFrom quietEnv (db unscheduledWorld) 0
                 (tick (snd (scheduleDeepDives quietEnv unscheduledWorld))))
              new.
Proof.
  assert (Hrun : scheduleDeepDives quietEnv unscheduledWorld
                 = (Returned 1,
                    snd (scheduleDeepDives quietEnv unscheduledWorld)))
    by (vm_compute; reflexivity).
  destruct (scheduler_outcome quietEnv unscheduledWorld 1
              (snd (scheduleDeepDives quietEnv unscheduledWorld)) Hrun)
    as [new [H1 [H2 [H3 _]]]].
  exists new. split; [exact H1|]. split; [exact H2|exact H3].
Defined.

(* ===================================================================== *)
(** * Publishing through a step                                           *)
(* ===================================================================== *)

Lemma findReport_app_some d j r l :
  find (fun x => N.eqb (rep_jobId x) j) (deepDiveReport d) = None ->
  rep_jobId r = j ->
  find (fun x => N.eqb (rep_jobId x) j) (deepDiveReport d ++ r :: l)
  = Some r.
Proof.
  intros Hnone Hr. induction (deepDiveReport d) as [|x xs IH]; simpl in *.
  - rewrite Hr, N.eqb_refl. reflexivity.
  - destruct (N.eqb (rep_jobId x) j); [discriminate|]. apply IH. exact Hnone.
Qed.

(** [X29]. The status after a step that reads the stage PUBLISH and
    returns, for a job that is not finished. It is complete when the
    publisher returned with a report in place, also for a job that
    synthesis had marked partial: the head of the step has set the status
    to running before the publisher reads it. It is failed when the
    publisher returned for want of a draft. When the publisher threw it is
    queued below the attempt ceiling and is left running at the ceiling.
    It is never partial. *)
Theorem published_by_a_step_is_not_partial :
  forall env j maxDuration w w' row,
    findJob (db w) j = Some row ->
    hardTerminal (job_status row) = false ->
    stage (fromJson (job_state row)) = Some PUBLISH ->
    deepDiveStep env j maxDuration w = (Returned tt, w') ->
    exists row',
      findJob (db w') j = Some row'
      /\ job_status row' <> partial
      /\ ((job_status row' = complete /\ findReport (db w') j <> None)
          \/ (job_status row' = failed /\ draftOf row = None
              /\ findReport (db w') j = None)
          \/ (job_status row' = queued
              /\ (job_attempt row + 1 < MAX_ATTEMPTS)%Z)
          \/ (job_status row' = running
              /\ (MAX_ATTEMPTS <= job_attempt row + 1)%Z)).
Proof.
  intros env j maxDuration w w' row Hrow Hlive Hstage Hrun.
  destruct (enterStep_spec env j w) as [_ [_ Hspec]].
  unfold deepDiveStep, bind in Hrun.
  destruct (enterStep env j w) as [[[[[job st] na]|]|] w1] eqn:He;
    cbn [fst snd] in *; [| |discriminate].
  2:{ destruct Hspec as [_ [Hnone|[job [Hjob Hterm]]]]; congruence. }
  destruct Hspec as [Hjob [_ [Hna [stamp Hu]]]].
  assert (job = row) by congruence. subst job.
  set (row1 := applyPatch {| p_status := Some running; p_attempt := Some na;
                             p_state := None; p_updatedAt := Some stamp |}
                          row).
  assert (Hrow1 : findJob (db w1) j = Some row1).
  { rewrite (findJob_updateJob _ _ _ _ j Hu), N.eqb_refl, Hrow.
    reflexivity. }
  unfold try_catch, dispatch in Hrun. rewrite Hstage in Hrun.
  unfold bind at 1 in Hrun. unfold now at 1 in Hrun.
  pose proof (publish_effects env j (advance w1)) as Hpub. unfold wp in Hpub.
  cbn [db advance] in Hpub.
  destruct (publishReport env j (advance w1)) as [[[]|] wt].
  - (* the publisher returned *)
    injection Hrun as Hrun. subst wt.
    destruct Hpub as [_ [job [u [Hj [_ [Hrow' Hcase]]]]]].
    assert (job = row1) by congruence. subst job.
    exists (applyPatch (closingPatch j (db w1) row1) row1).
    split; [exact Hrow'|].
    assert (Hdraft : draftOf row1 = draftOf row) by reflexivity.
    unfold closingPatch in *. rewrite Hdraft in *.
    destruct (findReport (db w1) j) as [r|] eqn:Hrep.
    + split; [discriminate|]. left. split; [reflexivity|].
      destruct Hcase as [Hr _]. unfold findReport in *.
      rewrite Hr, Hrep. discriminate.
    + destruct (draftOf row) as [markdown|] eqn:Hd.
      * split; [discriminate|]. left. split; [reflexivity|].
        destruct Hcase as [html [_ Hr]]. unfold findReport in *.
        rewrite Hr,
          (findReport_app_some (db w1) j
             (newReport env j row1 markdown html (advance w1)) []
             Hrep eq_refl).
        discriminate.
      * split; [discriminate|]. right. left.
        split; [reflexivity|]. split; [reflexivity|].
        destruct Hcase as [Hr _]. unfold findReport in *.
        rewrite Hr. exact Hrep.
  - (* the publisher threw: the job table is as the head left it *)
    destruct Hpub as [_ Hjobs].
    assert (Hrowt : findJob (db wt) j = Some row1)
      by (unfold findJob in *; rewrite Hjobs; exact Hrow1).
    unfold onStageError in Hrun.
    destruct (MAX_ATTEMPTS <=? na)%Z eqn:Hmax.
    + apply Z.leb_le in Hmax.
      cbv beta delta [bind query call ask] in Hrun.
      destruct (faults env (tick wt)); [discriminate|].
      cbn [db advance] in Hrun. rewrite Hrowt in Hrun.
      change (stage (fromJson (job_state row1)))
        with (stage (fromJson (job_state row))) in Hrun.
      rewrite Hstage in Hrun. cbn in Hrun.
      injection Hrun as Hrun. subst w'. cbn [db].
      exists row1. split; [exact Hrowt|]. split; [discriminate|].
      right. right. right. split; [reflexivity|]. lia.
    + apply Z.leb_gt in Hmax.
      cbv beta delta [exec bind call ask] in Hrun.
      destruct (faults env (tick wt)); [discriminate|].
      cbn [db advance] in Hrun.
      destruct (updateJob j (patchStatus queued) (db wt)) as [d'|] eqn:Hq;
        [|discriminate].
      injection Hrun as Hrun. subst w'. cbn [db withDb].
      rewrite (findJob_updateJob _ _ _ _ j Hq), N.eqb_refl, Hrowt.
      eexists. split; [reflexivity|]. split; [discriminate|].
      right. right. left. split; [reflexivity|]. lia.
Qed.

Lemma published_by_a_step_is_not_partial_witness :
  exists row',
    findJob (db (snd (deepDiveStep quietEnv 2%N 50000%Z tickWorld))) 2%N
    = Some row'
    /\ job_status row' <> partial.
Proof.
  assert (Hrun : deepDiveStep quietEnv 2%N 50000%Z tickWorld
                 = (Returned tt,
                    snd (deepDiveStep quietEnv 2%N 50000%Z tickWorld)))
    by (vm_compute; reflexivity).
  destruct (published_by_a_step_is_not_partial quietEnv 2%N 50000%Z tickWorld
              (snd (deepDiveStep quietEnv 2%N 50000%Z tickWorld))
              waitingJob eq_refl eq_refl eq_refl Hrun)
    as [row' [H1 [H2 _]]].
  exists row'. split; assumption.
Defined.

(* ===================================================================== *)
(** * The fetch batch: the rows it writes                                 *)
(* ===================================================================== *)

Lemma Forall2_map_right {A} (R : A -> A -> Prop) (g : A -> A) l l' :
  (forall x y, R x y -> R x (g y)) ->
  Forall2 R l l' -> Forall2 R l (map g l').
Proof.
  intros H HF. induction HF; simpl; constructor; auto.
Qed.

Lemma Forall2_In_l {A} (R : A -> A -> Prop) l l' x :
  Forall2 R l l' -> In x l -> exists y, In y l' /\ R x y.
Proof.
  intros HF. induction HF as [|a b l l' Hab _ IH]; intros Hin;
    [destruct Hin|].
  destruct Hin as [E|Hin].
  - subst a. exists b. split; [left; reflexivity|exact Hab].
  - destruct (IH Hin) as [y [Hy Hr]]. exists y. split; [right|]; assumption.
Qed.

Lemma Forall2_In_r {A} (R : A -> A -> Prop) l l' y :
  Forall2 R l l' -> In y l' -> exists x, In x l /\ R x y.
Proof.
  intros HF. induction HF as [|a b l l' Hab _ IH]; intros Hin;
    [destruct Hin|].
  destruct Hin as [E|Hin].
  - subst b. exists a. split; [left; reflexivity|exact Hab].
  - destruct (IH Hin) as [x [Hx Hr]]. exists x. split; [right|]; assumption.
Qed.

Lemma NoDup_map_eq {A B} (f : A -> B) l a b :
  NoDup (map f l) -> In a l -> In b l -> f a = f b -> a = b.
Proof.
  induction l as [|x l IH]; simpl; intros Hnd Ha Hb E; [destruct Ha|].
  inversion Hnd as [|y ys Hx Hl]; subst.
  destruct Ha as [Ha|Ha]; destruct Hb as [Hb|Hb].
  - congruence.
  - subst x. exfalso. apply Hx. rewrite E. apply in_map. exact Hb.
  - subst x. exfalso. apply Hx. rewrite <- E. apply in_map. exact Ha.
  - apply IH; assumption.
Qed.

Lemma firstn_member {A} n (l : list A) x : In x (firstn n l) -> In x l.
Proof.
  revert n. induction l as [|y l IH]; intros [|n]; simpl; try tauto.
  intros [E|H]; [left; exact E|right; exact (IH n H)].
Qed.

Lemma sourceMatches_unknown j s :
  sourceMatches j unknown s = true ->
  src_jobId s = j /\ src_accessStatus s = unknown.
Proof.
  unfold sourceMatches. intros H. apply andb_prop in H.
  destruct H as [Hj Hs]. apply N.eqb_eq in Hj. split; [exact Hj|].
  destruct (src_accessStatus s); try discriminate. reflexivity.
Qed.

Section FetchRows.

Variable env : Env.
Variable j : Id.
Variable d0 : DB.

Let listed : list SourceRow :=
  firstn (DEEP_DIVE_MAX_FETCH_PER_INVOCATION env) (sourcesWith d0 j unknown).

(** The source table during the batch, against the one it started from. *)
Let K (d : DB) : Prop :=
  Forall2 (fetchedFrom (map src_id listed)) (deepDiveSource d0)
          (deepDiveSource d).

Lemma K_start : K d0.
Proof.
  apply Forall2_same. intros s. split; [apply sameSource_refl|].
  left. reflexivity.
Qed.

Lemma K_updateSource src p d d' :
  In src listed -> sp_accessStatus p <> unknown ->
  K d -> updateSource (src_id src) p d = Some d' -> K d'.
Proof.
  intros Hin Hp HK Hu. unfold updateSource in Hu.
  destruct (find _ (deepDiveSource d)); [|discriminate].
  assert (E : d' = withSources d
                (map (fun s => if N.eqb (src_id s) (src_id src)
                               then applySourcePatch p s else s)
                     (deepDiveSource d)) (nextId d)) by congruence.
  subst d'. unfold K. cbn [deepDiveSource withSources].
  apply Forall2_map_right; [|exact HK].
  intros x y [[H1 [H2 H3]] Hcase].
  destruct (N.eqb (src_id y) (src_id src)) eqn:Hid;
    [|split; [repeat split; assumption|exact Hcase]].
  apply N.eqb_eq in Hid. split.
  - unfold sameSource; simpl. auto.
  - right. split; [|exact Hp].
    rewrite <- H1, Hid. apply in_map. exact Hin.
Qed.

Lemma K_updateJob p d d' : K d -> updateJob j p d = Some d' -> K d'.
Proof.
  intros HK Hu. unfold K. rewrite (updateJob_sources _ _ _ _ Hu). exact HK.
Qed.

Lemma fetchOne_rows startTime maxDuration src acc :
  In src listed -> inv K (fetchOne env startTime maxDuration src acc).
Proof.
  intros Hin. unfold fetchOne.
  apply inv_bind; [apply inv_hasTime|intros more].
  destruct (negb more); [apply inv_ret|].
  apply inv_bind; [|intros okc; apply inv_ret].
  apply inv_try.
  - intros w Hw. unfold wp, bind, fetchSingleSource.
    set (result := classify env (httpGet env (tick w) (src_url src))).
    assert (Hk : sp_accessStatus (fetchPatch result) <> unknown)
      by apply classify_known.
    assert (H : inv K
                  (exec env (updateSource (src_id src) (fetchPatch result)) ;;;
                   ret (if isOk (fr_status result) then (snd acc + 1)%Z
                        else snd acc))).
    { apply inv_bind; [|intros _; apply inv_ret].
      apply inv_exec. intros d d' Hd Hu.
      exact (K_updateSource _ _ _ _ Hin Hk Hd Hu). }
    exact (H (advance w) Hw).
  - apply inv_bind; [|intros _; apply inv_ret].
    apply inv_exec. intros d d' Hd Hu.
    refine (K_updateSource _ _ _ _ Hin _ Hd Hu). discriminate.
Qed.

Lemma fetchLoop_rows startTime maxDuration xs :
  (forall x, In x xs -> In x listed) ->
  forall acc, inv K (forBreak xs (fetchOne env startTime maxDuration) acc).
Proof.
  induction xs as [|x xs IH]; intros Hxs acc; simpl; [apply inv_ret|].
  apply inv_bind; [apply fetchOne_rows; apply Hxs; left; reflexivity|].
  intros [acc' more]; simpl.
  destruct more; [|apply inv_ret].
  apply IH. intros y Hy. apply Hxs. right. exact Hy.
Qed.

Lemma fetch_rows maxDuration :
  triple (fun d => d = d0) (fetchAndExtractBatch env j maxDuration)
         (fun _ => K) K.
Proof.
  assert (Hk0 : forall d, d = d0 -> K d) by (intros d E; subst d; apply K_start).
  unfold fetchAndExtractBatch.
  eapply triple_bind; [apply triple_now|intros startTime; cbv beta].
  eapply triple_bind;
    [eapply triple_weaken_E; [apply triple_queryOrThrow|exact Hk0]|].
  intros job; cbv beta.
  apply triple_conseq with (P' := fun d => d = d0) (Q' := fun _ => K)
    (E' := K); auto; [|intros d [H _]; exact H].
  eapply triple_bind;
    [eapply triple_weaken_E; [apply triple_query|exact Hk0]|].
  intros unfetched; cbv beta.
  apply triple_conseq with (P' := fun d => K d /\ unfetched = listed)
    (Q' := fun _ => K) (E' := K); auto.
  2:{ intros d [Hd Hq]. subst d. split; [apply K_start|exact Hq]. }
  apply triple_pure. intros Hlist. subst unfetched.
  apply inv_bind; [apply fetchLoop_rows; auto|intros counts].
  apply inv_bind; [apply inv_query|intros remaining].
  apply inv_bind.
  - destruct (snd (nextFetchState _ _ _ _)); [|apply inv_ret].
    apply inv_exec. intros d d' Hd Hu. exact (K_updateJob _ _ _ Hd Hu).
  - intros _. apply inv_exec. intros d d' Hd Hu.
    exact (K_updateJob _ _ _ Hd Hu).
Qed.

End FetchRows.

(** [X30]. The rows a fetch batch writes, whether it returns or throws,
    when the source rows have pairwise distinct identifiers. It creates,
    removes and moves no source row, and each row keeps its identifier, its
    job and its URL. It leaves as they are the sources of other jobs, the
    sources of its job that are already classified, and every source that
    its query does not list; the query lists unclassified sources of the
    job, [DEEP_DIVE_MAX_FETCH_PER_INVOCATION] at most. And a row that it
    has changed is classified: ok, paywalled or blocked, never left
    unknown. *)
Theorem fetch_batch_writes_only_its_unfetched_sources :
  forall env j maxDuration w,
    NoDup (map src_id (deepDiveSource (db w))) ->
    let before := deepDiveSource (db w) in
    let after :=
      deepDiveSource (db (snd (fetchAndExtractBatch env j maxDuration w))) in
    Forall2 sameSource before after
    /\ (forall s, In s before ->
          src_jobId s <> j \/ src_accessStatus s <> unknown ->
          In s after)
    /\ (forall s, In s before ->
          ~ In s (firstn (DEEP_DIVE_MAX_FETCH_PER_INVOCATION env)
                    (sourcesWith (db w) j unknown)) ->
          In s after)
    /\ (forall s', In s' after ->
          In s' before \/ src_accessStatus s' <> unknown).
Proof.
  intros env j maxDuration w Hnd before after.
  set (listed := firstn (DEEP_DIVE_MAX_FETCH_PER_INVOCATION env)
                   (sourcesWith (db w) j unknown)).
  assert (HK : Forall2 (fetchedFrom (map src_id listed)) before after).
  { pose proof (fetch_rows env j (db w) maxDuration w eq_refl) as H.
    unfold wp in H. subst after.
    destruct (fetchAndExtractBatch env j maxDuration w) as [[[]|] w'];
      exact H. }
  assert (Hlisted : forall s, In s listed ->
            In s before /\ src_jobId s = j /\ src_accessStatus s = unknown).
  { intros s Hs. apply firstn_member in Hs. unfold sourcesWith in Hs.
    apply filter_In in Hs. destruct Hs as [Hin Hm].
    split; [exact Hin|]. apply sourceMatches_unknown. exact Hm. }
  assert (Hkeep : forall s, In s before -> ~ In s listed -> In s after).
  { intros s Hs Hout.
    destruct (Forall2_In_l _ _ _ _ HK Hs) as [s' [Hs' [_ [E|[Hid _]]]]];
      [subst s'; exact Hs'|].
    exfalso. apply Hout. apply in_map_iff in Hid.
    destruct Hid as [u [Hu Hin]].
    assert (u = s); [|subst u; exact Hin].
    apply (NoDup_map_eq src_id before); auto.
    exact (proj1 (Hlisted u Hin)). }
  split; [|split; [|split]].
  - clear - HK. induction HK as [|a b l l' [H _] _ IH]; constructor; auto.
  - intros s Hs Hcase. apply Hkeep; [exact Hs|].
    intros Hin. destruct (Hlisted s Hin) as [_ [Hj Hu]].
    destruct Hcase; contradiction.
  - exact Hkeep.
  - intros s' Hs'.
    destruct (Forall2_In_r _ _ _ _ HK Hs') as [s [Hs [_ [E|[_ Hk]]]]].
    + left. subst s'. exact Hs.
    + right. exact Hk.
Qed.

Lemma fetch_batch_writes_only_its_unfetched_sources_witness :
  NoDup (map src_id (deepDiveSource (db crowdedWorld)))
  /\ Forall2 sameSource (deepDiveSource (db crowdedWorld))
       (deepDiveSource
          (db (snd (fetchAndExtractBatch pageEnv 1%N 50000%Z crowdedWorld)))).
Proof.
  assert (Hnd : NoDup (map src_id (deepDiveSource (db crowdedWorld)))).
  { change (NoDup [11%N; 20%N; 21%N; 12%N]).
    repeat (apply NoDup_cons; [simpl; intuition discriminate|]).
    apply NoDup_nil. }
  split; [exact Hnd|].
  exact (proj1 (fetch_batch_writes_only_its_unfetched_sources pageEnv 1%N
                  50000%Z crowdedWorld Hnd)).
Defined.
(* ===================================================================== *)
(** * The abort path of a job that is already at PUBLISH                  *)
(* ===================================================================== *)

Lemma reportsOf_none d j : reportsOf d j = [] -> findReport d j = None.
Proof.
  unfold findReport, reportsOf. induction (deepDiveReport d) as [|r l IH];
    simpl; [reflexivity|].
  destruct (N.eqb (rep_jobId r) j); [discriminate|exact IH].
Qed.

Lemma jobsAre_JR (J : list JobRow) : JR_only (fun d => deepDiveJob d = J).
Proof. intros d d' Hj _ H. congruence. Qed.

(** The publisher writes the job row last: when it throws, the job table
    is as it found it. *)
Lemma publish_throw_keeps_jobs env j (J : list JobRow) :
  triple (fun d => deepDiveJob d = J) (publishReport env j)
         (fun _ _ => True) (fun d => deepDiveJob d = J).
Proof.
  set (P := fun d => deepDiveJob d = J).
  assert (PJR : JR_only P) by apply jobsAre_JR.
  unfold publishReport.
  eapply triple_bind; [apply triple_queryOrThrow|].
  intros [[job u] rep]; simpl.
  apply triple_conseq with (P' := P) (Q' := fun _ _ => True) (E' := P);
    auto; [|intros d [H _]; exact H].
  destruct rep as [r|].
  { eapply triple_exec. auto. }
  destruct (truthy _) as [markdown|]; [|eapply triple_exec; auto].
  eapply triple_bind.
  { eapply triple_conseq; [apply (triple_query env P)| | |]; simpl; auto.
    intros a d [H _]. exact H. }
  intros topic. simpl.
  eapply triple_bind; [apply (triple_now env P)|intros t; simpl].
  destruct (renderSafeHtml env markdown) as [safeHtml|];
    [|apply triple_throw; auto].
  eapply triple_bind with (Q1 := fun _ => P).
  { apply triple_insert. intros n d H. exact H. }
  intros report.
  eapply triple_bind with (Q1 := fun _ => P).
  { apply inv_createTokenSet. }
  intros _.
  eapply triple_bind with (Q1 := fun _ => P).
  { destruct (mayMail u); [apply inv_deliver; exact PJR|apply inv_ret]. }
  intros _. eapply triple_exec. auto.
Qed.

Section StuckAtPublish.

Variable env : Env.
Variable markdown : jsstring.
Variable j : Id.
Hypothesis no_html : renderSafeHtml env markdown = None.

Let P : DB -> Prop := awaitsPublication markdown j.

(** With a draft that cannot be rendered the publisher never returns. *)
Lemma publish_stuck :
  triple P (publishReport env j) (fun _ _ => False) P.
Proof.
  unfold publishReport.
  eapply triple_bind; [apply triple_queryOrThrow|].
  intros [[job u] rep]; cbn [fst snd].
  apply triple_conseq with
    (P' := fun d => P d /\ (rep = None
                            /\ exists st sy, job_state job = Some st
                                 /\ synthesis st = Some sy
                                 /\ truthy (partialMarkdown sy) = Some markdown))
    (Q' := fun _ _ => False) (E' := P); auto.
  2:{ intros d [Hd Hq]. split; [exact Hd|].
      destruct Hd as [row [st [sy [Hrow [_ [_ [Hst [_ [Hsy [Hmd Hrep]]]]]]]]]].
      rewrite Hrow in Hq. destruct (findUser d (job_userId row)); [|discriminate].
      rewrite Hrep in Hq. inversion Hq; subst. split; [reflexivity|].
      exists st, sy. auto. }
  apply triple_pure. intros [Hrep [st [sy [Hst [Hsy Hmd]]]]]. subst rep.
  rewrite Hst. cbn [fromJson]. rewrite Hsy, Hmd.
  eapply triple_bind.
  { eapply triple_conseq; [apply (triple_query env P)| | |]; simpl; auto.
    intros a d [H _]. exact H. }
  intros topic. simpl.
  eapply triple_bind; [apply (triple_now env P)|intros t; simpl].
  rewrite no_html. apply triple_throw. auto.
Qed.

Lemma step_stuck maxDuration : inv P (deepDiveStep env j maxDuration).
Proof.
  unfold deepDiveStep.
  eapply triple_bind with
    (Q1 := fun r d =>
             P d /\ match r with
                    | Some (job, _, newAttempt) =>
                        stage (fromJson (job_state job)) = Some PUBLISH
                        /\ (MAX_ATTEMPTS <= newAttempt)%Z
                    | None => True
                    end).
  - unfold enterStep.
    eapply triple_bind; [apply triple_now|intros startTime; cbv beta].
    eapply triple_bind; [apply triple_query|intros found; cbv beta].
    destruct found as [job|]; [|apply triple_ret; tauto].
    destruct (hardTerminal (job_status job)) eqn:Hterm;
      [apply triple_ret; tauto|].
    eapply triple_bind; [apply triple_now|intros stamp; cbv beta].
    eapply triple_bind with
      (Q1 := fun _ d => P d /\ stage (fromJson (job_state job)) = Some PUBLISH
                        /\ (MAX_ATTEMPTS <= job_attempt job + 1)%Z).
    + eapply triple_weaken_E; [apply triple_exec|intros d [H _]; exact H].
      intros d d' [Hd Hq] Hu.
      destruct Hd as [row [st [sy [Hrow [_ [Hat [Hst [Hsg [Hsy [Hmd Hrep]]]]]]]]]].
      assert (job = row) by congruence. subst job.
      split; [|split; [rewrite Hst; exact Hsg|exact Hat]].
      exists (applyPatch {| p_status := Some running;
                            p_attempt := Some (job_attempt row + 1)%Z;
                            p_state := None; p_updatedAt := Some stamp |} row),
             st, sy.
      split; [exact (findJob_same_update _ _ _ _ _ Hrow Hu)|].
      cbn. split; [reflexivity|]. split; [unfold MAX_ATTEMPTS in *; lia|].
      repeat split; auto.
      unfold findReport. rewrite (updateJob_reports _ _ _ _ Hu). exact Hrep.
    + intros _. apply triple_ret. tauto.
  - intros [[[job startTime] newAttempt]|]; [|apply triple_ret; tauto].
    apply triple_pure. intros [Hstage Hmax].
    eapply triple_try with (E1 := P).
    + unfold dispatch. rewrite Hstage.
      eapply triple_bind; [apply triple_now|intros t; cbv beta].
      eapply triple_conseq; [apply publish_stuck| | |]; auto.
      intros a d [].
    + unfold onStageError. apply Z.leb_le in Hmax. rewrite Hmax.
      eapply triple_bind; [apply triple_query|intros cj; cbv beta].
      apply triple_conseq with
        (P' := fun d => P d /\ exists row, cj = Some row
                 /\ stage (fromJson (job_state row)) = Some PUBLISH)
        (Q' := fun _ => P) (E' := P); auto.
      2:{ intros d [Hd Hq]. split; [exact Hd|].
          destruct Hd as [row [st [sy [Hrow [_ [_ [Hst [Hsg _]]]]]]]].
          exists row. split; [congruence|]. rewrite Hst. exact Hsg. }
      apply triple_pure. intros [row [Hcj Hsg]]. subst cj.
      rewrite Hsg. cbn. apply triple_ret. auto.
Qed.

Lemma steps_stuck steps w :
  P (db w) -> P (db (runSteps env steps w)).
Proof.
  revert w. induction steps as [|[j' maxDuration] steps IH]; intros w Hw;
    [exact Hw|].
  cbn [runSteps]. apply IH.
  destruct (N.eq_dec j' j) as [E|Hne].
  - subst j'. exact (inv_run P _ w (step_stuck maxDuration) Hw).
  - destruct (touches_other j' j _ _ (step_touched env j' maxDuration w)
                ltac:(congruence)) as [Hrow Hreps].
    destruct Hw as [row [st [sy [Hj [H1 [H2 [H3 [H4 [H5 [H6 H7]]]]]]]]]].
    exists row, st, sy. rewrite Hrow. repeat split; auto.
    apply reportsOf_none. rewrite Hreps.
    apply findReport_none_count. exact H7.
Qed.

End StuckAtPublish.

(** [C1]. The abort path has a hole: it skips a job that is at PUBLISH
    already. When the publisher of a step throws with the attempt counter
    at the ceiling of 3 or beyond, a step that runs to its end leaves the
    job as the head of the step made it: status running, stage PUBLISH,
    the attempt counted, not failed. The next step is in the same
    position, and so on without bound: while the draft cannot be rendered
    the job never gets a report and never reaches complete, aborted or
    failed, however many steps are run on it. *)
Theorem abort_at_publish_leaves_running :
  forall env j,
    (forall maxDuration w w1 job startTime newAttempt w',
        enterStep env j w
          = (Returned (Some (job, startTime, newAttempt)), w1) ->
        stage (fromJson (job_state job)) = Some PUBLISH ->
        (MAX_ATTEMPTS <= newAttempt)%Z ->
        fst (dispatch env j maxDuration startTime (fromJson (job_state job))
               w1) = Thrown ->
        deepDiveStep env j maxDuration w = (Returned tt, w') ->
        exists row,
          findJob (db w') j = Some row
          /\ job_status row = running
          /\ job_attempt row = newAttempt
          /\ job_state row = job_state job)
    /\ (forall markdown steps w,
          renderSafeHtml env markdown = None ->
          awaitsPublication markdown j (db w) ->
          awaitsPublication markdown j (db (runSteps env steps w))).
Proof.
  intros env j. split.
  - intros maxDuration w w1 job startTime newAttempt w'
           Henter Hstage Hmax Hthrow Hstep.
    pose proof (enterStep_spec env j w) as Hspec. rewrite Henter in Hspec.
    cbn [fst snd] in Hspec.
    destruct Hspec as [_ [_ [Hjob [_ [Hna [stamp Hu]]]]]].
    set (p := {| p_status := Some running; p_attempt := Some newAttempt;
                 p_state := None; p_updatedAt := Some stamp |}) in *.
    assert (Hrow1 : findJob (db w1) j = Some (applyPatch p job))
      by exact (findJob_same_update _ _ _ _ _ Hjob Hu).
    destruct (dispatch env j maxDuration startTime (fromJson (job_state job))
                w1) as [o wt] eqn:Hd.
    cbn [fst] in Hthrow. subst o.
    assert (Hjobs : deepDiveJob (db wt) = deepDiveJob (db w1)).
    { pose proof (publish_throw_keeps_jobs env j (deepDiveJob (db w1))) as H.
      revert Hd. unfold dispatch, bind, now. rewrite Hstage. intros Hd.
      specialize (H (advance w1) eq_refl). unfold wp in H.
      rewrite Hd in H. exact H. }
    assert (Hrowt : findJob (db wt) j = Some (applyPatch p job)).
    { unfold findJob in *. rewrite Hjobs. exact Hrow1. }
    assert (Hcatch : onStageError env j newAttempt (fromJson (job_state job))
                       wt = (Returned tt, w')).
    { revert Hstep. unfold deepDiveStep, bind. rewrite Henter.
      unfold try_catch. rewrite Hd. auto. }
    assert (Hdb : db w' = db wt).
    { revert Hcatch. unfold onStageError. apply Z.leb_le in Hmax.
      rewrite Hmax.
      cbv beta iota zeta delta [bind query call ask ret].
      destruct (faults env (tick wt)); [discriminate|].
      cbn [db advance]. rewrite Hrowt. cbn [applyPatch job_state p_state p orKeep].
      rewrite Hstage. cbn. intros H. inversion H. reflexivity. }
    exists (applyPatch p job). rewrite Hdb. split; [exact Hrowt|].
    cbn. auto.
  - intros markdown steps w Hhtml Hw.
    exact (steps_stuck env markdown j Hhtml steps w Hw).
Qed.

(** A job at PUBLISH with a draft, on its third attempt, whose publisher
    throws at the topic lookup: the step returns and the job is left
    running at PUBLISH, without a report. And the same job where the draft
    cannot be rendered: after five steps it is still running at PUBLISH,
    on its seventh attempt, without a report. *)
Lemma abort_at_publish_leaves_running_witness :
  (exists row,
      findJob (db (snd (deepDiveStep stuckEnv 1%N 50000%Z stuckWorld))) 1%N
        = Some row
      /\ job_status row = running
      /\ job_attempt row = 3%Z
      /\ job_state row = Some draftedState)
  /\ deepDiveReport (db (snd (deepDiveStep stuckEnv 1%N 50000%Z stuckWorld)))
     = []
  /\ awaitsPublication (lit "# Banking weekly") 1%N
       (db (runSteps unrenderedEnv (repeat (1%N, 50000%Z) 5) stuckWorld))
  /\ option_map (fun row => (job_status row, job_attempt row))
       (findJob
          (db (runSteps unrenderedEnv (repeat (1%N, 50000%Z) 5) stuckWorld))
          1%N)
     = Some (running, 7%Z).
Proof.
  split; [|split; [vm_compute; reflexivity|split; [|vm_compute; reflexivity]]].
  - apply (proj1 (abort_at_publish_leaves_running stuckEnv 1%N) 50000%Z
             stuckWorld (snd (enterStep stuckEnv 1%N stuckWorld))
             (sampleJob partial 2%Z (Some draftedState)) 0%Z 3%Z
             (snd (deepDiveStep stuckEnv 1%N 50000%Z stuckWorld))).
    + vm_compute. reflexivity.
    + vm_compute. reflexivity.
    + unfold MAX_ATTEMPTS. lia.
    + vm_compute. reflexivity.
    + vm_compute. reflexivity.
  - apply (proj2 (abort_at_publish_leaves_running unrenderedEnv 1%N)
             (lit "# Banking weekly") (repeat (1%N, 50000%Z) 5) stuckWorld).
    + reflexivity.
    + exists (sampleJob partial 2%Z (Some draftedState)), draftedState,
        {| strategy := map_reduce; retryCount := 0%Z;
           partialMarkdown := Some (lit "# Banking weekly") |}.
      split; [reflexivity|]. split; [reflexivity|].
      split; [unfold MAX_ATTEMPTS; cbn; lia|].
      repeat (split; [reflexivity|]). reflexivity.
Defined.

(** ** The abort path away from PUBLISH *)

Lemma findReport_app_new (l : list ReportRow) r j :
  rep_jobId r = j ->
  find (fun x => N.eqb (rep_jobId x) j) (l ++ [r]) <> None.
Proof.
  intros Hr. induction l as [|x l IH]; simpl.
  - rewrite Hr, N.eqb_refl. discriminate.
  - destruct (N.eqb (rep_jobId x) j); [discriminate|exact IH].
Qed.

(** A publisher that returns leaves the job failed or with a report. *)
Lemma publish_returns_report env j w w' :
  publishReport env j w = (Returned tt, w') ->
  statusOfJob (db w') j = Some failed \/ findReport (db w') j <> None.
Proof.
  intros Hrun. pose proof (publish_effects env j w) as H.
  unfold wp in H. rewrite Hrun in H.
  destruct H as [_ [job [u [Hjob [Hu [Hrow Hcase]]]]]].
  destruct (findReport (db w) j) as [r|] eqn:Hrep.
  - right. destruct Hcase as [Hsame _]. unfold findReport in *.
    rewrite Hsame, Hrep. discriminate.
  - destruct (draftOf job) as [markdown|] eqn:Hdraft.
    + right. destruct Hcase as [html [_ Hnew]]. unfold findReport.
      rewrite Hnew. apply findReport_app_new. reflexivity.
    + left. unfold statusOfJob. rewrite Hrow. unfold closingPatch.
      rewrite Hrep, Hdraft. reflexivity.
Qed.

(** The abort path away from PUBLISH. When the stage dispatched by a step
    throws with the attempt counter at the ceiling of 3 or beyond, and the
    job is then at a stage other than PUBLISH, a step that runs to its end
    has forced the state to PUBLISH and called the publisher: the job is
    left at PUBLISH with status partial, complete or failed, never running
    or queued; and unless it is left failed, it has a report. *)
Lemma abort_forces_publish :
  forall env jobId maxDuration w w1 job startTime newAttempt wt w',
    enterStep env jobId w
      = (Returned (Some (job, startTime, newAttempt)), w1) ->
    (MAX_ATTEMPTS <= newAttempt)%Z ->
    dispatch env jobId maxDuration startTime (fromJson (job_state job)) w1
      = (Thrown, wt) ->
    stageOfJob (db wt) jobId <> Some PUBLISH ->
    deepDiveStep env jobId maxDuration w = (Returned tt, w') ->
    stageOfJob (db w') jobId = Some PUBLISH /\
    (statusOfJob (db w') jobId = Some partial
     \/ statusOfJob (db w') jobId = Some complete
     \/ statusOfJob (db w') jobId = Some failed) /\
    (statusOfJob (db w') jobId = Some failed
     \/ findReport (db w') jobId <> None).
Proof.
  intros env jobId maxDuration w w1 job startTime newAttempt wt w'
         Henter Hmax Hthrow Hstage Hstep.
  pose proof (enterStep_hasJob _ _ _ _ _ _ _ Henter) as Hjob.
  assert (Hjob' : hasJob jobId (db wt)).
  { pose proof (dispatch_hasJob env jobId jobId maxDuration startTime
                  (fromJson (job_state job)) w1 Hjob) as H.
    unfold wp in H. rewrite Hthrow in H. exact H. }
  assert (Hcatch : onStageError env jobId newAttempt
                     (fromJson (job_state job)) wt = (Returned tt, w')).
  { revert Hstep. unfold deepDiveStep, bind. rewrite Henter.
    unfold try_catch. rewrite Hthrow. auto. }
  assert (Hpre : exists row, findJob (db wt) jobId = Some row
                   /\ stage (fromJson (job_state row)) <> Some PUBLISH).
  { unfold hasJob in Hjob'. unfold stageOfJob in Hstage.
    destruct (findJob (db wt) jobId) as [row|]; [|congruence].
    exists row. split; [reflexivity|exact Hstage]. }
  pose proof (onStageError_finalises env jobId newAttempt
                (fromJson (job_state job)) Hmax wt Hpre) as H.
  unfold wp in H. rewrite Hcatch in H. destruct H as [H1 H2].
  split; [exact H1|]. split; [exact H2|].
  destruct Hpre as [row [Hrow Hne]].
  revert Hcatch. unfold onStageError. apply Z.leb_le in Hmax. rewrite Hmax.
  cbv beta delta [bind query call ask].
  destruct (faults env (tick wt)); [discriminate|].
  cbn [db advance]. rewrite Hrow.
  assert (Hp : isPublish (stage (fromJson (job_state row))) = false).
  { destruct (stage (fromJson (job_state row))) as [[]|]; try reflexivity.
    congruence. }
  rewrite Hp. cbn [negb].
  match goal with
  | |- context [exec env ?f ?x] => destruct (exec env f x) as [[[]|] w2] eqn:Hex
  end; [|discriminate].
  unfold try_catch.
  destruct (publishReport env jobId w2) as [[[]|] w3] eqn:Hpub.
  - intros E. injection E as E. subst w3.
    exact (publish_returns_report env jobId w2 w' Hpub).
  - intros Hfail. left.
    revert Hfail. unfold exec. cbv beta delta [bind call ask].
    destruct (faults env (tick w3)); [discriminate|]. cbn [db advance].
    destruct (updateJob jobId (patchStatus failed) (db w3)) as [d|] eqn:Hu;
      [|discriminate].
    intros E. injection E as E. subst w'. cbn [db withDb].
    exact (statusOf_update _ _ _ _ _ Hu eq_refl).
Qed.

(** A job at SYNTHESIZE on its third attempt whose stage throws at its
    first database read: the abort path publishes, finds no draft and the
    job ends failed at PUBLISH. *)
Lemma abort_forces_publish_witness :
  stageOfJob (db (snd (deepDiveStep abortEnv 1%N 50000%Z abortWorld))) 1%N
    = Some PUBLISH
  /\ statusOfJob (db (snd (deepDiveStep abortEnv 1%N 50000%Z abortWorld))) 1%N
     = Some failed.
Proof.
  destruct (abort_forces_publish abortEnv 1%N 50000%Z abortWorld
              (snd (enterStep abortEnv 1%N abortWorld))
              (sampleJob queued 2%Z (Some (stateOf SYNTHESIZE))) 0%Z 3%Z
              (snd (dispatch abortEnv 1%N 50000%Z 0%Z (stateOf SYNTHESIZE)
                      (snd (enterStep abortEnv 1%N abortWorld))))
              (snd (deepDiveStep abortEnv 1%N 50000%Z abortWorld)))
    as [Hstage _].
  - vm_compute. reflexivity.
  - unfold MAX_ATTEMPTS. lia.
  - vm_compute. reflexivity.
  - vm_compute. discriminate.
  - vm_compute. reflexivity.
  - split; [exact Hstage|vm_compute; reflexivity].
Defined.
(* ===================================================================== *)
(** * The fetch batch: what its counters count                            *)
(* ===================================================================== *)

(** Rewriting the one row that has the identifier of [x], in a table
    whose identifiers are pairwise distinct, moves the number of rows that
    pass a test by what the test says of [x] before and after. *)
Lemma count_rewritten (f : SourceRow -> bool) (g : SourceRow -> SourceRow)
  (x : SourceRow) (l : list SourceRow) :
  NoDup (map src_id l) -> In x l ->
  List.length
    (filter f (map (fun s => if N.eqb (src_id s) (src_id x) then g s else s)
                   l))
  + (if f x then 1 else 0)
  = List.length (filter f l) + (if f (g x) then 1 else 0).
Proof.
  induction l as [|a l IH]; intros Hnd Hin; [destruct Hin|].
  inversion Hnd as [|? ? Ha Hl]; subst.
  destruct Hin as [E|Hin].
  - subst a. cbn [map filter]. rewrite N.eqb_refl.
    assert (Hid : map (fun s => if N.eqb (src_id s) (src_id x) then g s else s)
                      l = l).
    { rewrite <- (map_id l) at 2. apply map_ext_in. intros s Hs.
      destruct (N.eqb (src_id s) (src_id x)) eqn:E; [|reflexivity].
      apply N.eqb_eq in E. exfalso. apply Ha. rewrite <- E.
      apply in_map. exact Hs. }
    rewrite Hid. destruct (f x), (f (g x)); cbn [List.length]; lia.
  - cbn [map filter].
    destruct (N.eqb (src_id a) (src_id x)) eqn:E.
    { apply N.eqb_eq in E. exfalso. apply Ha. rewrite E. apply in_map.
      exact Hin. }
    specialize (IH Hl Hin).
    destruct (f a); cbn [List.length]; lia.
Qed.

Lemma NoDup_map_sub {A B} (f : A -> B) (l : list A) (keep : A -> bool) n :
  NoDup (map f l) -> NoDup (map f (firstn n (filter keep l))).
Proof.
  intros H. revert n. induction l as [|a l IH]; intros n; cbn [filter].
  - rewrite firstn_nil. constructor.
  - inversion H as [|? ? Ha Hl]; subst.
    destruct (keep a); [|apply IH; exact Hl].
    destruct n as [|n]; [constructor|]. cbn [firstn map]. constructor.
    + intros Hin. apply Ha. apply in_map_iff in Hin.
      destruct Hin as [y [Hy Hin]]. apply firstn_member in Hin.
      apply filter_In in Hin. rewrite <- Hy. apply in_map. apply Hin.
    + apply IH. exact Hl.
Qed.

Section FetchCounts.

Variable env : Env.
Variable j : Id.
Variable d0 : DB.
Variable job : JobRow.

Let fetched0 : Z := fst (priorCounts (fromJson (job_state job))).
Let ok0 : Z := snd (priorCounts (fromJson (job_state job))).

Let count (st : AccessStatus) (d : DB) : Z :=
  Z.of_nat (List.length (sourcesWith d j st)).

(** What the counters of the loop say of the source table. *)
Let counted (acc : Z * Z) (d : DB) : Prop :=
  (snd acc - ok0 = count ok d - count ok d0
   /\ fst acc - fetched0 = count unknown d0 - count unknown d)%Z.

(** The loop with the sources [xs] still to visit. *)
Let during (xs : list SourceRow) (acc : Z * Z) (d : DB) : Prop :=
  findJob d j = Some job
  /\ NoDup (map src_id (deepDiveSource d))
  /\ NoDup (map src_id xs)
  /\ (forall x, In x xs ->
        In x (deepDiveSource d)
        /\ src_jobId x = j /\ src_accessStatus x = unknown)
  /\ counted acc d.

Lemma during_classified x xs acc p d d' :
  sp_accessStatus p <> unknown ->
  during (x :: xs) acc d ->
  updateSource (src_id x) p d = Some d' ->
  during xs ((fst acc + 1)%Z,
             if isOk (sp_accessStatus p) then (snd acc + 1)%Z else snd acc) d'.
Proof.
  intros Hp [Hjob [Hnd [Hxs [Hin [Hok Hf]]]]] Hu.
  destruct (updateSource_jobs _ _ _ _ Hu) as [Hjobs _].
  unfold updateSource in Hu.
  destruct (find _ (deepDiveSource d)); [|discriminate].
  assert (E : d' = withSources d
                (map (fun s => if N.eqb (src_id s) (src_id x)
                               then applySourcePatch p s else s)
                     (deepDiveSource d)) (nextId d)) by congruence.
  clear Hu.
  set (upd := fun s => if N.eqb (src_id s) (src_id x)
                       then applySourcePatch p s else s) in *.
  assert (Hsrc : deepDiveSource d' = map upd (deepDiveSource d))
    by (subst d'; reflexivity).
  destruct (Hin x (or_introl eq_refl)) as [Hx [Hxj Hxu]].
  inversion Hxs as [|? ? Hxnot Hxs']; subst x0 l.
  split; [|split; [|split; [|split]]].
  - unfold findJob in *. rewrite Hjobs. exact Hjob.
  - rewrite Hsrc, map_map.
    replace (map (fun s => src_id (upd s)) (deepDiveSource d))
      with (map src_id (deepDiveSource d)); [exact Hnd|].
    apply map_ext. intros r. unfold upd.
    destruct (N.eqb (src_id r) (src_id x)); reflexivity.
  - exact Hxs'.
  - intros y Hy. destruct (Hin y (or_intror Hy)) as [Hyin Hrest].
    split; [|exact Hrest]. rewrite Hsrc.
    assert (Hy' : upd y = y).
    { unfold upd. destruct (N.eqb (src_id y) (src_id x)) eqn:Ey;
        [|reflexivity].
      apply N.eqb_eq in Ey. exfalso. apply Hxnot. rewrite <- Ey.
      apply in_map. exact Hy. }
    rewrite <- Hy'. apply in_map. exact Hyin.
  - pose proof (count_rewritten (sourceMatches j ok) (applySourcePatch p)
                  x (deepDiveSource d) Hnd Hx) as Cok.
    pose proof (count_rewritten (sourceMatches j unknown) (applySourcePatch p)
                  x (deepDiveSource d) Hnd Hx) as Cun.
    fold upd in Cok, Cun.
    assert (Fok : sourceMatches j ok x = false).
    { unfold sourceMatches. rewrite Hxu. apply andb_false_r. }
    assert (Fun_ : sourceMatches j unknown x = true).
    { unfold sourceMatches. rewrite Hxu, Hxj, N.eqb_refl. reflexivity. }
    assert (Gok : sourceMatches j ok (applySourcePatch p x)
                  = isOk (sp_accessStatus p)).
    { unfold sourceMatches, applySourcePatch; cbn. rewrite Hxj, N.eqb_refl.
      destruct (sp_accessStatus p); reflexivity. }
    assert (Gun : sourceMatches j unknown (applySourcePatch p x) = false).
    { unfold sourceMatches, applySourcePatch; cbn.
      destruct (sp_accessStatus p); try apply andb_false_r. congruence. }
    rewrite Fok, Gok in Cok. rewrite Fun_, Gun in Cun.
    unfold counted, count, sourcesWith in *. rewrite Hsrc.
    cbn [fst snd].
    destruct (isOk (sp_accessStatus p)); lia.
Qed.

Lemma during_weaken x xs acc d : during (x :: xs) acc d -> during [] acc d.
Proof.
  intros [H1 [H2 [_ [_ H5]]]].
  split; [exact H1|]. split; [exact H2|]. split; [constructor|].
  split; [intros y []|exact H5].
Qed.

Lemma fetchOne_counted startTime maxDuration x xs acc :
  triple (during (x :: xs) acc)
         (fetchOne env startTime maxDuration x acc)
         (fun r d => if snd r then during xs (fst r) d
                     else during [] (fst r) d)
         (fun _ => True).
Proof.
  unfold fetchOne.
  eapply triple_bind; [apply triple_hasTime|intros more; cbv beta].
  destruct (negb more).
  { apply triple_ret. intros d Hd. cbn. exact (during_weaken _ _ _ _ Hd). }
  eapply triple_bind with
    (Q1 := fun ok' d => during xs ((fst acc + 1)%Z, ok') d).
  - eapply triple_try with (E1 := during (x :: xs) acc).
    + intros w Hw. unfold wp, bind, fetchSingleSource.
      set (result := classify env (httpGet env (tick w) (src_url x))).
      assert (Hk : sp_accessStatus (fetchPatch result) <> unknown)
        by apply classify_known.
      assert (H : triple (during (x :: xs) acc)
                    (exec env (updateSource (src_id x) (fetchPatch result)) ;;;
                     ret (if isOk (fr_status result) then (snd acc + 1)%Z
                          else snd acc))
                    (fun ok' d => during xs ((fst acc + 1)%Z, ok') d)
                    (during (x :: xs) acc)).
      { eapply triple_bind with
          (Q1 := fun _ d =>
                   during xs ((fst acc + 1)%Z,
                              if isOk (fr_status result) then (snd acc + 1)%Z
                              else snd acc) d).
        - apply triple_exec. intros d d' Hd Hu.
          exact (during_classified _ _ _ _ _ _ Hk Hd Hu).
        - intros _. apply triple_ret. auto. }
      exact (H (advance w) Hw).
    + eapply triple_bind with
        (Q1 := fun _ d => during xs ((fst acc + 1)%Z, snd acc) d).
      * eapply triple_weaken_E; [apply triple_exec|auto].
        intros d d' Hd Hu.
        refine (during_classified _ _ _ blockedPatch _ _ _ Hd Hu).
        discriminate.
      * intros _. apply triple_ret. auto.
  - intros ok'. apply triple_ret. intros d Hd. exact Hd.
Qed.

Lemma fetchLoop_counted startTime maxDuration xs :
  forall acc,
    triple (during xs acc)
           (forBreak xs (fetchOne env startTime maxDuration) acc)
           (fun acc' d => during [] acc' d) (fun _ => True).
Proof.
  induction xs as [|x xs IH]; intros acc; cbn [forBreak].
  - apply triple_ret. auto.
  - eapply triple_bind; [apply fetchOne_counted|].
    intros [acc' more]; cbn [fst snd].
    destruct more; [apply IH|apply triple_ret; auto].
Qed.

Hypothesis distinct : NoDup (map src_id (deepDiveSource d0)).
Hypothesis found : findJob d0 j = Some job.

Lemma fetch_counted maxDuration :
  triple (fun d => d = d0) (fetchAndExtractBatch env j maxDuration)
         (fun _ d' =>
            exists fetched okc,
              counted (fetched, okc) d'
              /\ findJob d' j
                 = Some (afterBatch job
                           (nextFetchState (fromJson (job_state job))
                              fetched okc
                              (List.length (sourcesWith d' j unknown)))))
         (fun _ => True).
Proof.
  unfold fetchAndExtractBatch.
  eapply triple_bind; [apply triple_now|intros startTime; cbv beta].
  eapply triple_bind;
    [eapply triple_weaken_E; [apply triple_queryOrThrow|auto]|].
  intros job'; cbv beta.
  eapply triple_bind;
    [eapply triple_weaken_E; [apply triple_query|auto]|].
  intros unfetched; cbv beta.
  apply triple_conseq with
    (P' := fun d =>
             during unfetched (fetched0, ok0) d /\ job' = job)
    (Q' := fun _ d' =>
            exists fetched okc,
              counted (fetched, okc) d'
              /\ findJob d' j
                 = Some (afterBatch job
                           (nextFetchState (fromJson (job_state job))
                              fetched okc
                              (List.length (sourcesWith d' j unknown)))))
    (E' := fun _ => True); auto.
  2:{ intros d [[Hd Hq] Hun]. subst d. split; [|congruence].
      subst unfetched. split; [exact found|]. split; [exact distinct|].
      split; [apply NoDup_map_sub; exact distinct|]. split.
      - intros x Hx. apply firstn_member in Hx. unfold sourcesWith in Hx.
        apply filter_In in Hx. destruct Hx as [Hin Hm].
        split; [exact Hin|]. apply sourceMatches_unknown. exact Hm.
      - unfold counted. cbn [fst snd]. lia. }
  apply triple_pure. intros Hjob. subst job'.
  fold (fst (priorCounts (fromJson (job_state job)))).
  eapply triple_bind.
  { apply fetchLoop_counted. }
  intros counts; cbv beta.
  eapply triple_bind;
    [eapply triple_weaken_E; [apply triple_query|auto]|].
  intros remaining; cbv beta.
  set (next := nextFetchState (fromJson (job_state job)) (fst counts)
                 (snd counts) remaining).
  assert (Hsrc : forall p d d', counted counts d ->
            updateJob j p d = Some d' -> counted counts d').
  { intros p d d' Hc Hu. unfold counted, count, sourcesWith in *.
    rewrite (updateJob_sources _ _ _ _ Hu). exact Hc. }
  eapply triple_bind with
    (Q1 := fun _ d =>
             counted counts d
             /\ findJob d j
                = Some (if snd next then applyPatch (patchStatus partial) job
                        else job)
             /\ remaining = List.length (sourcesWith d j unknown)).
  { destruct (snd next).
    - eapply triple_weaken_E; [apply triple_exec|auto].
      intros d d' [[Hrow [_ [_ [_ Hc]]]] Hr] Hu.
      split; [exact (Hsrc _ _ _ Hc Hu)|]. split.
      + exact (findJob_same_update _ _ _ _ _ Hrow Hu).
      + rewrite (sourcesWith_updateJob _ _ _ _ _ _ Hu). exact Hr.
    - apply triple_ret. intros d [[Hrow [_ [_ [_ Hc]]]] Hr]. auto. }
  intros _.
  eapply triple_weaken_E; [apply triple_exec|auto].
  intros d d' [Hc [Hd Hr]] Hu. exists (fst counts), (snd counts).
  split; [destruct counts; exact (Hsrc _ _ _ Hc Hu)|].
  rewrite (sourcesWith_updateJob _ _ _ _ _ _ Hu). rewrite <- Hr.
  exact (findJob_same_update _ _ _ _ _ Hd Hu).
Qed.

End FetchCounts.

Lemma afterBatch_counters job state fetched okc rem :
  exists st counters,
    job_state (afterBatch job (nextFetchState state fetched okc rem)) = Some st
    /\ fetch st = Some counters
    /\ fetchedCount counters = fetched /\ okCount counters = okc.
Proof.
  unfold afterBatch, nextFetchState, fetchCounters.
  destruct (4 <=? okc)%Z; [|destruct (0 <? rem); [|destruct (2 <=? okc)%Z]];
    cbn; eexists; eexists; repeat split.
Qed.

(** [C4]. After a batch that returns, the job carries the fetch counters
    and the next state is decided from the count [okc] of ok sources and
    the number [rem] of sources still unfetched: with [okc >= 4],
    SYNTHESIZE with the deep-research strategy; otherwise with [rem > 0],
    FETCH again with the cursor at the fetched count; otherwise with
    [okc >= 2], SYNTHESIZE and the job marked partial; otherwise SYNTHESIZE
    with the map-reduce strategy and the job marked partial. In the first
    two cases the status is left alone. The count [okc] is the running
    count: where source rows have pairwise distinct identifiers, it is the
    count of the state before plus the number of sources of the job that
    the batch has classified ok, and the fetched count has grown by the
    number of sources of the job that are no longer unfetched. *)
Theorem fetch_decides_next_state :
  forall env jobId maxDuration w w' job,
    findJob (db w) jobId = Some job ->
    fetchAndExtractBatch env jobId maxDuration w = (Returned tt, w') ->
    exists row st counters,
      findJob (db w') jobId = Some row
      /\ job_state row = Some st
      /\ fetch st = Some counters
      /\ countsFrom (fst (priorCounts (fromJson (job_state job))))
           (snd (priorCounts (fromJson (job_state job))))
           (fetchedCount counters, okCount counters)
      /\ (NoDup (map src_id (deepDiveSource (db w))) ->
          (okCount counters - snd (priorCounts (fromJson (job_state job)))
           = Z.of_nat (List.length (sourcesWith (db w') jobId ok))
             - Z.of_nat (List.length (sourcesWith (db w) jobId ok))
           /\ fetchedCount counters
              - fst (priorCounts (fromJson (job_state job)))
              = Z.of_nat (List.length (sourcesWith (db w) jobId unknown))
                - Z.of_nat (List.length (sourcesWith (db w') jobId unknown)))%Z)
      /\ let okc := okCount counters in
         let rem := List.length (sourcesWith (db w') jobId unknown) in
         ((4 <= okc)%Z ->
            stage st = Some SYNTHESIZE
            /\ option_map strategy (synthesis st) = Some deep_research
            /\ job_status row = job_status job)
         /\ ((okc < 4)%Z -> 0 < rem ->
            stage st = Some FETCH
            /\ nextIndex counters = fetchedCount counters
            /\ job_status row = job_status job)
         /\ ((okc < 4)%Z -> rem = 0 -> (2 <= okc)%Z ->
            stage st = Some SYNTHESIZE
            /\ option_map strategy (synthesis st) = Some deep_research
            /\ job_status row = partial)
         /\ ((okc < 2)%Z -> rem = 0 ->
            stage st = Some SYNTHESIZE
            /\ option_map strategy (synthesis st) = Some map_reduce
            /\ job_status row = partial).
Proof.
  intros env jobId maxDuration w w' job Hjob Hrun.
  pose proof (fetch_batch_result env jobId maxDuration job w Hjob) as H.
  unfold wp in H. rewrite Hrun in H. destruct H as [fetched [okc [Hc H]]].
  assert (Hcount :
    NoDup (map src_id (deepDiveSource (db w))) ->
    (okc - snd (priorCounts (fromJson (job_state job)))
     = Z.of_nat (List.length (sourcesWith (db w') jobId ok))
       - Z.of_nat (List.length (sourcesWith (db w) jobId ok))
     /\ fetched - fst (priorCounts (fromJson (job_state job)))
        = Z.of_nat (List.length (sourcesWith (db w) jobId unknown))
          - Z.of_nat (List.length (sourcesWith (db w') jobId unknown)))%Z).
  { intros Hnd.
    pose proof (fetch_counted env jobId (db w) job Hnd Hjob maxDuration w
                  eq_refl) as H'.
    unfold wp in H'. rewrite Hrun in H'.
    destruct H' as [fetched' [okc' [[Hok Hfe] Hrow']]].
    rewrite H in Hrow'.
    destruct (afterBatch_counters job (fromJson (job_state job)) fetched okc
                (List.length (sourcesWith (db w') jobId unknown)))
      as [st1 [c1 [Hs1 [Hf1 [Hfc1 Hoc1]]]]].
    destruct (afterBatch_counters job (fromJson (job_state job)) fetched' okc'
                (List.length (sourcesWith (db w') jobId unknown)))
      as [st2 [c2 [Hs2 [Hf2 [Hfc2 Hoc2]]]]].
    assert (E : st1 = st2) by congruence. subst st2.
    assert (E : c1 = c2) by congruence. subst c2.
    cbn [fst snd] in Hok, Hfe. split; [rewrite <- Hoc1, Hoc2|
                                        rewrite <- Hfc1, Hfc2]; assumption. }
  set (rem := List.length (sourcesWith (db w') jobId unknown)) in *.
  unfold afterBatch, nextFetchState in H.
  destruct (4 <=? okc)%Z eqn:H4; simpl in H.
  { apply Z.leb_le in H4.
    eexists; eexists; eexists.
    split; [exact H|]. split; [reflexivity|]. split; [reflexivity|].
    split; [exact Hc|]. split; [exact Hcount|].
    simpl. repeat split; auto; lia. }
  apply Z.leb_gt in H4.
  destruct (0 <? rem) eqn:Hrem; simpl in H.
  { apply Nat.ltb_lt in Hrem.
    eexists; eexists; eexists.
    split; [exact H|]. split; [reflexivity|]. split; [reflexivity|].
    split; [exact Hc|]. split; [exact Hcount|].
    simpl. repeat split; auto; lia. }
  apply Nat.ltb_ge in Hrem.
  destruct (2 <=? okc)%Z eqn:H2; simpl in H.
  { apply Z.leb_le in H2.
    eexists; eexists; eexists.
    split; [exact H|]. split; [reflexivity|]. split; [reflexivity|].
    split; [exact Hc|]. split; [exact Hcount|].
    simpl. repeat split; auto; lia. }
  apply Z.leb_gt in H2.
  eexists; eexists; eexists.
  split; [exact H|]. split; [reflexivity|]. split; [reflexivity|].
  split; [exact Hc|]. split; [exact Hcount|].
  simpl. repeat split; auto; lia.
Qed.

(** A job at FETCH whose four sources are all readable: the four are
    recorded ok, the counter reads four and the job moves to SYNTHESIZE
    with the deep-research strategy, its status left alone. *)
Lemma fetch_decides_next_state_witness :
  exists row st counters,
    findJob (db (snd (fetchAndExtractBatch pageEnv 1 50000 fourSourceWorld))) 1
      = Some row
    /\ job_state row = Some st
    /\ fetch st = Some counters
    /\ okCount counters = 4%Z
    /\ List.length
         (sourcesWith
            (db (snd (fetchAndExtractBatch pageEnv 1 50000 fourSourceWorld)))
            1 ok) = 4
    /\ stage st = Some SYNTHESIZE
    /\ option_map strategy (synthesis st) = Some deep_research
    /\ job_status row = running.
Proof.
  assert (Hjob : findJob (db fourSourceWorld) 1 = Some fetchingJob)
    by (vm_compute; reflexivity).
  assert (Hrun : fetchAndExtractBatch pageEnv 1 50000 fourSourceWorld
                 = (Returned tt,
                    snd (fetchAndExtractBatch pageEnv 1 50000
                           fourSourceWorld)))
    by (vm_compute; reflexivity).
  assert (Hnd : NoDup (map src_id (deepDiveSource (db fourSourceWorld)))).
  { change (NoDup [11%N; 12%N; 13%N; 14%N]).
    repeat (apply NoDup_cons; [simpl; intuition discriminate|]).
    apply NoDup_nil. }
  assert (Hok : List.length
                  (sourcesWith
                     (db (snd (fetchAndExtractBatch pageEnv 1 50000
                                 fourSourceWorld))) 1 ok) = 4)
    by (vm_compute; reflexivity).
  destruct (fetch_decides_next_state pageEnv 1 50000 fourSourceWorld
              (snd (fetchAndExtractBatch pageEnv 1 50000 fourSourceWorld))
              fetchingJob Hjob Hrun)
    as [row [st [counters [Hrow [Hst [Hc [_ [Hcount [Hfirst _]]]]]]]]].
  destruct (Hcount Hnd) as [Hokc _].
  rewrite Hok in Hokc.
  assert (H0 : List.length (sourcesWith (db fourSourceWorld) 1 ok) = 0)
    by (vm_compute; reflexivity).
  rewrite H0 in Hokc.
  assert (Hp : snd (priorCounts (fromJson (job_state fetchingJob))) = 0%Z)
    by (vm_compute; reflexivity).
  rewrite Hp in Hokc.
  assert (H4 : okCount counters = 4%Z) by lia.
  destruct (Hfirst ltac:(lia)) as [Hs [Hstrat Hstatus]].
  exists row, st, counters.
  split; [exact Hrow|]. split; [exact Hst|]. split; [exact Hc|].
  split; [exact H4|]. split; [exact Hok|]. split; [exact Hs|].
  split; [exact Hstrat|]. rewrite Hstatus. reflexivity.
Defined.
(* ===================================================================== *)
(** * The next send time                                                  *)
(* ===================================================================== *)

Lemma insertDay_In x y l : In x (insertDay y l) <-> x = y \/ In x l.
Proof.
  induction l as [|z l IH]; simpl; [intuition|].
  destruct (str_leb _ _); simpl; [intuition|]. rewrite IH. intuition.
Qed.

Lemma sortDays_In x l : In x (sortDays l) <-> In x l.
Proof.
  induction l as [|y l IH]; simpl; [tauto|].
  rewrite insertDay_In, IH. intuition.
Qed.


Lemma dayMapAt_number d n :
  dayMapAt d = Some (DayNumber n) <-> DAY_MAP d = Some n.
Proof.
  unfold dayMapAt. destruct (DAY_MAP d) as [m|].
  - split; intros H; congruence.
  - destruct (strIn d objectPrototypeKeys); split; intros H; discriminate.
Qed.

Lemma dayMapAt_value d v : dayMapAt d = Some v -> dayValue v.
Proof.
  unfold dayMapAt. destruct (DAY_MAP d) as [m|] eqn:E.
  - intros H. inversion H. exact (DAY_MAP_range _ _ E).
  - destruct (strIn d objectPrototypeKeys) eqn:Hin; [|discriminate].
    intros H. inversion H. apply strIn_In. exact Hin.
Qed.

Lemma targetDaysOf_In v days :
  In v (targetDaysOf days) <-> exists d, In d days /\ dayMapAt d = Some v.
Proof.
  unfold targetDaysOf. rewrite sortDays_In, in_flat_map. split.
  - intros [d [Hd Hn]]. exists d. split; [exact Hd|].
    destruct (dayMapAt d); [|destruct Hn].
    destruct Hn as [Hn|[]]. congruence.
  - intros [d [Hd Hn]]. exists d. split; [exact Hd|]. rewrite Hn. left.
    reflexivity.
Qed.

Lemma includesDay_In T day :
  includesDay T day = true <-> In (DayNumber day) T.
Proof.
  unfold includesDay. rewrite existsb_exists. split.
  - intros [v [Hv E]]. destruct v as [n|k]; [|discriminate].
    apply Z.eqb_eq in E. subst. exact Hv.
  - intros H. exists (DayNumber day). split; [exact H|apply Z.eqb_refl].
Qed.

(** In the order of [sort] a day number comes before whatever is
    inherited: a digit comes before [f] and before an opening bracket. *)
Lemma number_first n key :
  (0 <= n <= 6)%Z -> In key objectPrototypeKeys ->
  str_leb (showDayValue (DayNumber n)) (showDayValue (Inherited key)) = true
  /\ str_leb (showDayValue (Inherited key)) (showDayValue (DayNumber n))
     = false.
Proof.
  intros Hn Hk.
  assert (Hc : (n = 0 \/ n = 1 \/ n = 2 \/ n = 3 \/ n = 4 \/ n = 5
                \/ n = 6)%Z) by lia.
  unfold objectPrototypeKeys in Hk. cbn [map In] in Hk.
  repeat (destruct Hk as [Hk|Hk];
          [subst key;
           repeat (destruct Hc as [Hc|Hc];
                   [subst n; vm_compute; split; reflexivity|]);
           subst n; vm_compute; split; reflexivity|]).
  destruct Hk.
Qed.

(** The sorted list starts with a day number as soon as it holds one. *)
Lemma sortDays_head l n :
  Forall dayValue l -> In (DayNumber n) l ->
  exists m rest, sortDays l = DayNumber m :: rest.
Proof.
  induction l as [|x l IH]; intros Hall Hin; [destruct Hin|].
  inversion Hall as [|? ? Hx Hl]; subst.
  cbn [sortDays fold_right]. fold (sortDays l).
  destruct (sortDays l) as [|y s] eqn:Es.
  - destruct Hin as [E|Hin].
    + subst x. cbn. eauto.
    + exfalso. apply sortDays_In in Hin. rewrite Es in Hin. destruct Hin.
  - cbn [insertDay].
    assert (Hy : dayValue y).
    { assert (In y l) by (apply sortDays_In; rewrite Es; left; reflexivity).
      rewrite Forall_forall in Hl. auto. }
    destruct x as [a|k].
    + destruct (str_leb _ _) eqn:E; [eauto|].
      destruct y as [b|k']; [eauto|].
      destruct (number_first a k' Hx Hy) as [H1 _]. congruence.
    + destruct Hin as [E|Hin]; [discriminate|].
      destruct (IH Hl Hin) as [m [rest E]]. inversion E; subst y s.
      destruct (number_first m k Hy Hx) as [_ H2]. rewrite H2. eauto.
Qed.

Lemma targetDaysOf_values days : Forall dayValue (targetDaysOf days).
Proof.
  apply Forall_forall. intros v Hv. apply targetDaysOf_In in Hv.
  destruct Hv as [d [_ Hd]]. exact (dayMapAt_value _ _ Hd).
Qed.

Lemma targetDaysOf_head days n :
  In (DayNumber n) (targetDaysOf days) ->
  exists m rest, targetDaysOf days = DayNumber m :: rest.
Proof.
  intros Hin. unfold targetDaysOf in *.
  apply (sortDays_head _ n).
  - apply Forall_forall. intros v Hv. apply in_flat_map in Hv.
    destruct Hv as [d [_ Hd]]. destruct (dayMapAt d) eqn:E; [|destruct Hd].
    destruct Hd as [Hd|[]]. subst. exact (dayMapAt_value _ _ E).
  - exact (proj1 (sortDays_In _ _) Hin).
Qed.

(** The first offset of the week the test accepts, with none before it. *)
Lemma find_week (p : Z -> bool) :
  match find p [0; 1; 2; 3; 4; 5; 6]%Z with
  | Some x => (0 <= x <= 6)%Z /\ p x = true
              /\ forall k, (0 <= k < x)%Z -> p k = false
  | None => forall k, (0 <= k <= 6)%Z -> p k = false
  end.
Proof.
  assert (Hk : forall k : Z, (0 <= k <= 6 ->
                 k = 0 \/ k = 1 \/ k = 2 \/ k = 3 \/ k = 4 \/ k = 5 \/ k = 6)%Z)
    by (intros; lia).
  cbn [find].
  destruct (p 0%Z) eqn:E0.
  { split; [lia|]. split; [exact E0|]. intros k Hr. lia. }
  destruct (p 1%Z) eqn:E1.
  { split; [lia|]. split; [exact E1|]. intros k Hr.
    destruct (Hk k ltac:(lia)) as [H|[H|[H|[H|[H|[H|H]]]]]]; subst;
      try lia; assumption. }
  destruct (p 2%Z) eqn:E2.
  { split; [lia|]. split; [exact E2|]. intros k Hr.
    destruct (Hk k ltac:(lia)) as [H|[H|[H|[H|[H|[H|H]]]]]]; subst;
      try lia; assumption. }
  destruct (p 3%Z) eqn:E3.
  { split; [lia|]. split; [exact E3|]. intros k Hr.
    destruct (Hk k ltac:(lia)) as [H|[H|[H|[H|[H|[H|H]]]]]]; subst;
      try lia; assumption. }
  destruct (p 4%Z) eqn:E4.
  { split; [lia|]. split; [exact E4|]. intros k Hr.
    destruct (Hk k ltac:(lia)) as [H|[H|[H|[H|[H|[H|H]]]]]]; subst;
      try lia; assumption. }
  destruct (p 5%Z) eqn:E5.
  { split; [lia|]. split; [exact E5|]. intros k Hr.
    destruct (Hk k ltac:(lia)) as [H|[H|[H|[H|[H|[H|H]]]]]]; subst;
      try lia; assumption. }
  destruct (p 6%Z) eqn:E6.
  { split; [lia|]. split; [exact E6|]. intros k Hr.
    destruct (Hk k ltac:(lia)) as [H|[H|[H|[H|[H|[H|H]]]]]]; subst;
      try lia; assumption. }
  intros k Hr.
  destruct (Hk k Hr) as [H|[H|[H|[H|[H|[H|H]]]]]]; subst; assumption.
Qed.

(** [X6]. For every reading of the local calendar and every time of day,
    [computeNextSend] gives a moment at that time of day, later than the
    current one and no more than seven days ahead. When some day string is
    a day code, the moment falls on a requested weekday and is the first
    such occurrence: any requested weekday before it is today with the
    time of day already reached. When no day string is a day code, it is
    tomorrow, unless one of the strings names a property that [DAY_MAP]
    inherits from [Object.prototype] ([constructor], [toString], ...):
    such a string passes the filter, and the moment is then seven days
    ahead. *)
Theorem next_send_is_next :
  forall current days hour minute,
    clockTime hour minute ->
    (0 <= lt_minutes current < 1440)%Z ->
    let next := computeNextSend current days hour minute in
    lt_minutes next = (hour * 60 + minute)%Z
    /\ laterThan next current
    /\ (lt_day next <= lt_day current + 7)%Z
    /\ ((exists d, In d days /\ DAY_MAP d <> None) ->
        isTargetDay days (lt_day next)
        /\ forall day, (lt_day current <= day < lt_day next)%Z ->
             isTargetDay days day ->
             day = lt_day current
             /\ (hour * 60 + minute <= lt_minutes current)%Z)
    /\ ((forall d, In d days -> DAY_MAP d = None) ->
        (forall d, In d days -> ~ In d objectPrototypeKeys) ->
        lt_day next = (lt_day current + 1)%Z)
    /\ ((forall d, In d days -> DAY_MAP d = None) ->
        (exists d, In d days /\ In d objectPrototypeKeys) ->
        lt_day next = (lt_day current + 7)%Z).
Proof.
  intros current days hour minute _ _ next.
  set (T := targetDaysOf days).
  set (cd := utcDay (lt_day current)).
  set (tm := (hour * 60 + minute)%Z).
  set (p := sendsAt T cd (lt_minutes current) tm).
  assert (Hcd : (0 <= cd < 7)%Z) by apply utcDay_range.
  assert (Hnum : forall n, In (DayNumber n) T
                           <-> exists d, In d days /\ DAY_MAP d = Some n).
  { intros n. unfold T. rewrite targetDaysOf_In. split.
    - intros [d [Hd H]]. exists d. split; [exact Hd|].
      apply dayMapAt_number. exact H.
    - intros [d [Hd H]]. exists d. split; [exact Hd|].
      apply dayMapAt_number. exact H. }
  assert (Htarget : forall day,
            isTargetDay days day <-> In (DayNumber (utcDay day)) T).
  { intros day. unfold isTargetDay. rewrite Hnum. tauto. }
  assert (Hshift : forall k, utcDay (lt_day current + k) = ((cd + k) mod 7)%Z)
    by (intros k; apply utcDay_shift).
  assert (Hp : forall k, p k = false -> In (DayNumber ((cd + k) mod 7)%Z) T ->
                 k = 0%Z /\ (tm <= lt_minutes current)%Z).
  { intros k Hk Hin. unfold p, sendsAt in Hk.
    apply includesDay_In in Hin. rewrite Hin in Hk. simpl in Hk.
    apply negb_false_iff in Hk. apply andb_prop in Hk.
    destruct Hk as [H1 H2]. apply Z.eqb_eq in H1. apply Z.leb_le in H2.
    auto. }
  assert (Hnone : (forall n, ~ In (DayNumber n) T) ->
                  forall k, p k = false).
  { intros Hno k. unfold p, sendsAt.
    destruct (includesDay T ((cd + k) mod 7)) eqn:E; [|reflexivity].
    apply includesDay_In in E. destruct (Hno _ E). }
  assert (Hnext :
    (T = [] /\ next = {| lt_day := lt_day current + 1; lt_minutes := tm |})
    \/ (T <> [] /\ (forall n, ~ In (DayNumber n) T)
        /\ next = {| lt_day := lt_day current + 7; lt_minutes := tm |})
    \/ (exists offset,
          next = {| lt_day := lt_day current + offset; lt_minutes := tm |}
          /\ (0 <= offset <= 7)%Z
          /\ (offset = 0%Z -> (lt_minutes current < tm)%Z)
          /\ In (DayNumber ((cd + offset) mod 7)%Z) T
          /\ forall k, (0 <= k < offset)%Z -> p k = false)).
  { unfold next, computeNextSend. fold T. fold cd. fold tm. fold p.
    destruct T as [|first T'] eqn:ET; [left; auto|]. right.
    pose proof (find_week p) as Hf.
    destruct (find p [0; 1; 2; 3; 4; 5; 6]%Z) as [offset|].
    - right. destruct Hf as [Hr [Hpo Hbefore]]. exists offset.
      split; [reflexivity|]. split; [lia|].
      unfold p, sendsAt in Hpo. apply andb_prop in Hpo.
      destruct Hpo as [H1 H2]. split; [|split].
      + intros H0. subst offset. simpl in H2. apply negb_true_iff in H2.
        apply Z.leb_gt in H2. lia.
      + apply includesDay_In. exact H1.
      + exact Hbefore.
    - destruct first as [first|key].
      + right.
        assert (Hfirst : (0 <= first <= 6)%Z).
        { assert (Hin : In (DayNumber first) (targetDaysOf days))
            by (fold T; rewrite ET; left; reflexivity).
          apply targetDaysOf_In in Hin. destruct Hin as [d [_ Hd]].
          exact (dayMapAt_value _ _ Hd). }
        set (du := ((first - cd + 7) mod 7)%Z).
        assert (Hdu : (0 <= du < 7)%Z) by (apply Z.mod_pos_bound; lia).
        exists (if (du =? 0)%Z then 7%Z else du).
        split; [reflexivity|].
        assert (Hmod : ((cd + (if (du =? 0)%Z then 7 else du)) mod 7
                        = first)%Z).
        { unfold du in *. destruct (_ =? 0)%Z eqn:E.
          - apply Z.eqb_eq in E. Z.div_mod_to_equations. lia.
          - apply Z.eqb_neq in E. Z.div_mod_to_equations. lia. }
        split; [destruct (du =? 0)%Z; lia|]. split; [|split].
        * destruct (du =? 0)%Z eqn:E; [lia|]. apply Z.eqb_neq in E. lia.
        * rewrite Hmod. left. reflexivity.
        * intros k Hk. apply Hf. destruct (du =? 0)%Z; lia.
      + left. split; [discriminate|]. split; [|reflexivity].
        intros n Hin.
        assert (Hin' : In (DayNumber n) (targetDaysOf days))
          by (fold T; rewrite ET; exact Hin).
        destruct (targetDaysOf_head days n Hin') as [m [rest E]].
        fold T in E. rewrite ET in E. discriminate. }
  destruct Hnext as [[HT Hn]|[[HT [Hno Hn]]
                              |[offset [Hn [Hr [H0 [Hin Hbefore]]]]]]].
  - rewrite Hn. cbn [lt_day lt_minutes].
    split; [reflexivity|]. split; [left; cbn; lia|]. split; [lia|].
    split; [|split; [reflexivity|]].
    + intros [d [Hd Hsome]]. exfalso.
      destruct (DAY_MAP d) as [n|] eqn:En; [|congruence].
      assert (Hin : In (DayNumber n) T) by (apply Hnum; eauto).
      rewrite HT in Hin. destruct Hin.
    + intros Hown [d [Hd Hk]]. exfalso.
      assert (Hin : In (Inherited d) T).
      { apply targetDaysOf_In. exists d. split; [exact Hd|].
        unfold dayMapAt. rewrite (Hown d Hd).
        apply strIn_In in Hk. rewrite Hk. reflexivity. }
      rewrite HT in Hin. destruct Hin.
  - rewrite Hn. cbn [lt_day lt_minutes].
    split; [reflexivity|]. split; [left; cbn; lia|]. split; [lia|].
    split; [|split; [|reflexivity]].
    + intros [d [Hd Hsome]]. exfalso.
      destruct (DAY_MAP d) as [n|] eqn:En; [|congruence].
      apply (Hno n). apply Hnum. eauto.
    + intros Hown Hout. exfalso.
      destruct T as [|v T'] eqn:ET; [congruence|].
      assert (Hv : In v (targetDaysOf days))
        by (fold T; rewrite ET; left; reflexivity).
      apply targetDaysOf_In in Hv. destruct Hv as [d [Hd Hv]].
      unfold dayMapAt in Hv. rewrite (Hown d Hd) in Hv.
      destruct (strIn d objectPrototypeKeys) eqn:E; [|discriminate].
      apply strIn_In in E. exact (Hout d Hd E).
  - rewrite Hn. cbn [lt_day lt_minutes].
    assert (Hown : ~ (forall d, In d days -> DAY_MAP d = None)).
    { intros Hown. apply Hnum in Hin. destruct Hin as [d [Hd Hs]].
      rewrite (Hown d Hd) in Hs. discriminate. }
    split; [reflexivity|]. split; [|split; [lia|split; [|split]]].
    + unfold laterThan. cbn [lt_day lt_minutes].
      destruct (Z.eq_dec offset 0) as [E|E];
        [right; split; [lia|auto]|left; lia].
    + intros _. split.
      * apply Htarget. rewrite Hshift. exact Hin.
      * intros day Hday Ht. apply Htarget in Ht.
        replace day with (lt_day current + (day - lt_day current))%Z in Ht
          by lia.
        rewrite Hshift in Ht.
        destruct (Hp _ (Hbefore (day - lt_day current)%Z ltac:(lia)) Ht)
          as [Hk Hle].
        split; [lia|exact Hle].
    + intros H. destruct (Hown H).
    + intros H. destruct (Hown H).
Qed.

Lemma next_send_is_next_witness :
  clockTime 9 30
  /\ (0 <= 600 < 1440)%Z
  /\ computeNextSend {| lt_day := 0; lt_minutes := 600 |}
       [lit "MO"; lit "TH"] 9 30
     = {| lt_day := 4; lt_minutes := 570 |}
  /\ laterThan
       (computeNextSend {| lt_day := 0; lt_minutes := 600 |}
          [lit "MO"; lit "TH"] 9 30)
       {| lt_day := 0; lt_minutes := 600 |}
  /\ computeNextSend {| lt_day := 0; lt_minutes := 600 |}
       [lit "constructor"] 6 0
     = {| lt_day := 7; lt_minutes := 360 |}.
Proof.
  assert (Hc : clockTime 9 30) by (unfold clockTime; lia).
  assert (Hm : (0 <= 600 < 1440)%Z) by lia.
  split; [exact Hc|]. split; [exact Hm|].
  split; [vm_compute; reflexivity|].
  split; [|vm_compute; reflexivity].
  exact (proj1 (proj2 (next_send_is_next
                         {| lt_day := 0; lt_minutes := 600 |}
                         [lit "MO"; lit "TH"] 9 30 Hc Hm))).
Defined.
